(* ===== verification/_CoqProject ===== *)
-Q . S2P
Prelude.v
Errors.v
WrappingIntegers.v
ByteStream.v
StreamReassembler.v
ReassemblerSpec.v
Buffer.v
Parser.v
Checksum.v
TCPHeader.v
TCPSegment.v
SegmentSpec.v
TCPReceiver.v
RetransmissionTimer.v
TCPSender.v
SenderSpec.v
Network.v
Progress.v
Wire.v
WireProgress.v
TCPState.v
FileDescriptor.v
Address.v
EventLoop.v
EventLoopSpec.v
Socket.v
Tun.v
Webget.v
WebgetFailures.v
Environment.v
Random.v
Doctests.v
Handles.v
Printing.v
TestSupport.v
WrappingTests.v
ByteStreamTests.v
ReassemblerTests.v
ReassemblerTestsPass.v
ReceiverTests.v
SenderTests.v
