(* ===== verification/Prelude.v ===== *)
(** * Sponge: a verification of a TCP library

    Sponge (libsponge/) is a user-space TCP in C++: a bounded byte stream, a reassembler of
    substrings, 32-bit sequence numbers, a TCP receiver and a TCP sender, the wire format of
    segments, and utilities (buffers, parsers, checksums, file descriptors, sockets, an event
    loop).  The application webget (apps/) fetches a page over a TCP socket of the kernel.
    This library translates those parts into executable Rocq functions and proves what they do.

    ** How the program fits together

    Bytes that arrive as a datagram are parsed by [TCPSegment::parse] (over [NetParser],
    [Buffer] and [InternetChecksum]) into a header and a payload.  [TCPReceiver] unwraps the
    sequence number, hands the payload to [StreamReassembler], which writes the contiguous
    bytes into a [ByteStream], and computes the acknowledgment and the window.  [TCPSender]
    cuts its own [ByteStream] into segments, keeps the unacknowledged ones in a queue with a
    [RetransmissionTimer], and retransmits.  [TCPState] summarizes both ends in words.
    [FileDescriptor] is a reference-counted handle; [Socket] and [TunTapFD] derive from it,
    and [EventLoop] polls the descriptors of its rules and runs their callbacks.

    ** Files

    - [Prelude] (this file): machine integers as [Z] with the conversions [to_u64] etc.,
      bytes, the type [res] of outcomes (a value, an exception, undefined behaviour, fuel
      exhausted), counting and while loops with their invariant rules, container access with
      its undefined cases, and [Machine]: a component as a state machine with an invariant,
      the caller's obligations and the law that an operation whose obligation is met returns
      and keeps the invariant.  [runs] are the sequences of operations of such a machine.
    - [Errors]: tagged_error of util/util, the exceptions that carry an error number.
    - [WrappingIntegers]: wrapping_integers.hh/.cc.  [wrap], [unwrap] and the operators.
    - [ByteStream]: byte_stream.hh/.cc, the record of its members and every method.
    - [StreamReassembler]: stream_reassembler.hh/.cc, [push_substring] with its loops over
      two deques.  [ReassemblerSpec] states the contract (module [Spec]: an assembled prefix,
      a finite map of held-back positions, an announced end) and proves the refinement
      (module [Reassembly]).
    - [Buffer], [Parser], [Checksum]: util/buffer, util/parser, and InternetChecksum of
      util/util.
    - [TCPHeader], [TCPSegment]: tcp_helpers/tcp_header and tcp_segment.
    - [SegmentSpec]: the numbering of a stream by sequence numbers that both ends share
      ([carries]).
    - [TCPReceiver]: tcp_receiver.hh/.cc and its theorems.
    - [RetransmissionTimer], [TCPSender]: retransmission_timer and tcp_sender, with the
      constants of tcp_config.hh; [SenderSpec] has the sender's invariant and theorems.
    - [Network]: a sender and a receiver joined by a network that loses, repeats and
      reorders; [Progress]: rounds of retransmission in such a network; [Wire]: the same two
      ends when segments travel as bytes, through [serialize] and [parse]; [WireProgress]: rounds
      of retransmission and acknowledgment over datagrams.
    - [TCPState]: tcp_helpers/tcp_state.
    - [FileDescriptor]: util/file_descriptor, SystemCall and unix_error of util/util, over a heap of
      shared objects and a kernel that is a parameter (class [Kernel]).
    - [Address]: util/address, with name resolution as a parameter (class [Resolver]).
    - [EventLoop]: util/eventloop over [FileDescriptor]; poll(2) is a parameter (class
      [PollKernel]), the closures of the rules are names whose meaning is a parameter;
      [EventLoopSpec] says which rules one call cancels, polls and serves, and in which order.
    - [Socket], [Tun]: util/socket and util/tun over [FileDescriptor]; the calls of the kernel
      are parameters (classes [SocketKernel], [TunKernel]).
    - [Webget]: apps/webget.cc over [Socket] and [Address], with both output streams (the
      destructors report on the same standard error as the program) and the death by SIGPIPE;
      [WebgetFailures]: the same program on a kernel that fails.
    - [Environment]: timestamp_ms of util/util over a clock that is a parameter (class
      [SteadyClock]), and FdAdapterConfig of tcp_config.hh; [Random]: get_random_generator of
      util/util with the standard's seed_seq and mt19937, over a device that is a parameter.
    - [Doctests]: the example programs of doctests/, with a small executable host to run them
      on; [Handles]: sockets in scopes, on any kernel.
    - [Printing]: output streams with their formatting state, the textual forms of a header
      (tcp_header.cc) and of a sequence number, and hexdump of util/util.
    - [TestSupport], [WrappingTests], [ByteStreamTests], [ReassemblerTests], [ReceiverTests],
      [SenderTests]: the test programs of tests/ for these components with their harnesses.  Fixed
      programs are run; [ReassemblerTestsPass] and the other files prove the ones that loop or draw
      random numbers, with the shuffle and the distributions of the C++ library as parameters
      (classes [Shuffle], [UniformInt]).

    Each C++ class is a [Record] of its members and each method one definition that takes the
    object and returns the new one, in [res] when it can throw, index outside a container or
    loop.  Where two handles share an object ([FileDescriptor]) the object lives in a heap.

    ** What the theorems show

    - End to end ([Network.end_to_end_delivery]): whatever the network does and whatever
      acknowledgments reach the sender, no operation of either end faults, the reader gets a
      prefix of what the writer wrote, and the end of the stream is seen only after all of it.
      [Progress.eventual_delivery]: from every state such a network can reach with genuine
      acknowledgments, rounds in which one retransmission and one acknowledgment get through
      deliver everything, in a number of rounds bounded by the bytes written.
      [Wire.wire_refines_network]: serializing, the checksum and parsing change nothing of
      this, even when the network damages datagrams and feeds the sender arbitrary bytes.
      [WireProgress.wire_eventual_delivery]: delivery completes on the wire as well, when the
      segments and the acknowledgments of a round get through as bytes.
    - Reassembly: [push_substring] implements its contract, what it delivers is a prefix of
      the stream whose excerpts it is given and ends at the first position that no excerpt
      covered, and memory is bounded by the capacity.
    - Receiver: along every run no operation faults, what is delivered ends at the first byte
      that has not arrived, and acknowledgment, window and the wait for a SYN are as they should.
    - Sender: the outstanding segments are consecutive pieces of the stream; [fill_window]
      terminates, respects the window and sends all it may; [ack_received] and [tick] on
      every branch; the phase reported by [TCPState] never goes back.
    - Wire format: header and segment round trips, totality of parsing, well-typedness of
      what is parsed, the checksum against a mathematical definition.
    - Utilities: the byte stream is a FIFO, buffer lists, parser errors, timer, complete
      writes, reads, closing of file descriptors, IPv4 addresses; one call of the event loop
      returns or throws, never indexes outside its containers, cancels exactly the rules whose
      descriptors are at their end or closed, polls the others as their interest says and runs
      exactly the closures that the results ask for, in order.
    - Sockets and applications: adopting a descriptor is checked and does not leak, datagrams
      make a round trip, the name in a tun request cannot overflow, webget sends its request
      and prints the whole answer; when the kernel fails it ends with a message and releases
      its socket, or is killed by SIGPIPE while it sends; the documentation's socket programs end
      and release every object they made.
    - Tests: the repository's programs for sequence numbers, byte streams, the reassembler, the
      receiver and the sender pass on these definitions; the randomized ones of the reassembler
      for every draw and every shuffle.
    - Text: [hexdump] against a direct description of its layout; the text of a header
      determines it.
    - Where the code departs from what it means to do, a theorem says so: the window
      subtraction of [fill_window], a stray FIN at the receiver, the dropped result of the
      header parser, [unwrap] past 2^63, [as_string], writing after [end_input],
      errors of poll(2), rules added by a callback, the leading blank and the fill character
      of [hexdump], the warning of webget, the checkpoints that the round-trip test draws, the descriptor that
      the socket-pair example loses.

    ** Bounds and fuel

    Loops that the source bounds by a size are [for_loop]s.  [while] loops take fuel, chosen
    as a function of the input that the theorems prove sufficient: the capacity for the
    assembling loop, the number of buffers for [remove_prefix], three tests of the loop
    condition for the 32-bit checksum, the buffered bytes plus four for the recursion of [fill_window],
    the buffer size plus one for [write], in the event loop any number above that of
    the rules, in webget any number above the length of the answer plus one (or, when the
    kernel may fail, above the number of bytes that arrive plus one), the length of the
    data plus one for [hexdump].  Theorems that need room in the sequence space say
    so: streams below 2^60 bytes, at most 2^31 sequence numbers in flight, segments that do
    not arrive half a sequence space late.

    ** What is not modelled

    Of the tests (tests/), the long random sessions recv_transmit, send_transmit, send_window,
    send_extra and send_equivalence_checker, which use the harnesses modelled here, tcp_parser,
    which reads capture files through libpcap, and the programs for a TCP connection, a network
    interface and IPv4, whose subject is not part of this repository.  The random initial
    sequence number is an argument of the sender's constructor, not a draw from [Random].
    Signals other than the SIGPIPE of webget's writes and output streams that refuse data are left
    out.
    The connection object that would join a sender and a receiver is not part of this
    repository; [Network] and [Wire] stand for its use. *)

From stdpp Require Export base numbers option list tactics strings.
From Stdlib Require Export ZArith Lia.
From Stdlib Require Import Strings.Byte.

#[global] Open Scope Z_scope.

(** ** Machine integers

    An integer of width [w] is a [Z]; the conversions below are the reductions
    C++ performs when a result is stored in a type of that width. *)

Definition to_u8 (z : Z) : Z := z mod 2 ^ 8.
Definition to_u16 (z : Z) : Z := z mod 2 ^ 16.
Definition to_u32 (z : Z) : Z := z mod 2 ^ 32.
Definition to_u64 (z : Z) : Z := z mod 2 ^ 64.
Definition to_i32 (z : Z) : Z := (z + 2 ^ 31) mod 2 ^ 32 - 2 ^ 31.
Definition to_i64 (z : Z) : Z := (z + 2 ^ 63) mod 2 ^ 64 - 2 ^ 63.

Definition is_u8 (z : Z) : Prop := 0 <= z < 2 ^ 8.
Definition is_u16 (z : Z) : Prop := 0 <= z < 2 ^ 16.
Definition is_u32 (z : Z) : Prop := 0 <= z < 2 ^ 32.
Definition is_u64 (z : Z) : Prop := 0 <= z < 2 ^ 64.

Ltac unfold_width :=
  unfold is_u8, is_u16, is_u32, is_u64, to_u8, to_u16, to_u32, to_u64, to_i32, to_i64 in *.

(** Linear arithmetic that also sees through the width conversions. *)
Ltac width_lia := unfold_width; Z.div_mod_to_equations; lia.

(** Discharges a closed side condition by evaluating it. *)
Ltac concrete :=
  first [ reflexivity | lia | vm_compute; reflexivity | vm_compute; split; congruence
        | vm_compute; congruence | apply bool_decide_unpack; vm_compute; exact I ].

Lemma to_u8_small z : is_u8 z -> to_u8 z = z.
Proof. apply Z.mod_small. Qed.
Lemma to_u16_small z : is_u16 z -> to_u16 z = z.
Proof. apply Z.mod_small. Qed.
Lemma to_u32_small z : is_u32 z -> to_u32 z = z.
Proof. apply Z.mod_small. Qed.
Lemma to_u64_small z : is_u64 z -> to_u64 z = z.
Proof. apply Z.mod_small. Qed.

Lemma is_u8_to_u8 z : is_u8 (to_u8 z).
Proof. apply Z.mod_pos_bound. lia. Qed.
Lemma is_u16_to_u16 z : is_u16 (to_u16 z).
Proof. apply Z.mod_pos_bound. lia. Qed.
Lemma is_u32_to_u32 z : is_u32 (to_u32 z).
Proof. apply Z.mod_pos_bound. lia. Qed.
Lemma is_u64_to_u64 z : is_u64 (to_u64 z).
Proof. apply Z.mod_pos_bound. lia. Qed.

Create HintDb width.
Create HintDb sponge.
#[export] Hint Resolve is_u8_to_u8 is_u16_to_u16 is_u32_to_u32 is_u64_to_u64 : width.
#[export] Hint Extern 2 (is_u8 _) => width_lia : width.
#[export] Hint Extern 2 (is_u16 _) => width_lia : width.
#[export] Hint Extern 2 (is_u32 _) => width_lia : width.
#[export] Hint Extern 2 (is_u64 _) => width_lia : width.

(** ** Bytes *)

Abbreviation byte := Corelib.Init.Byte.byte.
Abbreviation bytes := (list byte).

#[export] Instance byte_eq_dec : EqDecision byte := Byte.byte_eq_dec.

Definition byte_val (b : byte) : Z := Z.of_N (Byte.to_N b).
Definition byte_of (z : Z) : byte := default Byte.x00 (Byte.of_N (Z.to_N (to_u8 z))).

Lemma byte_val_range b : is_u8 (byte_val b).
Proof. unfold byte_val. pose proof (Byte.to_N_bounded b). width_lia. Qed.

Lemma byte_of_val b : byte_of (byte_val b) = b.
Proof. by destruct b. Qed.

Lemma byte_val_of z : byte_val (byte_of z) = to_u8 z.
Proof.
  unfold byte_of, byte_val. pose proof (is_u8_to_u8 z) as Hz.
  destruct (Byte.of_N (Z.to_N (to_u8 z))) as [b|] eqn:E; simpl.
  - apply Byte.to_of_N in E. rewrite E. unfold is_u8 in Hz. lia.
  - apply Byte.of_N_None_iff in E. unfold is_u8 in Hz. lia.
Qed.

Lemma byte_of_eq z b : to_u8 z = byte_val b -> byte_of z = b.
Proof.
  intros Hz. rewrite <- (byte_of_val b). unfold byte_of. rewrite Hz.
  by rewrite (to_u8_small (byte_val b)) by apply byte_val_range.
Qed.

#[export] Hint Resolve byte_val_range : width.

(** ** Outcomes of C++ code

    A call returns, throws, runs into undefined behaviour (an index outside a
    container, [front] of an empty one), or uses up the fuel of a loop. *)

Inductive fault : Set :=
  | Undefined
  | Exception (what : string)
  | OutOfFuel.

Inductive res (A : Type) : Type :=
  | Ok (a : A)
  | Err (f : fault).
Arguments Ok {A} a.
Arguments Err {A} f.

#[export] Instance fault_eq_dec : EqDecision fault.
Proof. solve_decision. Defined.

#[export] Instance res_ret : MRet res := @Ok.
#[export] Instance res_bind : MBind res := fun A B k m =>
  match m with Ok a => k a | Err f => Err f end.

Definition throw {A} (what : string) : res A := Err (Exception what).

(** A value or an exception, but no undefined behaviour and no lack of fuel. *)
Definition defined {A} (r : res A) : Prop := match r with Ok _ | Err (Exception _) => True | Err _ => False end.

Lemma bind_Ok {A B} (m : res A) (k : A -> res B) b :
  (m ≫= k) = Ok b <-> exists a, m = Ok a /\ k a = Ok b.
Proof.
  destruct m; simpl.
  - split; [eauto|]. by intros (? & [= ->] & ?).
  - split; [done|]. by intros (? & ? & ?).
Qed.

Lemma bind_ret_l {A B} (a : A) (k : A -> res B) : (Ok a ≫= k) = k a.
Proof. done. Qed.

Lemma bind_assoc {A B C} (m : res A) (k : A -> res B) (h : B -> res C) :
  ((m ≫= k) ≫= h) = (m ≫= (fun a => k a ≫= h)).
Proof. by destruct m. Qed.

(** Runs the monadic code of the goal or of a hypothesis as far as it goes. *)
Ltac res_simpl := cbn [mbind res_bind mret res_ret] in *.

(** ** Loops *)

(** [for (size_t i = k; n iterations; i++) body]. *)
Fixpoint for_from {S} (n : nat) (i : Z) (body : Z -> S -> res S) (s : S) : res S :=
  match n with
  | O => mret s
  | Datatypes.S n' => s' ← body i s; for_from n' (i + 1) body s'
  end.

(** [for (size_t i = 0; i < n; i++) body]. *)
Definition for_loop {S} (n : Z) (body : Z -> S -> res S) (s : S) : res S :=
  for_from (Z.to_nat n) 0 body s.

(** [while (cond) body], cut off after [fuel] tests of the condition. *)
Fixpoint while_loop {S} (fuel : nat) (cond : S -> res bool) (body : S -> res S) (s : S) : res S :=
  match fuel with
  | O => Err OutOfFuel
  | Datatypes.S fuel' =>
      c ← cond s;
      if (c : bool) then s' ← body s; while_loop fuel' cond body s' else mret s
  end.

Lemma for_from_inv {S} (I : Z -> S -> Prop) body n i s :
  I i s ->
  (forall j s, i <= j < i + Z.of_nat n -> I j s -> exists s', body j s = Ok s' /\ I (j + 1) s') ->
  exists s', for_from n i body s = Ok s' /\ I (i + Z.of_nat n) s'.
Proof.
  revert i s. induction n as [|n IH]; intros i s Hi Hbody; simpl.
  - exists s. split; [done|]. by rewrite Z.add_0_r.
  - destruct (Hbody i s) as (s1 & E1 & H1); [lia|done|]. rewrite E1. simpl.
    destruct (IH (i + 1) s1) as (s2 & E2 & H2); [done| |].
    + intros j s' Hj. apply Hbody. lia.
    + exists s2. split; [done|]. by replace (i + Z.of_nat (Datatypes.S n)) with (i + 1 + Z.of_nat n) by lia.
Qed.

(** The invariant rule for a counting loop. *)
Lemma for_loop_inv {S} (I : Z -> S -> Prop) body n s :
  0 <= n -> I 0 s ->
  (forall j s, 0 <= j < n -> I j s -> exists s', body j s = Ok s' /\ I (j + 1) s') ->
  exists s', for_loop n body s = Ok s' /\ I n s'.
Proof.
  intros Hn H0 Hb. destruct (for_from_inv I body (Z.to_nat n) 0 s) as (s' & E & H); [done| |].
  - intros j s1 Hj. apply Hb. lia.
  - exists s'. split; [done|]. by replace n with (0 + Z.of_nat (Z.to_nat n)) by lia.
Qed.

(** The total-correctness rule for a [while] loop: [measure] bounds the
    iterations, so any fuel above it is enough. *)
Lemma while_loop_total {S} (I : S -> Prop) (measure : S -> nat) cond body fuel s :
  I s -> (measure s < fuel)%nat ->
  (forall s, I s -> exists c, cond s = Ok c /\
     (c = true -> exists s', body s = Ok s' /\ I s' /\ (measure s' < measure s)%nat)) ->
  exists s', while_loop fuel cond body s = Ok s' /\ I s' /\ cond s' = Ok false.
Proof.
  revert s. induction fuel as [|fuel IH]; intros s HI Hm Hstep; [lia|]. simpl.
  destruct (Hstep s HI) as (c & Hc & Hbody). rewrite Hc. simpl. destruct c.
  - destruct (Hbody eq_refl) as (s1 & E1 & HI1 & Hm1). rewrite E1. simpl.
    apply IH; [done|lia|done].
  - by exists s.
Qed.

(** More fuel does not change a result. *)
Lemma while_loop_mono {S} fuel fuel' (cond : S -> res bool) body s s' :
  (fuel <= fuel')%nat -> while_loop fuel cond body s = Ok s' ->
  while_loop fuel' cond body s = Ok s'.
Proof.
  revert fuel' s. induction fuel as [|fuel IH]; intros fuel' s Hle; [done|].
  destruct fuel' as [|fuel']; [lia|]. simpl.
  destruct (cond s) as [[]|]; simpl; [|done|done].
  destruct (body s); simpl; [|done]. apply IH. lia.
Qed.

(** ** Containers *)

(** [size()] of a container, as a [size_t]. *)
Definition zlen {A} (l : list A) : Z := Z.of_nat (length l).

(** [operator[]] of a deque, with its undefined cases. *)
Definition at_ {A} (l : list A) (i : Z) : res A :=
  if decide (0 <= i) then
    match l !! Z.to_nat i with Some x => Ok x | None => Err Undefined end
  else Err Undefined.

(** [l[i] = x]. *)
Definition set_at {A} (l : list A) (i : Z) (x : A) : res (list A) :=
  if decide (0 <= i < zlen l) then Ok (<[Z.to_nat i := x]> l) else Err Undefined.

Definition front {A} (l : list A) : res A :=
  match l with x :: _ => Ok x | [] => Err Undefined end.

Definition pop_front {A} (l : list A) : res (list A) :=
  match l with _ :: l' => Ok l' | [] => Err Undefined end.

Definition push_back {A} (l : list A) (x : A) : list A := l ++ [x].

Lemma zlen_nonneg {A} (l : list A) : 0 <= zlen l.
Proof. unfold zlen. lia. Qed.
Lemma zlen_nil {A} : zlen (@nil A) = 0.
Proof. done. Qed.
Lemma zlen_cons {A} (x : A) l : zlen (x :: l) = 1 + zlen l.
Proof. unfold zlen. simpl. lia. Qed.
Lemma zlen_app {A} (l k : list A) : zlen (l ++ k) = zlen l + zlen k.
Proof. unfold zlen. rewrite length_app. lia. Qed.
Lemma zlen_take {A} (l : list A) n : 0 <= n -> zlen (take (Z.to_nat n) l) = Z.min n (zlen l).
Proof. unfold zlen. rewrite length_take. lia. Qed.
Lemma zlen_drop {A} (l : list A) n : 0 <= n -> zlen (drop (Z.to_nat n) l) = Z.max 0 (zlen l - n).
Proof. unfold zlen. rewrite length_drop. lia. Qed.
Lemma zlen_insert {A} (l : list A) i x : zlen (<[i:=x]> l) = zlen l.
Proof. unfold zlen. by rewrite length_insert. Qed.
Lemma zlen_replicate {A} n (x : A) : zlen (replicate n x) = Z.of_nat n.
Proof. unfold zlen. by rewrite length_replicate. Qed.
Lemma zlen_0_nil {A} (l : list A) : zlen l = 0 -> l = [].
Proof. by destruct l. Qed.

Lemma at_lookup {A} (l : list A) i x : 0 <= i -> l !! Z.to_nat i = Some x -> at_ l i = Ok x.
Proof. intros Hi Hx. unfold at_. rewrite decide_True by done. by rewrite Hx. Qed.

Lemma at_in_range {A} (l : list A) i :
  0 <= i < zlen l -> exists x, at_ l i = Ok x /\ l !! Z.to_nat i = Some x.
Proof.
  intros Hi. destruct (lookup_lt_is_Some_2 l (Z.to_nat i)) as [x Hx].
  - unfold zlen in Hi. lia.
  - exists x. split; [|done]. apply at_lookup; [lia|done].
Qed.

Lemma set_at_in_range {A} (l : list A) i x :
  0 <= i < zlen l -> set_at l i x = Ok (<[Z.to_nat i := x]> l).
Proof. intros Hi. unfold set_at. by rewrite decide_True. Qed.

Create Rewrite HintDb zlen.
#[export] Hint Rewrite @zlen_nil @zlen_cons @zlen_app @zlen_insert @zlen_replicate : zlen.

(** Arithmetic on sizes: pushes [zlen] through the list operations first. *)
Ltac zlen_nonneg_all :=
  repeat match goal with
  | |- context [zlen ?l] =>
      lazymatch goal with H : 0 <= zlen l |- _ => fail | _ => pose proof (zlen_nonneg l) end
  | _ : context [zlen ?l] |- _ =>
      lazymatch goal with H : 0 <= zlen l |- _ => fail | _ => pose proof (zlen_nonneg l) end
  end.
Ltac size_lia :=
  autorewrite with zlen in *; zlen_nonneg_all; try lia; width_lia.

(** ** Components as state machines

    What a stateful component offers: its operations, the invariant of its
    state, the caller's obligation for an operation, and the law that an
    operation whose obligation is met returns (it does not fault) and keeps the
    invariant. *)

Class Machine (S Op : Type) := {
  step : Op -> S -> res S;
  state_ok : S -> Prop;
  op_ok : Op -> S -> Prop;
  step_ok : forall op s, state_ok s -> op_ok op s -> exists s', step op s = Ok s' /\ state_ok s'
}.

Section Machine.
Context {S Op : Type} `{M : Machine S Op}.

(** Runs of a machine in which the caller meets every obligation. *)
Inductive runs : S -> list Op -> S -> Prop :=
  | runs_nil s : runs s [] s
  | runs_cons s op s' ops s'' :
      op_ok op s -> step op s = Ok s' -> runs s' ops s'' -> runs s (op :: ops) s''.

(** The invariant holds along every run. *)
Lemma runs_state_ok s ops s' : runs s ops s' -> state_ok s -> state_ok s'.
Proof.
  induction 1 as [|s op s' ops s'' Hop Hstep _ IH]; [done|]. intros Hs.
  destruct (step_ok op s Hs Hop) as (t & Et & Ht). apply IH. congruence.
Qed.

Lemma runs_app s ops s' ops' s'' : runs s ops s' -> runs s' ops' s'' -> runs s (ops ++ ops') s''.
Proof. induction 1; intros; simpl; eauto using runs. Qed.

(** A relation between the state and the history of a run that every step
    keeps holds along the run. *)
Lemma runs_ind_history (P : list Op -> S -> Prop) s0 ops s :
  state_ok s0 -> P [] s0 ->
  (forall h s op s', state_ok s -> P h s -> op_ok op s -> step op s = Ok s' -> P (h ++ [op]) s') ->
  runs s0 ops s -> P ops s.
Proof.
  intros Hs0 HP0 Hstep Hruns.
  enough (forall h, P h s0 -> P (h ++ ops) s) as H by exact (H [] HP0).
  clear HP0. induction Hruns as [s|s op s' ops s'' Hop Hs _ IH]; intros h Hh.
  - by rewrite app_nil_r.
  - rewrite cons_middle, app_assoc. apply IH.
    + destruct (step_ok op s Hs0 Hop) as (t & Et & Ht). congruence.
    + eapply Hstep; eauto.
Qed.
End Machine.
