(* ===== verification/Errors.v ===== *)
(** * Errors with a tag (tagged_error of libsponge/util/util.hh)

    [tagged_error] is a [std::system_error] that also knows what was attempted; its
    subclasses and the categories of errors are declared where the library uses them:
    [unix_error] with the system calls (FileDescriptor.v), the errors of name resolution in
    Address.v.  The texts of the error numbers come from the C library. *)

From S2P Require Import Prelude.

Module TaggedError.

(** [std::error_category]: its two virtual methods. *)
Record error_category : Type := mk_category { name : string; message : Z -> string }.

(** The [const char *] of a string ends at its first null character. *)
Fixpoint c_str (s : string) : string :=
  match s with
  | String.EmptyString => s
  | String.String c s' => if decide (c = Ascii.zero) then String.EmptyString else String.String c (c_str s')
  end.

(** [class tagged_error]: the error code of the base class and the text. *)
Record tagged_error : Type := mk { code : Z; category : error_category; _attempt_and_error : string }.

(** [tagged_error(const std::error_category &category, const std::string &attempt, const int
    error_code)]; the [what()] of the base class is the category's message for the code. *)
Definition construct (category : error_category) (attempt : string) (error_code : Z) : tagged_error :=
  mk error_code category (attempt +:+ ": " +:+ c_str (message category error_code)).

(** [const char *what() const noexcept] *)
Definition what (e : tagged_error) : string := c_str (_attempt_and_error e).

Lemma c_str_idem s : c_str (c_str s) = c_str s.
Proof. induction s as [|c s IH]; simpl; [done|]. case_decide; simpl; [done|]. rewrite decide_False by done. by rewrite IH. Qed.

Lemma c_str_app s t : c_str s = s -> c_str (s +:+ t) = s +:+ c_str t.
Proof.
  induction s as [|c s IH]; simpl; [done|]. case_decide; [done|]. intros [= Hs]. by rewrite IH.
Qed.

(** An attempt without null characters is shown whole, before the message. *)
Lemma what_construct category attempt error_code :
  c_str attempt = attempt ->
  what (construct category attempt error_code) = attempt +:+ ": " +:+ c_str (message category error_code).
Proof. intros Ha. unfold what, construct. simpl. rewrite (c_str_app attempt) by done. do 2 f_equal. by rewrite c_str_app, c_str_idem. Qed.

End TaggedError.
