(* ===== verification/WrappingIntegers.v ===== *)
(** * 32-bit sequence numbers (libsponge/wrapping_integers.hh, .cc)

    [WrappingInt32] is the 32-bit position of a byte on a circle whose origin is
    the initial sequence number; [wrap] and [unwrap] convert to and from 64-bit
    absolute positions.  [unwrap] returns the absolute position closest to a
    checkpoint; the theorems say for which checkpoints the code achieves that. *)

From S2P Require Import Prelude.

Module WrappingInt32.

Record WrappingInt32 : Set := mk { raw_value : Z }.

#[global] Instance WrappingInt32_eq_dec : EqDecision WrappingInt32.
Proof. solve_decision. Defined.

(** The raw value is stored in a [uint32_t]. *)
Definition wf (a : WrappingInt32) : Prop := is_u32 (raw_value a).

(** [int32_t operator-(WrappingInt32 a, WrappingInt32 b)] *)
Definition minus (a b : WrappingInt32) : Z := to_i32 (to_u32 (raw_value a - raw_value b)).

(** [bool operator==], [bool operator!=] *)
Definition eqb (a b : WrappingInt32) : bool := bool_decide (raw_value a = raw_value b).
Definition neqb (a b : WrappingInt32) : bool := negb (eqb a b).

(** [WrappingInt32 operator+(WrappingInt32 a, uint32_t b)] *)
Definition plus (a : WrappingInt32) (b : Z) : WrappingInt32 := mk (to_u32 (raw_value a + b)).

(** [WrappingInt32 operator-(WrappingInt32 a, uint32_t b)] *)
Definition minus_u32 (a : WrappingInt32) (b : Z) : WrappingInt32 := plus a (to_u32 (- b)).

Definition wrap (n : Z) (isn : WrappingInt32) : WrappingInt32 := plus isn (to_u32 n).

Definition unwrap (n isn : WrappingInt32) (checkpoint : Z) : Z :=
  let offset := minus n (wrap checkpoint isn) in
  let result := to_i64 (to_u64 (checkpoint + to_u64 offset)) in
  let result :=
    if decide (result < 0)
    then to_i64 (to_u64 (to_u64 result + Z.shiftl 1 32))
    else result in
  to_u64 result.

(** ** Lemmas *)

Lemma plus_wf a b : wf (plus a b).
Proof. unfold wf, plus. simpl. auto with width. Qed.

Lemma wrap_wf n isn : wf (wrap n isn).
Proof. apply plus_wf. Qed.

#[global] Hint Resolve plus_wf wrap_wf : width.

Lemma wf_inj a b : raw_value a = raw_value b -> a = b.
Proof. destruct a, b. simpl. congruence. Qed.

Lemma raw_wrap n isn : raw_value (wrap n isn) = (raw_value isn + n) mod 2 ^ 32.
Proof. unfold wrap, plus. simpl. width_lia. Qed.

(** [a == b] decides equality. *)
Lemma eqb_eq a b : eqb a b = true <-> a = b.
Proof. unfold eqb. rewrite bool_decide_eq_true. split; [apply wf_inj|by intros ->]. Qed.

Lemma unwrap_range n isn cp : is_u64 (unwrap n isn cp).
Proof. apply is_u64_to_u64. Qed.
#[global] Hint Resolve unwrap_range : width.

(** The signed distance [unwrap] moves from the checkpoint. *)
Lemma offset_range n m : - 2 ^ 31 <= minus n m < 2 ^ 31.
Proof. unfold minus. width_lia. Qed.

(** Below [2^63] the signed 64-bit arithmetic of [unwrap] is exact. *)
Lemma unwrap_exact n isn cp :
  0 <= cp -> cp + minus n (wrap cp isn) < 2 ^ 63 ->
  unwrap n isn cp =
    let y := cp + minus n (wrap cp isn) in if decide (y < 0) then y + 2 ^ 32 else y.
Proof.
  pose proof (offset_range n (wrap cp isn)) as Ho. unfold unwrap.
  set (o := minus n (wrap cp isn)) in *. change (Z.shiftl 1 32) with (2 ^ 32).
  intros Hcp Hlt. cbv zeta.
  replace (to_i64 (to_u64 (cp + to_u64 o))) with (cp + o) by width_lia.
  case_decide; width_lia.
Qed.

(** Modulo 2^32 the checkpoint plus the offset is the requested position, and the
    64-bit arithmetic of [unwrap] keeps it. *)
Lemma unwrap_mod n isn cp :
  wf n -> unwrap n isn cp mod 2 ^ 32 = (raw_value n - raw_value isn) mod 2 ^ 32.
Proof.
  intros Hn. set (y := cp + minus n (wrap cp isn)).
  assert (Hy : y mod 2 ^ 32 = (raw_value n - raw_value isn) mod 2 ^ 32).
  { unfold y, minus. rewrite raw_wrap. width_lia. }
  rewrite <- Hy. unfold unwrap. change (Z.shiftl 1 32) with (2 ^ 32). cbv zeta.
  replace (to_u64 (cp + to_u64 (minus n (wrap cp isn)))) with (to_u64 y) by (unfold y; width_lia).
  clearbody y. case_decide; width_lia.
Qed.

(** Two absolute positions with the same relative number differ by a multiple of 2^32. *)
Lemma wrap_eq_mod x y isn : wrap x isn = wrap y isn <-> x mod 2 ^ 32 = y mod 2 ^ 32.
Proof.
  split.
  - intros H. apply (f_equal raw_value) in H. rewrite !raw_wrap in H. width_lia.
  - intros H. apply wf_inj. rewrite !raw_wrap. width_lia.
Qed.

Lemma offset_wrap x cp isn :
  minus (wrap x isn) (wrap cp isn) = to_i32 (x - cp).
Proof. unfold minus. rewrite !raw_wrap. width_lia. Qed.

(** Close to the checkpoint [unwrap] inverts [wrap]. *)
Lemma unwrap_exact_near x isn cp :
  0 <= x -> 0 <= cp <= 2 ^ 63 - 2 ^ 31 -> - 2 ^ 31 <= x - cp < 2 ^ 31 ->
  unwrap (wrap x isn) isn cp = x.
Proof.
  intros Hx Hcp Hd. pose proof (offset_range (wrap x isn) (wrap cp isn)) as Ho.
  rewrite unwrap_exact by lia. rewrite offset_wrap in *.
  replace (to_i32 (x - cp)) with (x - cp) by width_lia. cbv zeta. case_decide; lia.
Qed.

(** ** Properties *)

(** Converting a relative sequence number to an absolute one and back gives
    the same relative number, whatever the checkpoint is. *)
Lemma wrap_unwrap_roundtrip n isn cp :
  wf n -> wf isn -> is_u64 cp -> wrap (unwrap n isn cp) isn = n.
Proof.
  intros Hn Hisn Hcp. apply wf_inj. rewrite raw_wrap.
  pose proof (unwrap_mod n isn cp Hn) as Hm. unfold wf in *. width_lia.
Qed.

(** C15: with a checkpoint at most 2^63 - 2^31, [unwrap] returns a 64-bit position
    that wraps to the given number, and no other such position is closer to the
    checkpoint. *)
Theorem unwrap_closest n isn cp :
  wf n -> wf isn -> 0 <= cp <= 2 ^ 63 - 2 ^ 31 ->
  is_u64 (unwrap n isn cp) /\ wrap (unwrap n isn cp) isn = n /\
  forall y, is_u64 y -> wrap y isn = n -> Z.abs (unwrap n isn cp - cp) <= Z.abs (y - cp).
Proof.
  intros Hn Hisn Hcp. split_and!.
  - apply unwrap_range.
  - apply wrap_unwrap_roundtrip; [done..|width_lia].
  - intros y Hy <-. pose proof (offset_range (wrap y isn) (wrap cp isn)) as Ho.
    rewrite unwrap_exact by lia. rewrite offset_wrap in *. cbv zeta. case_decide; width_lia.
Qed.

Lemma unwrap_closest_witness :
  wrap (unwrap (mk 5) (mk 0) 4294967299) (mk 0) = mk 5 /\
  Z.abs (unwrap (mk 5) (mk 0) 4294967299 - 4294967299) <= Z.abs (5 - 4294967299).
Proof.
  destruct (unwrap_closest (mk 5) (mk 0) 4294967299) as (_ & Hw & Hy); [concrete|concrete|lia|].
  split; [exact Hw|]. apply Hy; [concrete|reflexivity].
Defined.

(** C40: past 2^63 the signed intermediate of [unwrap] is negative and the code
    adds 2^32 once more: the checkpoint's own relative number unwraps to a
    position 2^32 after the checkpoint instead of to the checkpoint. *)
Theorem unwrap_overshoots_past_2_63 isn cp :
  2 ^ 63 <= cp < 2 ^ 64 - 2 ^ 32 -> unwrap (wrap cp isn) isn cp = cp + 2 ^ 32.
Proof.
  intros Hcp. unfold unwrap. rewrite offset_wrap, Z.sub_diag.
  change (to_u64 (to_i32 0)) with 0. change (Z.shiftl 1 32) with (2 ^ 32).
  cbv zeta. case_decide; width_lia.
Qed.

Lemma unwrap_overshoots_past_2_63_witness :
  unwrap (wrap (2 ^ 63) (mk 0)) (mk 0) (2 ^ 63) = 2 ^ 63 + 2 ^ 32.
Proof. apply (unwrap_overshoots_past_2_63 (mk 0) (2 ^ 63)); lia. Defined.

(** The helper operators are modular arithmetic on the circle: stepping [b]
    forward and measuring the distance gives [b] as a signed 32-bit number,
    stepping forward and back is the identity, and [==] decides equality. *)
Lemma operators_modular a b :
  wf a -> is_u32 b ->
  minus (plus a b) a = to_i32 b /\ minus_u32 (plus a b) b = a /\
  plus (minus_u32 a b) b = a /\ (forall c, eqb a c = true <-> a = c) /\
  (forall c, neqb a c = true <-> a <> c).
Proof.
  intros Ha Hb. unfold wf in Ha. split_and!.
  - unfold minus, plus. simpl. width_lia.
  - apply wf_inj. unfold minus_u32, plus. simpl. width_lia.
  - apply wf_inj. unfold minus_u32, plus. simpl. width_lia.
  - apply eqb_eq.
  - intros c. unfold neqb. rewrite negb_true_iff, <- not_true_iff_false. by rewrite eqb_eq.
Qed.

End WrappingInt32.
