(* ===== verification/ByteStream.v ===== *)
(** * The in-memory byte stream (libsponge/byte_stream.hh, .cc)

    A bounded FIFO of bytes with a writer side and a reader side.  The operations
    are translated with their loops; [write_eq], [peek_eq], [pop_eq] and [read_eq]
    give their closed forms.  The abstract contract is a pair of byte sequences:
    what the writer had accepted and what the reader consumed. *)

From S2P Require Import Prelude.

Module ByteStream.

Record ByteStream : Set := mk {
  buffer : bytes;
  capacity : Z;
  end_write : bool;
  end_read : bool;
  written_bytes : Z;
  read_bytes : Z;
  _error : bool
}.

#[global] Instance ByteStream_eq_dec : EqDecision ByteStream.
Proof. solve_decision. Defined.

(** [ByteStream::ByteStream(const size_t capa)] *)
Definition construct (capa : Z) : ByteStream := mk [] capa false false 0 0 false.

(** [void set_error()] *)
Definition set_error (bs : ByteStream) : ByteStream :=
  mk (buffer bs) (capacity bs) (end_write bs) (end_read bs) (written_bytes bs) (read_bytes bs) true.

(** [size_t write(const std::string &data)] *)
Definition write (data : bytes) (bs : ByteStream) : res (Z * ByteStream) :=
  let canWrite := to_u64 (capacity bs - zlen (buffer bs)) in
  let realWrite := Z.min canWrite (zlen data) in
  buf ← for_loop realWrite (fun i buf => c ← at_ data i; Ok (push_back buf c)) (buffer bs);
  Ok (realWrite,
      mk buf (capacity bs) (end_write bs) (end_read bs)
         (to_u64 (written_bytes bs + realWrite)) (read_bytes bs) (_error bs)).

(** [std::string peek_output(const size_t len) const] *)
Definition peek_output (len : Z) (bs : ByteStream) : res bytes :=
  let canPeek := Z.min len (zlen (buffer bs)) in
  for_loop canPeek (fun i out => c ← at_ (buffer bs) i; Ok (push_back out c)) [].

(** [void pop_output(const size_t len)] *)
Definition pop_output (len : Z) (bs : ByteStream) : res ByteStream :=
  if decide (len > zlen (buffer bs)) then Ok (set_error bs) else
  buf ← for_loop len (fun _ buf => pop_front buf) (buffer bs);
  Ok (mk buf (capacity bs) (end_write bs) (end_read bs)
         (written_bytes bs) (to_u64 (read_bytes bs + len)) (_error bs)).

(** [std::string read(const size_t len)] *)
Definition read (len : Z) (bs : ByteStream) : res (bytes * ByteStream) :=
  if decide (len > zlen (buffer bs)) then Ok ([], set_error bs) else
  '(out, buf) ← for_loop len
      (fun _ '(out, buf) => c ← front buf; buf' ← pop_front buf; Ok (push_back out c, buf'))
      ([], buffer bs);
  Ok (out, mk buf (capacity bs) (end_write bs) (end_read bs)
              (written_bytes bs) (to_u64 (read_bytes bs + len)) (_error bs)).

(** [void end_input()] *)
Definition end_input (bs : ByteStream) : ByteStream :=
  mk (buffer bs) (capacity bs) true (end_read bs) (written_bytes bs) (read_bytes bs) (_error bs).

(** Accessors. *)
Definition input_ended (bs : ByteStream) : bool := end_write bs.
Definition buffer_size (bs : ByteStream) : Z := zlen (buffer bs).
Definition buffer_empty (bs : ByteStream) : bool := bool_decide (buffer bs = []).
Definition eof (bs : ByteStream) : bool := bool_decide (buffer bs = []) && end_write bs.
Definition error (bs : ByteStream) : bool := _error bs.
Definition bytes_written (bs : ByteStream) : Z := written_bytes bs.
Definition bytes_read (bs : ByteStream) : Z := read_bytes bs.
Definition remaining_capacity (bs : ByteStream) : Z := to_u64 (capacity bs - zlen (buffer bs)).

(** ** The loops *)

Lemma copy_loop_eq (src dst : bytes) n :
  0 <= n <= zlen src ->
  for_loop n (fun i buf => c ← at_ src i; Ok (push_back buf c)) dst
  = Ok (dst ++ take (Z.to_nat n) src).
Proof.
  intros Hn.
  destruct (for_loop_inv (fun i buf => buf = dst ++ take (Z.to_nat i) src)
    (fun i buf => c ← at_ src i; Ok (push_back buf c)) n dst) as (s & E & ->);
    [lia|by rewrite app_nil_r| |done].
  intros j buf Hj ->. destruct (at_in_range src j) as (c & Ec & Hc); [lia|].
  rewrite Ec. eexists. split; [done|]. unfold push_back.
  replace (Z.to_nat (j + 1)) with (S (Z.to_nat j)) by lia.
  by rewrite (take_S_r _ _ _ Hc), app_assoc.
Qed.

Lemma pop_loop_eq (buf : bytes) n :
  0 <= n <= zlen buf ->
  for_loop n (fun _ b => pop_front b) buf = Ok (drop (Z.to_nat n) buf).
Proof.
  intros Hn.
  destruct (for_loop_inv (fun i b => b = drop (Z.to_nat i) buf) (fun _ b => pop_front b) n buf)
    as (s & E & ->); [lia|done| |done].
  intros j b Hj ->. destruct (at_in_range buf j) as (c & _ & Hc); [lia|].
  rewrite (drop_S _ _ _ Hc). simpl. eexists. split; [done|]. f_equal. lia.
Qed.

Lemma read_loop_eq (buf : bytes) n :
  0 <= n <= zlen buf ->
  for_loop n
    (fun _ '(out, b) => c ← front b; b' ← pop_front b; Ok (push_back out c, b')) ([], buf)
  = Ok (take (Z.to_nat n) buf, drop (Z.to_nat n) buf).
Proof.
  intros Hn.
  destruct (for_loop_inv
    (fun i ob => ob = (take (Z.to_nat i) buf, drop (Z.to_nat i) buf))
    (fun _ '(out, b) => c ← front b; b' ← pop_front b; Ok (push_back out c, b')) n ([], buf))
    as (s & E & ->); [lia|done| |done].
  intros j b Hj ->. destruct (at_in_range buf j) as (c & _ & Hc); [lia|].
  rewrite (drop_S _ _ _ Hc). simpl. eexists. split; [done|].
  replace (Z.to_nat (j + 1)) with (S (Z.to_nat j)) by lia.
  by rewrite (take_S_r _ _ _ Hc).
Qed.

(** ** Invariant and closed forms *)

(** The buffer is within the capacity and the counters agree with it modulo the
    width of [size_t]. *)
Record ok (bs : ByteStream) : Prop := {
  ok_capacity : is_u64 (capacity bs);
  ok_size : zlen (buffer bs) <= capacity bs;
  ok_read : is_u64 (read_bytes bs);
  ok_written : written_bytes bs = to_u64 (read_bytes bs + zlen (buffer bs))
}.

Lemma construct_ok capa : is_u64 capa -> ok (construct capa).
Proof. intros H. split; simpl; auto with width; size_lia. Qed.

Definition room (bs : ByteStream) : Z := capacity bs - zlen (buffer bs).

Lemma room_eq bs : ok bs -> to_u64 (capacity bs - zlen (buffer bs)) = room bs.
Proof. intros [Hc Hs _ _]. unfold room. size_lia. Qed.

Lemma remaining_capacity_eq bs : ok bs -> remaining_capacity bs = room bs.
Proof. apply room_eq. Qed.

Lemma room_range bs : ok bs -> 0 <= room bs <= capacity bs.
Proof. intros [Hc Hs _ _]. unfold room. size_lia. Qed.

Lemma write_eq data bs :
  ok bs ->
  let n := Z.min (room bs) (zlen data) in
  write data bs = Ok (n, mk (buffer bs ++ take (Z.to_nat n) data) (capacity bs) (end_write bs)
    (end_read bs) (to_u64 (written_bytes bs + n)) (read_bytes bs) (_error bs)).
Proof.
  intros Hok n. unfold write. rewrite room_eq by done.
  pose proof (room_range bs Hok). rewrite copy_loop_eq by size_lia. done.
Qed.

Lemma peek_eq len bs : 0 <= len -> peek_output len bs = Ok (take (Z.to_nat len) (buffer bs)).
Proof.
  intros Hlen. unfold peek_output. rewrite copy_loop_eq by size_lia. simpl. f_equal.
  destruct (Z.le_ge_cases len (zlen (buffer bs))).
  - by rewrite Z.min_l.
  - rewrite Z.min_r by done. rewrite !take_ge; [done|unfold zlen in *; lia..].
Qed.

Definition advance (len : Z) (bs : ByteStream) : ByteStream :=
  mk (drop (Z.to_nat len) (buffer bs)) (capacity bs) (end_write bs) (end_read bs)
     (written_bytes bs) (to_u64 (read_bytes bs + len)) (_error bs).

Lemma pop_eq len bs :
  0 <= len ->
  pop_output len bs = Ok (if decide (len > zlen (buffer bs)) then set_error bs else advance len bs).
Proof.
  intros Hlen. unfold pop_output. case_decide; [done|]. rewrite pop_loop_eq by lia. done.
Qed.

Lemma read_eq len bs :
  0 <= len ->
  read len bs = Ok (if decide (len > zlen (buffer bs)) then ([], set_error bs)
                    else (take (Z.to_nat len) (buffer bs), advance len bs)).
Proof.
  intros Hlen. unfold read. case_decide; [done|]. rewrite read_loop_eq by lia. done.
Qed.

Lemma write_ok data bs n bs' : ok bs -> write data bs = Ok (n, bs') -> ok bs'.
Proof.
  intros Hok. rewrite write_eq by done. intros [= <- <-].
  pose proof (room_range bs Hok). pose proof (zlen_nonneg data).
  unfold room in *. destruct Hok as [Hc Hs Hr Hw].
  split; simpl; autorewrite with zlen; rewrite ?zlen_take by lia; [done|lia|done|].
  rewrite Hw. width_lia.
Qed.

Lemma set_error_ok bs : ok bs -> ok (set_error bs).
Proof. by intros [????]. Qed.

Lemma end_input_ok bs : ok bs -> ok (end_input bs).
Proof. by intros [????]. Qed.

Lemma advance_ok len bs : ok bs -> 0 <= len <= zlen (buffer bs) -> ok (advance len bs).
Proof.
  intros [Hc Hs Hr Hw] Hlen. split; simpl; rewrite ?zlen_drop by lia; auto with width; [lia|].
  rewrite Hw. width_lia.
Qed.

#[global] Hint Resolve construct_ok set_error_ok end_input_ok : sponge.

Lemma pop_ok len bs bs' : ok bs -> 0 <= len -> pop_output len bs = Ok bs' -> ok bs'.
Proof.
  intros Hok Hlen. rewrite pop_eq by done. intros [= <-].
  case_decide; auto with sponge. apply advance_ok; [done|lia].
Qed.

Lemma read_ok len bs out bs' : ok bs -> 0 <= len -> read len bs = Ok (out, bs') -> ok bs'.
Proof.
  intros Hok Hlen. rewrite read_eq by done. case_decide; intros [= <- <-]; auto with sponge.
  apply advance_ok; [done|lia].
Qed.

(** ** Operations as a machine *)

Inductive Op : Set :=
  | OpWrite (data : bytes)
  | OpRead (len : Z)
  | OpPop (len : Z)
  | OpEndInput
  | OpSetError.

(** One call, with the bytes it accepted from the writer and the bytes it took
    out of the stream on the reader's side. *)
Definition perform (op : Op) (bs : ByteStream) : res (bytes * bytes * ByteStream) :=
  match op with
  | OpWrite data => '(n, bs') ← write data bs; Ok (take (Z.to_nat n) data, [], bs')
  | OpRead len => '(out, bs') ← read len bs; Ok ([], out, bs')
  | OpPop len =>
      bs' ← pop_output len bs;
      if decide (len > buffer_size bs) then Ok ([], [], bs')
      else out ← peek_output len bs; Ok ([], out, bs')
  | OpEndInput => Ok ([], [], end_input bs)
  | OpSetError => Ok ([], [], set_error bs)
  end.

Fixpoint perform_all (ops : list Op) (bs : ByteStream) : res (bytes * bytes * ByteStream) :=
  match ops with
  | [] => Ok ([], [], bs)
  | op :: ops' =>
      '(w1, r1, bs1) ← perform op bs;
      '(w2, r2, bs2) ← perform_all ops' bs1;
      Ok (w1 ++ w2, r1 ++ r2, bs2)
  end.

(** A [size_t] argument. *)
Definition arg_ok (op : Op) : Prop :=
  match op with OpRead len | OpPop len => is_u64 len | _ => True end.

(** What one operation does to the contents of the stream. *)
Definition transfers (bs : ByteStream) (w r : bytes) (bs' : ByteStream) : Prop :=
  buffer bs ++ w = r ++ buffer bs' /\ capacity bs' = capacity bs /\
  written_bytes bs' = to_u64 (written_bytes bs + zlen w) /\
  read_bytes bs' = to_u64 (read_bytes bs + zlen r).

Lemma ok_counters bs : ok bs ->
  to_u64 (written_bytes bs) = written_bytes bs /\ to_u64 (read_bytes bs) = read_bytes bs.
Proof. intros [? ? ? Hw]. rewrite Hw. width_lia. Qed.

Lemma advance_transfers len bs :
  0 <= len <= zlen (buffer bs) -> ok bs ->
  transfers bs [] (take (Z.to_nat len) (buffer bs)) (advance len bs).
Proof.
  intros Hlen Hok. destruct (ok_counters bs Hok) as [Hw Hr]. split_and!; simpl.
  - by rewrite take_drop, app_nil_r.
  - done.
  - by rewrite zlen_nil, Z.add_0_r.
  - by rewrite zlen_take, Z.min_l by lia.
Qed.

Lemma idle_transfers bs bs' :
  ok bs -> buffer bs' = buffer bs -> capacity bs' = capacity bs ->
  written_bytes bs' = written_bytes bs -> read_bytes bs' = read_bytes bs ->
  transfers bs [] [] bs'.
Proof.
  intros Hok Hb Hc Hw Hr. destruct (ok_counters bs Hok) as [Ew Er].
  split_and!; rewrite ?Hb, ?Hw, ?Hr, ?zlen_nil, ?Z.add_0_r, ?app_nil_r; done.
Qed.

Lemma perform_transfers op bs :
  ok bs -> arg_ok op -> exists w r bs', perform op bs = Ok (w, r, bs') /\ ok bs' /\ transfers bs w r bs'.
Proof.
  intros Hok Harg. destruct op as [data|len|len| |]; cbn [perform arg_ok] in *.
  - pose proof (room_range bs Hok). pose proof (zlen_nonneg data).
    rewrite write_eq by done. do 3 eexists. split; [done|]. split.
    + eapply write_ok; [exact Hok|by apply write_eq].
    + split_and!; simpl; [done|done| |].
      * rewrite zlen_take by lia. f_equal. lia.
      * destruct (ok_counters bs Hok) as [_ Er]. by rewrite zlen_nil, Z.add_0_r.
  - rewrite read_eq by apply Harg. unfold is_u64 in Harg. case_decide; simpl.
    + do 3 eexists. split; [done|]. split; [by apply set_error_ok|by apply idle_transfers].
    + do 3 eexists. split; [done|]. split; [apply advance_ok|apply advance_transfers]; done || lia.
  - rewrite pop_eq by apply Harg. unfold is_u64 in Harg. simpl. unfold buffer_size. case_decide.
    + do 3 eexists. split; [done|]. split; [by apply set_error_ok|by apply idle_transfers].
    + rewrite peek_eq by lia. do 3 eexists. split; [done|].
      split; [apply advance_ok|apply advance_transfers]; done || lia.
  - do 3 eexists. split; [done|]. split; [by apply end_input_ok|by apply idle_transfers].
  - do 3 eexists. split; [done|]. split; [by apply set_error_ok|by apply idle_transfers].
Qed.

Lemma transfers_trans bs w1 r1 bs1 w2 r2 bs2 :
  transfers bs w1 r1 bs1 -> transfers bs1 w2 r2 bs2 -> transfers bs (w1 ++ w2) (r1 ++ r2) bs2.
Proof.
  intros (Hb1 & Hc1 & Hw1 & Hr1) (Hb2 & Hc2 & Hw2 & Hr2). split_and!.
  - by rewrite app_assoc, Hb1, <- !app_assoc, Hb2.
  - congruence.
  - rewrite Hw2, Hw1. autorewrite with zlen. width_lia.
  - rewrite Hr2, Hr1. autorewrite with zlen. width_lia.
Qed.

Lemma perform_all_transfers ops bs :
  ok bs -> Forall arg_ok ops ->
  exists w r bs', perform_all ops bs = Ok (w, r, bs') /\ ok bs' /\ transfers bs w r bs'.
Proof.
  intros Hok Hargs. revert bs Hok.
  induction Hargs as [|op ops Hop _ IH]; intros bs Hok; cbn [perform_all].
  - do 3 eexists. split; [done|]. split; [done|by apply idle_transfers].
  - destruct (perform_transfers op bs Hok Hop) as (w1 & r1 & bs1 & E1 & Hok1 & H1).
    destruct (IH bs1 Hok1) as (w2 & r2 & bs2 & E2 & Hok2 & H2).
    rewrite E1. simpl. rewrite E2. simpl. do 3 eexists. split; [done|].
    split; [done|by eapply transfers_trans].
Qed.

Definition next (op : Op) (bs : ByteStream) : res ByteStream :=
  '(_, _, bs') ← perform op bs; Ok bs'.

Lemma next_ok op bs : ok bs -> arg_ok op -> exists bs', next op bs = Ok bs' /\ ok bs'.
Proof.
  intros Hok Harg. destruct (perform_transfers op bs Hok Harg) as (w & r & bs' & E & Hok' & _).
  unfold next. rewrite E. by exists bs'.
Qed.

#[global] Instance machine : Machine ByteStream Op :=
  {| step := next; state_ok := ok; op_ok op _ := arg_ok op; step_ok := next_ok |}.

(** ** Properties *)

(** C16: the stream is a FIFO.  Any sequence of writes, reads, pops, end-of-input
    and error signals on a fresh stream returns without a fault; the bytes taken
    out by the reader followed by the bytes still buffered are exactly the bytes
    accepted from the writer, in order; the buffer never exceeds the capacity and
    both counters are the lengths of those sequences modulo 2^64. *)
Theorem stream_fifo capa ops :
  is_u64 capa -> Forall arg_ok ops ->
  exists accepted consumed bs,
    perform_all ops (construct capa) = Ok (accepted, consumed, bs) /\
    accepted = consumed ++ buffer bs /\ zlen (buffer bs) <= capa /\
    bytes_written bs = to_u64 (zlen accepted) /\ bytes_read bs = to_u64 (zlen consumed).
Proof.
  intros Hcapa Hargs.
  destruct (perform_all_transfers ops (construct capa)) as (w & r & bs & E & Hok & Hb & Hc & Hw & Hr);
    auto with sponge.
  exists w, r, bs. split_and!; [done|done| |done|done].
  destruct Hok as [_ Hs _ _]. by rewrite Hc in Hs.
Qed.

Lemma stream_fifo_witness :
  exists accepted consumed bs,
    perform_all [OpWrite [Byte.x61; Byte.x62; Byte.x63]; OpRead 1; OpPop 5; OpEndInput] (construct 2)
      = Ok (accepted, consumed, bs) /\
    accepted = consumed ++ buffer bs /\ zlen (buffer bs) <= 2 /\
    bytes_written bs = to_u64 (zlen accepted) /\ bytes_read bs = to_u64 (zlen consumed).
Proof.
  apply (stream_fifo 2 [OpWrite [Byte.x61; Byte.x62; Byte.x63]; OpRead 1; OpPop 5; OpEndInput]);
    [concrete|]. repeat constructor; concrete.
Defined.

(** [write] accepts as many bytes as fit, in order, returns their number,
    adds it to [bytes_written], takes it from [remaining_capacity] and changes
    nothing else; it accepts the whole string exactly when it fits. *)
Lemma write_accepts data bs n bs' :
  ok bs -> write data bs = Ok (n, bs') ->
  n = Z.min (remaining_capacity bs) (zlen data) /\
  buffer bs' = buffer bs ++ take (Z.to_nat n) data /\
  remaining_capacity bs' = remaining_capacity bs - n /\
  bytes_written bs' = to_u64 (bytes_written bs + n) /\ bytes_read bs' = bytes_read bs /\
  input_ended bs' = input_ended bs /\ error bs' = error bs /\
  (buffer bs' = buffer bs ++ data <-> zlen data <= remaining_capacity bs).
Proof.
  intros Hok E. pose proof (write_ok _ _ _ _ Hok E) as Hok'.
  rewrite !remaining_capacity_eq by done. pose proof (room_range bs Hok).
  rewrite write_eq in E by done. injection E as <- <-. pose proof (zlen_nonneg data).
  unfold room; simpl. autorewrite with zlen. fold (room bs). rewrite !zlen_take by lia.
  split_and!; try done; [unfold room; lia|]. split.
  - intros Heq. apply app_inv_head in Heq. apply (f_equal zlen) in Heq.
    rewrite zlen_take in Heq by lia. lia.
  - intros Hle. rewrite Z.min_r by lia. rewrite take_ge; [done|unfold zlen; lia].
Qed.

(** [read] is [peek_output] followed by [pop_output] whenever the requested
    number of bytes is available. *)
Lemma read_is_peek_then_pop len bs :
  0 <= len <= buffer_size bs ->
  read len bs = (out ← peek_output len bs; bs' ← pop_output len bs; Ok (out, bs')).
Proof.
  unfold buffer_size. intros Hlen. rewrite read_eq, peek_eq, pop_eq by lia. simpl.
  rewrite !decide_False by lia. done.
Qed.

(** Asking for more bytes than are buffered is an error: [read] and
    [pop_output] set the error flag, consume nothing and leave the counters alone,
    and [read] returns the empty string although [peek_output] would return the
    buffered bytes. *)
Lemma overread_sets_error len bs :
  buffer_size bs < len ->
  read len bs = Ok ([], set_error bs) /\ pop_output len bs = Ok (set_error bs) /\
  peek_output len bs = Ok (buffer bs) /\ error (set_error bs) = true /\
  buffer (set_error bs) = buffer bs /\ bytes_read (set_error bs) = bytes_read bs.
Proof.
  unfold buffer_size. intros Hlen. pose proof (zlen_nonneg (buffer bs)).
  rewrite read_eq, peek_eq, pop_eq by lia. rewrite !decide_True by lia.
  rewrite take_ge by (unfold zlen in *; lia). done.
Qed.

(** [end_input] does not close the stream to the writer: a later [write] with
    room left is still accepted, although the header says that after the writer
    ends the input no more bytes can be written. *)
Lemma write_accepted_after_end_input data bs n bs' :
  ok bs -> write data (end_input bs) = Ok (n, bs') ->
  n = Z.min (remaining_capacity bs) (zlen data) /\ input_ended bs' = true /\
  buffer bs' = buffer bs ++ take (Z.to_nat n) data.
Proof.
  intros Hok E. rewrite remaining_capacity_eq by done.
  rewrite write_eq in E by auto with sponge. by injection E as <- <-.
Qed.

End ByteStream.
