(* ===== verification/StreamReassembler.v ===== *)
(** * The stream reassembler (libsponge/stream_reassembler.hh, .cc)

    Substrings of a byte stream arrive out of order and overlapping; the
    reassembler keeps the bytes that fall into its window in two deques (the bytes
    and a bitmap of the filled positions) and writes the contiguous prefix to its
    output stream.  This file translates the class, states its invariant and gives
    the storing and the assembling loops their closed forms; ReassemblerSpec.v has
    the contract and the theorems. *)

From S2P Require Import Prelude ByteStream.

Module StreamReassembler.

Record StreamReassembler : Set := mk {
  _buffer : bytes;
  _bitmap : list bool;
  _eof_flag : bool;
  _eof_index : Z;
  _unassembled_bytes : Z;
  _output : ByteStream.ByteStream;
  _capacity : Z
}.

#[global] Instance StreamReassembler_eq_dec : EqDecision StreamReassembler.
Proof. solve_decision. Defined.

(** [StreamReassembler::StreamReassembler(const size_t capacity)] *)
Definition construct (capacity : Z) : StreamReassembler :=
  mk (replicate (Z.to_nat capacity) Byte.x00) (replicate (Z.to_nat capacity) false)
     false 0 0 (ByteStream.construct capacity) capacity.

(** [ByteStream &stream_out()], read and assigned. *)
Definition stream_out (sr : StreamReassembler) : ByteStream.ByteStream := _output sr.
Definition set_output (out : ByteStream.ByteStream) (sr : StreamReassembler) : StreamReassembler :=
  mk (_buffer sr) (_bitmap sr) (_eof_flag sr) (_eof_index sr) (_unassembled_bytes sr) out (_capacity sr).

(** The window: both deques and the count of filled positions. *)
Definition window : Set := bytes * list bool * Z.

(** The body of both storing loops: position [k] of the window gets [data[j]]
    unless it is filled already. *)
Definition store_byte (data : bytes) (k j : Z) (w : window) : res window :=
  let '(buf, bm, un) := w in
  filled ← at_ bm k;
  if (filled : bool) then Ok (buf, bm, un) else
  c ← at_ data j;
  buf' ← set_at buf k c;
  bm' ← set_at bm k true;
  Ok (buf', bm', to_u64 (un + 1)).

(** One iteration of [while (_bitmap.front())]. *)
Definition assemble_step (s : bytes * bytes * list bool) : res (bytes * bytes * list bool) :=
  let '(str, buf, bm) := s in
  c ← front buf;
  buf' ← pop_front buf;
  bm' ← pop_front bm;
  Ok (push_back str c, push_back buf' Byte.x00, push_back bm' false).

(** [while (_bitmap.front()) ...]: the bitmap has [length bm] positions and each
    iteration clears one, so [1 + length bm] tests are enough. *)
Definition assemble (buf : bytes) (bm : list bool) : res (bytes * bytes * list bool) :=
  while_loop (S (length bm)) (fun '(_, _, bm) => front bm) assemble_step ([], buf, bm).

(** The two tests "[if (_eof_flag && _eof_index == ...) _output.end_input()]". *)
Definition check_eof (flag : bool) (eof_index assembled : Z) (out : ByteStream.ByteStream)
    : ByteStream.ByteStream :=
  if flag && bool_decide (eof_index = assembled) then ByteStream.end_input out else out.

(** Cases 2 and 3: the part of the segment inside the window goes into the window. *)
Definition store (data : bytes) (index start end_ first_unassembled first_unacceptable : Z)
    (w : window) : res window :=
  if decide (start >= first_unassembled) then
    let end_ := Z.min end_ first_unacceptable in
    let len := to_u64 (end_ - start) in
    let offset := to_u64 (index - first_unassembled) in
    for_loop len (fun i => store_byte data (to_u64 (i + offset)) i) w
  else if decide (end_ > first_unassembled) then
    let start := Z.max start first_unassembled in
    let end_ := Z.min end_ first_unacceptable in
    let len := to_u64 (end_ - start) in
    let offset := to_u64 (first_unassembled - index) in
    for_loop len (fun i => store_byte data i (to_u64 (i + offset))) w
  else Ok w.

(** The contiguous bytes go to the output stream. *)
Definition flush (str : bytes) (un : Z) (out : ByteStream.ByteStream)
    : res (ByteStream.ByteStream * Z) :=
  if decide (zlen str > 0) then
    '(_, out) ← ByteStream.write str out;
    Ok (out, to_u64 (un - zlen str))
  else Ok (out, un).

(** [void push_substring(const std::string &data, const uint64_t index, const bool eof)] *)
Definition push_substring (data : bytes) (index : Z) (eof : bool) (sr : StreamReassembler)
    : res StreamReassembler :=
  let first_unread := ByteStream.bytes_read (_output sr) in
  let first_unassembled := ByteStream.bytes_written (_output sr) in
  let first_unacceptable := to_u64 (first_unread + _capacity sr) in
  let start := index in
  let end_ := to_u64 (index + zlen data) in
  let eof_flag := if eof then true else _eof_flag sr in
  let eof_index := if eof then end_ else _eof_index sr in
  let out := check_eof eof_flag eof_index first_unassembled (_output sr) in
  if bool_decide (end_ <= first_unassembled) || bool_decide (start >= first_unacceptable) then
    Ok (mk (_buffer sr) (_bitmap sr) eof_flag eof_index (_unassembled_bytes sr) out (_capacity sr))
  else
  '(buf, bm, un) ← store data index start end_ first_unassembled first_unacceptable
                     (_buffer sr, _bitmap sr, _unassembled_bytes sr);
  '(str, buf, bm) ← assemble buf bm;
  '(out, un) ← flush str un out;
  let out := check_eof eof_flag eof_index (ByteStream.bytes_written out) out in
  Ok (mk buf bm eof_flag eof_index un out (_capacity sr)).

(** [size_t unassembled_bytes() const], [bool empty() const] *)
Definition unassembled_bytes (sr : StreamReassembler) : Z := _unassembled_bytes sr.
Definition empty (sr : StreamReassembler) : bool := bool_decide (_unassembled_bytes sr = 0).

Example push_in_order :
  (sr ← push_substring [Byte.x62] 1 true (construct 4); push_substring [Byte.x61] 0 false sr)
  = Ok (mk [Byte.x00; Byte.x00; Byte.x00; Byte.x00] [false; false; false; false] true 2 0
          (ByteStream.mk [Byte.x61; Byte.x62] 4 true false 2 0 false) 4).
Proof. reflexivity. Qed.

(** ** The window deques *)

(** Number of filled positions. *)
Fixpoint trues (bm : list bool) : Z :=
  match bm with [] => 0 | b :: bm' => (if b then 1 else 0) + trues bm' end.

Lemma trues_app l k : trues (l ++ k) = trues l + trues k.
Proof. induction l as [|b l IH]; simpl; lia. Qed.

Lemma trues_replicate n : trues (replicate n false) = 0.
Proof. by induction n. Qed.

Lemma trues_range bm : 0 <= trues bm <= zlen bm.
Proof. unfold zlen. induction bm as [|[] bm IH]; simpl; lia. Qed.

Lemma trues_insert bm k : bm !! k = Some false -> trues (<[k:=true]> bm) = trues bm + 1.
Proof.
  revert k. induction bm as [|b bm IH]; intros [|k] H; simplify_eq/=; [lia|].
  rewrite IH by done. lia.
Qed.

Lemma trues_0 bm : trues bm = 0 <-> Forall (fun b => b = false) bm.
Proof.
  induction bm as [|b bm IH]; simpl; [done|]. pose proof (trues_range bm).
  rewrite Forall_cons, <- IH. destruct b; split.
  1, 3: intros ?; split; [lia|lia]. all: intros [? ?]; done || lia.
Qed.

(** What the window holds at position [k]. *)
Definition slot (buf : bytes) (bm : list bool) (k : nat) : option byte :=
  match bm !! k with Some true => buf !! k | _ => None end.

Lemma slot_insert buf bm k c k' :
  (k < length buf)%nat -> (k < length bm)%nat ->
  slot (<[k:=c]> buf) (<[k:=true]> bm) k' = if decide (k' = k) then Some c else slot buf bm k'.
Proof.
  intros Hb Hm. unfold slot. case_decide as E.
  - subst. by rewrite !list_lookup_insert_eq.
  - by rewrite !list_lookup_insert_ne.
Qed.

Lemma slot_filled buf bm k : length buf = length bm -> bm !! k = Some true -> is_Some (slot buf bm k).
Proof.
  intros Hlen Hk. unfold slot. rewrite Hk. apply lookup_lt_is_Some. rewrite Hlen.
  by eapply lookup_lt_Some.
Qed.

Lemma slot_is_Some buf bm k : is_Some (slot buf bm k) -> bm !! k = Some true.
Proof. unfold slot. intros [b Hb]. destruct (bm !! k) as [[]|]; done. Qed.

(** Positions [d .. d+n) of the window, as far as free, filled from [data] at [s]. *)
Definition overlay (data : bytes) (d s n : Z) (f : nat -> option byte) (k : nat) : option byte :=
  match f k with
  | Some b => Some b
  | None => if decide (d <= Z.of_nat k < d + n) then data !! Z.to_nat (s + (Z.of_nat k - d)) else None
  end.

(** The invariant of a window. *)
Record window_ok (n : Z) (w : window) : Prop := {
  window_buffer : zlen w.1.1 = n;
  window_bitmap : zlen w.1.2 = n;
  window_count : w.2 = trues w.1.2
}.

Lemma store_byte_spec data k j w n :
  is_u64 n -> window_ok n w -> 0 <= k < n -> 0 <= j < zlen data ->
  exists w', store_byte data k j w = Ok w' /\ window_ok n w' /\
    forall i, slot w'.1.1 w'.1.2 i = overlay data k j 1 (slot w.1.1 w.1.2) i.
Proof.
  destruct w as [[buf bm] un]. intros Hn [Hb Hm Hu] Hk Hj. simpl in *.
  destruct (at_in_range bm k) as (filled & Ef & Hf); [lia|]. rewrite Ef. simpl.
  destruct (at_in_range data j) as (c & Ec & Hc); [lia|]. destruct filled.
  - eexists. split; [done|]. split; [done|]. intros i. simpl. unfold overlay.
    destruct (slot buf bm i) eqn:Ei; [done|]. case_decide as Hi; [|done].
    replace i with (Z.to_nat k) in Ei by lia.
    destruct (slot_filled buf bm (Z.to_nat k)) as [b Eb]; [unfold zlen in *; lia|done|congruence].
  - rewrite Ec. simpl. rewrite !set_at_in_range by lia. simpl. eexists. split; [done|]. split.
    + split; simpl; rewrite ?zlen_insert, ?trues_insert by done; [done..|].
      pose proof (trues_range (<[Z.to_nat k:=true]> bm)) as Ht.
      rewrite trues_insert, zlen_insert in Ht by done. rewrite Hu. apply to_u64_small. width_lia.
    + intros i. simpl. rewrite slot_insert by (unfold zlen in *; lia). unfold overlay. case_decide as Hi.
      * subst i. unfold slot. rewrite Hf, decide_True by lia. rewrite <- Hc. f_equal. lia.
      * destruct (slot buf bm i); [done|]. by rewrite decide_False by lia.
Qed.

Lemma overlay_step data d s n f g k :
  0 <= n ->
  (forall i, g i = overlay data d s n f i) ->
  overlay data (d + n) (s + n) 1 g k = overlay data d s (n + 1) f k.
Proof.
  intros Hn Hg. unfold overlay at 1. rewrite Hg. unfold overlay.
  destruct (f k); [done|]. repeat case_decide; try lia; try done.
  - destruct (data !! _) eqn:E; done.
  - f_equal. lia.
Qed.

(** Both loops of [push_substring]: [n] bytes of [data] from [s] are laid over the
    window from [d]. *)
Lemma store_loop_spec data d s n cap w (k j : Z -> Z) :
  is_u64 cap -> window_ok cap w -> 0 <= n -> 0 <= d -> d + n <= cap -> 0 <= s -> s + n <= zlen data ->
  (forall i, 0 <= i < n -> k i = d + i /\ j i = s + i) ->
  exists w', for_loop n (fun i => store_byte data (k i) (j i)) w = Ok w' /\ window_ok cap w' /\
    forall i, slot w'.1.1 w'.1.2 i = overlay data d s n (slot w.1.1 w.1.2) i.
Proof.
  intros Hcap Hw Hn Hd Hdn Hs Hsn Hkj.
  apply (for_loop_inv (fun m w' => window_ok cap w' /\
    forall i, slot w'.1.1 w'.1.2 i = overlay data d s m (slot w.1.1 w.1.2) i)); [done| |].
  - split; [done|]. intros i. unfold overlay. destruct (slot _ _ i); [done|].
    by rewrite decide_False by lia.
  - intros m w1 Hm (Hok1 & H1). destruct (Hkj m Hm) as [-> ->].
    destruct (store_byte_spec data (d + m) (s + m) w1 cap) as (w2 & E2 & Hok2 & H2); [done..|lia|lia|].
    exists w2. split; [done|]. split; [done|]. intros i. rewrite H2. apply overlay_step; [lia|done].
Qed.

(** The first [m] positions of the window are filled. *)
Definition filled (bm : list bool) (m : nat) : Prop := forall i, (i < m)%nat -> bm !! i = Some true.

Lemma filled_trues bm m : filled bm m -> (m <= length bm)%nat -> trues (take m bm) = Z.of_nat m.
Proof.
  revert m. induction bm as [|b bm IH]; intros m Hf Hm; simpl in *.
  - destruct m; [done|lia].
  - destruct m as [|m]; [done|]. simpl. pose proof (Hf 0%nat ltac:(lia)) as H0. simplify_eq/=.
    rewrite IH; [lia| |lia]. intros i Hi. apply (Hf (S i)). lia.
Qed.

(** The deques after [m] iterations of the assembling loop. *)
Definition shifted {A} (m : nat) (z : A) (l : list A) : list A := drop m l ++ replicate m z.

Lemma shifted_step {A} m (z : A) l x :
  l !! m = Some x ->
  exists l', shifted m z l = x :: l' /\ push_back l' z = shifted (S m) z l.
Proof.
  intros Hx. unfold shifted, push_back. rewrite (drop_S _ _ _ Hx). simpl. eexists. split; [done|].
  by rewrite <- app_assoc, <- replicate_cons_app.
Qed.

Lemma zlen_shifted {A} m (z : A) l : (m <= length l)%nat -> zlen (shifted m z l) = zlen l.
Proof. intros Hm. unfold shifted, zlen. rewrite length_app, length_drop, length_replicate. lia. Qed.

Lemma trues_shifted m bm :
  filled bm m -> (m <= length bm)%nat -> trues (shifted m false bm) = trues bm - Z.of_nat m.
Proof.
  intros Hf Hm. unfold shifted. rewrite trues_app, trues_replicate.
  rewrite <- (filled_trues bm m) by done. rewrite <- (take_drop m bm) at 2. rewrite trues_app. lia.
Qed.

Lemma front_shifted m bm :
  (m <= length bm)%nat -> (0 < length bm)%nat ->
  front (shifted m false bm) = Ok (default false (bm !! m)).
Proof.
  intros Hm Hpos. unfold shifted. destruct (bm !! m) as [b|] eqn:E.
  - by rewrite (drop_S _ _ _ E).
  - apply lookup_ge_None in E. rewrite drop_ge by lia. replace m with (S (pred m)) by lia. done.
Qed.

Lemma slot_shifted buf bm m k :
  length buf = length bm -> (m <= length bm)%nat ->
  slot (shifted m Byte.x00 buf) (shifted m false bm) k = slot buf bm (m + k).
Proof.
  intros Hlen Hm. unfold slot, shifted.
  destruct (decide (m + k < length bm)%nat).
  - rewrite !lookup_app_l by (rewrite length_drop; lia). by rewrite !lookup_drop.
  - rewrite (lookup_ge_None_2 bm (m + k)) by lia.
    rewrite lookup_app_r by (rewrite length_drop; lia).
    destruct (replicate m false !! _) as [[]|] eqn:E; [|done..].
    apply lookup_replicate in E as [? _]. done.
Qed.

(** One iteration of the loop, and the state it starts from. *)
Definition assembling (buf : bytes) (bm : list bool) (m : nat) : bytes * bytes * list bool :=
  (take m buf, shifted m Byte.x00 buf, shifted m false bm).

Lemma assemble_step_spec buf bm m :
  length buf = length bm -> bm !! m = Some true ->
  assemble_step (assembling buf bm m) = Ok (assembling buf bm (S m)).
Proof.
  intros Hlen Hm. pose proof (lookup_lt_Some _ _ _ Hm).
  destruct (lookup_lt_is_Some_2 buf m) as [c Hc]; [lia|].
  destruct (shifted_step m Byte.x00 buf c Hc) as (buf' & Eb & Hb).
  destruct (shifted_step m false bm true Hm) as (bm' & Em & Hb').
  unfold assembling. rewrite Eb, Em. simpl. rewrite Hb, Hb'. by rewrite (take_S_r _ _ _ Hc).
Qed.

(** The assembling loop takes exactly the filled prefix of the window and returns. *)
Lemma assemble_spec buf bm :
  length buf = length bm -> (0 < length bm)%nat ->
  exists m, assemble buf bm = Ok (assembling buf bm m) /\ (m <= length bm)%nat /\
    filled bm m /\ slot buf bm m = None.
Proof.
  intros Hlen Hpos. unfold assemble.
  destruct (while_loop_total
    (fun s => exists m, s = assembling buf bm m /\ (m <= length bm)%nat /\ filled bm m)
    (fun '(_, _, b) => Z.to_nat (trues b)) (fun '(_, _, b) => front b) assemble_step
    (S (length bm)) ([], buf, bm)) as (s & E & (m & -> & Hm & Hf) & Hend).
  - exists 0%nat. unfold assembling, shifted. simpl. rewrite !app_nil_r. split_and!; [done|lia|].
    intros i Hi. lia.
  - pose proof (trues_range bm). unfold zlen in *. lia.
  - intros s (m & -> & Hm & Hf). unfold assembling at 1.
    rewrite front_shifted by done. eexists. split; [done|]. intros Ht.
    destruct (bm !! m) as [b|] eqn:E; [|done]. simpl in Ht. subst b.
    pose proof (lookup_lt_Some _ _ _ E) as Hlt.
    assert (Hf' : filled bm (S m)).
    { intros i Hi. destruct (decide (i = m)) as [->|]; [done|]. apply Hf. lia. }
    exists (assembling buf bm (S m)). split; [by apply assemble_step_spec|].
    split; [exists (S m); split_and!; [done|lia|done]|].
    unfold assembling. rewrite !trues_shifted by (done || lia).
    pose proof (trues_range (shifted (S m) false bm)) as Hr. rewrite trues_shifted in Hr by (done || lia). lia.
  - exists m. split_and!; [done..|]. unfold assembling in Hend. rewrite front_shifted in Hend by done.
    unfold slot. destruct (bm !! m) as [[]|]; done.
Qed.

(** ** Invariant *)

Record ok (sr : StreamReassembler) : Prop := {
  ok_output : ByteStream.ok (_output sr);
  ok_capacity : ByteStream.capacity (_output sr) = _capacity sr;
  ok_window : window_ok (_capacity sr) (_buffer sr, _bitmap sr, _unassembled_bytes sr);
  ok_room : forall k, is_Some (slot (_buffer sr) (_bitmap sr) k) ->
                      Z.of_nat k < ByteStream.room (_output sr);
  ok_front : slot (_buffer sr) (_bitmap sr) 0 = None
}.

Lemma slot_empty n k : slot (replicate n Byte.x00) (replicate n false) k = None.
Proof.
  unfold slot. destruct (replicate n false !! k) as [[]|] eqn:E; [|done..].
  by apply lookup_replicate in E as [? _].
Qed.

Lemma reassembler_construct_ok capacity : is_u64 capacity -> ok (construct capacity).
Proof.
  intros Hc. split; simpl.
  - auto with sponge.
  - done.
  - split; simpl; autorewrite with zlen; rewrite ?trues_replicate; width_lia.
  - intros k [b Hb]. by rewrite slot_empty in Hb.
  - apply slot_empty.
Qed.

End StreamReassembler.
