(* ===== verification/ReassemblerSpec.v ===== *)
(** * The contract of the stream reassembler, and the refinement

    [Spec] describes the reassembler by a finite map from stream positions to the
    bytes held back and by the sequence of all bytes assembled; [push_refines] shows
    that the deques, offsets and loops of libsponge/stream_reassembler.cc implement
    it without a fault.  The theorems on streams say what a reader of the output
    observes when the substrings are excerpts of one stream. *)

From stdpp Require Import gmap.
From S2P Require Import Prelude ByteStream StreamReassembler.

Module Spec.

(** All bytes assembled so far, the bytes held back (by stream position), how many
    assembled bytes the reader has taken, the announced end of the stream, and
    whether the output has been closed. *)
Record state := mk {
  assembled : bytes;
  pending : gmap Z byte;
  consumed : Z;
  eof_at : option Z;
  ended : bool;
  cap : Z
}.

Definition init (cap : Z) : state := mk [] ∅ 0 None false cap.

(** First position that is not assembled, first position that is not acceptable. *)
Definition next (st : state) : Z := zlen (assembled st).
Definition limit (st : state) : Z := consumed st + cap st.

(** The bytes of a substring that fall into the window join the bytes held back; a
    position that is filled already keeps its byte. *)
Definition accept (data : bytes) (index : Z) (st : state) : gmap Z byte :=
  pending st ∪ filter (fun kv : Z * byte => next st <= kv.1 < limit st) (map_seqZ index data).

(** The bytes at positions [i], [i+1], ... up to the first gap (at most [n]). *)
Fixpoint run_from (n : nat) (i : Z) (m : gmap Z byte) : bytes :=
  match n with
  | O => []
  | S n' => match m !! i with Some b => b :: run_from n' (i + 1) m | None => [] end
  end.

Definition push (data : bytes) (index : Z) (eof : bool) (st : state) : state :=
  let eof_at := if eof then Some (to_u64 (index + zlen data)) else eof_at st in
  let held := accept data index st in
  let assembled' := assembled st ++ run_from (Z.to_nat (cap st)) (next st) held in
  mk assembled' (filter (fun kv : Z * byte => zlen assembled' <= kv.1) held) (consumed st) eof_at
     (ended st || bool_decide (eof_at = Some (next st)) || bool_decide (eof_at = Some (zlen assembled')))
     (cap st).

(** The reader takes [n] bytes out of the output stream. *)
Definition consume (n : Z) (st : state) : state :=
  mk (assembled st) (pending st) (consumed st + n) (eof_at st) (ended st) (cap st).

Lemma lookup_accept data index st i :
  accept data index st !! i =
  match pending st !! i with
  | Some b => Some b
  | None => if decide (next st <= i < limit st /\ index <= i)
            then data !! Z.to_nat (i - index) else None
  end.
Proof.
  unfold accept. rewrite lookup_union, map_lookup_filter.
  destruct (pending st !! i) as [b|]; simpl; [by destruct (map_seqZ index data !! i); simpl; try case_guard|].
  rewrite (left_id_L None (∪)). case_decide as H.
  - destruct (data !! Z.to_nat (i - index)) as [b|] eqn:E.
    + rewrite (proj2 (lookup_map_seqZ_Some index data i b)) by (split; [lia|done]). simpl.
      rewrite option_guard_True by (simpl; lia). done.
    + rewrite (proj2 (lookup_map_seqZ_None index data i)); [done|].
      apply lookup_ge_None in E. lia.
  - destruct (map_seqZ index data !! i) as [b|] eqn:E; simpl; [|done].
    apply lookup_map_seqZ_Some in E as [? _]. rewrite option_guard_False; [done|simpl; lia].
Qed.

Lemma run_from_spec n i (m : gmap Z byte) (l : bytes) :
  (length l <= n)%nat ->
  (forall k, (k < length l)%nat -> m !! (i + Z.of_nat k) = l !! k) ->
  m !! (i + zlen l) = None -> run_from n i m = l.
Proof.
  revert i l. induction n as [|n IH]; intros i l Hlen Hl Hend; simpl.
  - by destruct l; [|simpl in Hlen; lia].
  - destruct l as [|b l].
    + rewrite zlen_nil, Z.add_0_r in Hend. by rewrite Hend.
    + pose proof (Hl 0%nat ltac:(simpl; lia)) as H0. rewrite Z.add_0_r in H0. rewrite H0. simpl.
      f_equal. apply IH.
      * simpl in Hlen. lia.
      * intros k Hk. change (l !! k) with ((b :: l) !! S k).
        rewrite <- Hl by (simpl; lia). f_equal. lia.
      * rewrite <- Hend. autorewrite with zlen. f_equal. lia.
Qed.

Lemma run_from_lookup n i (m : gmap Z byte) k b :
  run_from n i m !! k = Some b -> m !! (i + Z.of_nat k) = Some b.
Proof.
  revert i k. induction n as [|n IH]; intros i k; simpl; [done|].
  destruct (m !! i) as [c|] eqn:E; [|done]. destruct k as [|k]; simpl.
  - intros [= <-]. by rewrite Z.add_0_r.
  - intros H. apply IH in H. rewrite <- H. f_equal. lia.
Qed.

Lemma lookup_held_push data index eof st i :
  pending (push data index eof st) !! i =
  if decide (next (push data index eof st) <= i) then accept data index st !! i else None.
Proof.
  unfold push, next at 1. simpl. rewrite map_lookup_filter.
  destruct (accept data index st !! i); simpl; repeat case_decide; try done.
Qed.

Lemma next_push data index eof st :
  next (push data index eof st)
  = next st + zlen (run_from (Z.to_nat (cap st)) (next st) (accept data index st)).
Proof. unfold push, next. simpl. by autorewrite with zlen. Qed.

Lemma next_push_le data index eof st : next st <= next (push data index eof st).
Proof. rewrite next_push. pose proof (zlen_nonneg (run_from (Z.to_nat (cap st)) (next st) (accept data index st))). lia. Qed.

(** A byte of the substring that falls into the window is assembled or held. *)
Lemma push_keeps data index eof st i :
  next st <= i < limit st -> index <= i < index + zlen data ->
  i < next (push data index eof st) \/ is_Some (pending (push data index eof st) !! i).
Proof.
  intros Hw Hi. rewrite lookup_held_push. case_decide; [|lia]. right.
  rewrite lookup_accept. destruct (pending st !! i); [by eexists|].
  rewrite decide_True by lia. apply lookup_lt_is_Some. unfold zlen in *. lia.
Qed.

(** A substring that covers the first missing position, in the window, is assembled there. *)
Lemma push_advances data index eof st :
  0 < cap st -> next st < limit st -> index <= next st < index + zlen data ->
  next st < next (push data index eof st).
Proof.
  intros Hcap Hlim Hi. rewrite next_push. destruct (Z.to_nat (cap st)) as [|n] eqn:En; [lia|]. simpl.
  assert (Hacc : is_Some (accept data index st !! next st)).
  { rewrite lookup_accept. destruct (pending st !! next st); [by eexists|]. rewrite decide_True by lia.
    apply lookup_lt_is_Some. unfold zlen in *. lia. }
  destruct Hacc as [b ->]. autorewrite with zlen. pose proof (zlen_nonneg (run_from n (next st + 1) (accept data index st))). lia.
Qed.

(** So does a byte that was held before. *)
Lemma push_keeps_held data index eof st i :
  is_Some (pending st !! i) ->
  i < next (push data index eof st) \/ is_Some (pending (push data index eof st) !! i).
Proof.
  intros [b Hb]. rewrite lookup_held_push, lookup_accept, Hb. case_decide; [|lia]. right. by eexists.
Qed.

(** Whatever is assembled or held after a push was so before or is covered by the substring. *)
Lemma push_only data index eof st i :
  next st <= i < next (push data index eof st) \/ is_Some (pending (push data index eof st) !! i) ->
  is_Some (pending st !! i) \/ index <= i < index + zlen data.
Proof.
  intros H. assert (Ha : is_Some (accept data index st !! i)).
  { destruct H as [Hi|Hp].
    - rewrite next_push in Hi.
      destruct (lookup_lt_is_Some_2 (run_from (Z.to_nat (cap st)) (next st) (accept data index st)) (Z.to_nat (i - next st)))
        as [b Hb]; [unfold zlen in Hi; lia|].
      apply run_from_lookup in Hb. exists b. rewrite <- Hb. f_equal. lia.
    - rewrite lookup_held_push in Hp. by case_decide; [|destruct Hp]. }
  rewrite lookup_accept in Ha. destruct (pending st !! i); [left; by eexists|right].
  case_decide as Hd; [|by destruct Ha]. apply lookup_lt_is_Some in Ha. unfold zlen. lia.
Qed.

(** The end mark does not change what is assembled. *)
Lemma assembled_push_eof data index eof st :
  assembled (push data index eof st) = assembled (push data index false st).
Proof. done. Qed.

(** *** Streams *)

(** Everything assembled or held agrees with the stream [S]. *)
Record sound (S : bytes) (st : state) : Prop := {
  sound_assembled : forall k b, assembled st !! k = Some b -> S !! k = Some b;
  sound_pending : forall i b, pending st !! i = Some b -> 0 <= i /\ S !! Z.to_nat i = Some b;
  sound_eof : forall e, eof_at st = Some e -> e = zlen S;
  sound_ended : ended st = true -> next st = zlen S;
  sound_closed : eof_at st = Some (next st) -> ended st = true
}.

(** [data] is the part of [S] that starts at [index]; [eof] is set at most on the last part. *)
Definition excerpt (S data : bytes) (index : Z) (eof : bool) : Prop :=
  0 <= index /\ index + zlen data <= zlen S /\
  data = take (length data) (drop (Z.to_nat index) S) /\
  (eof = true -> index + zlen data = zlen S).

Lemma agree_take (S l : bytes) :
  (forall k b, l !! k = Some b -> S !! k = Some b) -> l = take (length l) S /\ (length l <= length S)%nat.
Proof.
  intros H. assert (Hlen : (length l <= length S)%nat).
  { destruct l as [|b l] using rev_ind; [simpl; lia|].
    specialize (H (length l) b). rewrite list_lookup_middle in H by done.
    specialize (H eq_refl). apply lookup_lt_Some in H. rewrite length_app. simpl. lia. }
  split; [|done]. apply list_eq. intros k. destruct (l !! k) as [b|] eqn:E.
  - symmetry. rewrite lookup_take_lt by (by eapply lookup_lt_Some). auto.
  - symmetry. apply lookup_ge_None in E. apply lookup_ge_None. rewrite length_take. lia.
Qed.

Lemma sound_next S st : sound S st -> next st <= zlen S.
Proof.
  intros [Ha _ _ _ _]. destruct (agree_take S (assembled st) Ha). unfold next, zlen. lia.
Qed.

Lemma sound_accept S st data index eof i b :
  sound S st -> excerpt S data index eof -> accept data index st !! i = Some b ->
  0 <= i /\ S !! Z.to_nat i = Some b.
Proof.
  intros [Ha Hp _ _ _] (Hi & Hle & Hd & _). rewrite lookup_accept.
  destruct (pending st !! i) as [c|] eqn:E; [intros [= <-]; auto|].
  case_decide as Hc; [|done]. intros Hb. split; [lia|].
  rewrite Hd in Hb. apply lookup_take_Some in Hb as [Hb _]. rewrite lookup_drop in Hb.
  rewrite <- Hb. f_equal. lia.
Qed.

Lemma sound_push S st data index eof :
  zlen S < 2 ^ 64 -> sound S st -> excerpt S data index eof -> sound S (push data index eof st).
Proof.
  intros HS Hs He. pose proof (sound_accept S st data index eof) as Hacc.
  assert (Ha' : forall k b, assembled (push data index eof st) !! k = Some b -> S !! k = Some b).
  { intros k b. unfold push. simpl. intros Hk. apply lookup_app_Some in Hk as [Hk|[Hle Hk]].
    - by apply (sound_assembled S st Hs).
    - apply run_from_lookup in Hk. apply Hacc in Hk as [_ Hk]; [|done..].
      rewrite <- Hk. f_equal. unfold next, zlen. lia. }
  assert (He' : forall e, eof_at (push data index eof st) = Some e -> e = zlen S).
  { intros e. destruct He as (? & ? & _ & He). unfold push. simpl. destruct eof; [|apply Hs].
    intros [= <-]. rewrite He by done. apply to_u64_small. pose proof (zlen_nonneg S). width_lia. }
  destruct (agree_take S _ Ha') as [_ Hlen'].
  pose proof (next_push_le data index eof st) as Hmono. split; [done| |done| |].
  - intros i b. rewrite lookup_held_push. case_decide; [|done]. by apply Hacc.
  - intros Hend. assert (next (push data index eof st) <= zlen S) by (unfold next, zlen; lia).
    unfold push in Hend. simpl in Hend. rewrite !orb_true_iff, !bool_decide_eq_true in Hend.
    destruct Hend as [[Hend|Hend]|Hend].
    + apply (sound_ended S st Hs) in Hend. lia.
    + apply He' in Hend. lia.
    + by apply He' in Hend.
  - intros Heq. unfold push in *. simpl in *. rewrite Heq. unfold next. simpl.
    rewrite !orb_true_iff, !bool_decide_eq_true. by right.
Qed.

(** An empty substring without the end mark has no position. *)
Lemma push_nil index index' st : push [] index false st = push [] index' false st.
Proof. done. Qed.

Lemma excerpt_nil S : excerpt S [] 0 false.
Proof. unfold excerpt. pose proof (zlen_nonneg S). rewrite (@zlen_nil byte). split_and!; [lia|lia|done|done]. Qed.

(** What is sound for a stream without a known end is sound for its continuations. *)
Lemma sound_prefix S S' st : sound S st -> eof_at st = None -> ended st = false -> S `prefix_of` S' -> sound S' st.
Proof.
  intros [Ha Hp He Hn Hc] Hnone Hopen [T ->]. split; [| |congruence|congruence|congruence].
  - intros k b Hk. apply lookup_app_l_Some. auto.
  - intros i b Hi. destruct (Hp i b Hi). split; [done|]. by apply lookup_app_l_Some.
Qed.

End Spec.

Module Reassembly.

Import StreamReassembler.

(** The relation between a reassembler and its abstract state. *)
Record refines (sr : StreamReassembler) (st : Spec.state) : Prop := {
  ref_ok : ok sr;
  ref_cap : Spec.cap st = _capacity sr;
  ref_next : Spec.next st = ByteStream.bytes_written (_output sr);
  ref_consumed : Spec.consumed st = ByteStream.bytes_read (_output sr);
  ref_bound : 0 <= Spec.consumed st <= Spec.next st;
  ref_buffer : ByteStream.buffer (_output sr)
               = drop (Z.to_nat (Spec.consumed st)) (Spec.assembled st);
  ref_pending : forall i, Spec.pending st !! i =
    if decide (Spec.next st <= i)
    then slot (_buffer sr) (_bitmap sr) (Z.to_nat (i - Spec.next st)) else None;
  ref_eof : Spec.eof_at st = if _eof_flag sr then Some (_eof_index sr) else None;
  ref_ended : Spec.ended st = ByteStream.input_ended (_output sr);
  ref_no_capacity : Spec.cap st = 0 -> Spec.assembled st = []
}.

(** The caller's obligation: the index is a [uint64_t] and the window together with
    the substring stays below the end of the 64-bit sequence space. *)
Definition fits (data : bytes) (index : Z) (sr : StreamReassembler) : Prop :=
  is_u64 index /\ ByteStream.bytes_read (_output sr) + _capacity sr + zlen data < 2 ^ 64.

Section Push.
Context (sr : StreamReassembler) (st : Spec.state) (R : refines sr st).
Context (data : bytes) (index : Z) (Hfits : fits data index sr).

Lemma sizes :
  0 <= Spec.cap st < 2 ^ 64 /\ 0 <= Spec.consumed st /\ 0 <= zlen data /\
  0 <= index < 2 ^ 64 /\ Spec.limit st + zlen data < 2 ^ 64 /\
  ByteStream.room (_output sr) = Spec.limit st - Spec.next st /\
  0 <= Spec.next st <= Spec.limit st.
Proof.
  destruct Hfits as [Hi Hf]. destruct R as [Hok Hcap Hn Hc Hb Hbuf _ _ _ _].
  destruct Hok as [Ho Hcapo _ _ _]. pose proof (ByteStream.room_range _ Ho) as Hr.
  destruct Ho as [Hc64 _ _ _]. pose proof (zlen_nonneg data). unfold Spec.limit.
  unfold ByteStream.room in *. rewrite Hbuf in *. rewrite zlen_drop in * by lia.
  unfold Spec.next in *. rewrite Hcapo, <- Hcap in *. unfold is_u64 in *. lia.
Qed.

Lemma limit_eq : to_u64 (ByteStream.bytes_read (_output sr) + _capacity sr) = Spec.limit st.
Proof.
  pose proof sizes. destruct R as [_ Hcap _ Hc _ _ _ _ _ _]. unfold Spec.limit in *.
  rewrite <- Hc, <- Hcap. apply to_u64_small. width_lia.
Qed.

Lemma pending_slot k :
  Spec.pending st !! (Spec.next st + Z.of_nat k) = slot (_buffer sr) (_bitmap sr) k.
Proof.
  rewrite (ref_pending _ _ R). rewrite decide_True by lia. f_equal. lia.
Qed.

Lemma overlay_accept d s n k :
  0 <= d -> 0 <= s -> s - d = Spec.next st - index ->
  d + n = Z.min (index + zlen data) (Spec.limit st) - Spec.next st ->
  d = Z.max 0 (index - Spec.next st) ->
  overlay data d s n (slot (_buffer sr) (_bitmap sr)) k
  = Spec.accept data index st !! (Spec.next st + Z.of_nat k).
Proof.
  intros Hd Hs Hsd Hn Hmax. rewrite Spec.lookup_accept, pending_slot. unfold overlay.
  destruct (slot _ _ k); [done|]. repeat case_decide; try lia.
  - f_equal. lia.
  - symmetry. apply lookup_ge_None. unfold zlen in *. lia.
  - done.
Qed.

(** Cases 2 and 3 together: the window afterwards holds what the contract holds. *)
Lemma store_refines :
  Spec.next st < to_u64 (index + zlen data) -> index < Spec.limit st ->
  exists w, store data index index (to_u64 (index + zlen data)) (Spec.next st) (Spec.limit st)
              (_buffer sr, _bitmap sr, _unassembled_bytes sr) = Ok w /\
    window_ok (_capacity sr) w /\
    forall k, slot w.1.1 w.1.2 k = Spec.accept data index st !! (Spec.next st + Z.of_nat k).
Proof.
  pose proof sizes as (Hcap & Hcons & Hdata & Hidx & Hlim & Hroom & Hnext). intros Hend Hstart.
  rewrite to_u64_small in * by width_lia.
  assert (Hin : Spec.limit st - Spec.next st <= _capacity sr).
  { destruct R as [_ Hc _ _ ? _ _ _ _ _]. unfold Spec.limit. lia. }
  pose proof (ref_cap _ _ R) as Ecap. unfold store. case_decide as Hcase.
  - rewrite !to_u64_small by width_lia.
    destruct (store_loop_spec data (index - Spec.next st) 0
      (Z.min (index + zlen data) (Spec.limit st) - index) (_capacity sr)
      (_buffer sr, _bitmap sr, _unassembled_bytes sr)
      (fun i => to_u64 (i + (index - Spec.next st))) (fun i => i)) as (w & E & Hw & Hs); try lia.
    + width_lia.
    + apply R.
    + intros i Hi. rewrite to_u64_small by width_lia. lia.
    + exists w. split; [done|]. split; [done|]. intros k. rewrite Hs. apply overlay_accept; lia.
  - rewrite decide_True by lia. rewrite Z.max_r by lia. rewrite !to_u64_small by width_lia.
    destruct (store_loop_spec data 0 (Spec.next st - index)
      (Z.min (index + zlen data) (Spec.limit st) - Spec.next st) (_capacity sr)
      (_buffer sr, _bitmap sr, _unassembled_bytes sr)
      (fun i => i) (fun i => to_u64 (i + (Spec.next st - index)))) as (w & E & Hw & Hs); try lia.
    + width_lia.
    + apply R.
    + intros i Hi. rewrite to_u64_small by width_lia. lia.
    + exists w. split; [done|]. split; [done|]. intros k. rewrite Hs. apply overlay_accept; lia.
Qed.

(** A segment outside the window changes neither the bytes held back nor the
    assembled bytes. *)
Lemma accept_outside :
  to_u64 (index + zlen data) <= Spec.next st \/ index >= Spec.limit st ->
  Spec.accept data index st = Spec.pending st.
Proof.
  pose proof sizes as (Hcap & Hcons & Hdata & Hidx & Hlim & Hroom & Hnext). intros Hout.
  apply map_eq. intros i. rewrite Spec.lookup_accept.
  destruct (Spec.pending st !! i); [done|]. case_decide as Hi; [|done].
  apply lookup_ge_None. destruct Hout as [Hout|]; [|lia].
  rewrite to_u64_small in Hout by width_lia. unfold zlen in *. lia.
Qed.

Lemma push_outside eof :
  to_u64 (index + zlen data) <= Spec.next st \/ index >= Spec.limit st ->
  Spec.push data index eof st =
  let eof_at := if eof then Some (to_u64 (index + zlen data)) else Spec.eof_at st in
  Spec.mk (Spec.assembled st) (Spec.pending st) (Spec.consumed st) eof_at
    (Spec.ended st || bool_decide (eof_at = Some (Spec.next st))) (Spec.cap st).
Proof.
  intros Hout. unfold Spec.push. rewrite accept_outside by done.
  assert (Hrun : Spec.run_from (Z.to_nat (Spec.cap st)) (Spec.next st) (Spec.pending st) = []).
  { apply Spec.run_from_spec; [simpl; lia|intros k Hk; simpl in Hk; lia|].
    rewrite zlen_nil, <- (ok_front _ (ref_ok _ _ R)). apply (pending_slot 0). }
  rewrite Hrun, app_nil_r. fold (Spec.next st). f_equal.
  - apply map_filter_id. intros i b Hb. rewrite (ref_pending _ _ R) in Hb.
    by destruct (decide (Spec.next st <= i)).
  - destruct (Spec.ended st), (bool_decide _); done.
Qed.

(** What the assembling loop finds in a window that holds [Spec.accept]. *)
Lemma assemble_refines buf bm un :
  window_ok (_capacity sr) (buf, bm, un) -> 0 < _capacity sr ->
  (forall k, slot buf bm k = Spec.accept data index st !! (Spec.next st + Z.of_nat k)) ->
  exists m, assemble buf bm = Ok (assembling buf bm m) /\ (m <= length bm)%nat /\ filled bm m /\
    slot buf bm m = None /\ length buf = length bm /\ zlen (take m buf) = Z.of_nat m /\
    Spec.run_from (Z.to_nat (Spec.cap st)) (Spec.next st) (Spec.accept data index st) = take m buf.
Proof.
  intros [Hb Hm _] Hpos Hslot. simpl in *. unfold zlen in Hb, Hm.
  destruct (assemble_spec buf bm) as (m & E & Hle & Hf & Hend); [lia..|].
  assert (Hlen : zlen (take m buf) = Z.of_nat m) by (unfold zlen; rewrite length_take; lia).
  exists m. split_and!; try done; [lia|]. pose proof (ref_cap _ _ R).
  apply Spec.run_from_spec.
  - rewrite length_take. lia.
  - intros k Hk. rewrite length_take in Hk. rewrite <- Hslot. unfold slot.
    rewrite (Hf k) by lia. by rewrite lookup_take_lt by lia.
  - rewrite Hlen, <- Hslot. done.
Qed.

(** Writing the assembled bytes: there is room for all of them. *)
Lemma flush_spec str un out :
  ByteStream.ok out -> zlen str <= ByteStream.room out -> zlen str <= un < 2 ^ 64 ->
  exists out', flush str un out = Ok (out', un - zlen str) /\ ByteStream.ok out' /\
    ByteStream.buffer out' = ByteStream.buffer out ++ str /\
    ByteStream.written_bytes out' = to_u64 (ByteStream.written_bytes out + zlen str) /\
    ByteStream.read_bytes out' = ByteStream.read_bytes out /\
    ByteStream.capacity out' = ByteStream.capacity out /\
    ByteStream.end_write out' = ByteStream.end_write out.
Proof.
  intros Hok Hroom Hun. unfold flush. pose proof (zlen_nonneg str). case_decide as Hs.
  - pose proof (ByteStream.write_eq str out Hok) as E. cbv zeta in E. rewrite E. simpl.
    rewrite (to_u64_small (un - zlen str)) by width_lia. eexists. split; [done|].
    split; [by eapply ByteStream.write_ok; [|exact E]|]. simpl. rewrite Z.min_r by lia.
    split_and!; try done. rewrite take_ge; [done|unfold zlen; lia].
  - replace str with (@nil byte) in * by (symmetry; apply zlen_0_nil; lia).
    exists out. rewrite zlen_nil, Z.sub_0_r, app_nil_r, Z.add_0_r.
    destruct (ByteStream.ok_counters out Hok) as [-> _]. done.
Qed.
End Push.

(** The end-of-input tests. *)
Lemma check_eof_fields flag idx n out :
  ByteStream.buffer (check_eof flag idx n out) = ByteStream.buffer out /\
  ByteStream.capacity (check_eof flag idx n out) = ByteStream.capacity out /\
  ByteStream.written_bytes (check_eof flag idx n out) = ByteStream.written_bytes out /\
  ByteStream.read_bytes (check_eof flag idx n out) = ByteStream.read_bytes out /\
  ByteStream.end_write (check_eof flag idx n out)
    = ByteStream.end_write out || bool_decide ((if flag then Some idx else None) = Some n).
Proof.
  unfold check_eof. destruct flag; simpl; [destruct (decide (idx = n)) as [->|Hne]|].
  - rewrite !bool_decide_eq_true_2 by done. simpl. by rewrite orb_true_r.
  - rewrite !bool_decide_eq_false_2 by congruence. simpl. by rewrite orb_false_r.
  - by rewrite orb_false_r.
Qed.

Lemma check_eof_ok flag idx n out : ByteStream.ok out -> ByteStream.ok (check_eof flag idx n out).
Proof. unfold check_eof. intros. destruct (_ && _); auto with sponge. Qed.

(** The end-of-stream fields after the first lines of [push_substring]. *)
Lemma eof_fields (eof flag : bool) (idx idx' : Z) :
  (if (if eof then true else flag) then Some (if eof then idx' else idx) else None)
  = if eof then Some idx' else if flag then Some idx else None.
Proof. by destruct eof. Qed.

Lemma push_refines_outside sr st data index eof :
  refines sr st -> fits data index sr ->
  to_u64 (index + zlen data) <= Spec.next st \/ index >= Spec.limit st ->
  exists sr', push_substring data index eof sr = Ok sr' /\ refines sr' (Spec.push data index eof st).
Proof.
  intros R Hfits Hout. unfold push_substring. rewrite (limit_eq sr st R data index Hfits).
  rewrite <- (ref_next _ _ R).
  replace (bool_decide _ || bool_decide _) with true.
  2:{ symmetry. apply orb_true_iff. rewrite !bool_decide_eq_true. done. }
  eexists. split; [done|]. rewrite (push_outside sr st R data index Hfits) by done.
  match goal with |- context [check_eof ?f ?i ?n ?o] =>
    destruct (check_eof_fields f i n o) as (Hb & Hc & Hw & Hr & He);
    pose proof (check_eof_ok f i n o) as Hok; set (out := check_eof f i n o) in * end.
  destruct R as [[Ho Hcapo Hwin Hroom Hfront] Hcap Hn Hcons Hbd Hbuf Hp Heof Hend Hz].
  rewrite eof_fields, <- Heof in He.
  split; simpl; unfold ByteStream.bytes_written, ByteStream.bytes_read, ByteStream.input_ended in *;
    rewrite ?Hb, ?Hw, ?Hr, ?He, ?eof_fields, ?Heof, ?Hend; try done.
  split; simpl; try done.
  - by apply Hok.
  - by rewrite Hc.
  - intros k Hk. unfold ByteStream.room. rewrite Hb, Hc. by apply Hroom.
Qed.

(** The bytes the contract holds are inside the window. *)
Lemma accept_bound sr st data index k :
  refines sr st -> fits data index sr ->
  is_Some (Spec.accept data index st !! (Spec.next st + Z.of_nat k)) ->
  Z.of_nat k < ByteStream.room (_output sr).
Proof.
  intros R Hfits. destruct (sizes sr st R data index Hfits) as (_ & _ & _ & _ & _ & Hroom & _).
  rewrite Spec.lookup_accept, (pending_slot sr st R).
  destruct (slot _ _ k) as [b|] eqn:E; intros [b' Hb'].
  - apply (ok_room _ (ref_ok _ _ R)). by exists b.
  - case_decide; [lia|done].
Qed.

(** The state after the window has been filled, assembled and flushed. *)
Lemma refines_flushed sr st data index (eof : bool) buf bm un m out sr' :
  refines sr st -> fits data index sr ->
  window_ok (_capacity sr) (buf, bm, un) ->
  (forall k, slot buf bm k = Spec.accept data index st !! (Spec.next st + Z.of_nat k)) ->
  (m <= length bm)%nat -> filled bm m -> slot buf bm m = None -> length buf = length bm ->
  Spec.run_from (Z.to_nat (Spec.cap st)) (Spec.next st) (Spec.accept data index st) = take m buf ->
  ByteStream.ok out -> ByteStream.buffer out = ByteStream.buffer (_output sr) ++ take m buf ->
  ByteStream.written_bytes out = Spec.next st + Z.of_nat m ->
  ByteStream.read_bytes out = ByteStream.read_bytes (_output sr) ->
  ByteStream.capacity out = _capacity sr -> 0 < _capacity sr ->
  sr' = mk (shifted m Byte.x00 buf) (shifted m false bm)
           (if eof then true else _eof_flag sr)
           (if eof then to_u64 (index + zlen data) else _eof_index sr)
           (un - Z.of_nat m) out (_capacity sr) ->
  ByteStream.end_write out = Spec.ended (Spec.push data index eof st) ->
  refines sr' (Spec.push data index eof st).
Proof.
  intros R Hfits [Hwb Hwm Hwu] Hs Hm Hf Hend Hlen Hrun Hok Hb Hw Hr Hc Hpos -> Hended. simpl in *.
  destruct (sizes sr st R data index Hfits) as (Hcap & Hcons & _ & _ & _ & Hroom & Hnext).
  assert (Hzm : zlen (take m buf) = Z.of_nat m) by (unfold zlen; rewrite length_take; lia).
  unfold Spec.push in *. rewrite Hrun in *. split; simpl.
  - split; simpl; [done|done| | |].
    + split; simpl; rewrite ?zlen_shifted, ?trues_shifted by (done || lia); [done|done|lia].
    + intros k Hk. rewrite slot_shifted in Hk by done. rewrite Hs in Hk.
      apply (accept_bound sr st data index (m + k) R Hfits) in Hk.
      pose proof (ok_capacity _ (ref_ok _ _ R)) as Hcs.
      unfold ByteStream.room in *. rewrite Hb, Hc. autorewrite with zlen. rewrite Hcs in *. lia.
    + rewrite slot_shifted by done. by rewrite Nat.add_0_r.
  - apply (ref_cap _ _ R).
  - unfold Spec.next, ByteStream.bytes_written in *. simpl. autorewrite with zlen. lia.
  - unfold ByteStream.bytes_read. rewrite Hr. apply (ref_consumed _ _ R).
  - pose proof (ref_bound _ _ R). unfold Spec.next in *. simpl. autorewrite with zlen. lia.
  - rewrite Hb, (ref_buffer _ _ R). rewrite drop_app_le; [done|].
    pose proof (ref_bound _ _ R). unfold Spec.next, zlen in *. lia.
  - intros i. unfold Spec.next. simpl. autorewrite with zlen. rewrite Hzm. fold (Spec.next st).
    rewrite map_lookup_filter. destruct (decide (Spec.next st + Z.of_nat m <= i)) as [Hi|Hi].
    + rewrite slot_shifted, Hs by done.
      replace (Spec.next st + Z.of_nat (m + Z.to_nat (i - (Spec.next st + Z.of_nat m)))) with i by lia.
      destruct (Spec.accept data index st !! i); simpl; [|done]. by rewrite option_guard_True by done.
    + destruct (Spec.accept data index st !! i); simpl; [|done]. by rewrite option_guard_False by done.
  - by rewrite eof_fields, (ref_eof _ _ R).
  - unfold ByteStream.input_ended. done.
  - rewrite (ref_cap _ _ R). lia.
Qed.

(** An index below the limit needs some capacity. *)
Lemma capacity_pos sr st :
  refines sr st -> forall data index, fits data index sr -> index < Spec.limit st -> 0 < _capacity sr.
Proof.
  intros R data index Hfits Hstart. destruct (sizes sr st R data index Hfits) as (Hcap & Hcons & _ & Hidx & _).
  pose proof (ref_no_capacity _ _ R) as Hz. pose proof (ref_cap _ _ R).
  pose proof (ref_bound _ _ R). unfold Spec.next, Spec.limit in *.
  destruct (decide (Spec.cap st = 0)) as [E|]; [|lia].
  pose proof (f_equal zlen (Hz E)) as Hnil. rewrite zlen_nil in Hnil. lia.
Qed.

Lemma push_refines_inside sr st data index eof :
  refines sr st -> fits data index sr ->
  Spec.next st < to_u64 (index + zlen data) -> index < Spec.limit st ->
  exists sr', push_substring data index eof sr = Ok sr' /\ refines sr' (Spec.push data index eof st).
Proof.
  intros R Hfits Hend Hstart.
  destruct (sizes sr st R data index Hfits) as (Hcap & Hcons & _ & Hidx & Hlim & Hroom & Hnext).
  assert (Hpos : 0 < _capacity sr) by (apply (capacity_pos sr st R data index Hfits Hstart)).
  destruct (store_refines sr st R data index Hfits Hend Hstart) as ([[buf bm] un] & E & Hw & Hs).
  destruct (assemble_refines sr st R data index buf bm un Hw Hpos Hs)
    as (m & Ea & Hm & Hf & He & Hlen & Hzm & Hrun). simpl in Hs.
  unfold push_substring. rewrite (limit_eq sr st R data index Hfits), <- (ref_next _ _ R).
  rewrite !bool_decide_eq_false_2 by lia. simpl. rewrite E. simpl. rewrite Ea. simpl.
  match goal with |- context [check_eof ?f ?i (Spec.next st) ?o] =>
    destruct (check_eof_fields f i (Spec.next st) o) as (Hb0 & Hc0 & Hw0 & Hr0 & He0);
    pose proof (check_eof_ok f i (Spec.next st) o (ok_output _ (ref_ok _ _ R))) as Hok0;
    set (out0 := check_eof f i (Spec.next st) o) in * end.
  assert (Hmroom : Z.of_nat m <= ByteStream.room (_output sr)).
  { destruct m as [|m]; [lia|].
    destruct (slot_filled buf bm m Hlen (Hf m ltac:(lia))) as [b Hslot]. rewrite Hs in Hslot.
    pose proof (accept_bound sr st data index m R Hfits (mk_is_Some _ _ Hslot)). lia. }
  destruct Hw as [Hwb Hwm Hwu]. pose proof (filled_trues bm m Hf Hm) as Ht.
  pose proof (trues_range (drop m bm)) as Htd. pose proof (trues_range bm) as Htr.
  assert (Htt : trues bm = trues (take m bm) + trues (drop m bm))
    by (rewrite <- trues_app; by rewrite take_drop).
  simpl in *. pose proof (ref_cap _ _ R) as Hcapeq.
  destruct (flush_spec (take m buf) un out0) as (out1 & Efl & Hok1 & Hb1 & Hw1 & Hr1 & Hc1 & He1);
    [done|unfold ByteStream.room in *; rewrite Hb0, Hc0, Hzm; lia|lia|].
  rewrite Efl. simpl. eexists. split; [done|].
  match goal with |- context [check_eof ?f ?i ?n out1] =>
    destruct (check_eof_fields f i n out1) as (Hb2 & Hc2 & Hw2 & Hr2 & He2);
    pose proof (check_eof_ok f i n out1 Hok1) as Hok2 end.
  assert (Hw1' : ByteStream.written_bytes out1 = Spec.next st + Z.of_nat m).
  { rewrite Hw1, Hw0, Hzm. pose proof (ref_next _ _ R) as Hn. unfold ByteStream.bytes_written in Hn.
    rewrite <- Hn. pose proof (zlen_nonneg data). apply to_u64_small. width_lia. }
  rewrite Hzm.
  eapply (refines_flushed sr st data index eof buf bm un m); eauto.
  - done.
  - by rewrite Hb2, Hb1, Hb0.
  - by rewrite Hw2.
  - by rewrite Hr2, Hr1, Hr0.
  - rewrite Hc2, Hc1, Hc0. apply (ok_capacity _ (ref_ok _ _ R)).
  - rewrite He2, He1, He0, eof_fields, <- (ref_eof _ _ R). unfold ByteStream.bytes_written.
    rewrite Hw1'. unfold Spec.push. rewrite Hrun. simpl. autorewrite with zlen. rewrite Hzm.
    fold (Spec.next st). by rewrite (ref_ended _ _ R).
Qed.

(** One push implements the contract, and returns. *)
Lemma push_step sr st data index eof :
  refines sr st -> fits data index sr ->
  exists sr', push_substring data index eof sr = Ok sr' /\ refines sr' (Spec.push data index eof st).
Proof.
  intros R Hfits.
  destruct (decide (Spec.next st < to_u64 (index + zlen data) /\ index < Spec.limit st)) as [[? ?]|Hout].
  - by apply push_refines_inside.
  - apply push_refines_outside; [done..|lia].
Qed.

Lemma init_refines cap : is_u64 cap -> refines (construct cap) (Spec.init cap).
Proof.
  intros Hcap. split; simpl; try done.
  - by apply reassembler_construct_ok.
  - intros i. rewrite lookup_empty. case_decide; [|done]. by rewrite slot_empty.
Qed.

Lemma sizes_cap sr st : refines sr st -> 0 <= Spec.cap st /\ Spec.cap st < 2 ^ 64.
Proof.
  intros R. rewrite (ref_cap _ _ R), <- (ok_capacity _ (ref_ok _ _ R)).
  apply (ok_output _ (ref_ok _ _ R)).
Qed.

(** ** The reader's side *)

Lemma available sr st :
  refines sr st -> zlen (ByteStream.buffer (_output sr)) = Spec.next st - Spec.consumed st /\
                   Spec.next st < 2 ^ 64.
Proof.
  intros R. pose proof (ref_bound _ _ R). rewrite (ref_buffer _ _ R), zlen_drop by lia.
  unfold Spec.next in *. split; [lia|]. pose proof (ref_next _ _ R) as Hn.
  unfold Spec.next, ByteStream.bytes_written in Hn.
  destruct (ok_output _ (ref_ok _ _ R)) as [_ _ _ Hw]. rewrite Hn, Hw. width_lia.
Qed.

(** Reading from [stream_out()]. *)
Definition read_out (len : Z) (sr : StreamReassembler) : res (bytes * StreamReassembler) :=
  '(out, bs) ← ByteStream.read len (stream_out sr); Ok (out, set_output bs sr).

Definition Spec_read (len : Z) (st : Spec.state) : bytes * Spec.state :=
  if decide (len <= Spec.next st - Spec.consumed st)
  then (take (Z.to_nat len) (drop (Z.to_nat (Spec.consumed st)) (Spec.assembled st)), Spec.consume len st)
  else ([], st).

Lemma refines_set_output sr st bs st' :
  refines sr st -> ByteStream.ok bs ->
  ByteStream.capacity bs = _capacity sr ->
  ByteStream.written_bytes bs = ByteStream.written_bytes (_output sr) ->
  ByteStream.end_write bs = ByteStream.end_write (_output sr) ->
  ByteStream.read_bytes bs = Spec.consumed st' ->
  Spec.consumed st <= Spec.consumed st' <= Spec.next st ->
  st' = Spec.mk (Spec.assembled st) (Spec.pending st) (Spec.consumed st') (Spec.eof_at st)
          (Spec.ended st) (Spec.cap st) ->
  ByteStream.buffer bs = drop (Z.to_nat (Spec.consumed st')) (Spec.assembled st) ->
  refines (set_output bs sr) st'.
Proof.
  intros R Hok Hc Hw He Hr Hcons Est Hb. pose proof (ref_bound _ _ R) as Hbd.
  destruct (available sr st R) as [Hav _]. rewrite Est in *. simpl in *.
  destruct R as [[Ho Hcapo Hwin Hroom Hfront] Hcap Hn _ _ Hbuf Hp Heof Hend Hz].
  split; simpl; unfold ByteStream.bytes_written, ByteStream.bytes_read, ByteStream.input_ended in *;
    rewrite ?Hw, ?Hr, ?He, ?Hb; try done; [|unfold Spec.next in *; simpl; lia].
  split; simpl; try done. intros k Hk. apply Hroom in Hk. unfold ByteStream.room in *.
  rewrite Hc, Hb, zlen_drop by lia. unfold Spec.next in *. rewrite Hcapo in Hk. lia.
Qed.

Lemma read_step sr st len :
  refines sr st -> is_u64 len ->
  exists sr', read_out len sr = Ok ((Spec_read len st).1, sr') /\ refines sr' (Spec_read len st).2.
Proof.
  intros R Hlen. destruct (available sr st R) as [Hav Hlt]. pose proof (ref_bound _ _ R) as Hbd.
  pose proof (ok_output _ (ref_ok _ _ R)) as Hok. pose proof (ok_capacity _ (ref_ok _ _ R)) as Hcap.
  pose proof (ref_consumed _ _ R) as Hc. unfold ByteStream.bytes_read in Hc.
  unfold read_out, Spec_read, stream_out. rewrite ByteStream.read_eq by apply Hlen. rewrite Hav.
  unfold is_u64 in Hlen. destruct (decide (len <= Spec.next st - Spec.consumed st)) as [Hle|Hgt].
  - rewrite decide_False by lia. simpl. eexists. split; [by rewrite <- (ref_buffer _ _ R)|].
    eapply refines_set_output; eauto; simpl; try done; try lia.
    + apply ByteStream.advance_ok; [done|]. rewrite Hav. lia.
    + rewrite Hc. apply to_u64_small. width_lia.
    + rewrite (ref_buffer _ _ R), drop_drop. f_equal. lia.
  - rewrite decide_True by lia. simpl. eexists. split; [done|].
    eapply refines_set_output; eauto; simpl; try done; try lia.
    + by apply ByteStream.set_error_ok.
    + by destruct st.
    + apply (ref_buffer _ _ R).
Qed.

(** ** Sequences of calls *)

Inductive Op : Set :=
  | OpPush (data : bytes) (index : Z) (eof : bool)
  | OpRead (len : Z).

Definition perform (op : Op) (sr : StreamReassembler) : res (bytes * StreamReassembler) :=
  match op with
  | OpPush data index eof => sr' ← push_substring data index eof sr; Ok ([], sr')
  | OpRead len => read_out len sr
  end.

(** All bytes the reader obtained, and the final state. *)
Fixpoint perform_all (ops : list Op) (sr : StreamReassembler) : res (bytes * StreamReassembler) :=
  match ops with
  | [] => Ok ([], sr)
  | op :: ops' =>
      '(out1, sr1) ← perform op sr;
      '(out2, sr2) ← perform_all ops' sr1;
      Ok (out1 ++ out2, sr2)
  end.

Definition Spec_perform (op : Op) (st : Spec.state) : bytes * Spec.state :=
  match op with
  | OpPush data index eof => ([], Spec.push data index eof st)
  | OpRead len => Spec_read len st
  end.

Definition op_fits (op : Op) (sr : StreamReassembler) : Prop :=
  match op with OpPush data index _ => fits data index sr | OpRead len => is_u64 len end.

Lemma perform_step op sr st :
  refines sr st -> op_fits op sr ->
  exists sr', perform op sr = Ok ((Spec_perform op st).1, sr') /\ refines sr' (Spec_perform op st).2.
Proof.
  intros R Hop. destruct op as [data index eof|len]; simpl in *.
  - destruct (push_step sr st data index eof R Hop) as (sr' & E & R'). rewrite E. by exists sr'.
  - by apply read_step.
Qed.

Definition next_state (op : Op) (sr : StreamReassembler) : res StreamReassembler :=
  '(_, sr') ← perform op sr; Ok sr'.

Lemma next_state_ok op sr :
  (exists st, refines sr st) -> op_fits op sr ->
  exists sr', next_state op sr = Ok sr' /\ exists st, refines sr' st.
Proof.
  intros [st R] Hop. destruct (perform_step op sr st R Hop) as (sr' & E & R').
  unfold next_state. rewrite E. simpl. eauto.
Qed.

#[global] Instance machine : Machine StreamReassembler Op :=
  {| step := next_state; state_ok sr := exists st, refines sr st; op_ok := op_fits;
     step_ok := next_state_ok |}.

(** The position [i] is covered by one of the pushed substrings. *)
Definition covers (op : Op) (i : Z) : Prop :=
  match op with OpPush data index _ => index <= i < index + zlen data | OpRead _ => False end.
Definition covered (ops : list Op) (i : Z) : Prop := Exists (fun op => covers op i) ops.

(** One of the pushed substrings carried the end-of-stream mark. *)
Definition is_eof (op : Op) : Prop := match op with OpPush _ _ eof => eof = true | OpRead _ => False end.

(** The calls of a client whose substrings are excerpts of [S]. *)
Definition feeds (S : bytes) (op : Op) : Prop :=
  match op with
  | OpPush data index eof => Spec.excerpt S data index eof
  | OpRead len => is_u64 len
  end.

(** The state of the contract after [ops] on the stream [S]. *)
Record tracks (S : bytes) (ops : list Op) (st : Spec.state) : Prop := {
  tracks_sound : Spec.sound S st;
  tracks_consumed : 0 <= Spec.consumed st <= Spec.next st;
  tracks_covered : forall i, 0 <= i < Spec.cap st -> covered ops i ->
    i < Spec.next st \/ is_Some (Spec.pending st !! i);
  tracks_eof : Exists is_eof ops -> Spec.eof_at st = Some (zlen S);
  tracks_only : forall i, 0 <= i < Spec.next st \/ is_Some (Spec.pending st !! i) -> covered ops i;
  tracks_announced : is_Some (Spec.eof_at st) \/ Spec.ended st = true -> Exists is_eof ops
}.

Lemma tracks_push S ops st data index eof :
  zlen S < 2 ^ 64 -> tracks S ops st -> Spec.excerpt S data index eof ->
  tracks S (ops ++ [OpPush data index eof]) (Spec.push data index eof st).
Proof.
  intros HS [Hs Hc Hcov Heof Honly Han] He. pose proof (Spec.next_push_le data index eof st) as Hmono. split.
  - by apply Spec.sound_push.
  - simpl. lia.
  - intros i Hi. unfold covered. rewrite Exists_app, Exists_cons, Exists_nil. simpl in Hi.
    destruct (decide (i < Spec.next st)); [left; lia|]. intros [Hold|[Hnew|[]]].
    + destruct (Hcov i Hi Hold); [lia|]. by apply Spec.push_keeps_held.
    + apply Spec.push_keeps; [|done]. unfold Spec.limit. lia.
  - rewrite Exists_app, Exists_cons, Exists_nil. destruct He as (? & ? & _ & He). simpl.
    intros [Hold|[->|[]]].
    + destruct eof; [|by apply Heof]. f_equal. rewrite He by done.
      apply to_u64_small. pose proof (zlen_nonneg S). width_lia.
    + rewrite He by done. f_equal. apply to_u64_small. pose proof (zlen_nonneg S). width_lia.
  - intros i Hi. unfold covered. rewrite Exists_app, Exists_cons, Exists_nil.
    destruct (decide (0 <= i < Spec.next st)) as [Hold|Hnew]; [left; apply Honly; by left|].
    destruct (Spec.push_only data index eof st i) as [Hp|Hd]; [|left; apply Honly; by right|by right; left].
    destruct Hi as [Hi|Hi]; [left; lia|by right].
  - rewrite Exists_app, Exists_cons, Exists_nil. simpl. destruct eof; [by right; left|].
    rewrite !orb_true_iff, !bool_decide_eq_true. intros Hend. left. apply Han.
    destruct Hend as [?|[[?|He']|He']]; [by left|by right|left; rewrite He'; by eexists..].
Qed.

Lemma tracks_read S ops st len :
  0 <= len -> tracks S ops st -> tracks S (ops ++ [OpRead len]) (Spec_read len st).2.
Proof.
  intros Hlen [[] Hc Hcov Heof Honly Han]. unfold Spec_read.
  assert (Hsub : forall i, covered ops i -> covered (ops ++ [OpRead len]) i) by (intros i Hi; apply Exists_app; by left).
  assert (Hex : forall P : Op -> Prop, ~ P (OpRead len) -> Exists P (ops ++ [OpRead len]) -> Exists P ops).
  { intros P HP. rewrite Exists_app, Exists_cons, Exists_nil. tauto. }
  case_decide; split; simpl; try done; unfold Spec.next in *; simpl in *; try lia.
  - intros i Hi Hex'. apply Hcov; [done|]. eapply Hex, Hex'. simpl. tauto.
  - intros Hex'. apply Heof. eapply Hex, Hex'. simpl. tauto.
  - intros i Hi. by apply Hsub, Honly.
  - intros He. apply Exists_app. left. by apply Han.
  - intros i Hi Hex'. apply Hcov; [done|]. eapply Hex, Hex'. simpl. tauto.
  - intros Hex'. apply Heof. eapply Hex, Hex'. simpl. tauto.
  - intros i Hi. by apply Hsub, Honly.
  - intros He. apply Exists_app. left. by apply Han.
Qed.

(** Reading adds nothing to what was covered. *)
Lemma tracks_unread S ops st len : tracks S (ops ++ [OpRead len]) st -> tracks S ops st.
Proof.
  assert (Hex : forall P : Op -> Prop, ~ P (OpRead len) -> Exists P (ops ++ [OpRead len]) <-> Exists P ops).
  { intros P HP. rewrite Exists_app, Exists_cons, Exists_nil. tauto. }
  assert (Hcov : forall i, covered (ops ++ [OpRead len]) i <-> covered ops i) by (intros i; apply Hex; simpl; tauto).
  intros [Hs Hc Ht Heof Honly Han]. split; [done|done| | | |].
  - intros i Hi Hi'. apply Ht; [done|]. by apply Hcov.
  - intros He. apply Heof. apply Hex; [simpl; tauto|done].
  - intros i Hi. apply Hcov. by apply Honly.
  - intros He. apply Hex in Han; [done|simpl; tauto|done].
Qed.

Lemma tracks_prefix S S' ops st :
  tracks S ops st -> Spec.eof_at st = None -> Spec.ended st = false -> S `prefix_of` S' -> tracks S' ops st.
Proof.
  intros [Hs Hc Hcov Heof Honly Han] Hnone Hopen Hp. split; [by eapply Spec.sound_prefix|done|done| |done|done].
  intros Hex. apply Heof in Hex. congruence.
Qed.

Lemma tracks_step S ops st op :
  zlen S < 2 ^ 64 -> tracks S ops st -> feeds S op -> tracks S (ops ++ [op]) (Spec_perform op st).2.
Proof.
  intros HS Ht Hf. destruct op as [data index eof|len]; simpl in *.
  - by apply tracks_push.
  - apply tracks_read; [apply Hf|done].
Qed.

(** The bytes the reader has obtained so far. *)
Definition delivered (st : Spec.state) : bytes := take (Z.to_nat (Spec.consumed st)) (Spec.assembled st).

Lemma delivered_step S ops op st :
  tracks S ops st -> feeds S op ->
  delivered (Spec_perform op st).2 = delivered st ++ (Spec_perform op st).1 /\
  Spec.cap (Spec_perform op st).2 = Spec.cap st.
Proof.
  intros [_ Hc _ _ _ _] Hf. unfold delivered, Spec.next, zlen in *.
  destruct op as [data index eof|len]; simpl in *.
  - rewrite app_nil_r. rewrite take_app_le by lia. done.
  - unfold is_u64, Spec_read in *. case_decide; simpl; [|by rewrite app_nil_r].
    split; [|done]. rewrite Z2Nat.inj_add by lia. by rewrite take_take_drop.
Qed.

Lemma feeds_fit S ops op sr st :
  refines sr st -> tracks S ops st -> feeds S op -> 2 * zlen S + Spec.cap st < 2 ^ 64 -> op_fits op sr.
Proof.
  intros R [Hs Hc _ _ _ _] Hf Hsize. destruct op as [data index eof|len]; simpl in *; [|done].
  destruct Hf as (Hi & Hle & _ & _). pose proof (Spec.sound_next _ _ Hs).
  pose proof (zlen_nonneg data). unfold fits. rewrite <- (ref_consumed _ _ R), <- (ref_cap _ _ R).
  destruct (sizes_cap sr st R). unfold is_u64. lia.
Qed.

Lemma perform_all_tracks S ops : forall done sr st,
  refines sr st -> tracks S done st -> Forall (feeds S) ops -> 2 * zlen S + Spec.cap st < 2 ^ 64 ->
  exists out sr' st', perform_all ops sr = Ok (out, sr') /\ refines sr' st' /\
    tracks S (done ++ ops) st' /\ Spec.cap st' = Spec.cap st /\ delivered st' = delivered st ++ out.
Proof.
  induction ops as [|op ops IH]; intros done sr st R Ht Hf Hsize; simpl.
  - exists [], sr, st. by rewrite !app_nil_r.
  - apply Forall_cons in Hf as [Hop Hf]. pose proof (feeds_fit S done op sr st R Ht Hop Hsize) as Hfit.
    destruct (perform_step op sr st R Hfit) as (sr1 & E1 & R1). rewrite E1. simpl.
    destruct (delivered_step S done op st Ht Hop) as [Hd Hcap].
    destruct (sizes_cap sr st R). pose proof (zlen_nonneg S).
    destruct (IH (done ++ [op]) sr1 (Spec_perform op st).2) as (out & sr2 & st2 & E2 & R2 & T2 & C2 & D2);
      [done|apply tracks_step; [lia|done..]|done|by rewrite Hcap|].
    rewrite E2. simpl. exists ((Spec_perform op st).1 ++ out), sr2, st2.
    rewrite <- app_assoc in T2. split_and!; [done..|congruence|]. by rewrite D2, Hd, app_assoc.
Qed.

Lemma init_tracks S cap : tracks S [] (Spec.init cap).
Proof.
  split; simpl.
  - by split.
  - unfold Spec.next, zlen. simpl. lia.
  - intros i _ Hc. inversion Hc.
  - intros He. inversion He.
  - intros i [Hi|[b Hb]]; [unfold Spec.next, zlen in Hi; simpl in Hi; lia|by rewrite lookup_empty in Hb].
  - by intros [[? ?]|?].
Qed.

Lemma performs S cap ops :
  is_u64 cap -> 2 * zlen S + cap < 2 ^ 64 -> Forall (feeds S) ops ->
  exists out sr st, perform_all ops (construct cap) = Ok (out, sr) /\ refines sr st /\
    tracks S ops st /\ Spec.cap st = cap /\ delivered st = out.
Proof.
  intros Hcap Hsize Hf.
  destruct (perform_all_tracks S ops [] (construct cap) (Spec.init cap))
    as (out & sr & st & E & R & T & C & D); auto using init_refines, init_tracks.
  exists out, sr, st. done.
Qed.

(** What the reader obtained and what is still buffered, together. *)
Lemma delivered_buffer sr st :
  refines sr st -> delivered st ++ ByteStream.buffer (_output sr) = Spec.assembled st.
Proof. intros R. rewrite (ref_buffer _ _ R). apply take_drop. Qed.

Lemma assembled_take S ops sr st :
  refines sr st -> tracks S ops st ->
  Spec.assembled st = take (Z.to_nat (ByteStream.bytes_written (_output sr))) S.
Proof.
  intros R [[Ha _ _ _ _] _ _ _ _ _]. rewrite <- (ref_next _ _ R). unfold Spec.next, zlen.
  rewrite Nat2Z.id. by apply Spec.agree_take.
Qed.

(** The first position that is not assembled is not held back either. *)
Lemma front_missing sr st : refines sr st -> Spec.pending st !! Spec.next st = None.
Proof.
  intros R. pose proof (pending_slot sr st R 0) as Hp. change (Z.of_nat 0) with 0 in Hp.
  by rewrite Z.add_0_r, (ok_front _ (ref_ok _ _ R)) in Hp.
Qed.

(** The output is closed exactly when everything was written and the end was announced. *)
Lemma ended_iff S ops st : tracks S ops st -> Spec.ended st = true <-> Spec.next st = zlen S /\ Exists is_eof ops.
Proof.
  intros T. pose proof (tracks_sound _ _ _ T) as Hs. split.
  - intros He. split; [by apply (Spec.sound_ended _ _ Hs)|]. apply (tracks_announced _ _ _ T). by right.
  - intros [Hn Hex]. apply (Spec.sound_closed _ _ Hs). rewrite (tracks_eof _ _ _ T Hex). by rewrite Hn.
Qed.

(** The output ends at the first position that no push has covered. *)
Lemma written_covered S ops sr st n :
  refines sr st -> tracks S ops st -> n <= Spec.cap st -> (forall i, 0 <= i < n -> covered ops i) ->
  n <= Spec.next st.
Proof.
  intros R T Hn Hcov. destruct (decide (n <= Spec.next st)) as [|Hlt]; [done|].
  pose proof (tracks_consumed _ _ _ T). destruct (tracks_covered _ _ _ T (Spec.next st)) as [Ha|[b Hb]].
  - lia.
  - apply Hcov. lia.
  - lia.
  - rewrite (front_missing sr st R) in Hb. done.
Qed.

(** A substring that does not start past the first missing position is assembled, as far as
    it lies in the window. *)
Lemma push_assembles sr' st data index eof :
  refines sr' (Spec.push data index eof st) -> index <= Spec.next st ->
  Z.min (index + zlen data) (Spec.limit st) <= Spec.next (Spec.push data index eof st).
Proof.
  intros R Hi. set (n := Spec.next (Spec.push data index eof st)).
  destruct (decide (Z.min (index + zlen data) (Spec.limit st) <= n)) as [|Hlt]; [done|].
  pose proof (Spec.next_push_le data index eof st) as Hmono. fold n in Hmono.
  destruct (Spec.push_keeps data index eof st n) as [?|[b Hb]]; [lia|lia|lia|].
  unfold n in Hb. by rewrite (front_missing _ _ R) in Hb.
Qed.

Lemma written_uncovered S ops st n : tracks S ops st -> 0 <= n -> ~ covered ops n -> Spec.next st <= n.
Proof.
  intros T Hn Hc. destruct (decide (Spec.next st <= n)) as [|Hlt]; [done|]. destruct Hc.
  apply (tracks_only _ _ _ T). left. lia.
Qed.

(** ** Filled positions and memory *)

Lemma trues_bounded bm r :
  0 <= r -> (forall k, bm !! k = Some true -> Z.of_nat k < r) -> trues bm <= r.
Proof.
  intros Hr Hk. rewrite <- (take_drop (Z.to_nat r) bm), trues_app.
  assert (Hd : trues (drop (Z.to_nat r) bm) = 0).
  { apply trues_0, Forall_lookup. intros k b Hb. rewrite lookup_drop in Hb.
    destruct b; [|done]. apply Hk in Hb. lia. }
  pose proof (trues_range (take (Z.to_nat r) bm)). rewrite zlen_take in * by done. lia.
Qed.

Lemma memory_bound sr : ok sr ->
  ByteStream.buffer_size (_output sr) + unassembled_bytes sr <= _capacity sr.
Proof.
  intros [Ho Hc [Hb Hm Hu] Hroom _]. simpl in *. pose proof (ByteStream.room_range _ Ho) as Hr.
  unfold unassembled_bytes. rewrite Hu.
  assert (trues (_bitmap sr) <= ByteStream.room (_output sr)).
  { apply trues_bounded; [lia|]. intros k Hk. apply Hroom, slot_filled; [|done].
    unfold zlen in *. lia. }
  unfold ByteStream.room, ByteStream.buffer_size in *. lia.
Qed.

Lemma empty_iff sr : ok sr -> empty sr = true <-> forall k, slot (_buffer sr) (_bitmap sr) k = None.
Proof.
  intros [_ _ [Hb Hm Hu] _ _]. simpl in *. unfold empty. rewrite bool_decide_eq_true, Hu, trues_0.
  rewrite Forall_lookup. unfold zlen in *. split.
  - intros H k. unfold slot. destruct (_bitmap sr !! k) as [[]|] eqn:E; [|done..].
    by apply H in E.
  - intros H k b Hb'. destruct b; [|done]. specialize (H k).
    destruct (slot_filled (_buffer sr) (_bitmap sr) k) as [c Hc]; [lia|done|congruence].
Qed.

(** ** Properties *)

(** C5: [push_substring] implements its contract on every input: started in a state
    that represents an abstract state, it returns (no out-of-range access, no empty
    [front], the loops end) in a state that represents the abstract state after the
    push: the new bytes inside the window are held, filled positions keep their
    bytes, and exactly the contiguous prefix is moved to the output. *)
Theorem push_substring_refines sr st data index eof :
  refines sr st -> fits data index sr ->
  exists sr', push_substring data index eof sr = Ok sr' /\ refines sr' (Spec.push data index eof st).
Proof. apply push_step. Qed.

Lemma push_substring_refines_witness :
  exists sr', push_substring [Byte.x62; Byte.x63] 1 true (construct 2) = Ok sr' /\
    refines sr' (Spec.push [Byte.x62; Byte.x63] 1 true (Spec.init 2)).
Proof.
  apply push_substring_refines; [apply init_refines; concrete|]. split; concrete.
Defined.

(** C6: reassembly is correct.  When every pushed substring is an excerpt of one
    stream [S], in any order, overlapping and repeated, and the reader reads at any
    time, no call faults; what the reader has read followed by what is buffered is
    exactly the prefix of [S] of length [bytes_written]; the output is closed only
    when all of [S] is written, and it is closed then if the end was announced. *)
Theorem reassembly_correct S cap ops :
  is_u64 cap -> 2 * zlen S + cap < 2 ^ 64 -> Forall (feeds S) ops ->
  exists out sr, perform_all ops (construct cap) = Ok (out, sr) /\
    let bs := stream_out sr in
    out ++ ByteStream.buffer bs = take (Z.to_nat (ByteStream.bytes_written bs)) S /\
    0 <= ByteStream.bytes_written bs <= zlen S /\
    (ByteStream.input_ended bs = true -> ByteStream.bytes_written bs = zlen S) /\
    (Exists is_eof ops -> ByteStream.bytes_written bs = zlen S -> ByteStream.input_ended bs = true).
Proof.
  intros Hcap Hsize Hf. destruct (performs S cap ops Hcap Hsize Hf) as (out & sr & st & E & R & T & C & D).
  exists out, sr. split; [done|]. cbv zeta. unfold stream_out. subst out.
  rewrite (delivered_buffer _ _ R), (assembled_take _ _ _ _ R T).
  pose proof (Spec.sound_next _ _ (tracks_sound _ _ _ T)) as Hn. destruct T as [Hs Hc _ Heof _ _].
  rewrite <- (ref_next _ _ R), <- (ref_ended _ _ R). split_and!; [done|lia|lia|apply Hs|].
  intros Hex Hall. apply (Spec.sound_closed _ _ Hs). rewrite Heof by done. by rewrite Hall.
Qed.

Lemma reassembly_correct_witness :
  exists out sr, perform_all [OpPush [Byte.x62] 1 true; OpRead 1; OpPush [Byte.x61; Byte.x62] 0 true]
                   (construct 8) = Ok (out, sr) /\
    out ++ ByteStream.buffer (stream_out sr)
    = take (Z.to_nat (ByteStream.bytes_written (stream_out sr))) [Byte.x61; Byte.x62].
Proof.
  destruct (reassembly_correct [Byte.x61; Byte.x62] 8
    [OpPush [Byte.x62] 1 true; OpRead 1; OpPush [Byte.x61; Byte.x62] 0 true])
    as (out & sr & E & H & _); [concrete|concrete| |by exists out, sr].
  repeat constructor; concrete.
Defined.

(** C13: reassembly is exact.  When every position below [n] was covered by some pushed
    substring and [n] is within the capacity, at least [n] bytes have been written to the
    output, whatever the order of the pushes was; when the position [n] was not covered, at
    most [n].  So the output ends at the first position that is missing. *)
Theorem reassembly_progress S cap ops n :
  is_u64 cap -> 2 * zlen S + cap < 2 ^ 64 -> Forall (feeds S) ops -> 0 <= n <= cap ->
  exists out sr, perform_all ops (construct cap) = Ok (out, sr) /\
    ((forall i, 0 <= i < n -> covered ops i) -> n <= ByteStream.bytes_written (stream_out sr)) /\
    (~ covered ops n -> ByteStream.bytes_written (stream_out sr) <= n).
Proof.
  intros Hcap Hsize Hf Hn.
  destruct (performs S cap ops Hcap Hsize Hf) as (out & sr & st & E & R & T & C & _).
  exists out, sr. split; [done|]. unfold stream_out. rewrite <- (ref_next _ _ R). split.
  - apply (written_covered S ops sr st n R T). lia.
  - apply (written_uncovered S ops st n T). lia.
Qed.

Lemma reassembly_progress_witness :
  exists out sr, perform_all [OpPush [Byte.x62] 1 true; OpPush [Byte.x61] 0 false] (construct 8)
                   = Ok (out, sr) /\ ByteStream.bytes_written (stream_out sr) = 2.
Proof.
  destruct (reassembly_progress [Byte.x61; Byte.x62] 8
    [OpPush [Byte.x62] 1 true; OpPush [Byte.x61] 0 false] 2) as (out & sr & E & Hge & Hle); [concrete|concrete| |lia|].
  - repeat constructor; concrete.
  - exists out, sr. split; [done|]. apply Z.le_antisymm.
    + apply Hle. intros Hc. unfold covered in Hc. rewrite !Exists_cons, Exists_nil in Hc. simpl in Hc. unfold zlen in Hc. simpl in Hc. lia.
    + apply Hge. intros i Hi. destruct (decide (i = 0)) as [->|].
      * right. left. concrete.
      * left. simpl. unfold zlen. simpl. lia.
Defined.

(** C24: in every run the bytes buffered for the reader and the bytes held back
    together never exceed the capacity, [unassembled_bytes] counts exactly the filled
    positions of the window (each once) and [empty] holds exactly when none is filled. *)
Theorem reassembler_memory_bound cap ops sr :
  is_u64 cap -> runs (construct cap) ops sr ->
  ByteStream.buffer_size (stream_out sr) + unassembled_bytes sr <= _capacity sr /\
  unassembled_bytes sr = trues (_bitmap sr) /\
  (empty sr = true <-> forall k, slot (_buffer sr) (_bitmap sr) k = None).
Proof.
  intros Hcap Hruns. apply runs_state_ok in Hruns as [st R]; [|by exists (Spec.init cap); apply init_refines].
  pose proof (ref_ok _ _ R) as Hok. split_and!.
  - by apply memory_bound.
  - apply Hok.
  - by apply empty_iff.
Qed.

Lemma reassembler_memory_bound_witness :
  exists sr, runs (construct 4) [OpPush [Byte.x62; Byte.x63] 2 false] sr /\
  ByteStream.buffer_size (stream_out sr) + unassembled_bytes sr <= _capacity sr.
Proof.
  assert (H : runs (construct 4) [OpPush [Byte.x62; Byte.x63] 2 false]
    (mk [Byte.x00; Byte.x00; Byte.x62; Byte.x63] [false; false; true; true] false 0 2
        (ByteStream.construct 4) 4)).
  { eapply runs_cons; [|reflexivity|constructor]. split; concrete. }
  eexists. split; [exact H|].
  apply (reassembler_memory_bound 4 [OpPush [Byte.x62; Byte.x63] 2 false]); [concrete|exact H].
Defined.

End Reassembly.
