(* ===== verification/Buffer.v ===== *)
(** * Buffers (libsponge/util/buffer.hh, .cc)

    A [Buffer] is a shared read-only string with a starting offset, a [BufferList] a
    sequence of them, a [BufferViewList] a sequence of string views.  The shared
    string is never written after construction, so a value models it.  All three
    discard bytes from the front; the theorems say that this is [drop] on the
    contents, or an exception when there are not enough bytes. *)

From S2P Require Import Prelude.

Module Buffer.

Record Buffer : Set := mk {
  _storage : option bytes;
  _starting_offset : Z
}.

(** [Buffer() = default], [Buffer(std::string &&str)] *)
Definition empty_buffer : Buffer := mk None 0.
Definition of_string (s : bytes) : Buffer := mk (Some s) 0.

(** [std::string_view str() const] *)
Definition str (b : Buffer) : bytes :=
  match _storage b with
  | None => []
  | Some s => drop (Z.to_nat (_starting_offset b)) s
  end.

(** [uint8_t at(const size_t n) const] *)
Definition at_byte (b : Buffer) (n : Z) : res Z :=
  if decide (n < zlen (str b)) then c ← at_ (str b) n; Ok (byte_val c)
  else throw "basic_string_view::at".

(** [size_t size() const], [std::string copy() const] *)
Definition size (b : Buffer) : Z := zlen (str b).
Definition copy (b : Buffer) : bytes := str b.

(** [void remove_prefix(const size_t n)] *)
Definition remove_prefix (n : Z) (b : Buffer) : res Buffer :=
  if decide (n > zlen (str b)) then throw "Buffer::remove_prefix" else
  let offset := to_u64 (_starting_offset b + n) in
  match _storage b with
  | Some s => if decide (offset = zlen s) then Ok (mk None offset) else Ok (mk (Some s) offset)
  | None => Ok (mk None offset)
  end.

(** The offset is inside the string. *)
Definition wf (b : Buffer) : Prop :=
  match _storage b with
  | None => True
  | Some s => 0 <= _starting_offset b <= zlen s /\ zlen s < 2 ^ 64
  end.

Lemma of_string_wf s : zlen s < 2 ^ 64 -> wf (of_string s).
Proof. intros Hs. pose proof (zlen_nonneg s). split; [|done]. cbn [of_string _starting_offset]. lia. Qed.

Lemma str_of_string s : str (of_string s) = s.
Proof. done. Qed.

Lemma size_eq b : wf b -> match _storage b with
  | None => zlen (str b) = 0 | Some s => zlen (str b) = zlen s - _starting_offset b end.
Proof.
  unfold wf, str. destruct (_storage b) as [s|]; [|done]. intros H. rewrite zlen_drop by lia. lia.
Qed.

Lemma remove_prefix_spec n b :
  wf b -> 0 <= n <= size b ->
  exists b', remove_prefix n b = Ok b' /\ wf b' /\ str b' = drop (Z.to_nat n) (str b).
Proof.
  intros Hb Hn. pose proof (size_eq b Hb) as Hs. unfold remove_prefix, size in *.
  rewrite decide_False by lia. unfold wf, str in *.
  destruct (_storage b) as [s|] eqn:E.
  - rewrite to_u64_small by width_lia. case_decide as Hend.
    + eexists. split; [done|]. split; [done|]. simpl. rewrite drop_drop, drop_ge; [done|].
      unfold zlen in *. lia.
    + eexists. split; [done|]. simpl. split; [lia|]. rewrite drop_drop. f_equal. lia.
  - eexists. split; [done|]. split; [done|]. simpl. by rewrite drop_nil.
Qed.

Lemma remove_prefix_throws n b :
  size b < n -> remove_prefix n b = throw "Buffer::remove_prefix".
Proof. intros Hn. unfold remove_prefix, size in *. by rewrite decide_True by lia. Qed.

Lemma at_byte_spec b n c : 0 <= n -> str b !! Z.to_nat n = Some c -> at_byte b n = Ok (byte_val c).
Proof.
  intros Hn Hc. unfold at_byte. pose proof (lookup_lt_Some _ _ _ Hc).
  rewrite decide_True by (unfold zlen; lia). by rewrite (at_lookup _ _ _ Hn Hc).
Qed.

End Buffer.

Module BufferList.

Record BufferList : Set := mk { _buffers : list Buffer.Buffer }.

(** [BufferList() = default], [BufferList(Buffer buffer)], [BufferList(std::string &&str)] *)
Definition empty_list : BufferList := mk [].
Definition of_buffer (b : Buffer.Buffer) : BufferList := mk [b].

(** [void append(const BufferList &other)] *)
Definition append (other l : BufferList) : BufferList :=
  mk (foldl push_back (_buffers l) (_buffers other)).

Definition of_string (s : bytes) : BufferList := append (of_buffer (Buffer.of_string s)) empty_list.

(** [operator Buffer() const] *)
Definition to_buffer (l : BufferList) : res Buffer.Buffer :=
  match _buffers l with
  | [] => Ok Buffer.empty_buffer
  | [b] => Ok b
  | _ => throw "BufferList: please use concatenate() to combine a multi-Buffer BufferList into one Buffer"
  end.

(** [std::string concatenate() const] *)
Definition concatenate (l : BufferList) : bytes :=
  foldl (fun ret buf => ret ++ Buffer.str buf) [] (_buffers l).

(** [size_t size() const] *)
Definition size (l : BufferList) : Z :=
  foldl (fun ret buf => to_u64 (ret + Buffer.size buf)) 0 (_buffers l).

(** One iteration of the loop of [remove_prefix]. *)
Definition remove_prefix_step (s : Z * list Buffer.Buffer) : res (Z * list Buffer.Buffer) :=
  let '(n, bufs) := s in
  match bufs with
  | [] => throw "BufferList::remove_prefix"
  | b :: rest =>
      if decide (n < zlen (Buffer.str b)) then
        b' ← Buffer.remove_prefix n b; Ok (0, b' :: rest)
      else Ok (to_u64 (n - zlen (Buffer.str b)), rest)
  end.

(** [void remove_prefix(size_t n)]: every iteration pops a buffer or ends the loop, so
    two tests more than there are buffers are enough. *)
Definition remove_prefix (n : Z) (l : BufferList) : res BufferList :=
  '(_, bufs) ← while_loop (S (S (length (_buffers l)))) (fun '(n, _) => Ok (bool_decide (n > 0)))
                 remove_prefix_step (n, _buffers l);
  Ok (mk bufs).

(** The contents. *)
Definition contents (bufs : list Buffer.Buffer) : bytes := concat (map Buffer.str bufs).

Lemma foldl_push_back {A} (l k : list A) : foldl push_back l k = l ++ k.
Proof.
  revert l. induction k as [|x k IH]; intros l; simpl; [by rewrite app_nil_r|].
  rewrite IH. unfold push_back. by rewrite <- app_assoc.
Qed.

Lemma buffers_append l k : _buffers (append k l) = _buffers l ++ _buffers k.
Proof. apply foldl_push_back. Qed.

Lemma concatenate_contents l : concatenate l = contents (_buffers l).
Proof.
  unfold concatenate, contents. rewrite <- (app_nil_l (concat _)). generalize (@nil byte).
  induction (_buffers l) as [|b bs IH]; intros acc; simpl; [by rewrite app_nil_r|].
  by rewrite IH, app_assoc.
Qed.

Lemma size_contents l : size l = to_u64 (zlen (contents (_buffers l))).
Proof.
  unfold size, contents.
  enough (H : forall a, foldl (fun ret buf => to_u64 (ret + Buffer.size buf)) (to_u64 a) (_buffers l)
                = to_u64 (a + zlen (concat (map Buffer.str (_buffers l))))) by apply (H 0).
  induction (_buffers l) as [|b bs IH]; intros a; simpl.
  - by rewrite zlen_nil, Z.add_0_r.
  - replace (to_u64 (to_u64 a + Buffer.size b)) with (to_u64 (a + Buffer.size b)) by width_lia.
    rewrite IH, zlen_app. unfold Buffer.size. f_equal. lia.
Qed.

Lemma contents_cons b bs : contents (b :: bs) = Buffer.str b ++ contents bs.
Proof. done. Qed.

(** The loop of [remove_prefix]: it runs out of buffers when [n] is too large, and
    drops [n] bytes otherwise. *)
Lemma remove_loop_throws fuel n bufs :
  is_u64 n -> (length bufs + 1 < fuel)%nat -> zlen (contents bufs) < n ->
  while_loop fuel (fun '(n, _) => Ok (bool_decide (n > 0))) remove_prefix_step (n, bufs)
  = throw "BufferList::remove_prefix".
Proof.
  revert n bufs. induction fuel as [|fuel IH]; intros n bufs Hn Hfuel Hlt; [lia|].
  pose proof (zlen_nonneg (contents bufs)).
  simpl. rewrite bool_decide_eq_true_2 by lia. destruct bufs as [|b bufs]; [done|].
  rewrite contents_cons, zlen_app in *.
  pose proof (zlen_nonneg (Buffer.str b)). pose proof (zlen_nonneg (contents bufs)).
  simpl. rewrite decide_False by lia. simpl. simpl in Hfuel.
  rewrite to_u64_small by width_lia. rewrite IH by (done || width_lia || lia). done.
Qed.

Lemma remove_loop_drops fuel n bufs :
  Forall Buffer.wf bufs -> is_u64 n -> (length bufs + 1 < fuel)%nat -> n <= zlen (contents bufs) ->
  exists bufs', while_loop fuel (fun '(n, _) => Ok (bool_decide (n > 0))) remove_prefix_step (n, bufs)
    = Ok (0, bufs') /\ contents bufs' = drop (Z.to_nat n) (contents bufs) /\ Forall Buffer.wf bufs'.
Proof.
  revert n bufs. induction fuel as [|fuel IH]; intros n bufs Hwf Hn Hfuel Hle; [lia|].
  simpl. destruct (decide (n = 0)) as [->|Hnz].
  { exists bufs. done. }
  unfold is_u64 in Hn. rewrite bool_decide_eq_true_2 by lia. destruct bufs as [|b bufs].
  { unfold contents in Hle. simpl in Hle. rewrite zlen_nil in Hle. lia. }
  apply Forall_cons in Hwf as [Hb Hwf]. rewrite contents_cons, zlen_app in *. simpl in *.
  pose proof (zlen_nonneg (Buffer.str b)). case_decide as Hlt; simpl.
  - destruct (Buffer.remove_prefix_spec n b Hb) as (b' & E & Hb' & Hstr); [unfold Buffer.size; lia|].
    rewrite E. simpl. destruct fuel as [|fuel]; [lia|]. simpl. eexists. split; [done|].
    rewrite contents_cons, Hstr. rewrite drop_app_le by (unfold zlen in *; lia).
    split; [done|by constructor].
  - rewrite to_u64_small by width_lia.
    destruct (IH (n - zlen (Buffer.str b)) bufs) as (bufs' & E & Hc & Hw');
      [done|width_lia|lia|lia|].
    exists bufs'. split; [done|]. split; [|done]. rewrite Hc.
    rewrite drop_app_ge by (unfold zlen in *; lia). f_equal. unfold zlen. lia.
Qed.

(** [BufferList::remove_prefix] ends; it discards exactly the first [n] bytes of
    the concatenation, across buffer boundaries, and throws [out_of_range] exactly
    when the list holds fewer than [n] bytes. *)
Lemma bufferlist_remove_prefix n l :
  Forall Buffer.wf (_buffers l) -> is_u64 n ->
  (n <= zlen (concatenate l) ->
     exists l', remove_prefix n l = Ok l' /\ Forall Buffer.wf (_buffers l') /\
       concatenate l' = drop (Z.to_nat n) (concatenate l)) /\
  (zlen (concatenate l) < n -> remove_prefix n l = throw "BufferList::remove_prefix").
Proof.
  intros Hwf Hn. rewrite concatenate_contents. unfold remove_prefix. split; intros Hle.
  - destruct (remove_loop_drops (S (S (length (_buffers l)))) n (_buffers l)) as (bufs & E & Hc & Hw);
      [done|done|lia|done|].
    rewrite E. exists (mk bufs). rewrite concatenate_contents. done.
  - by rewrite remove_loop_throws by (done || lia).
Qed.

(** Appending concatenates, [size] is the length of the concatenation, and the
    conversion to one [Buffer] keeps the contents or throws on a list of several. *)
Lemma bufferlist_append_size l k :
  concatenate (append k l) = concatenate l ++ concatenate k /\
  size l = to_u64 (zlen (concatenate l)) /\
  (forall b, to_buffer l = Ok b -> Buffer.str b = concatenate l) /\
  ((1 < length (_buffers l))%nat -> exists what, to_buffer l = throw what).
Proof.
  rewrite !concatenate_contents, buffers_append. split_and!.
  - unfold contents. by rewrite map_app, concat_app.
  - apply size_contents.
  - unfold to_buffer. intros b. destruct (_buffers l) as [|b0 [|b1 bs]]; intros [= <-]; [done|].
    unfold contents. simpl. by rewrite app_nil_r.
  - unfold to_buffer. destruct (_buffers l) as [|b0 [|b1 bs]]; simpl; [lia..|]. eauto.
Qed.

End BufferList.

Module BufferViewList.

Record BufferViewList : Set := mk { _views : list bytes }.

(** [BufferViewList(std::string_view str)] and the constructors that delegate to it,
    [BufferViewList(const BufferList &buffers)] *)
Definition of_view (s : bytes) : BufferViewList := mk [s].

(** From a string, and from a C string, which ends at its first null byte. *)
Definition of_string (s : bytes) : BufferViewList := of_view s.
Fixpoint strlen (s : bytes) : nat :=
  match s with [] => 0 | b :: s' => if decide (b = Byte.x00) then 0 else S (strlen s') end%nat.
Definition of_cstr (s : bytes) : BufferViewList := of_view (take (strlen s) s).

Definition of_list (l : BufferList.BufferList) : BufferViewList :=
  mk (foldl (fun views x => push_back views (Buffer.str x)) [] (BufferList._buffers l)).

Definition remove_prefix_step (s : Z * list bytes) : res (Z * list bytes) :=
  let '(n, views) := s in
  match views with
  | [] => throw "BufferListView::remove_prefix"
  | v :: rest =>
      if decide (n < zlen v) then Ok (0, drop (Z.to_nat n) v :: rest)
      else Ok (to_u64 (n - zlen v), rest)
  end.

(** [void remove_prefix(size_t n)] *)
Definition remove_prefix (n : Z) (l : BufferViewList) : res BufferViewList :=
  '(_, views) ← while_loop (S (S (length (_views l)))) (fun '(n, _) => Ok (bool_decide (n > 0)))
                  remove_prefix_step (n, _views l);
  Ok (mk views).

(** [size_t size() const] *)
Definition size (l : BufferViewList) : Z := foldl (fun ret v => to_u64 (ret + zlen v)) 0 (_views l).

(** [std::vector<iovec> as_iovecs() const]: base and length of every view. *)
Definition as_iovecs (l : BufferViewList) : list (bytes * Z) :=
  foldl (fun ret x => push_back ret (x, zlen x)) [] (_views l).

Lemma size_concat l : size l = to_u64 (zlen (concat (_views l))).
Proof.
  unfold size.
  enough (H : forall a, foldl (fun ret v => to_u64 (ret + zlen v)) (to_u64 a) (_views l)
                = to_u64 (a + zlen (concat (_views l)))) by apply (H 0).
  induction (_views l) as [|v vs IH]; intros a; simpl.
  - by rewrite zlen_nil, Z.add_0_r.
  - replace (to_u64 (to_u64 a + zlen v)) with (to_u64 (a + zlen v)) by width_lia.
    rewrite IH, zlen_app. f_equal. lia.
Qed.

Lemma foldl_push_map {A B} (f : A -> B) l acc :
  foldl (fun ret x => push_back ret (f x)) acc l = acc ++ map f l.
Proof.
  revert acc. induction l as [|x l IH]; intros acc; simpl; [by rewrite app_nil_r|].
  rewrite IH. unfold push_back. by rewrite <- app_assoc.
Qed.

Lemma view_loop_throws fuel n views :
  is_u64 n -> (length views + 1 < fuel)%nat -> zlen (concat views) < n ->
  while_loop fuel (fun '(n, _) => Ok (bool_decide (n > 0))) remove_prefix_step (n, views)
  = throw "BufferListView::remove_prefix".
Proof.
  revert n views. induction fuel as [|fuel IH]; intros n views Hn Hfuel Hlt; [lia|].
  pose proof (zlen_nonneg (concat views)).
  simpl. rewrite bool_decide_eq_true_2 by lia. destruct views as [|v vs]; [done|].
  simpl in Hlt. rewrite zlen_app in Hlt. pose proof (zlen_nonneg v). pose proof (zlen_nonneg (concat vs)).
  simpl. rewrite decide_False by lia. simpl. simpl in Hfuel.
  rewrite to_u64_small by width_lia. rewrite IH by (done || width_lia || lia). done.
Qed.

Lemma view_loop_drops fuel n views :
  is_u64 n -> (length views + 1 < fuel)%nat -> n <= zlen (concat views) ->
  exists views', while_loop fuel (fun '(n, _) => Ok (bool_decide (n > 0))) remove_prefix_step (n, views)
    = Ok (0, views') /\ concat views' = drop (Z.to_nat n) (concat views).
Proof.
  revert n views. induction fuel as [|fuel IH]; intros n views Hn Hfuel Hle; [lia|].
  simpl. destruct (decide (n = 0)) as [->|Hnz]; [by exists views|].
  unfold is_u64 in Hn. rewrite bool_decide_eq_true_2 by lia. destruct views as [|v vs].
  { simpl in Hle. rewrite zlen_nil in Hle. lia. }
  simpl in *. rewrite zlen_app in Hle. pose proof (zlen_nonneg v). case_decide as Hlt; simpl.
  - destruct fuel as [|fuel]; [lia|]. simpl. eexists. split; [done|]. simpl.
    by rewrite drop_app_le by (unfold zlen in *; lia).
  - rewrite to_u64_small by width_lia.
    destruct (IH (n - zlen v) vs) as (vs' & E & Hc); [width_lia|lia|lia|].
    exists vs'. split; [done|]. rewrite Hc.
    rewrite drop_app_ge by (unfold zlen in *; lia). f_equal. unfold zlen. lia.
Qed.

Lemma remove_prefix_drops n l :
  is_u64 n -> n <= zlen (concat (_views l)) ->
  exists l', remove_prefix n l = Ok l' /\ concat (_views l') = drop (Z.to_nat n) (concat (_views l)).
Proof.
  intros Hn Hle. unfold remove_prefix.
  destruct (view_loop_drops (S (S (length (_views l)))) n (_views l)) as (vs & E & Hc); [done|lia|done|].
  rewrite E. by exists (mk vs).
Qed.

Lemma remove_prefix_beyond n l :
  is_u64 n -> zlen (concat (_views l)) < n -> remove_prefix n l = throw "BufferListView::remove_prefix".
Proof. intros Hn Hlt. unfold remove_prefix. by rewrite view_loop_throws by (done || lia). Qed.

Lemma concat_iovecs l : concat (map fst (as_iovecs l)) = concat (_views l).
Proof. unfold as_iovecs. rewrite foldl_push_map. simpl. rewrite map_map. simpl. by rewrite map_id. Qed.

(** A [BufferViewList] built from a [BufferList] shows the same bytes, its I/O
    vectors cover them with the right lengths, and [remove_prefix] drops exactly [n]
    bytes or throws when there are fewer. *)
Lemma viewlist_shows_buffers l n :
  is_u64 n ->
  concat (_views (of_list l)) = BufferList.concatenate l /\
  concat (map fst (as_iovecs (of_list l))) = BufferList.concatenate l /\
  Forall (fun iov => iov.2 = zlen iov.1) (as_iovecs (of_list l)) /\
  (n <= zlen (BufferList.concatenate l) -> exists l', remove_prefix n (of_list l) = Ok l' /\
     concat (_views l') = drop (Z.to_nat n) (BufferList.concatenate l)) /\
  (zlen (BufferList.concatenate l) < n ->
     remove_prefix n (of_list l) = throw "BufferListView::remove_prefix").
Proof.
  intros Hn.
  assert (Hv : concat (_views (of_list l)) = BufferList.concatenate l).
  { rewrite BufferList.concatenate_contents. unfold of_list. simpl. by rewrite foldl_push_map. }
  split_and!; [done| | | |].
  - by rewrite concat_iovecs.
  - unfold as_iovecs. rewrite foldl_push_map. simpl. apply Forall_map, Forall_true. done.
  - rewrite <- Hv. by apply remove_prefix_drops.
  - rewrite <- Hv. by apply remove_prefix_beyond.
Qed.

End BufferViewList.
