(* ===== verification/Parser.v ===== *)
(** * Network byte order parsing and unparsing (libsponge/util/parser.hh, .cc)

    [NetParser] reads big-endian integers from the front of a [Buffer] and keeps the
    first-class error of the parse; [NetUnparser] appends big-endian integers to a
    string.  [be_val] and [be_bytes] are the mathematical big-endian encodings. *)

From S2P Require Import Prelude Buffer.

Module Parser.

Inductive ParseResult : Set :=
  | NoError
  | BadChecksum
  | PacketTooShort
  | WrongIPVersion
  | HeaderTooShort
  | TruncatedPacket
  | Unsupported.

#[global] Instance ParseResult_eq_dec : EqDecision ParseResult.
Proof. solve_decision. Defined.

(** [static_cast<size_t>(r)] *)
Definition code (r : ParseResult) : Z :=
  match r with
  | NoError => 0 | BadChecksum => 1 | PacketTooShort => 2 | WrongIPVersion => 3
  | HeaderTooShort => 4 | TruncatedPacket => 5 | Unsupported => 6
  end.

Definition _names : list string :=
  ["NoError"; "BadChecksum"; "PacketTooShort"; "WrongIPVersion"; "HeaderTooShort"; "TruncatedPacket"].

(** [std::string as_string(const ParseResult r)] *)
Definition as_string (r : ParseResult) : res string := at_ _names (code r).

End Parser.

Module NetParser.

Import Parser.

Record NetParser : Set := mk {
  _buffer : Buffer.Buffer;
  _error : ParseResult
}.

(** [NetParser(Buffer buffer)] and accessors *)
Definition construct (b : Buffer.Buffer) : NetParser := mk b NoError.
Definition buffer (p : NetParser) : Buffer.Buffer := _buffer p.
Definition get_error (p : NetParser) : ParseResult := _error p.
Definition set_error (r : ParseResult) (p : NetParser) : NetParser := mk (_buffer p) r.
Definition error (p : NetParser) : bool := bool_decide (get_error p <> NoError).

(** [void _check_size(const size_t size)] *)
Definition _check_size (size : Z) (p : NetParser) : NetParser :=
  if decide (size > Buffer.size (_buffer p)) then set_error PacketTooShort p else p.

(** [template <typename T> T _parse_int()] with [len = sizeof(T)] *)
Definition _parse_int (len : Z) (p : NetParser) : res (Z * NetParser) :=
  let to_T z := z mod 2 ^ (8 * len) in
  let p := _check_size len p in
  if error p then Ok (0, p) else
  ret ← for_loop len
    (fun i ret => c ← Buffer.at_byte (_buffer p) i; Ok (to_T (to_T (Z.shiftl ret 8) + c))) 0;
  b ← Buffer.remove_prefix len (_buffer p);
  Ok (ret, mk b (_error p)).

(** [void remove_prefix(const size_t n)] *)
Definition remove_prefix (n : Z) (p : NetParser) : res NetParser :=
  let p := _check_size n p in
  if error p then Ok p else
  b ← Buffer.remove_prefix n (_buffer p);
  Ok (mk b (_error p)).

(** [uint32_t u32()], [uint16_t u16()], [uint8_t u8()] *)
Definition u32 : NetParser -> res (Z * NetParser) := _parse_int 4.
Definition u16 : NetParser -> res (Z * NetParser) := _parse_int 2.
Definition u8 : NetParser -> res (Z * NetParser) := _parse_int 1.

End NetParser.

Module NetUnparser.

(** [template <typename T> static void _unparse_int(std::string &s, T val)] *)
Definition _unparse_int (len : Z) (s : bytes) (val : Z) : res bytes :=
  for_loop len
    (fun i s => let the_byte := to_u8 (Z.land (Z.shiftr val ((len - i - 1) * 8)) 255) in
                Ok (push_back s (byte_of the_byte))) s.

Definition u32 : bytes -> Z -> res bytes := _unparse_int 4.
Definition u16 : bytes -> Z -> res bytes := _unparse_int 2.
Definition u8 : bytes -> Z -> res bytes := _unparse_int 1.

End NetUnparser.

(** ** Big-endian encodings *)

Module BigEndian.

Definition be_val (l : bytes) : Z := foldl (fun acc b => acc * 256 + byte_val b) 0 l.

Fixpoint be_bytes (n : nat) (val : Z) : bytes :=
  match n with
  | O => []
  | S n' => byte_of (val / 256 ^ Z.of_nat n') :: be_bytes n' val
  end.

Lemma length_be_bytes n val : length (be_bytes n val) = n.
Proof. induction n; simpl; congruence. Qed.

Lemma zlen_be_bytes n val : zlen (be_bytes n val) = Z.of_nat n.
Proof. unfold zlen. by rewrite length_be_bytes. Qed.

Lemma foldl_be acc l : foldl (fun a b => a * 256 + byte_val b) acc l = acc * 256 ^ zlen l + be_val l.
Proof.
  unfold be_val. revert acc. induction l as [|b l IH]; intros acc; cbn [foldl].
  - rewrite zlen_nil. lia.
  - rewrite IH, (IH (0 * 256 + byte_val b)), zlen_cons, Z.pow_add_r by (pose proof (zlen_nonneg l); lia). lia.
Qed.

Lemma be_val_cons b l : be_val (b :: l) = byte_val b * 256 ^ zlen l + be_val l.
Proof. unfold be_val at 1. cbn [foldl]. by rewrite foldl_be. Qed.

Lemma be_val_snoc l b : be_val (l ++ [b]) = be_val l * 256 + byte_val b.
Proof. unfold be_val. by rewrite foldl_app. Qed.

Lemma be_val_range l : 0 <= be_val l < 256 ^ zlen l.
Proof.
  induction l as [|b l IH]; [done|].
  rewrite be_val_cons, zlen_cons, Z.pow_add_r by (pose proof (zlen_nonneg l); lia).
  pose proof (byte_val_range b). unfold is_u8 in *. nia.
Qed.

(** Decoding an encoding truncates to the width. *)
Lemma be_val_bytes n val : be_val (be_bytes n val) = val mod 256 ^ Z.of_nat n.
Proof.
  induction n as [|n IH]; [by rewrite Z.mod_1_r|].
  cbn [be_bytes]. rewrite be_val_cons, IH, zlen_be_bytes, byte_val_of. unfold to_u8.
  rewrite Nat2Z.inj_succ, Z.pow_succ_r by lia. rewrite (Z.mul_comm 256), Z.rem_mul_r by lia.
  change (2 ^ 8) with 256. lia.
Qed.

(** Encoding a decoding gives the bytes back. *)
Lemma be_bytes_val l : be_bytes (length l) (be_val l) = l.
Proof.
  assert (Hgen : forall l acc, 0 <= acc -> be_bytes (length l) (acc * 256 ^ zlen l + be_val l) = l).
  { clear l. induction l as [|b l IH]; intros acc Hacc; simpl; [done|].
    rewrite zlen_cons, Z.pow_add_r by (pose proof (zlen_nonneg l); lia).
    rewrite be_val_cons. pose proof (be_val_range l) as Hr. pose proof (byte_val_range b) as Hb.
    change (Z.of_nat (length l)) with (zlen l).
    replace (acc * (256 ^ 1 * 256 ^ zlen l) + (byte_val b * 256 ^ zlen l + be_val l))
      with ((acc * 256 + byte_val b) * 256 ^ zlen l + be_val l) by lia.
    f_equal.
    - rewrite Z.div_add_l, Z.div_small by lia. apply byte_of_eq. width_lia.
    - apply IH. unfold is_u8 in Hb. lia. }
  specialize (Hgen l 0). simpl in Hgen. apply Hgen. lia.
Qed.

Lemma be_bytes_S n val : be_bytes (S n) val = byte_of (val / 256 ^ Z.of_nat n) :: be_bytes n val.
Proof. done. Qed.

#[global] Arguments be_bytes : simpl never.

End BigEndian.

Module ParserFacts.

Import Parser NetParser BigEndian.

Lemma pow_256 n : 0 <= n -> 2 ^ (8 * n) = 256 ^ n.
Proof. intros Hn. rewrite Z.pow_mul_r by lia. done. Qed.

Lemma check_size_enough n p : n <= Buffer.size (_buffer p) -> _check_size n p = p.
Proof. intros Hn. unfold _check_size. by rewrite decide_False by lia. Qed.

Lemma check_size_short n p : Buffer.size (_buffer p) < n -> _check_size n p = set_error PacketTooShort p.
Proof. intros Hn. unfold _check_size. by rewrite decide_True by lia. Qed.

Lemma error_true p : get_error p <> NoError -> error p = true.
Proof. intros H. by apply bool_decide_eq_true_2. Qed.

Lemma error_false p : get_error p = NoError -> error p = false.
Proof. intros H. apply bool_decide_eq_false_2. auto. Qed.

(** The accumulating loop of [_parse_int]. *)
Lemma parse_loop_eq b bs rest len :
  Buffer.str b = bs ++ rest -> zlen bs = len ->
  for_loop len
    (fun i ret => c ← Buffer.at_byte b i;
       Ok ((Z.shiftl ret 8 mod 2 ^ (8 * len) + c) mod 2 ^ (8 * len))) 0 = Ok (be_val bs).
Proof.
  intros Hstr Hlen. pose proof (zlen_nonneg bs) as Hnn.
  destruct (for_loop_inv (fun i ret => ret = be_val (take (Z.to_nat i) bs))
    (fun i ret => c ← Buffer.at_byte b i;
       Ok ((Z.shiftl ret 8 mod 2 ^ (8 * len) + c) mod 2 ^ (8 * len))) len 0)
    as (ret & E & ->); [lia|done| |rewrite E, take_ge; [done|unfold zlen in *; lia]].
  intros j ret Hj ->. destruct (at_in_range bs j) as (c & _ & Hc); [lia|].
  rewrite (Buffer.at_byte_spec b j c); [|lia|by rewrite Hstr; apply lookup_app_l_Some].
  eexists. split; [done|]. replace (Z.to_nat (j + 1)) with (S (Z.to_nat j)) by lia.
  rewrite (take_S_r _ _ _ Hc), be_val_snoc.
  pose proof (be_val_range (take (Z.to_nat j) bs ++ [c])) as Hr. rewrite be_val_snoc in Hr.
  assert (Hle : 256 ^ zlen (take (Z.to_nat j) bs ++ [c]) <= 2 ^ (8 * len)).
  { rewrite pow_256 by lia. apply Z.pow_le_mono_r; [lia|].
    rewrite zlen_app, zlen_take by lia. unfold zlen in *. simpl. lia. }
  pose proof (be_val_range (take (Z.to_nat j) bs)). pose proof (byte_val_range c) as Hcr. unfold is_u8 in Hcr.
  rewrite Z.shiftl_mul_pow2 by lia. change (2 ^ 8) with 256.
  rewrite (Z.mod_small (_ * 256)) by lia. by rewrite Z.mod_small by lia.
Qed.

(** A read with enough data returns the big-endian value and consumes it. *)
Lemma parse_int_spec len p bs rest :
  get_error p = NoError -> Buffer.wf (_buffer p) ->
  Buffer.str (_buffer p) = bs ++ rest -> zlen bs = len ->
  exists p', _parse_int len p = Ok (be_val bs, p') /\ get_error p' = NoError /\
    Buffer.wf (_buffer p') /\ Buffer.str (_buffer p') = rest.
Proof.
  intros Herr Hwf Hstr Hlen. pose proof (zlen_nonneg bs). pose proof (zlen_nonneg rest).
  assert (Hsize : Buffer.size (_buffer p) = len + zlen rest)
    by (unfold Buffer.size; rewrite Hstr, zlen_app; lia).
  unfold _parse_int. rewrite check_size_enough by lia. rewrite error_false by done.
  rewrite (parse_loop_eq _ bs rest) by done. simpl.
  destruct (Buffer.remove_prefix_spec len (_buffer p) Hwf) as (b' & E & Hwf' & Hb'); [lia|].
  rewrite E. simpl. eexists. split; [done|]. simpl. split_and!; [done|done|].
  rewrite Hb', Hstr, drop_app_ge by (unfold zlen in *; lia).
  replace (_ - _)%nat with 0%nat by (unfold zlen in *; lia). done.
Qed.

Lemma parse_int_short len p :
  Buffer.size (_buffer p) < len -> _parse_int len p = Ok (0, set_error PacketTooShort p).
Proof. intros Hs. unfold _parse_int. by rewrite check_size_short. Qed.

Lemma parse_int_sticky len p :
  get_error p <> NoError ->
  exists e, _parse_int len p = Ok (0, set_error e p) /\ e <> NoError.
Proof.
  intros He. destruct (decide (len > Buffer.size (_buffer p))).
  - exists PacketTooShort. rewrite parse_int_short by lia. done.
  - exists (get_error p). unfold _parse_int. rewrite check_size_enough by lia.
    rewrite error_true by done. destruct p. done.
Qed.

Lemma parser_remove_prefix_spec n p bs rest :
  get_error p = NoError -> Buffer.wf (_buffer p) ->
  Buffer.str (_buffer p) = bs ++ rest -> zlen bs = n ->
  exists p', NetParser.remove_prefix n p = Ok p' /\ get_error p' = NoError /\
    Buffer.wf (_buffer p') /\ Buffer.str (_buffer p') = rest.
Proof.
  intros Herr Hwf Hstr Hlen. pose proof (zlen_nonneg bs). pose proof (zlen_nonneg rest).
  assert (Hsize : Buffer.size (_buffer p) = n + zlen rest)
    by (unfold Buffer.size; rewrite Hstr, zlen_app; lia).
  unfold NetParser.remove_prefix. rewrite check_size_enough by lia. rewrite error_false by done.
  destruct (Buffer.remove_prefix_spec n (_buffer p) Hwf) as (b' & E & Hwf' & Hb'); [lia|].
  rewrite E. simpl. eexists. split; [done|]. simpl. split_and!; [done|done|].
  rewrite Hb', Hstr, drop_app_ge by (unfold zlen in *; lia).
  replace (_ - _)%nat with 0%nat by (unfold zlen in *; lia). done.
Qed.

(** No error but a short packet. *)
Definition short_only (p : NetParser) : Prop := get_error p = NoError \/ get_error p = PacketTooShort.

Lemma parse_error_total len p :
  short_only p -> get_error p <> NoError \/ Buffer.size (_buffer p) < len ->
  exists p', _parse_int len p = Ok (0, p') /\ _buffer p' = _buffer p /\ get_error p' = PacketTooShort.
Proof.
  intros Hp Herr. destruct (decide (Buffer.size (_buffer p) < len)) as [Hs|Hs].
  - rewrite parse_int_short by done. by exists (set_error PacketTooShort p).
  - destruct Hp as [Hp|Hp]; [exfalso; destruct Herr; congruence || lia|].
    exists p. unfold _parse_int. rewrite check_size_enough by lia. rewrite error_true by congruence. done.
Qed.

(** What reading [len] bytes does to a parser that has met no error but a short packet. *)
Definition reads (len : Z) (p p' : NetParser) : Prop :=
  Buffer.wf (_buffer p') /\
  (get_error p' = NoError /\ get_error p = NoError /\ len <= Buffer.size (_buffer p) /\
     Buffer.str (_buffer p') = drop (Z.to_nat len) (Buffer.str (_buffer p)) \/
   get_error p' = PacketTooShort /\
     (get_error p = PacketTooShort \/ get_error p = NoError /\ Buffer.size (_buffer p) < len)).

Lemma reads_short_only len p p' : reads len p p' -> short_only p'.
Proof. intros [_ [(? & _)|(? & _)]]; [by left|by right]. Qed.

Lemma reads_trans a b p p1 p2 :
  0 <= a -> 0 <= b -> reads a p p1 -> reads b p1 p2 -> reads (a + b) p p2.
Proof.
  intros Ha Hb [Hw1 H1] [Hw2 H2]. split; [done|]. unfold Buffer.size in *.
  destruct H1 as [(E1 & E0 & Hle & Hs1)|(E1 & H1)], H2 as [(E2 & E1' & Hle2 & Hs2)|(E2 & H2)];
    try congruence.
  - left. rewrite Hs1, zlen_drop in Hle2 by done. split_and!; [done..|lia|].
    rewrite Hs2, Hs1, drop_drop. f_equal. lia.
  - right. split; [done|]. destruct H2 as [?|[_ Hlt]]; [congruence|]. right. split; [done|].
    rewrite Hs1, zlen_drop in Hlt by done. lia.
  - right. split; [done|]. destruct H1 as [?|[? ?]]; [by left|right]. split; [done|lia].
Qed.

Lemma parse_int_total len p :
  0 <= len -> Buffer.wf (_buffer p) -> short_only p ->
  exists v p', _parse_int len p = Ok (v, p') /\ 0 <= v < 2 ^ (8 * len) /\ reads len p p'.
Proof.
  intros Hlen Hw Hp. assert (0 < 2 ^ (8 * len)) by (apply Z.pow_pos_nonneg; lia).
  destruct (decide (get_error p = NoError /\ len <= Buffer.size (_buffer p))) as [[He Hle]|Hno].
  - unfold Buffer.size in Hle.
    destruct (parse_int_spec len p (take (Z.to_nat len) (Buffer.str (_buffer p)))
      (drop (Z.to_nat len) (Buffer.str (_buffer p)))) as (p' & E & He' & Hw' & Hs');
      [done|done|by rewrite take_drop|rewrite zlen_take by done; lia|].
    exists (be_val (take (Z.to_nat len) (Buffer.str (_buffer p)))), p'. split; [done|]. split.
    + pose proof (be_val_range (take (Z.to_nat len) (Buffer.str (_buffer p)))) as Hr.
      rewrite zlen_take, Z.min_l in Hr by lia. by rewrite pow_256.
    + split; [done|]. left. done.
  - assert (Herr : get_error p <> NoError \/ Buffer.size (_buffer p) < len).
    { destruct (decide (len <= Buffer.size (_buffer p))); [left|right; lia]. intros He. by apply Hno. }
    destruct (parse_error_total len p Hp Herr) as (p' & E & Hb & He').
    exists 0, p'. split; [done|]. split; [lia|]. split; [by rewrite Hb|]. right. split; [done|].
    destruct Hp as [Hp|Hp]; [right|by left]. split; [done|]. by destruct Herr.
Qed.

(** [_unparse_int] appends the big-endian encoding. *)
Lemma unparse_int_eq len s val :
  0 <= len -> NetUnparser._unparse_int len s val = Ok (s ++ be_bytes (Z.to_nat len) val).
Proof.
  intros Hlen. unfold NetUnparser._unparse_int, for_loop.
  set (body := fun i s => _).
  assert (H : forall k i s, i + Z.of_nat k = len -> for_from k i body s = Ok (s ++ be_bytes k val)).
  { clear s. induction k as [|k IH]; intros i s Hi; simpl; [by rewrite app_nil_r|].
    rewrite IH by lia. unfold push_back. rewrite <- app_assoc, be_bytes_S. cbn [app]. do 3 f_equal.
    apply byte_of_eq. rewrite byte_val_of.
    rewrite (Z.land_ones _ 8) by lia. rewrite Z.shiftr_div_pow2 by lia.
    replace ((len - i - 1) * 8) with (8 * Z.of_nat k) by lia. rewrite pow_256 by lia.
    unfold to_u8. by rewrite !Z.mod_mod. }
  apply H. lia.
Qed.

(** ** Properties *)

(** An integer of [len] bytes written by [NetUnparser] and read back by
    [NetParser] is the integer truncated to its width; exactly its bytes are consumed
    and no error is set. *)
Lemma net_int_roundtrip len val rest :
  0 <= len -> len + zlen rest < 2 ^ 64 ->
  exists s p, NetUnparser._unparse_int len [] val = Ok s /\
    _parse_int len (construct (Buffer.of_string (s ++ rest))) = Ok (val mod 2 ^ (8 * len), p) /\
    get_error p = NoError /\ Buffer.str (buffer p) = rest.
Proof.
  intros Hlen Hsize. rewrite unparse_int_eq by done. simpl.
  destruct (parse_int_spec len (construct (Buffer.of_string (be_bytes (Z.to_nat len) val ++ rest)))
    (be_bytes (Z.to_nat len) val) rest) as (p & E & He & Hw & Hs); [done| |done| |].
  - apply Buffer.of_string_wf. rewrite zlen_app, zlen_be_bytes. lia.
  - rewrite zlen_be_bytes. lia.
  - rewrite be_val_bytes in E. exists (be_bytes (Z.to_nat len) val), p.
    rewrite pow_256 by done. rewrite Z2Nat.id in E by done. done.
Qed.

(** Parsing errors are sticky and safe: on too little data a read sets
    [PacketTooShort], and after any error every read returns 0 without an exception,
    consumes nothing and leaves an error set. *)
Lemma parse_error_sticky len p :
  get_error p <> NoError \/ Buffer.size (buffer p) < len ->
  exists p', _parse_int len p = Ok (0, p') /\ error p' = true /\ buffer p' = buffer p /\
    (Buffer.size (buffer p) < len -> get_error p' = PacketTooShort).
Proof.
  intros [He|Hs].
  - destruct (parse_int_sticky len p He) as (e & E & Hne). exists (set_error e p).
    split_and!; [done|by apply error_true|done|]. intros Hs. rewrite parse_int_short in E by done.
    by injection E as <-.
  - exists (set_error PacketTooShort p). rewrite parse_int_short by done. done.
Qed.

(** [as_string] names every parse result except [Unsupported], for which the table
    has no entry: the subscript is past the end of the array. *)
Lemma as_string_unsupported_undefined r :
  (exists name, as_string r = Ok name) <-> r <> Unsupported.
Proof.
  destruct r; split; intros H; try done; try (by eexists); destruct H; done.
Qed.

End ParserFacts.
