(* ===== verification/Checksum.v ===== *)
(** * The Internet checksum (class InternetChecksum of libsponge/util/util.hh, .cc)

    The class sums 16-bit big-endian words, byte by byte, and folds the carries at the
    end.  [word_sum] is the mathematical sum and [fold16] the ones'-complement
    reduction; [checksum_verifies] is the property TCP relies on. *)

From S2P Require Import Prelude Parser.

Module InternetChecksum.

Import BigEndian.

Record InternetChecksum : Set := mk { _sum : Z; _parity : bool }.

(** [InternetChecksum(const uint32_t initial_sum = 0)] *)
Definition construct (initial_sum : Z) : InternetChecksum := mk initial_sum false.

(** The body of the loop of [add]. *)
Definition add_byte (c : InternetChecksum) (b : byte) : InternetChecksum :=
  let val := to_u16 (byte_val b) in
  let val := if negb (_parity c) then to_u16 (Z.shiftl val 8) else val in
  mk (to_u32 (_sum c + val)) (negb (_parity c)).

(** [void add(std::string_view data)] *)
Definition add (data : bytes) (c : InternetChecksum) : InternetChecksum := foldl add_byte c data.

(** [uint16_t value() const]: a 32-bit sum is folded at most twice. *)
Definition value (c : InternetChecksum) : res Z :=
  ret ← while_loop 3 (fun ret => Ok (bool_decide (ret > 65535)))
          (fun ret => Ok (to_u32 (Z.shiftr ret 16 + Z.land ret 65535))) (_sum c);
  Ok (to_u16 (Z.lnot ret)).

Example checksum_of_zeros : value (add [Byte.x00; Byte.x00] (construct 0)) = Ok 65535.
Proof. reflexivity. Qed.

(** ** The mathematical sum *)

Fixpoint word_sum (parity : bool) (data : bytes) : Z :=
  match data with
  | [] => 0
  | b :: data' => (if parity then byte_val b else byte_val b * 256) + word_sum (negb parity) data'
  end.

Definition fold16 (s : Z) : Z := if decide (s = 0) then 0 else (s - 1) mod 65535 + 1.

Definition parity_after (parity : bool) (data : bytes) : bool := xorb parity (Nat.odd (length data)).

Lemma word_sum_app par a b : word_sum par (a ++ b) = word_sum par a + word_sum (parity_after par a) b.
Proof.
  revert par. induction a as [|x a IH]; intros par; simpl.
  - unfold parity_after. simpl. by rewrite xorb_false_r.
  - rewrite IH. unfold parity_after. cbn [length]. rewrite Nat.odd_succ, <- Nat.negb_odd.
    replace (xorb (negb par) (Nat.odd (length a))) with (xorb par (negb (Nat.odd (length a))))
      by (destruct par, (Nat.odd (length a)); done). lia.
Qed.

Lemma word_sum_range par data : 0 <= word_sum par data <= 65280 * zlen data.
Proof.
  revert par. induction data as [|b data IH]; intros par; simpl; [unfold zlen; simpl; lia|].
  rewrite zlen_cons. pose proof (byte_val_range b) as Hb. specialize (IH (negb par)).
  unfold is_u8 in Hb. destruct par; lia.
Qed.

Lemma add_eq data c :
  is_u32 (_sum c) ->
  add data c = mk (to_u32 (_sum c + word_sum (_parity c) data)) (parity_after (_parity c) data).
Proof.
  unfold add. revert c. induction data as [|b data IH]; intros c Hc; simpl.
  - unfold parity_after. simpl. rewrite xorb_false_r, Z.add_0_r, to_u32_small by done. by destruct c.
  - rewrite IH by (simpl; auto with width). simpl. pose proof (byte_val_range b) as Hb.
    rewrite Z.shiftl_mul_pow2 by lia. f_equal.
    + destruct (_parity c); simpl; width_lia.
    + unfold parity_after. cbn [length]. rewrite Nat.odd_succ, <- Nat.negb_odd.
      destruct (_parity c), (Nat.odd (length data)); done.
Qed.

Lemma fold16_step s : 65535 < s < 2 ^ 32 ->
  to_u32 (Z.shiftr s 16 + Z.land s 65535) = s / 65536 + s mod 65536.
Proof.
  intros Hs. rewrite Z.shiftr_div_pow2 by lia. change 65535 with (Z.ones 16) at 1. rewrite Z.land_ones by lia. width_lia.
Qed.

(** The folding loop ends within two iterations on a 32-bit sum. *)
Lemma value_eq c : is_u32 (_sum c) -> value c = Ok (65535 - fold16 (_sum c)).
Proof.
  intros Hc. unfold value. set (s := _sum c) in *. clearbody s.
  assert (Hend : forall r, 0 <= r <= 65535 -> to_u16 (Z.lnot r) = 65535 - r).
  { intros r Hr. rewrite Z.lnot_eq_pred_opp. width_lia. }
  assert (H : while_loop 3 (fun ret => Ok (bool_decide (ret > 65535)))
    (fun ret => Ok (to_u32 (Z.shiftr ret 16 + Z.land ret 65535))) s = Ok (fold16 s)).
  2:{ rewrite H. simpl. rewrite Hend; [done|]. unfold fold16. case_decide; width_lia. }
  unfold is_u32 in Hc. cbn [while_loop]. res_simpl.
  case_bool_decide; [|unfold fold16; case_decide; f_equal; width_lia].
  rewrite fold16_step by lia. case_bool_decide; [|unfold fold16; case_decide; f_equal; width_lia].
  rewrite fold16_step by width_lia.
  case_bool_decide; [width_lia|unfold fold16; case_decide; f_equal; width_lia].
Qed.

Lemma word_sum_be_bytes c : is_u16 c -> word_sum false (be_bytes 2 c) = c.
Proof. intros Hc. unfold be_bytes. cbn. rewrite !byte_val_of. width_lia. Qed.

(** Adding in one call or in several is the same. *)
Lemma add_app a b c : add (a ++ b) c = add b (add a c).
Proof. unfold add. by rewrite foldl_app. Qed.

Lemma checksum_ok init pre post c :
  is_u32 init -> Nat.even (length pre) = true ->
  init + word_sum false (pre ++ be_bytes 2 0 ++ post) + 65535 < 2 ^ 32 ->
  value (add (pre ++ be_bytes 2 0 ++ post) (construct init)) = Ok c ->
  is_u16 c /\ value (add (pre ++ be_bytes 2 c ++ post) (construct init)) = Ok 0.
Proof.
  intros Hinit Heven Hsum.
  pose proof (word_sum_range false pre) as Hr1. pose proof (word_sum_range false post) as Hr2.
  assert (Hpar : parity_after false pre = false).
  { unfold parity_after. rewrite xorb_false_l, <- Nat.negb_even. by rewrite Heven. }
  assert (Hws : forall x, is_u16 x -> word_sum false (pre ++ be_bytes 2 x ++ post)
                = word_sum false pre + x + word_sum false post).
  { intros x Hx. rewrite !word_sum_app, Hpar, word_sum_be_bytes by done.
    change (parity_after false (be_bytes 2 x)) with false. lia. }
  rewrite Hws in Hsum by (unfold is_u16; lia). unfold is_u32 in Hinit.
  rewrite add_eq, value_eq by (simpl; auto with width). cbn [_sum _parity construct].
  rewrite Hws, to_u32_small by (unfold is_u16, is_u32; lia). intros [= <-].
  set (s := init + (word_sum false pre + 0 + word_sum false post)).
  assert (Hf : 0 <= fold16 s <= 65535) by (unfold fold16; case_decide; width_lia).
  assert (Hc : is_u16 (65535 - fold16 s)) by (unfold is_u16; lia).
  split; [done|].
  rewrite add_eq, value_eq by (simpl; auto with width). cbn [_sum _parity construct].
  rewrite Hws by done.
  replace (init + (word_sum false pre + (65535 - fold16 s) + word_sum false post))
    with (s + (65535 - fold16 s)) by lia.
  rewrite to_u32_small by (unfold is_u32; lia). f_equal.
  assert (0 <= s) by lia. clearbody s. unfold fold16. repeat case_decide; width_lia.
Qed.

(** ** Properties *)

(** C25: the carry-folding loop of [value] ends for every 32-bit sum, and the result is
    the 16-bit ones' complement of the sum of the big-endian words (as long as that
    sum fits 32 bits); splitting the data over several calls of [add] changes nothing. *)
Theorem checksum_value init a b :
  is_u32 init -> init + word_sum false (a ++ b) < 2 ^ 32 ->
  add b (add a (construct init)) = add (a ++ b) (construct init) /\
  value (add (a ++ b) (construct init)) = Ok (65535 - fold16 (init + word_sum false (a ++ b))).
Proof.
  intros Hinit Hsum. pose proof (word_sum_range false (a ++ b)) as Hr. split.
  - by rewrite add_app.
  - rewrite add_eq by done. rewrite value_eq by (simpl; auto with width). simpl.
    rewrite to_u32_small; [done|]. unfold is_u32 in *. lia.
Qed.

Lemma checksum_value_witness :
  value (add ([Byte.x01; Byte.x02] ++ [Byte.x03]) (construct 5))
  = Ok (65535 - fold16 (5 + word_sum false ([Byte.x01; Byte.x02] ++ [Byte.x03]))).
Proof. apply checksum_value; concrete. Defined.

(** A message that carries its own checksum verifies.  With the checksum field (at
    an even position) zero when the checksum is computed and set to the result
    afterwards, the checksum of the whole message is 0. *)
Lemma checksum_verifies init pre post c :
  is_u32 init -> Nat.even (length pre) = true ->
  init + word_sum false (pre ++ be_bytes 2 0 ++ post) + 65535 < 2 ^ 32 ->
  value (add (pre ++ be_bytes 2 0 ++ post) (construct init)) = Ok c ->
  is_u16 c /\ value (add (pre ++ be_bytes 2 c ++ post) (construct init)) = Ok 0.
Proof. apply checksum_ok. Qed.

End InternetChecksum.
