(* ===== verification/TCPHeader.v ===== *)
(** * TCP headers (libsponge/tcp_helpers/tcp_header.hh, .cc)

    The header record, its parser over [NetParser] and its serializer over
    [NetUnparser].  The theorems: the serializer and the parser are inverse on
    well-formed headers, and the parser never throws, whatever bytes arrive. *)

From S2P Require Import Prelude WrappingIntegers Buffer Parser.

Module TCPHeader.

Import Parser.

Record TCPHeader : Set := mk {
  sport : Z;
  dport : Z;
  seqno : WrappingInt32.WrappingInt32;
  ackno : WrappingInt32.WrappingInt32;
  doff : Z;
  urg : bool;
  ack : bool;
  psh : bool;
  rst : bool;
  syn : bool;
  fin : bool;
  win : Z;
  cksum : Z;
  uptr : Z
}.

#[global] Instance TCPHeader_eq_dec : EqDecision TCPHeader.
Proof. solve_decision. Defined.

Definition LENGTH : Z := 20.

(** [TCPHeader{}] *)
Definition default_header : TCPHeader :=
  mk 0 0 (WrappingInt32.mk 0) (WrappingInt32.mk 0) (LENGTH / 4)
     false false false false false false 0 0 0.

(** [static_cast<bool>(fl_b & mask)] *)
Definition has_flag (fl_b mask : Z) : bool := bool_decide (Z.land fl_b mask <> 0).

(** [ParseResult parse(NetParser &p)] *)
Definition parse (p : NetParser.NetParser) : res (ParseResult * TCPHeader * NetParser.NetParser) :=
  '(sport, p) ← NetParser.u16 p;
  '(dport, p) ← NetParser.u16 p;
  '(seqno, p) ← NetParser.u32 p;
  '(ackno, p) ← NetParser.u32 p;
  '(b, p) ← NetParser.u8 p;
  let doff := Z.shiftr b 4 in
  '(fl_b, p) ← NetParser.u8 p;
  '(win, p) ← NetParser.u16 p;
  '(cksum, p) ← NetParser.u16 p;
  '(uptr, p) ← NetParser.u16 p;
  let h := mk sport dport (WrappingInt32.mk seqno) (WrappingInt32.mk ackno) doff
             (has_flag fl_b 32) (has_flag fl_b 16) (has_flag fl_b 8) (has_flag fl_b 4)
             (has_flag fl_b 2) (has_flag fl_b 1) win cksum uptr in
  if decide (doff < 5) then Ok (HeaderTooShort, h, p) else
  p ← NetParser.remove_prefix (to_u64 (doff * 4 - LENGTH)) p;
  if NetParser.error p then Ok (NetParser.get_error p, h, p) else
  Ok (NoError, h, p).

Definition flags (h : TCPHeader) : Z :=
  to_u8 (Z.lor (Z.lor (Z.lor (Z.lor (Z.lor
    (if urg h then 32 else 0) (if ack h then 16 else 0)) (if psh h then 8 else 0))
    (if rst h then 4 else 0)) (if syn h then 2 else 0)) (if fin h then 1 else 0)).

(** [std::string serialize() const] *)
Definition serialize (h : TCPHeader) : res bytes :=
  if decide (doff h < 5) then throw "TCP header too short" else
  ret ← NetUnparser.u16 [] (sport h);
  ret ← NetUnparser.u16 ret (dport h);
  ret ← NetUnparser.u32 ret (WrappingInt32.raw_value (seqno h));
  ret ← NetUnparser.u32 ret (WrappingInt32.raw_value (ackno h));
  ret ← NetUnparser.u8 ret (to_u8 (Z.shiftl (doff h) 4));
  ret ← NetUnparser.u8 ret (flags h);
  ret ← NetUnparser.u16 ret (win h);
  ret ← NetUnparser.u16 ret (cksum h);
  ret ← NetUnparser.u16 ret (uptr h);
  Ok (resize (Z.to_nat (4 * doff h)) Byte.x00 ret).

(** [bool operator==(const TCPHeader &other) const]: ports and checksum are not compared. *)
Definition eqb (a b : TCPHeader) : bool :=
  WrappingInt32.eqb (seqno a) (seqno b) && WrappingInt32.eqb (ackno a) (ackno b) &&
  bool_decide (doff a = doff b) && Bool.eqb (urg a) (urg b) && Bool.eqb (ack a) (ack b) &&
  Bool.eqb (psh a) (psh b) && Bool.eqb (rst a) (rst b) && Bool.eqb (syn a) (syn b) &&
  Bool.eqb (fin a) (fin b) && bool_decide (win a = win b) && bool_decide (uptr a = uptr b).

(** ** Lemmas *)

Import BigEndian ParserFacts.

(** The fields are within their C++ types. *)
Record wf (h : TCPHeader) : Prop := {
  wf_sport : is_u16 (sport h);
  wf_dport : is_u16 (dport h);
  wf_seqno : WrappingInt32.wf (seqno h);
  wf_ackno : WrappingInt32.wf (ackno h);
  wf_doff : is_u8 (doff h);
  wf_win : is_u16 (win h);
  wf_cksum : is_u16 (cksum h);
  wf_uptr : is_u16 (uptr h)
}.

(** The fixed part of the wire format. *)
Definition fixed_part (h : TCPHeader) : bytes :=
  be_bytes 2 (sport h) ++ be_bytes 2 (dport h) ++
  be_bytes 4 (WrappingInt32.raw_value (seqno h)) ++ be_bytes 4 (WrappingInt32.raw_value (ackno h)) ++
  be_bytes 1 (to_u8 (Z.shiftl (doff h) 4)) ++ be_bytes 1 (flags h) ++
  be_bytes 2 (win h) ++ be_bytes 2 (cksum h) ++ be_bytes 2 (uptr h).

Lemma length_fixed_part h : length (fixed_part h) = 20%nat.
Proof. unfold fixed_part. rewrite !length_app, !length_be_bytes. done. Qed.

Lemma serialize_eq h :
  5 <= doff h ->
  serialize h = Ok (fixed_part h ++ replicate (Z.to_nat (4 * doff h) - 20) Byte.x00).
Proof.
  intros Hd. unfold serialize. rewrite decide_False by lia.
  unfold NetUnparser.u16, NetUnparser.u32, NetUnparser.u8.
  do 9 (rewrite unparse_int_eq by lia; res_simpl).
  rewrite app_nil_l, <- !app_assoc. change (Z.to_nat 2) with 2%nat. change (Z.to_nat 4) with 4%nat.
  change (Z.to_nat 1) with 1%nat. fold (fixed_part h).
  rewrite resize_ge by (rewrite length_fixed_part; lia). by rewrite length_fixed_part.
Qed.

Lemma flags_roundtrip h :
  let f := flags h in
  is_u8 f /\ has_flag f 32 = urg h /\ has_flag f 16 = ack h /\ has_flag f 8 = psh h /\
  has_flag f 4 = rst h /\ has_flag f 2 = syn h /\ has_flag f 1 = fin h.
Proof. unfold flags. by destruct (urg h), (ack h), (psh h), (rst h), (syn h), (fin h). Qed.

Lemma be_val_width n z : 0 <= z < 256 ^ Z.of_nat n -> be_val (be_bytes n z) = z.
Proof. intros Hz. rewrite be_val_bytes. by apply Z.mod_small. Qed.

(** Reads one field off the front of the buffer. *)
Ltac parse_field :=
  match goal with
  | Hs : Buffer.str (NetParser._buffer ?p) = be_bytes ?n ?z ++ ?rest,
    He : NetParser.get_error ?p = NoError, Hw : Buffer.wf (NetParser._buffer ?p)
    |- context [NetParser._parse_int ?len ?p] =>
      let p' := fresh "p" in let E := fresh "E" in let He' := fresh "He" in
      let Hw' := fresh "Hw" in let Hs' := fresh "Hs" in
      destruct (parse_int_spec len p (be_bytes n z) rest He Hw Hs) as (p' & E & He' & Hw' & Hs');
      [apply zlen_be_bytes|]; rewrite E; clear E He Hw Hs; res_simpl
  end.

(** Parsing what [serialize] produced. *)
Lemma parse_serialized h opts rest p :
  wf h -> 5 <= doff h <= 15 -> zlen opts = 4 * doff h - 20 ->
  NetParser.get_error p = NoError -> Buffer.wf (NetParser._buffer p) ->
  Buffer.str (NetParser._buffer p) = fixed_part h ++ opts ++ rest ->
  exists p', parse p = Ok (NoError, h, p') /\ NetParser.get_error p' = NoError /\
    Buffer.str (NetParser.buffer p') = rest.
Proof.
  intros Hwf Hd Hopts He Hw Hs. unfold fixed_part in Hs. rewrite <- !app_assoc in Hs.
  unfold parse, NetParser.u16, NetParser.u32, NetParser.u8. do 9 parse_field.
  destruct Hwf as [H1 H2 H3 H4 H5 H6 H7 H8]. destruct (flags_roundtrip h) as (Hf & F1 & F2 & F3 & F4 & F5 & F6).
  unfold WrappingInt32.wf, is_u8, is_u16, is_u32 in *.
  rewrite !be_val_width by (simpl; unfold to_u8; lia || apply is_u8_to_u8).
  rewrite F1, F2, F3, F4, F5, F6.
  replace (Z.shiftr (to_u8 (Z.shiftl (doff h) 4)) 4) with (doff h)
    by (rewrite Z.shiftr_div_pow2, Z.shiftl_mul_pow2 by lia; width_lia).
  rewrite decide_False by lia.
  match goal with Hs : Buffer.str (NetParser._buffer ?q) = opts ++ rest,
    He : NetParser.get_error ?q = NoError, Hw : Buffer.wf (NetParser._buffer ?q) |- _ =>
    destruct (parser_remove_prefix_spec (to_u64 (doff h * 4 - LENGTH)) q opts rest He Hw Hs)
      as (p' & E & He' & _ & Hs') end.
  { unfold LENGTH. rewrite to_u64_small by width_lia. lia. }
  rewrite E. res_simpl. rewrite error_false by done. exists p'.
  split; [|done]. repeat f_equal. destruct h as [? ? [] []]. done.
Qed.

(** Reads one field of unknown contents. *)
Ltac read_field :=
  match goal with
  | Hp : short_only ?p, Hw : Buffer.wf (NetParser._buffer ?p) |- context [NetParser._parse_int ?len ?p] =>
      let v := fresh "v" in let p' := fresh "p" in let E := fresh "E" in
      let Hv := fresh "Hv" in let R := fresh "R" in
      destruct (parse_int_total len p ltac:(lia) Hw Hp) as (v & p' & E & Hv & R);
      rewrite E; res_simpl; clear E Hw Hp;
      pose proof (reads_short_only _ _ _ R); pose proof (proj1 R)
  end.

(** Joins two reads of the context into one. *)
Ltac join_reads :=
  match goal with
  | R1 : reads ?a ?p ?q, R2 : reads ?b ?q ?r |- _ =>
      let R := fresh "R" in
      pose proof (reads_trans a b p q r ltac:(lia) ltac:(lia) R1 R2) as R; clear R1 R2
  end.

Lemma remove_prefix_total n p :
  0 <= n -> Buffer.wf (NetParser._buffer p) -> short_only p ->
  exists p', NetParser.remove_prefix n p = Ok p' /\ reads n p p'.
Proof.
  intros Hn Hw Hp. unfold reads.
  destruct (decide (Buffer.size (NetParser._buffer p) < n)) as [Hs|Hs].
  { unfold NetParser.remove_prefix. rewrite check_size_short by done. eexists. split; [done|].
    split; [done|]. right. split; [done|]. destruct Hp; [right; done|by left]. }
  destruct Hp as [Hp|Hp].
  - destruct (parser_remove_prefix_spec n p (take (Z.to_nat n) (Buffer.str (NetParser._buffer p)))
      (drop (Z.to_nat n) (Buffer.str (NetParser._buffer p)))) as (p' & E & He & Hw' & Hs');
      [done|done|by rewrite take_drop|unfold Buffer.size in Hs; rewrite zlen_take by done; lia|].
    exists p'. split; [done|]. split; [done|]. left. split_and!; [done..|lia|done].
  - exists p. unfold NetParser.remove_prefix. rewrite check_size_enough by lia.
    rewrite error_true by congruence. split; [done|]. split; [done|]. right. split; [done|by left].
Qed.

(** The outcome of [parse] on arbitrary bytes. *)
Lemma parse_total p :
  NetParser.get_error p = NoError -> Buffer.wf (NetParser._buffer p) ->
  exists r h p', parse p = Ok (r, h, p') /\ short_only p' /\
    (wf h /\ doff h < 16 /\ Buffer.wf (NetParser._buffer p')) /\
    (r = NoError -> 5 <= doff h /\ reads (4 * doff h) p p' /\ NetParser.get_error p' = NoError) /\
    (doff h < 5 -> r = HeaderTooShort /\ reads 20 p p') /\
    (Buffer.size (NetParser._buffer p) < 20 -> r <> NoError /\ NetParser.get_error p' = PacketTooShort).
Proof.
  intros He Hw. unfold parse, NetParser.u16, NetParser.u32, NetParser.u8.
  assert (Hp : short_only p) by (by left). do 9 read_field. repeat join_reads.
  match goal with R : reads ?n p p8 |- _ => replace n with 20 in R by lia; rename R into R20 end.
  assert (Hd : 0 <= Z.shiftr v3 4 < 16) by (rewrite Z.shiftr_div_pow2 by lia; width_lia).
  match goal with |- context [mk ?a ?b ?c ?d ?e ?f ?g ?i ?j ?k ?l ?m ?n ?o] =>
    assert (Hh : wf (mk a b c d e f g i j k l m n o)) by (split; unfold WrappingInt32.wf; cbn; width_lia) end.
  case_decide as Hlt.
  - do 3 eexists. split; [done|]. simpl. split_and!; [done|done|lia|done|done|done|].
    intros Hs. split; [done|]. destruct R20 as [_ [(_ & _ & ? & _)|(? & _)]]; [lia|done].
  - unfold LENGTH. rewrite to_u64_small by width_lia.
    destruct (remove_prefix_total (Z.shiftr v3 4 * 4 - 20) p8) as (p' & E & R); [lia|done..|].
    rewrite E. res_simpl.
    pose proof (reads_trans 20 (Z.shiftr v3 4 * 4 - 20) p p8 p' ltac:(lia) ltac:(lia) R20 R) as Rall.
    replace (20 + (Z.shiftr v3 4 * 4 - 20)) with (4 * Z.shiftr v3 4) in Rall by lia.
    pose proof (reads_short_only _ _ _ Rall) as Hso. destruct (NetParser.error p') eqn:Ee.
    + apply bool_decide_eq_true in Ee. do 3 eexists. split; [done|]. simpl.
      assert (NetParser.get_error p' = PacketTooShort) by (destruct Hso; done).
      split_and!; [done|done|lia|apply Rall|intros ?; congruence|lia|by intros ?; split].
    + apply bool_decide_eq_false in Ee. do 3 eexists. split; [done|]. simpl.
      apply dec_stable in Ee.
      split_and!; [done|done|lia|apply Rall|by intros _; split_and!; [lia|..]|lia|].
      intros Hs. destruct Rall as [_ [(_ & _ & ? & _)|(? & _)]]; [lia|congruence].
Qed.

(** A legal data offset and a parser without error are a success. *)
Lemma parse_no_error p r h p' :
  parse p = Ok (r, h, p') -> NetParser.get_error p' = NoError -> 5 <= doff h -> r = NoError.
Proof.
  unfold parse. intros E He Hd.
  repeat match type of E with (_ ← ?m; _) = _ => destruct m as [[? ?]|]; [|done]; cbn [mbind res_bind] in E end.
  cbv zeta in E. case_decide as Hlt; [injection E as <- <- <-; simpl in Hd; lia|].
  destruct (NetParser.remove_prefix _ _) as [q|]; [|done]. cbn [mbind res_bind] in E.
  destruct (NetParser.error q); injection E as <- <- <-; done.
Qed.

Lemma eqb_refl h : eqb h h = true.
Proof.
  unfold eqb. rewrite !bool_decide_eq_true_2, !Bool.eqb_reflx by done.
  by rewrite !(proj2 (WrappingInt32.eqb_eq _ _)) by done.
Qed.

(** ** Properties *)

(** A well-formed header with a data offset the four-bit field can hold survives
    the wire: [serialize] produces [4 * doff] bytes and [parse] reads the same header
    back from them, leaving the payload. *)
Lemma header_roundtrip h payload :
  wf h -> 5 <= doff h <= 15 -> zlen payload < 2 ^ 32 ->
  exists s p, serialize h = Ok s /\ zlen s = 4 * doff h /\
    parse (NetParser.construct (Buffer.of_string (s ++ payload))) = Ok (NoError, h, p) /\
    NetParser.get_error p = NoError /\ Buffer.str (NetParser.buffer p) = payload.
Proof.
  intros Hwf Hd Hsize. rewrite serialize_eq by lia.
  set (opts := replicate (Z.to_nat (4 * doff h) - 20) Byte.x00).
  assert (Hopts : zlen opts = 4 * doff h - 20) by (unfold opts; rewrite zlen_replicate; lia).
  assert (Hfix : zlen (fixed_part h) = 20) by (unfold zlen; by rewrite length_fixed_part).
  destruct (parse_serialized h opts payload
    (NetParser.construct (Buffer.of_string ((fixed_part h ++ opts) ++ payload))))
    as (p & E & He & Hs); try done.
  - apply Buffer.of_string_wf. rewrite !zlen_app. lia.
  - exists (fixed_part h ++ opts), p. rewrite zlen_app. split_and!; [done|lia|done..].
Qed.

(** The parser is total: on any bytes it returns without an exception; it reports
    success only for a header of at least five words that is entirely there, and then
    leaves exactly the bytes after the header; fewer than 20 bytes always leave the
    error [PacketTooShort] behind and fewer than five words are [HeaderTooShort]. *)
Lemma header_parse_total data :
  zlen data < 2 ^ 64 ->
  exists r h p, parse (NetParser.construct (Buffer.of_string data)) = Ok (r, h, p) /\
    (r = NoError -> 5 <= doff h /\ 4 * doff h <= zlen data /\ NetParser.get_error p = NoError /\
       Buffer.str (NetParser.buffer p) = drop (Z.to_nat (4 * doff h)) data) /\
    (doff h < 5 -> r = HeaderTooShort) /\
    (zlen data < 20 -> r <> NoError /\ NetParser.get_error p = PacketTooShort).
Proof.
  intros Hsize. destruct (parse_total (NetParser.construct (Buffer.of_string data)))
    as (r & h & p & E & _ & _ & Hok & Hshort & Hsmall); [done|by apply Buffer.of_string_wf|].
  exists r, h, p. split; [done|]. split_and!; [|intros; by apply Hshort|done].
  intros Hr. destruct (Hok Hr) as (Hd & [_ R] & He). split; [done|].
  destruct R as [(_ & _ & Hle & Hs)|(He' & _)]; [|congruence]. done.
Qed.

End TCPHeader.
