(* ===== verification/TCPSegment.v ===== *)
(** * TCP segments (libsponge/tcp_helpers/tcp_segment.hh, .cc)

    A header and a payload; parsing checks the Internet checksum over the whole
    segment, serializing computes it.  The theorems: a serialized segment parses back
    to itself, and what the parser does with damaged or malformed input. *)

From S2P Require Import Prelude WrappingIntegers Buffer Parser Checksum TCPHeader.

Module TCPSegment.

Import Parser.

Record TCPSegment : Set := mk {
  header : TCPHeader.TCPHeader;
  payload : Buffer.Buffer
}.

(** [TCPSegment{}] *)
Definition default_segment : TCPSegment := mk TCPHeader.default_header Buffer.empty_buffer.

(** [ParseResult parse(const Buffer buffer, const uint32_t datagram_layer_checksum)]:
    the result of [_header.parse(p)] is not used. *)
Definition parse (buffer : Buffer.Buffer) (datagram_layer_checksum : Z) (seg : TCPSegment)
    : res (ParseResult * TCPSegment) :=
  let check := InternetChecksum.construct datagram_layer_checksum in
  let check := InternetChecksum.add (Buffer.str buffer) check in
  v ← InternetChecksum.value check;
  if decide (v <> 0) then Ok (BadChecksum, seg) else
  let p := NetParser.construct buffer in
  '(_, h, p) ← TCPHeader.parse p;
  Ok (NetParser.get_error p, mk h (NetParser.buffer p)).

(** [size_t length_in_sequence_space() const] *)
Definition length_in_sequence_space (seg : TCPSegment) : Z :=
  to_u64 (zlen (Buffer.str (payload seg)) + (if TCPHeader.syn (header seg) then 1 else 0)
          + (if TCPHeader.fin (header seg) then 1 else 0)).

Definition set_cksum (c : Z) (h : TCPHeader.TCPHeader) : TCPHeader.TCPHeader :=
  let '(TCPHeader.mk sp dp sq ak d u a ps r s f w _ up) := h in
  TCPHeader.mk sp dp sq ak d u a ps r s f w c up.

(** [BufferList serialize(const uint32_t datagram_layer_checksum) const] *)
Definition serialize (datagram_layer_checksum : Z) (seg : TCPSegment) : res BufferList.BufferList :=
  let header_out := set_cksum 0 (header seg) in
  let check := InternetChecksum.construct datagram_layer_checksum in
  s ← TCPHeader.serialize header_out;
  let check := InternetChecksum.add s check in
  let check := InternetChecksum.add (Buffer.str (payload seg)) check in
  c ← InternetChecksum.value check;
  let header_out := set_cksum c header_out in
  s ← TCPHeader.serialize header_out;
  let ret := BufferList.append (BufferList.of_string s) BufferList.empty_list in
  Ok (BufferList.append (BufferList.of_buffer (payload seg)) ret).

(** ** Lemmas *)

Import BigEndian.

(** The bytes around the checksum field. *)
Definition before_cksum (h : TCPHeader.TCPHeader) : bytes :=
  be_bytes 2 (TCPHeader.sport h) ++ be_bytes 2 (TCPHeader.dport h) ++
  be_bytes 4 (WrappingInt32.raw_value (TCPHeader.seqno h)) ++
  be_bytes 4 (WrappingInt32.raw_value (TCPHeader.ackno h)) ++
  be_bytes 1 (to_u8 (Z.shiftl (TCPHeader.doff h) 4)) ++ be_bytes 1 (TCPHeader.flags h) ++
  be_bytes 2 (TCPHeader.win h).

Definition after_cksum (h : TCPHeader.TCPHeader) : bytes :=
  be_bytes 2 (TCPHeader.uptr h) ++ replicate (Z.to_nat (4 * TCPHeader.doff h) - 20) Byte.x00.

Lemma length_before h : length (before_cksum h) = 16%nat.
Proof. unfold before_cksum. rewrite !length_app, !length_be_bytes. done. Qed.

Lemma zlen_after h : 5 <= TCPHeader.doff h -> zlen (after_cksum h) = 4 * TCPHeader.doff h - 18.
Proof. intros Hd. unfold after_cksum. rewrite zlen_app, zlen_be_bytes, zlen_replicate. lia. Qed.

Lemma serialize_around c h :
  5 <= TCPHeader.doff h ->
  TCPHeader.serialize (set_cksum c h) = Ok (before_cksum h ++ be_bytes 2 c ++ after_cksum h).
Proof.
  intros Hd. rewrite TCPHeader.serialize_eq by (by destruct h). f_equal.
  unfold TCPHeader.fixed_part, before_cksum, after_cksum. rewrite <- !app_assoc. by destruct h.
Qed.

Lemma set_cksum_twice c d h : set_cksum c (set_cksum d h) = set_cksum c h.
Proof. by destruct h. Qed.

Lemma wf_set_cksum c h : TCPHeader.wf h -> is_u16 c -> TCPHeader.wf (set_cksum c h).
Proof. intros [] Hc. destruct h. by constructor. Qed.

Lemma concatenate_two s b :
  BufferList.concatenate (BufferList.append (BufferList.of_buffer b)
    (BufferList.append (BufferList.of_string s) BufferList.empty_list)) = s ++ Buffer.str b.
Proof. done. Qed.

Lemma value_defined data init :
  is_u32 init -> forall f, InternetChecksum.value (InternetChecksum.add data (InternetChecksum.construct init)) <> Err f.
Proof.
  intros Hinit f Ev. rewrite InternetChecksum.add_eq, InternetChecksum.value_eq in Ev by (simpl; auto with width). done.
Qed.

(** The sizes for which the 32-bit checksum accumulator cannot overflow. *)
Definition sum_fits (init : Z) (total : Z) : Prop := 0 <= init <= 2 ^ 20 /\ total <= 65535.

Lemma serialize_spec init seg :
  5 <= TCPHeader.doff (header seg) ->
  sum_fits init (4 * TCPHeader.doff (header seg) + zlen (Buffer.str (payload seg))) ->
  exists c bl, serialize init seg = Ok bl /\ is_u16 c /\
    BufferList.concatenate bl =
      (before_cksum (header seg) ++ be_bytes 2 c ++ after_cksum (header seg)) ++ Buffer.str (payload seg) /\
    InternetChecksum.value (InternetChecksum.add (BufferList.concatenate bl)
      (InternetChecksum.construct init)) = Ok 0.
Proof.
  intros Hd [Hinit Htot]. set (h := header seg) in *. set (data := Buffer.str (payload seg)) in *.
  pose proof (zlen_after h Hd) as Hza. pose proof (zlen_nonneg data) as Hnn.
  assert (Hpre : zlen (before_cksum h) = 16) by (unfold zlen; by rewrite length_before).
  pose proof (InternetChecksum.word_sum_range false
    (before_cksum h ++ be_bytes 2 0 ++ after_cksum h ++ data)) as Hr.
  rewrite !zlen_app, zlen_be_bytes, Hpre, Hza in Hr.
  assert (Hu : is_u32 init) by (unfold is_u32; lia).
  destruct (InternetChecksum.value (InternetChecksum.add
    (before_cksum h ++ be_bytes 2 0 ++ after_cksum h ++ data) (InternetChecksum.construct init)))
    as [c|f] eqn:Ev.
  2:{ rewrite InternetChecksum.add_eq, InternetChecksum.value_eq in Ev by (simpl; auto with width). done. }
  destruct (InternetChecksum.checksum_ok init (before_cksum h) (after_cksum h ++ data) c)
    as [Hc Hv]; [done|by rewrite length_before|lia|done|].
  exists c. unfold serialize. fold h. rewrite serialize_around by done. res_simpl.
  assert (Eadd : InternetChecksum.add (Buffer.str (payload seg)) (InternetChecksum.add
     (before_cksum h ++ be_bytes 2 0 ++ after_cksum h) (InternetChecksum.construct init))
   = InternetChecksum.add (before_cksum h ++ be_bytes 2 0 ++ after_cksum h ++ data)
       (InternetChecksum.construct init)).
  { rewrite <- InternetChecksum.add_app. by rewrite <- !app_assoc. }
  rewrite Eadd, Ev. res_simpl. rewrite set_cksum_twice, serialize_around by done. res_simpl.
  eexists. split; [done|]. split; [done|].
  rewrite concatenate_two. fold data. split; [done|]. by rewrite <- !app_assoc.
Qed.

Lemma fixed_part_around c h :
  before_cksum h ++ be_bytes 2 c ++ after_cksum h
  = TCPHeader.fixed_part (set_cksum c h) ++ replicate (Z.to_nat (4 * TCPHeader.doff h) - 20) Byte.x00.
Proof.
  unfold TCPHeader.fixed_part, before_cksum, after_cksum. rewrite <- !app_assoc. by destruct h.
Qed.

Lemma doff_set_cksum c h : TCPHeader.doff (set_cksum c h) = TCPHeader.doff h.
Proof. by destruct h. Qed.

(** What is serialized is parsed back. *)
Lemma serialize_parse init seg seg0 :
  TCPHeader.wf (header seg) -> 5 <= TCPHeader.doff (header seg) <= 15 ->
  sum_fits init (4 * TCPHeader.doff (header seg) + zlen (Buffer.str (payload seg))) ->
  exists bl c seg', serialize init seg = Ok bl /\ is_u16 c /\
    parse (Buffer.of_string (BufferList.concatenate bl)) init seg0 = Ok (NoError, seg') /\
    header seg' = set_cksum c (header seg) /\ Buffer.str (payload seg') = Buffer.str (payload seg) /\
    zlen (BufferList.concatenate bl) = 4 * TCPHeader.doff (header seg) + zlen (Buffer.str (payload seg)).
Proof.
  intros Hwf Hd Hsum. destruct (serialize_spec init seg) as (c & bl & E & Hc & Hbytes & Hv); [lia|done|].
  pose proof (zlen_nonneg (Buffer.str (payload seg))) as Hnn. rewrite fixed_part_around, <- app_assoc in Hbytes.
  set (opts := replicate (Z.to_nat (4 * TCPHeader.doff (header seg)) - 20) Byte.x00) in *.
  assert (Hopts : zlen opts = 4 * TCPHeader.doff (header seg) - 20)
    by (unfold opts; rewrite zlen_replicate; lia).
  assert (Hlen : zlen (BufferList.concatenate bl) = 4 * TCPHeader.doff (header seg) + zlen (Buffer.str (payload seg)))
    by (rewrite Hbytes, !zlen_app, Hopts; unfold zlen at 1; rewrite TCPHeader.length_fixed_part; lia).
  destruct (TCPHeader.parse_serialized (set_cksum c (header seg)) opts (Buffer.str (payload seg))
    (NetParser.construct (Buffer.of_string (BufferList.concatenate bl)))) as (p & Ep & He & Hs);
    rewrite ?doff_set_cksum; try done.
  - by apply wf_set_cksum.
  - apply Buffer.of_string_wf. destruct Hsum. lia.
  - exists bl, c, (mk (set_cksum c (header seg)) (NetParser.buffer p)).
    split_and!; [done|done| |done|done|done].
    unfold parse. rewrite Buffer.str_of_string, Hv. res_simpl. rewrite decide_False by lia.
    rewrite Ep. res_simpl. by rewrite He.
Qed.

(** ** Properties *)

(** C14: a segment survives the wire: for a well-formed header (data offset at most 15)
    and a segment within the size of an IP datagram, [serialize] returns and [parse]
    of the concatenated bytes with the same pseudo-header sum accepts them and yields
    the same header (with its checksum filled in) and the same payload. *)
Theorem segment_roundtrip init seg seg0 :
  TCPHeader.wf (header seg) -> 5 <= TCPHeader.doff (header seg) <= 15 ->
  sum_fits init (4 * TCPHeader.doff (header seg) + zlen (Buffer.str (payload seg))) ->
  exists bl c seg', serialize init seg = Ok bl /\ is_u16 c /\
    parse (Buffer.of_string (BufferList.concatenate bl)) init seg0 = Ok (NoError, seg') /\
    header seg' = set_cksum c (header seg) /\ Buffer.str (payload seg') = Buffer.str (payload seg).
Proof.
  intros Hwf Hd Hsum. destruct (serialize_parse init seg seg0 Hwf Hd Hsum) as (bl & c & seg' & E & Hc & Ep & Hh & Hs & _).
  by exists bl, c, seg'.
Qed.

Definition sample_header : TCPHeader.TCPHeader :=
  TCPHeader.mk 80 443 (WrappingInt32.mk 1) (WrappingInt32.mk 4294967295) 6 false true false false true true 1000 7 0.

Lemma segment_roundtrip_witness :
  exists bl c seg', serialize 100 (mk sample_header (Buffer.of_string [Byte.x68; Byte.x69; Byte.x21])) = Ok bl /\
    is_u16 c /\
    parse (Buffer.of_string (BufferList.concatenate bl)) 100 default_segment = Ok (NoError, seg') /\
    header seg' = set_cksum c sample_header /\
    Buffer.str (payload seg') = [Byte.x68; Byte.x69; Byte.x21].
Proof.
  apply (segment_roundtrip 100 (mk sample_header (Buffer.of_string [Byte.x68; Byte.x69; Byte.x21]))).
  - constructor; concrete.
  - concrete.
  - split; concrete.
Defined.

(** On any bytes [parse] returns without an exception; the result is [BadChecksum],
    with the segment unchanged, exactly when the checksum over all the bytes is not
    zero, and otherwise it is [NoError] or [PacketTooShort]; fewer than 20 bytes are
    never accepted. *)
Lemma segment_parse_total data init seg :
  is_u32 init -> zlen data < 2 ^ 64 ->
  exists r seg', parse (Buffer.of_string data) init seg = Ok (r, seg') /\
    (r = BadChecksum <->
       InternetChecksum.value (InternetChecksum.add data (InternetChecksum.construct init)) <> Ok 0) /\
    (r = BadChecksum -> seg' = seg) /\
    (r = NoError \/ r = BadChecksum \/ r = PacketTooShort) /\
    (zlen data < 20 -> r <> NoError).
Proof.
  intros Hinit Hsize. unfold parse. rewrite Buffer.str_of_string.
  destruct (InternetChecksum.value _) as [v|f] eqn:Ev; [|by destruct (value_defined data init Hinit f Ev)].
  res_simpl. case_decide as Hv.
  - exists BadChecksum, seg. split_and!; try done; [|auto]. split; [|done]. intros _ [= ->]. done.
  - subst v.
    destruct (TCPHeader.parse_total (NetParser.construct (Buffer.of_string data)))
      as (r & h & p & E & Hso & _ & _ & _ & Hshort); [done|by apply Buffer.of_string_wf|].
    rewrite E. res_simpl. do 2 eexists. split; [done|].
    assert (Hne : NetParser.get_error p <> BadChecksum) by (destruct Hso; congruence).
    split_and!; [done|done|destruct Hso; auto|].
    intros Hs. destruct (Hshort Hs) as [_ He]. congruence.
Qed.

(** What [parse] leaves in the segment object. *)
Lemma parse_typed data init seg :
  is_u32 init -> zlen data < 2 ^ 64 ->
  TCPHeader.wf (header seg) -> TCPHeader.doff (header seg) < 16 -> Buffer.wf (payload seg) ->
  exists r seg', parse (Buffer.of_string data) init seg = Ok (r, seg') /\
    TCPHeader.wf (header seg') /\ TCPHeader.doff (header seg') < 16 /\ Buffer.wf (payload seg') /\
    (r = NoError -> 5 <= TCPHeader.doff (header seg') ->
       4 * TCPHeader.doff (header seg') <= zlen data /\
       Buffer.str (payload seg') = drop (Z.to_nat (4 * TCPHeader.doff (header seg'))) data /\
       (sum_fits init (zlen data) ->
          exists bl, serialize init seg' = Ok bl /\ zlen (BufferList.concatenate bl) = zlen data)).
Proof.
  intros Hinit Hsize Hh Hd Hb. unfold parse. rewrite Buffer.str_of_string.
  destruct (InternetChecksum.value _) as [v|f] eqn:Ev; [|by destruct (value_defined data init Hinit f Ev)].
  res_simpl. case_decide as Hv; [by exists BadChecksum, seg|].
  destruct (TCPHeader.parse_total (NetParser.construct (Buffer.of_string data)))
    as (r & h & p & E & Hso & (Hwf & Hdo & Hbw) & Hok & _); [done|by apply Buffer.of_string_wf|].
  rewrite E. res_simpl. do 2 eexists. split; [done|]. simpl. split_and!; [done..|]. intros He Hge.
  assert (r = NoError) as Hr by (eapply TCPHeader.parse_no_error; eauto).
  destruct (Hok Hr) as (_ & [_ [(_ & _ & Hle & Hs)|(He' & _)]] & _); [|congruence].
  change (Buffer.size (NetParser._buffer (NetParser.construct (Buffer.of_string data)))) with (zlen data) in Hle.
  split; [done|]. split; [done|]. intros Hfit.
  assert (Hpay : zlen (Buffer.str (NetParser._buffer p)) = zlen data - 4 * TCPHeader.doff h).
  { rewrite Hs. change (Buffer.str (NetParser._buffer _)) with data. rewrite zlen_drop by lia. lia. }
  destruct (serialize_spec init (mk h (NetParser._buffer p))) as (c & bl & Es & _ & Hbytes & _); [done| |].
  { simpl. rewrite Hpay. by replace (_ + _) with (zlen data) by lia. }
  exists bl. split; [done|]. rewrite Hbytes. cbn [header payload]. rewrite !zlen_app, Hpay, zlen_after, zlen_be_bytes by done.
  unfold zlen at 1. rewrite length_before. lia.
Qed.

(** C22: whatever the bytes are, [parse] returns, reports a bad checksum exactly when the
    sum over the bytes is not zero (and then leaves the segment alone) and otherwise NoError or
    PacketTooShort, and never NoError for fewer than 20 bytes.  The segment object it leaves is well
    typed: every field of the header is within its width, the data offset has four bits and the
    payload lies inside its storage.  When it accepts a segment with a legal data offset, the
    payload is what follows the header and the segment serializes to as many bytes as were
    parsed. *)
Theorem segment_parse_typed data init seg :
  is_u32 init -> zlen data < 2 ^ 64 ->
  TCPHeader.wf (header seg) -> TCPHeader.doff (header seg) < 16 -> Buffer.wf (payload seg) ->
  exists r seg', parse (Buffer.of_string data) init seg = Ok (r, seg') /\
    (r = BadChecksum <->
       InternetChecksum.value (InternetChecksum.add data (InternetChecksum.construct init)) <> Ok 0) /\
    (r = BadChecksum -> seg' = seg) /\ (r = NoError \/ r = BadChecksum \/ r = PacketTooShort) /\
    (zlen data < 20 -> r <> NoError) /\
    TCPHeader.wf (header seg') /\ TCPHeader.doff (header seg') < 16 /\ Buffer.wf (payload seg') /\
    (r = NoError -> 5 <= TCPHeader.doff (header seg') ->
       4 * TCPHeader.doff (header seg') <= zlen data /\
       Buffer.str (payload seg') = drop (Z.to_nat (4 * TCPHeader.doff (header seg'))) data /\
       (sum_fits init (zlen data) ->
          exists bl, serialize init seg' = Ok bl /\ zlen (BufferList.concatenate bl) = zlen data)).
Proof.
  intros Hinit Hsize Hh Hd Hb. destruct (parse_typed data init seg Hinit Hsize Hh Hd Hb) as (r & seg' & E & Htyped).
  destruct (segment_parse_total data init seg Hinit Hsize) as (r2 & seg2 & E2 & Hr & Hs & Hk & Hz).
  rewrite E in E2. injection E2 as <- <-. exists r, seg'.
  exact (conj E (conj Hr (conj Hs (conj Hk (conj Hz Htyped))))).
Qed.

(** A minimal header that carries the two bytes "hi". *)
Definition greeting : bytes :=
  replicate 12 Byte.x00 ++ [Byte.x50; Byte.x00; Byte.x00; Byte.x00; Byte.x47; Byte.x96; Byte.x00; Byte.x00; Byte.x68; Byte.x69].

Lemma segment_parse_typed_witness :
  exists seg', parse (Buffer.of_string greeting) 0 default_segment = Ok (NoError, seg') /\
    TCPHeader.wf (header seg') /\ Buffer.str (payload seg') = [Byte.x68; Byte.x69].
Proof.
  destruct (segment_parse_typed greeting 0 default_segment) as (r & seg' & E & _ & _ & _ & _ & Hw & _ & _ & H);
    [concrete|concrete|repeat split; vm_compute; congruence|concrete|done|].
  exists seg'. assert (r = NoError) as -> by (vm_compute in E; congruence). split; [exact E|]. split; [exact Hw|].
  assert (Hd : TCPHeader.doff (header seg') = 5) by (vm_compute in E; injection E as <-; reflexivity).
  rewrite Hd in H. destruct H as (_ & H & _); [reflexivity|lia|exact H].
Defined.

(** C39: [parse] drops the result of the header parser, so a segment whose data offset
    is below five words, for which [TCPHeader::parse] returns [HeaderTooShort], is
    accepted with [NoError] when its checksum is right. *)
Theorem segment_short_header_accepted data init seg r h p :
  is_u32 init -> 20 <= zlen data < 2 ^ 64 ->
  InternetChecksum.value (InternetChecksum.add data (InternetChecksum.construct init)) = Ok 0 ->
  TCPHeader.parse (NetParser.construct (Buffer.of_string data)) = Ok (r, h, p) ->
  TCPHeader.doff h < 5 ->
  r = HeaderTooShort /\
  parse (Buffer.of_string data) init seg = Ok (NoError, mk h (NetParser.buffer p)).
Proof.
  intros Hinit Hsize Hv E Hd.
  destruct (TCPHeader.parse_total (NetParser.construct (Buffer.of_string data)))
    as (r' & h' & p' & E' & _ & _ & _ & Hshort & _); [done|by apply Buffer.of_string_wf; lia|].
  rewrite E in E'. injection E' as <- <- <-. destruct (Hshort Hd) as [Hr [_ R]]. split; [done|].
  unfold parse. rewrite Buffer.str_of_string, Hv. res_simpl. rewrite decide_False by lia.
  rewrite E. res_simpl. destruct R as [(He & _)|(_ & [He|[_ Hlt]])]; [by rewrite He|done|].
  cbn in Hlt. change (Buffer.size (Buffer.of_string data)) with (zlen data) in Hlt. lia.
Qed.

Lemma segment_short_header_accepted_witness :
  exists h p,
    TCPHeader.parse (NetParser.construct (Buffer.of_string
      (replicate 12 Byte.x00 ++ [Byte.x40; Byte.x00; Byte.x00; Byte.x00; Byte.xbf; Byte.xff; Byte.x00; Byte.x00])))
    = Ok (HeaderTooShort, h, p) /\
    HeaderTooShort = HeaderTooShort /\
    parse (Buffer.of_string
      (replicate 12 Byte.x00 ++ [Byte.x40; Byte.x00; Byte.x00; Byte.x00; Byte.xbf; Byte.xff; Byte.x00; Byte.x00]))
      0 default_segment = Ok (NoError, mk h (NetParser.buffer p)).
Proof.
  do 2 eexists. split; [vm_compute; reflexivity|].
  eapply segment_short_header_accepted; [concrete|concrete|concrete|vm_compute; reflexivity|concrete].
Defined.

End TCPSegment.
