(* ===== verification/SegmentSpec.v ===== *)
(** * Segments of a stream

    The numbering of a byte stream by sequence numbers that the sender and the receiver
    share: position 0 is the SYN, byte [i] of the stream is at position [i + 1], and the
    FIN follows the last byte. *)

From S2P Require Import Prelude WrappingIntegers Buffer TCPHeader TCPSegment ReassemblerSpec.

Module SegmentSpec.

Import WrappingInt32.

(** The sequence numbers a segment occupies. *)
Definition span (seg : TCPSegment.TCPSegment) : Z :=
  zlen (Buffer.str (TCPSegment.payload seg))
  + (if TCPHeader.syn (TCPSegment.header seg) then 1 else 0)
  + (if TCPHeader.fin (TCPSegment.header seg) then 1 else 0).

(** [seg] carries the part of the stream [S] that starts at the absolute sequence
    number [k]. *)
Definition carries (S : bytes) (isn : WrappingInt32) (seg : TCPSegment.TCPSegment) (k : Z) : Prop :=
  let h := TCPSegment.header seg in
  let data := Buffer.copy (TCPSegment.payload seg) in
  TCPHeader.seqno h = wrap k isn /\ (TCPHeader.syn h = true <-> k = 0) /\ 0 <= k /\
  Spec.excerpt S data (k - 1 + (if TCPHeader.syn h then 1 else 0)) (TCPHeader.fin h).

Lemma span_nonneg seg : 0 <= span seg.
Proof. unfold span. pose proof (zlen_nonneg (Buffer.str (TCPSegment.payload seg))). repeat case_match; lia. Qed.

Lemma length_in_sequence_space_eq seg :
  span seg < 2 ^ 64 -> TCPSegment.length_in_sequence_space seg = span seg.
Proof.
  intros H. unfold TCPSegment.length_in_sequence_space. apply to_u64_small.
  pose proof (span_nonneg seg). unfold is_u64, span in *. lia.
Qed.

(** Where a segment of [S] ends. *)
Lemma carries_end S isn seg k :
  carries S isn seg k ->
  k + span seg <= zlen S + 1 + (if TCPHeader.fin (TCPSegment.header seg) then 1 else 0) /\
  (TCPHeader.fin (TCPSegment.header seg) = true -> k + span seg = zlen S + 2).
Proof.
  intros (_ & _ & _ & _ & Hle & _ & Hfin). unfold span, Buffer.copy in *.
  pose proof (zlen_nonneg (Buffer.str (TCPSegment.payload seg))).
  destruct (TCPHeader.fin _).
  - specialize (Hfin eq_refl). case_match; lia.
  - case_match; lia.
Qed.

Lemma excerpt_prefix (S S' data : bytes) index :
  Spec.excerpt S data index false -> S `prefix_of` S' -> Spec.excerpt S' data index false.
Proof.
  intros (Hi & Hle & Hd & _) [T ->]. pose proof (zlen_nonneg T). unfold Spec.excerpt.
  rewrite zlen_app. split_and!; [done|lia| |done]. rewrite Hd at 1.
  rewrite drop_app_le by (unfold zlen in *; lia). rewrite take_app_le; [done|].
  rewrite length_drop. unfold zlen in *. lia.
Qed.

(** A segment without FIN of a stream is a segment of every continuation of it. *)
Lemma carries_prefix S S' isn seg k :
  carries S isn seg k -> TCPHeader.fin (TCPSegment.header seg) = false -> S `prefix_of` S' ->
  carries S' isn seg k.
Proof.
  intros (Hs & Hy & Hk & He) Hf Hp. unfold carries. rewrite Hf in *.
  split_and!; [done|apply Hy..|done|by eapply excerpt_prefix].
Qed.

(** The segment that carries the last [n] bytes of [S]. *)
Lemma carries_data S data isn seg :
  TCPHeader.seqno (TCPSegment.header seg) = wrap (1 + zlen S) isn ->
  TCPHeader.syn (TCPSegment.header seg) = false -> Buffer.copy (TCPSegment.payload seg) = data ->
  carries (S ++ data) isn seg (1 + zlen S).
Proof.
  intros Hs Hy Hd. pose proof (zlen_nonneg S). unfold carries, Spec.excerpt. rewrite Hy, Hd.
  replace (1 + zlen S - 1 + 0) with (zlen S) by lia. rewrite zlen_app.
  split_and!; [done|split; [done|lia]|lia|lia|lia| |lia]. unfold zlen. rewrite Nat2Z.id.
  by rewrite drop_app_length, take_ge by lia.
Qed.

End SegmentSpec.
