(* ===== verification/TCPReceiver.v ===== *)
(** * The TCP receiver (libsponge/tcp_receiver.hh, .cc)

    Turns sequence numbers into stream indices and feeds the reassembler; computes
    the acknowledgment number and the window advertised to the peer.  The theorems
    say what the receiver delivers and acknowledges when the segments that arrive
    (lost, repeated and reordered at will) belong to one stream. *)

From S2P Require Import Prelude ByteStream WrappingIntegers Buffer TCPHeader TCPSegment.
From S2P Require Import StreamReassembler ReassemblerSpec SegmentSpec.

Module TCPReceiver.

Import WrappingInt32 SegmentSpec.

Abbreviation mk_isn := WrappingInt32.mk.

Record TCPReceiver : Set := mk {
  _reassembler : StreamReassembler.StreamReassembler;
  _capacity : Z;
  _isn : option WrappingInt32
}.

(** [TCPReceiver(const size_t capacity)] *)
Definition construct (capacity : Z) : TCPReceiver :=
  mk (StreamReassembler.construct capacity) capacity None.

Definition stream_out (r : TCPReceiver) : ByteStream.ByteStream :=
  StreamReassembler.stream_out (_reassembler r).

(** The part of [segment_received] after the initial sequence number is known. *)
Definition deliver (seg : TCPSegment.TCPSegment) (isn : WrappingInt32) (r : TCPReceiver)
    : res TCPReceiver :=
  let h := TCPSegment.header seg in
  let checkpoint := ByteStream.bytes_written (stream_out r) in
  let abs_seq := unwrap (TCPHeader.seqno h) isn checkpoint in
  let stream_index := to_u64 (to_u64 (abs_seq - 1) + (if TCPHeader.syn h then 1 else 0)) in
  sr ← StreamReassembler.push_substring (Buffer.copy (TCPSegment.payload seg)) stream_index
         (TCPHeader.fin h) (_reassembler r);
  Ok (mk sr (_capacity r) (Some isn)).

(** [void segment_received(const TCPSegment &seg)] *)
Definition segment_received (seg : TCPSegment.TCPSegment) (r : TCPReceiver) : res TCPReceiver :=
  match _isn r with
  | None =>
      if negb (TCPHeader.syn (TCPSegment.header seg)) then Ok r
      else deliver seg (TCPHeader.seqno (TCPSegment.header seg)) r
  | Some isn => deliver seg isn r
  end.

(** [std::optional<WrappingInt32> ackno() const] *)
Definition ackno (r : TCPReceiver) : option WrappingInt32 :=
  match _isn r with
  | None => None
  | Some isn =>
      let abs_seqno := to_u64 (ByteStream.bytes_written (stream_out r) + 1
                               + (if ByteStream.input_ended (stream_out r) then 1 else 0)) in
      Some (wrap abs_seqno isn)
  end.

(** [size_t window_size() const], [size_t unassembled_bytes() const] *)
Definition window_size (r : TCPReceiver) : Z := ByteStream.remaining_capacity (stream_out r).
Definition unassembled_bytes (r : TCPReceiver) : Z :=
  StreamReassembler.unassembled_bytes (_reassembler r).

(** The owner of the receiver reads from [stream_out()]. *)
Definition read_out (len : Z) (r : TCPReceiver) : res (bytes * TCPReceiver) :=
  '(out, sr) ← Reassembly.read_out len (_reassembler r); Ok (out, mk sr (_capacity r) (_isn r)).

(** ** Segments of a stream *)

(** The sequence number is close enough to the receive position to be unwrapped. *)
Definition near (k : Z) (r : TCPReceiver) : Prop :=
  - 2 ^ 31 <= k - ByteStream.bytes_written (stream_out r) < 2 ^ 31.

(** The receiver has received segments of [S] only. *)
Definition receiving (S : bytes) (isn : WrappingInt32) (r : TCPReceiver) : Prop :=
  (_isn r = None \/ _isn r = Some isn) /\ StreamReassembler._capacity (_reassembler r) = _capacity r /\
  exists ops st, Reassembly.refines (_reassembler r) st /\ Reassembly.tracks S ops st.

(** The stream is within half the sequence space that [unwrap] handles. *)
Definition stream_fits (S : bytes) (capacity : Z) : Prop :=
  0 <= capacity /\ 2 * zlen S + capacity < 2 ^ 62.

Lemma deliver_step S isn seg k r ops st :
  wf isn -> carries S isn seg k -> near k r -> stream_fits S (Spec.cap st) ->
  Reassembly.refines (_reassembler r) st -> Reassembly.tracks S ops st ->
  exists index sr', deliver seg isn r = Ok (mk sr' (_capacity r) (Some isn)) /\
    index = k - 1 + (if TCPHeader.syn (TCPSegment.header seg) then 1 else 0) /\
    let data := Buffer.copy (TCPSegment.payload seg) in
    let fin := TCPHeader.fin (TCPSegment.header seg) in
    Reassembly.refines sr' (Spec.push data index fin st) /\
    Reassembly.tracks S (ops ++ [Reassembly.OpPush data index fin]) (Spec.push data index fin st).
Proof.
  intros Hisn (Hseq & Hsyn & Hk & Hex) Hnear [Hcap Hfit] R T.
  set (index := k - 1 + (if TCPHeader.syn (TCPSegment.header seg) then 1 else 0)).
  pose proof (Reassembly.ref_next _ _ R) as Hnext.
  pose proof (Spec.sound_next _ _ (Reassembly.tracks_sound _ _ _ T)) as Hn.
  pose proof (Reassembly.tracks_consumed _ _ _ T) as Hc. pose proof (zlen_nonneg S).
  unfold near, stream_out, StreamReassembler.stream_out in Hnear. rewrite <- Hnext in Hnear.
  assert (Hidx : 0 <= index) by (unfold index; destruct Hex; done).
  assert (Hf : Reassembly.op_fits (Reassembly.OpPush (Buffer.copy (TCPSegment.payload seg)) index
                 (TCPHeader.fin (TCPSegment.header seg))) (_reassembler r)).
  { eapply Reassembly.feeds_fit; [done|done|exact Hex|lia]. }
  destruct (Reassembly.push_step _ _ _ index (TCPHeader.fin (TCPSegment.header seg)) R Hf)
    as (sr' & E & R').
  exists index, sr'. split; [|split; [done|split; [done|]]].
  - unfold deliver, stream_out, StreamReassembler.stream_out. rewrite <- Hnext, Hseq.
    rewrite unwrap_exact_near by lia.
    replace (to_u64 _) with index; [by rewrite E|]. unfold index.
    destruct (TCPHeader.syn _); width_lia.
  - apply Reassembly.tracks_push; [lia|done|exact Hex].
Qed.

Lemma read_out_step S isn len r :
  is_u64 len -> receiving S isn r -> exists out r', read_out len r = Ok (out, r') /\ receiving S isn r' /\
    _isn r' = _isn r /\ _capacity r' = _capacity r /\
    ByteStream.input_ended (stream_out r') = ByteStream.input_ended (stream_out r) /\
    StreamReassembler._eof_flag (_reassembler r') = StreamReassembler._eof_flag (_reassembler r) /\
    take (Z.to_nat (ByteStream.bytes_read (stream_out r'))) S
      = take (Z.to_nat (ByteStream.bytes_read (stream_out r))) S ++ out.
Proof.
  intros Hlen (Hisn & Hc & ops & st & R & T).
  destruct (Reassembly.read_step (_reassembler r) st len R Hlen) as (sr' & E & R').
  destruct (Reassembly.delivered_step S ops (Reassembly.OpRead len) st T Hlen) as [Hd Hcap].
  cbn [Reassembly.Spec_perform] in Hd, Hcap.
  pose proof (Reassembly.tracks_read S ops st len (proj1 Hlen) T) as T'.
  assert (Hdel : forall ops sr st, Reassembly.refines sr st -> Reassembly.tracks S ops st ->
    Reassembly.delivered st = take (Z.to_nat (ByteStream.bytes_read (StreamReassembler._output sr))) S).
  { intros ops0 sr0 st0 R0 T0. unfold Reassembly.delivered. rewrite (Reassembly.assembled_take _ _ _ _ R0 T0).
    rewrite <- (Reassembly.ref_consumed _ _ R0), <- (Reassembly.ref_next _ _ R0).
    pose proof (Reassembly.tracks_consumed _ _ _ T0). rewrite take_take. f_equal. lia. }
  unfold read_out, receiving. rewrite E. do 2 eexists. split; [done|]. split_and!; try done; simpl.
  - pose proof (Reassembly.ref_cap _ _ R). pose proof (Reassembly.ref_cap _ _ R'). congruence.
  - eauto.
  - unfold stream_out, StreamReassembler.stream_out. simpl.
    rewrite <- (Reassembly.ref_ended _ _ R), <- (Reassembly.ref_ended _ _ R').
    unfold Reassembly.Spec_read. by case_decide.
  - pose proof (Reassembly.ref_eof _ _ R) as He. pose proof (Reassembly.ref_eof _ _ R') as He'.
    assert (Heq : Spec.eof_at (Reassembly.Spec_read len st).2 = Spec.eof_at st)
      by (unfold Reassembly.Spec_read; by case_decide).
    rewrite Heq, He in He'. by destruct (StreamReassembler._eof_flag _), (StreamReassembler._eof_flag _).
  - unfold stream_out, StreamReassembler.stream_out. simpl.
    by rewrite <- (Hdel _ _ _ R T), <- (Hdel _ _ _ R' T').
Qed.

Lemma wrap_0 isn : wf isn -> wrap 0 isn = isn.
Proof. intros H. apply wf_inj. rewrite raw_wrap. unfold wf in H. width_lia. Qed.

(** The receiver has heard of the end of the stream. *)
Definition closing (r : TCPReceiver) : bool :=
  StreamReassembler._eof_flag (_reassembler r) || ByteStream.input_ended (stream_out r).

Lemma closing_spec r st :
  Reassembly.refines (_reassembler r) st ->
  closing r = bool_decide (is_Some (Spec.eof_at st)) || Spec.ended st.
Proof.
  intros R. unfold closing, stream_out, StreamReassembler.stream_out.
  rewrite (Reassembly.ref_eof _ _ R), (Reassembly.ref_ended _ _ R). f_equal.
  destruct (StreamReassembler._eof_flag _); symmetry; [by apply bool_decide_true|].
  apply bool_decide_false. by intros [? ?].
Qed.

(** A delivery keeps [receiving], and only a FIN can announce the end. *)
Definition delivers (S : bytes) (isn : WrappingInt32) (seg : TCPSegment.TCPSegment) (r r' : TCPReceiver) : Prop :=
  receiving S isn r' /\ _isn r' = Some isn /\ _capacity r' = _capacity r /\
  ByteStream.bytes_read (stream_out r') = ByteStream.bytes_read (stream_out r) /\
  (closing r' = true -> closing r = true \/ TCPHeader.fin (TCPSegment.header seg) = true).

Lemma pushed_delivers S isn seg r ops st sr' data index :
  let fin := TCPHeader.fin (TCPSegment.header seg) in
  StreamReassembler._capacity (_reassembler r) = _capacity r ->
  Reassembly.refines (_reassembler r) st -> Reassembly.refines sr' (Spec.push data index fin st) ->
  Reassembly.tracks S ops (Spec.push data index fin st) ->
  delivers S isn seg r (mk sr' (_capacity r) (Some isn)).
Proof.
  intros fin Hc R R' T'. unfold delivers, receiving. split_and!; try done; simpl.
  - by right.
  - pose proof (Reassembly.ref_cap _ _ R') as Hcap'. simpl in Hcap'.
    pose proof (Reassembly.ref_cap _ _ R). congruence.
  - eauto.
  - unfold stream_out, StreamReassembler.stream_out. simpl.
    by rewrite <- (Reassembly.ref_consumed _ _ R), <- (Reassembly.ref_consumed _ _ R').
  - rewrite (closing_spec r st R), (closing_spec (mk _ _ _) _ R'). fold fin. destruct fin; [by right|]. simpl.
    rewrite !orb_true_iff, !bool_decide_eq_true. intros [?|[[?|He]|He]]; try by auto.
    all: left; left; rewrite He; by eexists.
Qed.

Lemma deliver_receiving S isn seg k r :
  wf isn -> carries S isn seg k -> near k r -> stream_fits S (_capacity r) -> receiving S isn r ->
  exists r', deliver seg isn r = Ok r' /\ delivers S isn seg r r'.
Proof.
  intros Hw Hcar Hnear Hfit (_ & Hc & ops & st & R & T). pose proof (Reassembly.ref_cap _ _ R) as Hcap.
  destruct (deliver_step S isn seg k r ops st) as (index & sr' & E & _ & R' & T'); try done.
  { by rewrite Hcap, Hc. }
  eexists. split; [done|]. by eapply pushed_delivers.
Qed.

(** A segment that occupies no sequence numbers is empty. *)
Lemma span_0 seg :
  span seg = 0 ->
  TCPHeader.syn (TCPSegment.header seg) = false /\ TCPHeader.fin (TCPSegment.header seg) = false /\
  Buffer.copy (TCPSegment.payload seg) = [].
Proof.
  unfold span, Buffer.copy. pose proof (zlen_nonneg (Buffer.str (TCPSegment.payload seg))) as Hnn. intros Hspan.
  destruct (TCPHeader.syn _); [destruct (TCPHeader.fin _); lia|].
  destruct (TCPHeader.fin _); [lia|]. split_and!; [done|done|]. apply zlen_0_nil. lia.
Qed.

(** It pushes the empty string, wherever it claims to be. *)
Lemma deliver_bare_step S isn seg r ops st :
  span seg = 0 -> stream_fits S (_capacity r) ->
  StreamReassembler._capacity (_reassembler r) = _capacity r ->
  Reassembly.refines (_reassembler r) st -> Reassembly.tracks S ops st ->
  exists sr', deliver seg isn r = Ok (mk sr' (_capacity r) (Some isn)) /\
    Reassembly.refines sr' (Spec.push [] 0 false st).
Proof.
  intros Hspan [Hcap0 Hfit] Hc R T. destruct (span_0 seg Hspan) as (Hsyn & Hfin & Hpay).
  unfold deliver. rewrite Hpay, Hfin.
  match goal with |- context [to_u64 (?a + ?b)] => pose proof (is_u64_to_u64 (a + b)) as Hidx; revert Hidx; generalize (to_u64 (a + b)) end.
  intros index Hidx.
  pose proof (Spec.sound_next _ _ (Reassembly.tracks_sound _ _ _ T)). pose proof (zlen_nonneg S).
  pose proof (Reassembly.ref_bound _ _ R).
  destruct (Reassembly.push_step (_reassembler r) st [] index false R) as (sr' & E & R').
  { split; [done|]. rewrite <- (Reassembly.ref_consumed _ _ R), Hc, (@zlen_nil byte). lia. }
  exists sr'. rewrite E. split; [done|]. by rewrite (Spec.push_nil 0 index).
Qed.

(** So it delivers nothing. *)
Lemma deliver_bare S isn seg r :
  span seg = 0 -> stream_fits S (_capacity r) -> receiving S isn r ->
  exists r', deliver seg isn r = Ok r' /\ delivers S isn seg r r'.
Proof.
  intros Hspan Hfit (_ & Hc & ops & st & R & T). destruct (span_0 seg Hspan) as (_ & Hfin & Hpay).
  destruct (deliver_bare_step S isn seg r ops st Hspan Hfit Hc R T) as (sr' & E & R').
  eexists. split; [exact E|].
  eapply (pushed_delivers _ _ _ _ _ st _ [] 0); [done|done| |]; rewrite Hfin; [exact R'|].
  apply Reassembly.tracks_push; [unfold stream_fits in Hfit; lia|exact T|apply Spec.excerpt_nil].
Qed.

(** The stream may still grow while its end has not been announced. *)
Lemma receiving_prefix S S' isn r :
  receiving S isn r -> closing r = false -> S `prefix_of` S' -> receiving S' isn r.
Proof.
  intros (Hi & Hc & ops & st & R & T) Hopen Hp. rewrite (closing_spec r st R) in Hopen.
  apply orb_false_iff in Hopen as [He Hn]. split_and!; [done|done|]. exists ops, st. split; [done|].
  eapply Reassembly.tracks_prefix; [done| |done|done]. destruct (Spec.eof_at st); [|done].
  apply bool_decide_eq_false in He. by destruct He.
Qed.

(** One segment, from any state of the receiver: either it waits for a SYN and the segment
    has none, or the segment is delivered. *)
Lemma segment_received_spec S isn seg r :
  wf isn -> (exists k, carries S isn seg k /\ near k r) \/ span seg = 0 ->
  stream_fits S (_capacity r) -> receiving S isn r ->
  (_isn r = None /\ TCPHeader.syn (TCPSegment.header seg) = false /\ segment_received seg r = Ok r) \/
  exists r', segment_received seg r = Ok r' /\ delivers S isn seg r r' /\
    (_isn r = None -> TCPHeader.syn (TCPSegment.header seg) = true).
Proof.
  intros Hw Hseg Hfit Hr.
  assert (Hd : exists r', deliver seg isn r = Ok r' /\ delivers S isn seg r r').
  { destruct Hseg as [(k & ? & ?)|?]; [by eapply deliver_receiving|by apply deliver_bare]. }
  destruct Hd as (r' & E & Hd). unfold segment_received. pose proof Hr as [Hi _].
  destruct (_isn r) as [i|].
  - destruct Hi as [?|[= ->]]; [done|]. right. exists r'. by split_and!.
  - destruct (TCPHeader.syn _) eqn:Es; [|by left]. right. exists r'. split_and!; [|done|done]. simpl.
    destruct Hseg as [(k & (Hseq & Hsyn & _) & _)|H0].
    + by rewrite Hseq, (proj1 Hsyn Es), wrap_0.
    + unfold span in H0. rewrite Es in H0. pose proof (zlen_nonneg (Buffer.str (TCPSegment.payload seg))).
      case_match; lia.
Qed.

(** ** Runs *)

Inductive Op : Set :=
  | OpSegment (seg : TCPSegment.TCPSegment)
  | OpRead (len : Z).

Definition next (op : Op) (r : TCPReceiver) : res TCPReceiver :=
  match op with
  | OpSegment seg => segment_received seg r
  | OpRead len => '(_, r') ← read_out len r; Ok r'
  end.

Definition syn_received (op : Op) : Prop :=
  match op with OpSegment seg => TCPHeader.syn (TCPSegment.header seg) = true | OpRead _ => False end.

Section Runs.
Context (S : bytes) (isn : WrappingInt32) (capacity : Z).
Context (Hisn : wf isn) (Hfit : stream_fits S capacity).

Definition allowed (op : Op) (r : TCPReceiver) : Prop :=
  match op with
  | OpSegment seg => exists k, carries S isn seg k /\ near k r
  | OpRead len => is_u64 len
  end.

Definition good (r : TCPReceiver) : Prop := receiving S isn r /\ _capacity r = capacity.

(** One step, with what it does to the initial sequence number. *)
Lemma next_spec op r :
  good r -> allowed op r ->
  exists r', next op r = Ok r' /\ good r' /\
    (_isn r' = None <-> _isn r = None /\ ~ syn_received op).
Proof.
  intros [Hr Hc] Hop. destruct op as [seg|len]; simpl in *.
  - destruct (segment_received_spec S isn seg r) as [(Hi & Hs & E)|(r' & E & Hd & Hs)]; try done.
    { by left. }
    { by rewrite Hc. }
    + exists r. split_and!; [done|done|]. rewrite Hi, Hs. intuition congruence.
    + exists r'. destruct Hd as (Hr' & Hi' & Hc' & _). split; [done|]. split; [split; congruence || done|].
      rewrite Hi'. split; [done|]. intros [Hn Hno]. by destruct (Hno (Hs Hn)).
  - destruct (read_out_step S isn len r Hop Hr) as (out & r' & E & Hr' & Hi' & Hc' & _).
    rewrite E. exists r'. split; [done|]. split; [split; congruence || done|]. rewrite Hi'. intuition congruence.
Qed.

Lemma receiver_next_ok op r : good r -> allowed op r -> exists r', next op r = Ok r' /\ good r'.
Proof. intros Hg Ha. destruct (next_spec op r Hg Ha) as (r' & E & Hg' & _). eauto. Qed.

(** A receiver fed with segments of [S] (each near the receive position) and read
    from at will. *)
Definition machine : Machine TCPReceiver Op :=
  {| step := next; state_ok := good; op_ok := allowed; step_ok := receiver_next_ok |}.

Lemma construct_good : good (construct capacity).
Proof.
  destruct Hfit as [Hc Hf]. pose proof (zlen_nonneg S).
  split; [|done]. split; [by left|]. split; [done|].
  exists [], (Spec.init capacity). split; [|apply Reassembly.init_tracks].
  apply Reassembly.init_refines. unfold is_u64. lia.
Qed.

Lemma runs_good ops r :
  @runs _ _ machine (construct capacity) ops r -> good r.
Proof. intros Hr. apply (runs_state_ok _ _ _ Hr). apply construct_good. Qed.
End Runs.

(** ** What has arrived *)

Definition has_syn (op : Op) : bool :=
  match op with OpSegment seg => TCPHeader.syn (TCPSegment.header seg) | OpRead _ => false end.

(** The operations from the first SYN on. *)
Fixpoint from_syn (ops : list Op) : list Op :=
  match ops with
  | [] => []
  | op :: rest => if has_syn op then ops else from_syn rest
  end.

Lemma from_syn_app ops op :
  from_syn (ops ++ [op]) = match from_syn ops with [] => if has_syn op then [op] else [] | l => l ++ [op] end.
Proof. induction ops as [|o ops IH]; simpl; [done|]. by destruct (has_syn o). Qed.

Lemma from_syn_nil ops : from_syn ops = [] <-> Forall (fun op => ~ syn_received op) ops.
Proof.
  induction ops as [|op ops IH]; simpl; [done|]. rewrite Forall_cons, <- IH.
  assert (Hop : syn_received op <-> has_syn op = true) by (destruct op; simpl; [done|by split]).
  rewrite Hop. destruct (has_syn op); intuition congruence.
Qed.

(** The stream index of the first byte of a segment at the sequence number [k]. *)
Definition first_index (seg : TCPSegment.TCPSegment) (k : Z) : Z :=
  k - 1 + (if TCPHeader.syn (TCPSegment.header seg) then 1 else 0).

(** The substring of [S] that a segment carries, as a push of the reassembler. *)
Definition heard (S : bytes) (isn : WrappingInt32) (op : Op) (piece : Reassembly.Op) : Prop :=
  match op with
  | OpSegment seg => exists k, carries S isn seg k /\
      piece = Reassembly.OpPush (Buffer.copy (TCPSegment.payload seg)) (first_index seg k)
                (TCPHeader.fin (TCPSegment.header seg))
  | OpRead len => piece = Reassembly.OpRead len
  end.

Section Arrivals.
Context (S : bytes) (isn : WrappingInt32) (capacity : Z).
Context (Hisn : wf isn) (Hfit : stream_fits S capacity).

(** The receiver after the operations [h]: the reassembler was fed with what the segments
    since the SYN carry. *)
Definition arrivals (h : list Op) (pieces : list Reassembly.Op) (st : Spec.state) (r : TCPReceiver) : Prop :=
  Forall2 (heard S isn) (from_syn h) pieces /\
  Reassembly.refines (_reassembler r) st /\ Reassembly.tracks S pieces st /\ Spec.cap st = capacity /\
  _isn r = match from_syn h with [] => None | _ => Some isn end.

Lemma arrivals_read h pieces st r len r' :
  is_u64 len -> arrivals h pieces st r -> next (OpRead len) r = Ok r' ->
  exists pieces' st', arrivals (h ++ [OpRead len]) pieces' st' r'.
Proof.
  intros Hlen (Hp & R & T & Hc & Hi). simpl.
  destruct (Reassembly.read_step (_reassembler r) st len R Hlen) as (sr' & E & R').
  destruct (Reassembly.delivered_step S pieces (Reassembly.OpRead len) st T Hlen) as [_ Hcap].
  pose proof (Reassembly.tracks_read S pieces st len (proj1 Hlen) T) as T'.
  unfold read_out. rewrite E. intros [= <-]. unfold arrivals. rewrite from_syn_app. simpl in *.
  destruct (from_syn h) as [|op l].
  - apply Forall2_nil_inv_l in Hp as ->. exists [], (Reassembly.Spec_read len st).2.
    split_and!; [done|done|by eapply (Reassembly.tracks_unread _ [])|congruence|done].
  - exists (pieces ++ [Reassembly.OpRead len]), (Reassembly.Spec_read len st).2.
    change (op :: l ++ [OpRead len]) with ((op :: l) ++ [OpRead len]).
    split_and!; [by apply Forall2_app; [|by constructor]|done|done|congruence|done].
Qed.

(** A segment since the SYN is assembled as far as it continues what was assembled. *)
Lemma arrivals_segment h pieces st r seg k :
  arrivals h pieces st r -> carries S isn seg k -> near k r ->
  from_syn h <> [] \/ TCPHeader.syn (TCPSegment.header seg) = true ->
  exists pieces' st' r', segment_received seg r = Ok r' /\ arrivals (h ++ [OpSegment seg]) pieces' st' r' /\
    (first_index seg k <= Spec.next st ->
     Z.min (first_index seg k + zlen (Buffer.copy (TCPSegment.payload seg))) (Spec.limit st) <= Spec.next st').
Proof.
  intros (Hp & R & T & Hc & Hi) Hcar Hnear Hsyn.
  destruct (deliver_step S isn seg k r pieces st) as (index & sr' & E & Hidx & R' & T'); try done; [by rewrite Hc|].
  fold (first_index seg k) in Hidx. subst index. cbv zeta in R', T'. eexists (pieces ++ [_]), _, _.
  assert (Es : segment_received seg r = deliver seg isn r).
  { unfold segment_received. rewrite Hi. destruct (from_syn h); [|done]. destruct Hsyn as [?|Hs]; [done|].
    rewrite Hs. simpl. destruct Hcar as (Hseq & Hk & _). by rewrite Hseq, (proj1 Hk Hs), wrap_0. }
  split; [by rewrite Es, E|]. split; [|intros Hle; eapply Reassembly.push_assembles; [exact R'|done]].
  assert (Hlast : Forall2 (heard S isn) [OpSegment seg] [Reassembly.OpPush (Buffer.copy (TCPSegment.payload seg))
    (first_index seg k) (TCPHeader.fin (TCPSegment.header seg))]) by (constructor; [by exists k|constructor]).
  unfold arrivals. rewrite from_syn_app. destruct (from_syn h) as [|op l] eqn:Eh.
  - apply Forall2_nil_inv_l in Hp as ->. destruct Hsyn as [?|Hs]; [done|]. simpl has_syn. rewrite Hs. done.
  - change (op :: l ++ [OpSegment seg]) with ((op :: l) ++ [OpSegment seg]). split_and!; [by apply Forall2_app|done..].
Qed.

Lemma runs_arrivals ops r :
  @runs _ _ (machine S isn capacity Hisn Hfit) (construct capacity) ops r ->
  exists pieces st, arrivals ops pieces st r.
Proof.
  apply (@runs_ind_history _ _ (machine S isn capacity Hisn Hfit) (fun h r => exists pieces st, arrivals h pieces st r)).
  - by apply construct_good.
  - destruct Hfit as [Hc Hf]. pose proof (zlen_nonneg S). exists [], (Spec.init capacity).
    split_and!; [constructor| |apply Reassembly.init_tracks|done|done]. apply Reassembly.init_refines. unfold is_u64. lia.
  - intros h r0 op r' _ (pieces & st & Ha) Hop Hs. destruct op as [seg|len]; [|by eapply arrivals_read].
    destruct Hop as (k & Hcar & Hnear). cbn in Hs.
    destruct (decide (from_syn h = [] /\ TCPHeader.syn (TCPSegment.header seg) = false)) as [[Hh Hf]|Hdel].
    + exists pieces, st. destruct Ha as (Hp & R & T & Hc & Hi). rewrite Hh in *. unfold segment_received in Hs.
      rewrite Hi, Hf in Hs. injection Hs as <-. unfold arrivals. rewrite from_syn_app, Hh. simpl. by rewrite Hf.
    + destruct (arrivals_segment h pieces st r0 seg k Ha Hcar Hnear) as (pieces' & st' & r1 & E & Ha' & _).
      { destruct (from_syn h); [right|by left]. by destruct (TCPHeader.syn _); [|destruct Hdel]. }
      rewrite E in Hs. injection Hs as <-. by exists pieces', st'.
Qed.
End Arrivals.

(** The output stream of a receiver of [S]. *)
Lemma receiving_stream S isn r :
  receiving S isn r ->
  let bs := stream_out r in
  0 <= ByteStream.bytes_read bs <= ByteStream.bytes_written bs /\
  ByteStream.bytes_written bs <= zlen S /\
  ByteStream.buffer bs = drop (Z.to_nat (ByteStream.bytes_read bs))
                           (take (Z.to_nat (ByteStream.bytes_written bs)) S) /\
  (ByteStream.input_ended bs = true -> ByteStream.bytes_written bs = zlen S).
Proof.
  intros (_ & _ & ops & st & R & T). unfold stream_out, StreamReassembler.stream_out. cbv zeta.
  rewrite (Reassembly.ref_buffer _ _ R), (Reassembly.assembled_take _ _ _ _ R T).
  pose proof (Spec.sound_next _ _ (Reassembly.tracks_sound _ _ _ T)) as Hn.
  pose proof (Reassembly.tracks_consumed _ _ _ T). destruct (Reassembly.tracks_sound _ _ _ T) as [_ _ _ He _].
  rewrite <- (Reassembly.ref_next _ _ R), <- (Reassembly.ref_consumed _ _ R), <- (Reassembly.ref_ended _ _ R).
  done.
Qed.

(** ** Properties *)

(** C8: a receiver that is handed segments of one stream [S], in any order, with losses,
    repetitions and segments from before the SYN, and whose owner reads at any time,
    delivers [S].  The buffered bytes are the bytes of [S] between what was read and what
    was assembled.  What is assembled ends at the first byte that no segment since the SYN
    has carried (for a gap within the capacity), and the output is closed exactly when
    all of [S] is assembled and a FIN has arrived.  There is an acknowledgment number exactly
    when a SYN has arrived, and it is the sequence number of the first byte (or of the end
    after the FIN) that is still missing.  No further operation faults, and a segment that
    continues what was assembled is assembled at once, as far as the window reaches. *)
Theorem receiver_delivers_stream S isn capacity (Hisn : wf isn) (Hfit : stream_fits S capacity) ops r :
  @runs _ _ (machine S isn capacity Hisn Hfit) (construct capacity) ops r ->
  let bs := stream_out r in
  let written := ByteStream.bytes_written bs in
  (ByteStream.buffer bs = drop (Z.to_nat (ByteStream.bytes_read bs)) (take (Z.to_nat written) S) /\
   0 <= ByteStream.bytes_read bs <= written /\ written <= zlen S) /\
  (exists pieces, Forall2 (heard S isn) (from_syn ops) pieces /\
     (forall n, n <= capacity -> (forall i, 0 <= i < n -> Reassembly.covered pieces i) -> n <= written) /\
     (forall n, 0 <= n -> ~ Reassembly.covered pieces n -> written <= n) /\
     (ByteStream.input_ended bs = true <-> written = zlen S /\ Exists Reassembly.is_eof pieces)) /\
  (if decide (from_syn ops = []) then ackno r = None else
   exists a, ackno r = Some a /\
     unwrap a isn written = written + 1 + (if ByteStream.input_ended bs then 1 else 0)) /\
  (forall op, allowed S isn op r -> exists r', next op r = Ok r') /\
  (forall seg k, carries S isn seg k -> near k r ->
     is_Some (ackno r) \/ TCPHeader.syn (TCPSegment.header seg) = true -> first_index seg k <= written ->
     exists r', segment_received seg r = Ok r' /\
       Z.min (first_index seg k + zlen (Buffer.copy (TCPSegment.payload seg))) (ByteStream.bytes_read bs + capacity)
         <= ByteStream.bytes_written (stream_out r')).
Proof.
  intros Hr. pose proof (runs_good _ _ _ _ _ _ _ Hr) as Hg. destruct Hg as [Hrc Hcap].
  destruct (receiving_stream S isn r Hrc) as (Hrd & Hw & Hb & He).
  destruct (runs_arrivals _ _ _ _ _ _ _ Hr) as (pieces & st & Ha). pose proof Ha as (Hp & R & T & Hc & Hi).
  assert (Hack : is_Some (ackno r) -> from_syn ops <> []).
  { unfold ackno. rewrite Hi. destruct (from_syn ops); [by intros [? ?]|done]. }
  cbv zeta. split_and!; [done|lia|lia|lia| | | |].
  - exists pieces. unfold stream_out, StreamReassembler.stream_out. rewrite <- (Reassembly.ref_next _ _ R).
    split_and!; [done| |intros n; apply (Reassembly.written_uncovered S pieces st n T)|].
    + intros n Hn. apply (Reassembly.written_covered S pieces _ st n R T). lia.
    + rewrite <- (Reassembly.ref_ended _ _ R). by apply Reassembly.ended_iff.
  - destruct (decide (from_syn ops = [])) as [Hn|Hn]; unfold ackno; rewrite Hi; [by rewrite Hn|].
    destruct Hfit as [? Hf]. pose proof (zlen_nonneg S). destruct (from_syn ops); [done|]. eexists. split; [done|].
    rewrite to_u64_small by (unfold is_u64; case_match; lia). apply unwrap_exact_near; try case_match; lia.
  - intros op Hop. destruct (receiver_next_ok S isn capacity Hisn Hfit op r) as (r' & E & _); [by split|done|by exists r'].
  - intros seg k Hcar Hnear Hsyn Hle.
    destruct (arrivals_segment S isn capacity Hisn Hfit ops pieces st r seg k Ha Hcar Hnear)
      as (pieces' & st' & r' & E & (_ & R' & _) & Hmin); [tauto|].
    exists r'. split; [done|]. unfold stream_out, StreamReassembler.stream_out in *.
    rewrite <- (Reassembly.ref_next _ _ R), <- (Reassembly.ref_next _ _ R'), <- (Reassembly.ref_consumed _ _ R) in *.
    unfold Spec.limit in Hmin. rewrite Hc in Hmin. by apply Hmin.
Qed.

(** A SYN, one byte of data and a FIN in one segment. *)
Definition syn_fin_segment : TCPSegment.TCPSegment :=
  TCPSegment.mk (TCPHeader.mk 0 0 (mk_isn 9) (mk_isn 0) 5 false false false false true true 0 0 0)
    (Buffer.of_string [Byte.x61]).

Lemma syn_fin_run (Hisn : wf (mk_isn 9)) (Hfit : stream_fits [Byte.x61] 4) r :
  segment_received syn_fin_segment (construct 4) = Ok r ->
  @runs _ _ (machine [Byte.x61] (mk_isn 9) 4 Hisn Hfit) (construct 4) [OpSegment syn_fin_segment] r.
Proof.
  intros E. eapply runs_cons; [|exact E|constructor]. exists 0. split; [|concrete].
  split_and!; [reflexivity|done|lia|]. split_and!; [concrete|concrete|reflexivity|concrete].
Qed.

(** The byte is assembled, the output closed and the FIN acknowledged. *)
Lemma receiver_delivers_stream_witness :
  exists r, segment_received syn_fin_segment (construct 4) = Ok r /\
    ByteStream.bytes_written (stream_out r) = 1 /\
    (exists a, ackno r = Some a /\ unwrap a (mk_isn 9) 1 = 3) /\
    (exists r', segment_received syn_fin_segment r = Ok r').
Proof.
  assert (Hisn : wf (mk_isn 9)) by concrete. assert (Hfit : stream_fits [Byte.x61] 4) by concrete.
  eexists. split; [reflexivity|].
  destruct (receiver_delivers_stream [Byte.x61] (mk_isn 9) 4 Hisn Hfit [OpSegment syn_fin_segment] _
    (syn_fin_run Hisn Hfit _ eq_refl)) as ((_ & _ & Hle) & (pieces & Hp & Hge & _) & Hack & Hsafe & _).
  split; [apply Z.le_antisymm; [exact Hle|apply Hge; [lia|]]|].
  - intros i Hi. apply Forall2_cons_inv_l in Hp as (piece & rest & (k & Hcar & ->) & _ & ->).
    destruct Hcar as (_ & Hk & _). apply Exists_cons_hd.
    replace i with 0 by lia. rewrite (proj1 Hk eq_refl). concrete.
  - split; [exact Hack|]. apply (Hsafe (OpSegment syn_fin_segment)). exists 0. split; [|concrete].
    split_and!; [reflexivity|done|lia|]. split_and!; [concrete|concrete|reflexivity|concrete].
Defined.

(** C23: the advertised window is the capacity minus the bytes reassembled but not
    read, which is also the distance from the first missing byte to the first byte the
    receiver would not accept; it is never more than the capacity and together with
    the bytes held back it never overcommits the memory. *)
Theorem receiver_window S isn capacity (Hisn : wf isn) (Hfit : stream_fits S capacity) ops r :
  @runs _ _ (machine S isn capacity Hisn Hfit) (construct capacity) ops r ->
  window_size r = capacity - ByteStream.buffer_size (stream_out r) /\
  window_size r = (ByteStream.bytes_read (stream_out r) + capacity)
                  - ByteStream.bytes_written (stream_out r) /\
  unassembled_bytes r <= window_size r <= capacity.
Proof.
  intros Hr. apply runs_good in Hr as [(_ & Hc & ops' & st & R & _) Hcap].
  pose proof (Reassembly.ref_ok _ _ R) as Hok. pose proof (StreamReassembler.ok_output _ Hok) as Ho.
  pose proof (StreamReassembler.ok_capacity _ Hok) as Hco. pose proof (Reassembly.memory_bound _ Hok) as Hm.
  destruct (Reassembly.available _ _ R) as [Ha _]. pose proof (zlen_nonneg (ByteStream.buffer (StreamReassembler._output (_reassembler r)))).
  unfold window_size, unassembled_bytes, stream_out, StreamReassembler.stream_out in *.
  rewrite ByteStream.remaining_capacity_eq by done. unfold ByteStream.room, ByteStream.buffer_size in *.
  rewrite <- (Reassembly.ref_next _ _ R), <- (Reassembly.ref_consumed _ _ R). lia.
Qed.

Lemma receiver_window_witness :
  exists r, segment_received syn_fin_segment (construct 4) = Ok r /\
    window_size r = 4 - ByteStream.buffer_size (stream_out r).
Proof.
  assert (Hisn : wf (mk_isn 9)) by concrete. assert (Hfit : stream_fits [Byte.x61] 4) by concrete.
  eexists. split; [reflexivity|].
  apply (receiver_window [Byte.x61] (mk_isn 9) 4 Hisn Hfit [OpSegment syn_fin_segment]). by apply syn_fin_run.
Defined.

(** The receiver acknowledges nothing until a SYN arrives: in every run [ackno] is
    empty exactly when no segment with SYN was received, and until then segments leave
    the receiver unchanged. *)
Lemma receiver_listens_for_syn S isn capacity (Hisn : wf isn) (Hfit : stream_fits S capacity) ops r :
  @runs _ _ (machine S isn capacity Hisn Hfit) (construct capacity) ops r ->
  (ackno r = None <-> Forall (fun op => ~ syn_received op) ops) /\
  (ackno r = None -> forall seg, ~ syn_received (OpSegment seg) -> segment_received seg r = Ok r).
Proof.
  intros Hr. destruct (runs_arrivals _ _ _ _ _ _ _ Hr) as (pieces & st & _ & _ & _ & _ & Hi).
  assert (Hnone : _isn r = None <-> Forall (fun op => ~ syn_received op) ops)
    by (rewrite <- from_syn_nil, Hi; by destruct (from_syn ops)).
  assert (Hack : ackno r = None <-> _isn r = None) by (unfold ackno; by destruct (_isn r)).
  split; [by rewrite Hack|]. intros Ha seg Hs. unfold segment_received.
  rewrite (proj1 Hack Ha). cbn in Hs. by destruct (TCPHeader.syn _).
Qed.

(** C38: a stray FIN can end the stream early.  Before any byte has been assembled, a
    segment without SYN whose sequence number is the initial one and that carries one
    byte and a FIN has the stream index 2^64 - 1; the end index wraps to 0, and the
    receiver closes its output as if the stream were empty. *)
Theorem stray_fin_ends_stream seg r isn st b :
  Reassembly.refines (_reassembler r) st -> Spec.assembled st = [] ->
  Spec.cap st + 1 < 2 ^ 64 -> _isn r = Some isn -> wf isn ->
  TCPHeader.seqno (TCPSegment.header seg) = isn ->
  TCPHeader.syn (TCPSegment.header seg) = false -> TCPHeader.fin (TCPSegment.header seg) = true ->
  Buffer.copy (TCPSegment.payload seg) = [b] ->
  exists r', segment_received seg r = Ok r' /\ ByteStream.input_ended (stream_out r') = true /\
    ByteStream.bytes_written (stream_out r') = 0.
Proof.
  intros R Hnil Hcap Hi Hw Hseq Hsyn Hfin Hpay.
  assert (Hnext : Spec.next st = 0) by (unfold Spec.next; by rewrite Hnil).
  pose proof (Reassembly.ref_bound _ _ R) as Hbd.
  destruct (Reassembly.push_step (_reassembler r) st [b] (2 ^ 64 - 1) true R) as (sr' & E & R').
  { split; [unfold is_u64; lia|]. rewrite <- (Reassembly.ref_consumed _ _ R), <- (Reassembly.ref_cap _ _ R).
    change (zlen [b]) with 1. lia. }
  unfold segment_received. rewrite Hi. unfold deliver, stream_out, StreamReassembler.stream_out.
  rewrite <- (Reassembly.ref_next _ _ R), Hnext, Hseq, Hsyn, Hfin, Hpay.
  assert (Hu : unwrap isn isn 0 = 0).
  { pose proof (unwrap_exact_near 0 isn 0) as Hu. rewrite wrap_0 in Hu by done. apply Hu; lia. }
  rewrite Hu.
  change (to_u64 (to_u64 (0 - 1) + 0)) with (2 ^ 64 - 1). rewrite E. eexists. split; [done|]. cbn [_reassembler].
  rewrite <- (Reassembly.ref_ended _ _ R'), <- (Reassembly.ref_next _ _ R').
  assert (Hout : to_u64 (2 ^ 64 - 1 + zlen [b]) <= Spec.next st \/ 2 ^ 64 - 1 >= Spec.limit st)
    by (left; rewrite Hnext; done).
  rewrite (Reassembly.push_outside _ _ R [b] (2 ^ 64 - 1)); [|split; [unfold is_u64; lia|]|done].
  - simpl. unfold Spec.next. simpl. rewrite Hnil. by rewrite orb_true_r.
  - rewrite <- (Reassembly.ref_consumed _ _ R), <- (Reassembly.ref_cap _ _ R). change (zlen [b]) with 1. lia.
Qed.

Lemma stray_fin_ends_stream_witness :
  exists r', segment_received
      (TCPSegment.mk (TCPHeader.mk 0 0 (mk_isn 9) (mk_isn 0) 5 false false false false false true 0 0 0)
        (Buffer.of_string [Byte.x61]))
      (mk (StreamReassembler.construct 4) 4 (Some (mk_isn 9))) = Ok r' /\
    ByteStream.input_ended (stream_out r') = true /\ ByteStream.bytes_written (stream_out r') = 0.
Proof.
  apply (stray_fin_ends_stream _ _ (mk_isn 9) (Spec.init 4) Byte.x61); try reflexivity.
  - apply Reassembly.init_refines. concrete.
  - concrete.
Defined.

End TCPReceiver.
