(* ===== verification/RetransmissionTimer.v ===== *)
(** * The retransmission timer (libsponge/retransmission_timer.hh, .cc)

    Counts the milliseconds since it was started or last reset and reports when they
    reach the retransmission timeout, which doubles on every expiry. *)

From S2P Require Import Prelude.

Module RetransmissionTimer.

Record RetransmissionTimer : Set := mk {
  _is_running : bool;
  _accumulate_time : Z;
  _rto : Z;
  _init_rto : Z
}.

(** [RetransmissionTimer(const size_t retx_timeout)] *)
Definition construct (retx_timeout : Z) : RetransmissionTimer :=
  mk false 0 retx_timeout retx_timeout.

(** [void start_timer()] *)
Definition start_timer (t : RetransmissionTimer) : RetransmissionTimer :=
  if negb (_is_running t) then mk true 0 (_init_rto t) (_init_rto t) else t.

(** [void stop_timer()] *)
Definition stop_timer (t : RetransmissionTimer) : RetransmissionTimer :=
  if _is_running t then mk false (_accumulate_time t) (_rto t) (_init_rto t) else t.

(** [void handle_timeout()] *)
Definition handle_timeout (t : RetransmissionTimer) : RetransmissionTimer :=
  mk (_is_running t) 0 (to_u64 (_rto t * 2)) (_init_rto t).

(** [bool check_timeout(const size_t ms_since_last_tick)] *)
Definition check_timeout (ms_since_last_tick : Z) (t : RetransmissionTimer)
    : bool * RetransmissionTimer :=
  if _is_running t then
    let acc := to_u64 (_accumulate_time t + ms_since_last_tick) in
    (bool_decide (acc >= _rto t), mk (_is_running t) acc (_rto t) (_init_rto t))
  else (false, t).

(** [void set_timeout(const size_t rto_time)], [void set_accumulate_time(...)] *)
Definition set_timeout (rto_time : Z) (t : RetransmissionTimer) : RetransmissionTimer :=
  mk (_is_running t) (_accumulate_time t) rto_time (_init_rto t).
Definition set_accumulate_time (accumulate_time : Z) (t : RetransmissionTimer) : RetransmissionTimer :=
  mk (_is_running t) accumulate_time (_rto t) (_init_rto t).

(** ** Invariant and lemmas *)

Record ok (t : RetransmissionTimer) : Prop := {
  ok_time : is_u64 (_accumulate_time t);
  ok_rto : is_u64 (_rto t);
  ok_init : is_u64 (_init_rto t)
}.

Lemma timer_construct_ok rto : is_u64 rto -> ok (construct rto).
Proof. intros H. split; [unfold is_u64; simpl; lia|done|done]. Qed.
Lemma start_timer_ok t : ok t -> ok (start_timer t).
Proof. intros [? ? ?]. unfold start_timer. case_match; [|done]. split; [unfold is_u64; simpl; lia|done|done]. Qed.
Lemma stop_timer_ok t : ok t -> ok (stop_timer t).
Proof. intros [? ? ?]. unfold stop_timer. by case_match. Qed.
Lemma handle_timeout_ok t : ok t -> ok (handle_timeout t).
Proof. intros [? ? ?]. split; simpl; auto with width. Qed.
Lemma check_timeout_ok ms t : ok t -> ok (check_timeout ms t).2.
Proof. intros [? ? ?]. unfold check_timeout. case_match; [|done]. split; simpl; auto with width. Qed.
Lemma set_timeout_ok rto t : ok t -> is_u64 rto -> ok (set_timeout rto t).
Proof. by intros [? ? ?]. Qed.
Lemma set_accumulate_time_ok acc t : ok t -> is_u64 acc -> ok (set_accumulate_time acc t).
Proof. by intros [? ? ?]. Qed.
#[global] Hint Resolve timer_construct_ok start_timer_ok stop_timer_ok handle_timeout_ok check_timeout_ok
  set_timeout_ok set_accumulate_time_ok : sponge.

Lemma start_timer_running t : _is_running (start_timer t) = true.
Proof. unfold start_timer. by destruct (_is_running t) eqn:?. Qed.
Lemma stop_timer_running t : _is_running (stop_timer t) = false.
Proof. unfold stop_timer. by destruct (_is_running t) eqn:?. Qed.
Lemma check_timeout_running ms t : _is_running (check_timeout ms t).2 = _is_running t.
Proof. unfold check_timeout. by destruct (_is_running t) eqn:?. Qed.
Lemma start_timer_init t : _init_rto (start_timer t) = _init_rto t.
Proof. unfold start_timer. by case_match. Qed.
Lemma stop_timer_init t : _init_rto (stop_timer t) = _init_rto t.
Proof. unfold stop_timer. by case_match. Qed.
Lemma check_timeout_init ms t : _init_rto (check_timeout ms t).2 = _init_rto t.
Proof. unfold check_timeout. by case_match. Qed.

(** ** Schedules

    A sequence of ticks, each of which handles the timeout when it finds one. *)

Definition tick (ms : Z) (t : RetransmissionTimer) : bool * RetransmissionTimer :=
  let '(expired, t) := check_timeout ms t in (expired, if expired then handle_timeout t else t).

Fixpoint ticks (mss : list Z) (t : RetransmissionTimer) : list bool * RetransmissionTimer :=
  match mss with
  | [] => ([], t)
  | ms :: mss' =>
      let '(e, t') := tick ms t in
      let '(es, t'') := ticks mss' t' in (e :: es, t'')
  end.

Definition elapsed (mss : list Z) : Z := foldr Z.add 0 mss.

Lemma elapsed_nonneg mss : Forall (Z.le 0) mss -> 0 <= elapsed mss.
Proof. induction 1; simpl; lia. Qed.

(** As long as the accumulated time stays below the timeout nothing expires. *)
Lemma ticks_quiet mss t :
  ok t -> _is_running t = true -> Forall (Z.le 0) mss -> _accumulate_time t + elapsed mss < _rto t ->
  ticks mss t = (replicate (length mss) false,
                 mk true (_accumulate_time t + elapsed mss) (_rto t) (_init_rto t)).
Proof.
  intros Hok Hr Hms. revert t Hok Hr. induction Hms as [|ms mss Hms Hrest IH]; intros t Hok Hr Hlt; simpl in *.
  - rewrite Z.add_0_r. by destruct t; simpl in *; subst.
  - pose proof (elapsed_nonneg mss Hrest). destruct Hok as [Ha Hrto Hi].
    unfold tick, check_timeout. rewrite Hr.
    rewrite to_u64_small by (unfold is_u64 in *; lia). rewrite bool_decide_false by lia.
    rewrite IH; simpl; [do 2 f_equal; lia| |done|lia].
    split; simpl; [unfold is_u64 in *; lia|done|done].
Qed.

(** [n] timeouts in a row multiply the timeout by [2^n]. *)
Lemma ticks_backoff n t :
  ok t -> _is_running t = true -> _accumulate_time t = 0 -> _rto t * 2 ^ Z.of_nat n < 2 ^ 64 ->
  ticks (map (fun i => _rto t * 2 ^ Z.of_nat i) (seq 0 n)) t
  = (replicate n true, mk true 0 (_rto t * 2 ^ Z.of_nat n) (_init_rto t)).
Proof.
  revert t. induction n as [|n IH]; intros t Hok Hr Ha Hlt.
  - simpl. rewrite Z.mul_1_r. by destruct t; simpl in *; subst.
  - assert (Hrto : 0 <= _rto t) by apply Hok.
    rewrite Nat2Z.inj_succ, Z.pow_succ_r in Hlt by lia.
    assert (Hp : 1 <= 2 ^ Z.of_nat n) by (apply Z.lt_pred_le, Z.pow_pos_nonneg; lia).
    assert (Hd : _rto t * 2 < 2 ^ 64) by nia.
    set (t1 := mk true 0 (_rto t * 2) (_init_rto t)).
    assert (E1 : tick (_rto t * 2 ^ Z.of_nat 0) t = (true, t1)).
    { unfold tick, check_timeout. rewrite Hr, Ha. change (2 ^ Z.of_nat 0) with 1.
      rewrite Z.mul_1_r, Z.add_0_l, to_u64_small by (unfold is_u64; lia).
      rewrite bool_decide_true by lia. unfold handle_timeout, t1. simpl.
      by rewrite to_u64_small by (unfold is_u64; lia). }
    assert (Es : map (fun i => _rto t * 2 ^ Z.of_nat i) (seq 1 n)
                 = map (fun i => _rto t1 * 2 ^ Z.of_nat i) (seq 0 n)).
    { rewrite <- seq_shift, map_map. apply map_ext. intros i. simpl _rto.
      rewrite Nat2Z.inj_succ, Z.pow_succ_r by lia. lia. }
    cbn [seq map ticks]. rewrite E1, Es, (IH t1); simpl; [| |done|done|lia].
    + do 2 f_equal. rewrite Nat2Z.inj_succ, Z.pow_succ_r by lia. lia.
    + destruct Hok. split; simpl; [unfold is_u64; lia|unfold is_u64; lia|done].
Qed.

(** ** Properties *)

(** The timer measures elapsed time: a freshly started timer stays quiet through
    any ticks that add up to less than the timeout, and expires on the tick that
    completes the timeout, which doubles the timeout and restarts the count; a stopped
    timer never expires. *)
Lemma timer_expires_on_time mss ms rto t :
  is_u64 rto -> t = start_timer (construct rto) ->
  Forall (Z.le 0) mss -> 0 <= ms -> elapsed mss < rto -> rto <= elapsed mss + ms < 2 ^ 64 ->
  ticks (mss ++ [ms]) t = (replicate (length mss) false ++ [true], mk true 0 (to_u64 (rto * 2)) rto) /\
  (forall mss', ticks mss' (stop_timer t) = (replicate (length mss') false, stop_timer t)).
Proof.
  intros Hrto -> Hms Hms0 Hquiet Hexp.
  assert (Hok : ok (start_timer (construct rto))) by auto with sponge. split.
  - assert (Happ : forall l k t, ticks (l ++ k) t =
      let '(e1, t1) := ticks l t in let '(e2, t2) := ticks k t1 in (e1 ++ e2, t2)).
    { induction l as [|x l IH]; intros k t; simpl; [by destruct (ticks k t)|].
      destruct (tick x t) as [e t1]. rewrite IH. destruct (ticks l t1) as [e1 t2].
      by destruct (ticks k t2). }
    rewrite Happ, ticks_quiet by (simpl; done || lia). simpl. unfold tick, check_timeout. simpl.
    pose proof (elapsed_nonneg mss Hms).
    rewrite to_u64_small by (unfold is_u64; lia). by rewrite bool_decide_true by lia.
  - pose proof (stop_timer_running (start_timer (construct rto))) as Hstop. revert Hstop.
    generalize (stop_timer (start_timer (construct rto))). intros t Hstop mss'.
    induction mss' as [|x l IH]; simpl; [done|].
    unfold tick, check_timeout. by rewrite Hstop, IH.
Qed.

(** The timeout backs off exponentially: when each tick lasts exactly the current
    timeout, every tick expires and after [n] of them the timeout is the initial one
    times 2^n, while that fits in 64 bits; starting the timer again restores the
    initial timeout. *)
Lemma timer_backs_off n rto t :
  is_u64 rto -> rto * 2 ^ Z.of_nat n < 2 ^ 64 -> t = start_timer (construct rto) ->
  exists t', ticks (map (fun i => rto * 2 ^ Z.of_nat i) (seq 0 n)) t = (replicate n true, t') /\
    _rto t' = rto * 2 ^ Z.of_nat n /\ _rto (start_timer (stop_timer t')) = rto.
Proof.
  intros Hrto Hlt ->. assert (Hok : ok (start_timer (construct rto))) by auto with sponge.
  pose proof (ticks_backoff n (start_timer (construct rto)) Hok) as E.
  simpl in E. eexists. split; [apply E; done|]. done.
Qed.

End RetransmissionTimer.
