(* ===== verification/TCPSender.v ===== *)
(** * The TCP sender (libsponge/tcp_sender.hh, .cc)

    Cuts the outgoing byte stream into segments, keeps the segments that are not yet
    acknowledged, and retransmits the oldest one when the timer expires.  [TCPSender]
    holds the translation and the closed forms of its operations; the invariant and the
    theorems are in SenderSpec.v. *)

From S2P Require Import Prelude ByteStream WrappingIntegers Buffer TCPHeader TCPSegment.
From S2P Require Import RetransmissionTimer.

(** The constants and settings of tcp_helpers/tcp_config.hh. *)
Module TCPConfig.
Definition DEFAULT_CAPACITY : Z := 64000.
Definition MAX_PAYLOAD_SIZE : Z := 1452.
Definition TIMEOUT_DFLT : Z := 1000.
Definition MAX_RETX_ATTEMPTS : Z := 8.
Record TCPConfig : Set := mk {
  rt_timeout : Z;
  recv_capacity : Z;
  send_capacity : Z;
  fixed_isn : option WrappingInt32.WrappingInt32
}.
Definition default_config : TCPConfig := mk TIMEOUT_DFLT DEFAULT_CAPACITY DEFAULT_CAPACITY None.
End TCPConfig.

Module TCPSender.

Import WrappingInt32.

Record TCPSender : Set := mk {
  _isn : WrappingInt32;
  _segments_out : list TCPSegment.TCPSegment;
  _initial_retransmission_timeout : Z;
  _stream : ByteStream.ByteStream;
  _next_seqno : Z;
  _retransmission_timer : RetransmissionTimer.RetransmissionTimer;
  _receiver_ack : Z;
  _receiver_window_size : Z;
  _outstanding_segments : list TCPSegment.TCPSegment;
  _consecutive_retransmissions : Z;
  _set_syn_flag : bool;
  _set_fin_flag : bool
}.

(** Assignments to a member. *)
Definition assign_segments_out v s := mk (_isn s) v (_initial_retransmission_timeout s) (_stream s)
  (_next_seqno s) (_retransmission_timer s) (_receiver_ack s) (_receiver_window_size s)
  (_outstanding_segments s) (_consecutive_retransmissions s) (_set_syn_flag s) (_set_fin_flag s).
Definition assign_stream v s := mk (_isn s) (_segments_out s) (_initial_retransmission_timeout s) v
  (_next_seqno s) (_retransmission_timer s) (_receiver_ack s) (_receiver_window_size s)
  (_outstanding_segments s) (_consecutive_retransmissions s) (_set_syn_flag s) (_set_fin_flag s).
Definition assign_next_seqno v s := mk (_isn s) (_segments_out s) (_initial_retransmission_timeout s)
  (_stream s) v (_retransmission_timer s) (_receiver_ack s) (_receiver_window_size s)
  (_outstanding_segments s) (_consecutive_retransmissions s) (_set_syn_flag s) (_set_fin_flag s).
Definition assign_timer v s := mk (_isn s) (_segments_out s) (_initial_retransmission_timeout s)
  (_stream s) (_next_seqno s) v (_receiver_ack s) (_receiver_window_size s)
  (_outstanding_segments s) (_consecutive_retransmissions s) (_set_syn_flag s) (_set_fin_flag s).
Definition assign_receiver v w s := mk (_isn s) (_segments_out s) (_initial_retransmission_timeout s)
  (_stream s) (_next_seqno s) (_retransmission_timer s) v w
  (_outstanding_segments s) (_consecutive_retransmissions s) (_set_syn_flag s) (_set_fin_flag s).
Definition assign_outstanding v s := mk (_isn s) (_segments_out s) (_initial_retransmission_timeout s)
  (_stream s) (_next_seqno s) (_retransmission_timer s) (_receiver_ack s) (_receiver_window_size s)
  v (_consecutive_retransmissions s) (_set_syn_flag s) (_set_fin_flag s).
Definition assign_retransmissions v s := mk (_isn s) (_segments_out s) (_initial_retransmission_timeout s)
  (_stream s) (_next_seqno s) (_retransmission_timer s) (_receiver_ack s) (_receiver_window_size s)
  (_outstanding_segments s) v (_set_syn_flag s) (_set_fin_flag s).
Definition assign_flags v w s := mk (_isn s) (_segments_out s) (_initial_retransmission_timeout s)
  (_stream s) (_next_seqno s) (_retransmission_timer s) (_receiver_ack s) (_receiver_window_size s)
  (_outstanding_segments s) (_consecutive_retransmissions s) v w.

(** [TCPSender(const size_t capacity, const uint16_t retx_timeout, const std::optional<WrappingInt32>
    fixed_isn)]; [random] is the number drawn from [std::random_device]. *)
Definition construct (capacity retx_timeout : Z) (fixed_isn : option WrappingInt32) (random : Z) : TCPSender :=
  mk (default (WrappingInt32.mk random) fixed_isn) [] retx_timeout (ByteStream.construct capacity) 0
     (RetransmissionTimer.construct retx_timeout) 0 1 [] 0 false false.

(** Accessors. *)
Definition stream_in (s : TCPSender) : ByteStream.ByteStream := _stream s.
Definition bytes_in_flight (s : TCPSender) : Z := to_u64 (_next_seqno s - _receiver_ack s).
Definition consecutive_retransmissions (s : TCPSender) : Z := _consecutive_retransmissions s.
Definition segments_out (s : TCPSender) : list TCPSegment.TCPSegment := _segments_out s.
Definition next_seqno_absolute (s : TCPSender) : Z := _next_seqno s.
Definition next_seqno (s : TCPSender) : WrappingInt32 := wrap (_next_seqno s) (_isn s).
Definition window_not_full (window_size : Z) (s : TCPSender) : bool :=
  bool_decide (window_size > bytes_in_flight s).

(** A default segment whose sequence number, flags and payload are assigned. *)
Definition segment_with (seqno : WrappingInt32) (syn fin : bool) (payload : Buffer.Buffer)
    : TCPSegment.TCPSegment :=
  let '(TCPHeader.mk sp dp _ ak d u a p r _ _ w c up) := TCPSegment.header TCPSegment.default_segment in
  TCPSegment.mk (TCPHeader.mk sp dp seqno ak d u a p r syn fin w c up) payload.

(** The first branch of [fill_window]: the SYN. *)
Definition make_syn (s : TCPSender) : TCPSegment.TCPSegment * TCPSender :=
  (segment_with (_isn s) true false Buffer.empty_buffer,
   assign_next_seqno (to_u64 (_next_seqno s + 1)) (assign_flags true (_set_fin_flag s) s)).

(** The second branch: payload and FIN; no segment when there is nothing to send. *)
Definition make_data (window_size : Z) (s : TCPSender) : res (option TCPSegment.TCPSegment * TCPSender) :=
  let payload_size :=
    Z.min (Z.min (to_u64 (window_size - bytes_in_flight s)) (ByteStream.buffer_size (_stream s)))
          TCPConfig.MAX_PAYLOAD_SIZE in
  '(data, stream) ← ByteStream.read payload_size (_stream s);
  let seqno := next_seqno s in
  let s := assign_next_seqno (to_u64 (_next_seqno s + payload_size)) (assign_stream stream s) in
  let fin := ByteStream.eof (_stream s) && window_not_full window_size s in
  let s := if fin then assign_next_seqno (to_u64 (_next_seqno s + 1)) (assign_flags (_set_syn_flag s) true s)
           else s in
  if negb (_set_fin_flag s) && bool_decide (payload_size = 0) then Ok (None, s)
  else Ok (Some (segment_with seqno false fin (Buffer.of_string data)), s).

(** The end of [fill_window]: the segment is queued and the timer started. *)
Definition send (segment : TCPSegment.TCPSegment) (s : TCPSender) : TCPSender :=
  let s := assign_segments_out (push_back (_segments_out s) segment) s in
  let s := assign_outstanding (push_back (_outstanding_segments s) segment) s in
  assign_timer (RetransmissionTimer.start_timer (_retransmission_timer s)) s.

(** [void fill_window()], with the recursive calls limited to [fuel]. *)
Fixpoint fill_window_rec (fuel : nat) (s : TCPSender) : res TCPSender :=
  match fuel with
  | O => Err OutOfFuel
  | S fuel' =>
      let window_size := if decide (_receiver_window_size s = 0) then 1 else _receiver_window_size s in
      if _set_fin_flag s then Ok s else
      '(segment, s) ← (if decide (_next_seqno s = 0)
                       then let '(segment, s) := make_syn s in Ok (Some segment, s)
                       else make_data window_size s);
      match segment with
      | None => Ok s
      | Some segment =>
          let s := send segment s in
          if window_not_full window_size s then fill_window_rec fuel' s else Ok s
      end
  end.

(** The SYN, one call per buffered byte at most, the FIN and the call that finds nothing to do. *)
Definition fill_window_fuel (s : TCPSender) : nat := Z.to_nat (ByteStream.buffer_size (_stream s)) + 4.

Definition fill_window (s : TCPSender) : res TCPSender := fill_window_rec (fill_window_fuel s) s.

(** The loop of [ack_received] over the outstanding segments: the remaining queue, the new
    [_receiver_ack] and [is_ack_update]. *)
Fixpoint pop_acked (isn : WrappingInt32) (next abs_ackno : Z) (queue : list TCPSegment.TCPSegment)
    (receiver_ack : Z) (is_ack_update : bool) : list TCPSegment.TCPSegment * Z * bool :=
  match queue with
  | [] => ([], receiver_ack, is_ack_update)
  | segment :: rest =>
      let abs_seqno := unwrap (TCPHeader.seqno (TCPSegment.header segment)) isn next in
      let seg_end := to_u64 (abs_seqno + TCPSegment.length_in_sequence_space segment) in
      if decide (seg_end <= abs_ackno) then pop_acked isn next abs_ackno rest seg_end true
      else (queue, receiver_ack, is_ack_update)
  end.

(** [void ack_received(const WrappingInt32 ackno, const uint16_t window_size)] *)
Definition ack_received (ackno : WrappingInt32) (window_size : Z) (s : TCPSender) : TCPSender :=
  let abs_ackno := unwrap ackno (_isn s) (_next_seqno s) in
  if decide (abs_ackno > _next_seqno s \/ abs_ackno < _receiver_ack s) then s else
  let '(queue, receiver_ack, is_ack_update) :=
    pop_acked (_isn s) (_next_seqno s) abs_ackno (_outstanding_segments s) (_receiver_ack s) false in
  let s := assign_outstanding queue (assign_receiver receiver_ack window_size s) in
  let s := if decide (_outstanding_segments s = [])
           then assign_timer (RetransmissionTimer.stop_timer (_retransmission_timer s)) s else s in
  if is_ack_update then
    let t := RetransmissionTimer.set_timeout (_initial_retransmission_timeout s) (_retransmission_timer s) in
    assign_retransmissions 0 (assign_timer (RetransmissionTimer.set_accumulate_time 0 t) s)
  else s.

(** [void tick(const size_t ms_since_last_tick)] *)
Definition tick (ms_since_last_tick : Z) (s : TCPSender) : res TCPSender :=
  let '(timeout, t) := RetransmissionTimer.check_timeout ms_since_last_tick (_retransmission_timer s) in
  if timeout : bool then
    let t :=
      if decide (_receiver_window_size s > 0) then RetransmissionTimer.handle_timeout t
      else if decide (_receiver_window_size s = 0) then
        RetransmissionTimer.set_accumulate_time 0
          (RetransmissionTimer.set_timeout (_initial_retransmission_timeout s) t)
      else t in
    let s := assign_retransmissions (to_u32 (_consecutive_retransmissions s + 1)) (assign_timer t s) in
    segment ← front (_outstanding_segments s);
    Ok (assign_segments_out (push_back (_segments_out s) segment) s)
  else Ok (assign_timer t s).

(** [void send_empty_segment()] *)
Definition send_empty_segment (s : TCPSender) : TCPSender :=
  assign_segments_out
    (push_back (_segments_out s) (segment_with (next_seqno s) false false Buffer.empty_buffer)) s.

(** The owner's side: writing to and closing [stream_in()], taking a segment of [segments_out()]. *)
Definition write (data : bytes) (s : TCPSender) : res (Z * TCPSender) :=
  '(n, stream) ← ByteStream.write data (_stream s); Ok (n, assign_stream stream s).
Definition end_input (s : TCPSender) : TCPSender := assign_stream (ByteStream.end_input (_stream s)) s.
Definition take_segment (s : TCPSender) : option TCPSegment.TCPSegment * TCPSender :=
  match _segments_out s with
  | [] => (None, s)
  | segment :: rest => (Some segment, assign_segments_out rest s)
  end.

End TCPSender.
