(* ===== verification/SenderSpec.v ===== *)
(** * Correctness of the TCP sender

    The invariant of [TCPSender]: the outstanding segments are consecutive pieces of the
    stream between the last acknowledged and the next sequence number, every queued
    segment is a piece of the stream, and the timer runs exactly while something is
    outstanding.  Every operation keeps it and none faults; the theorems describe what
    [fill_window], [ack_received] and [tick] do on every branch. *)

From S2P Require Import Prelude ByteStream WrappingIntegers Buffer TCPHeader TCPSegment.
From S2P Require Import RetransmissionTimer ReassemblerSpec SegmentSpec TCPSender.

Module SenderSpec.

Import WrappingInt32 SegmentSpec TCPSender.

(** ** Pieces of the stream *)

(** What the wire format needs of a segment: fields within their widths, a header without
    options and a payload that fits a datagram. *)
Definition plain (seg : TCPSegment.TCPSegment) : Prop :=
  TCPHeader.wf (TCPSegment.header seg) /\ TCPHeader.doff (TCPSegment.header seg) = 5 /\
  zlen (Buffer.str (TCPSegment.payload seg)) <= TCPConfig.MAX_PAYLOAD_SIZE.

Lemma segment_with_plain seqno syn fin payload :
  wf seqno -> zlen (Buffer.str payload) <= TCPConfig.MAX_PAYLOAD_SIZE -> plain (segment_with seqno syn fin payload).
Proof. intros Hs Hp. split; [|done]. by split. Qed.

(** [seg] is the piece at [k] of the stream sent so far; a FIN occurs only once the
    stream is complete. *)
Definition piece (sent : bytes) (isn : WrappingInt32) (fin : bool) (seg : TCPSegment.TCPSegment) (k : Z) : Prop :=
  carries sent isn seg k /\ (TCPHeader.fin (TCPSegment.header seg) = true -> fin = true) /\ plain seg.

(** Consecutive pieces from position [a] to position [b]. *)
Inductive chain (sent : bytes) (isn : WrappingInt32) (fin : bool) : Z -> list TCPSegment.TCPSegment -> Z -> Prop :=
  | chain_nil a : chain sent isn fin a [] a
  | chain_cons a seg segs b :
      piece sent isn fin seg a -> 0 < span seg -> chain sent isn fin (a + span seg) segs b ->
      chain sent isn fin a (seg :: segs) b.

(** What the owner may find in [segments_out()]: a piece, or a segment that occupies no
    sequence numbers. *)
Definition emitted (sent : bytes) (isn : WrappingInt32) (fin : bool) (seg : TCPSegment.TCPSegment) : Prop :=
  exists k, 0 <= k /\ TCPHeader.seqno (TCPSegment.header seg) = wrap k isn /\
    (piece sent isn fin seg k \/ span seg = 0 /\ plain seg).

(** The stream can grow until the FIN is sent. *)
Definition grows (sent : bytes) (fin : bool) (sent' : bytes) (fin' : bool) : Prop :=
  sent `prefix_of` sent' /\ (fin = true -> sent' = sent /\ fin' = true).

Lemma grows_refl sent fin : grows sent fin sent fin.
Proof. by split. Qed.

Lemma grows_trans s1 f1 s2 f2 s3 f3 : grows s1 f1 s2 f2 -> grows s2 f2 s3 f3 -> grows s1 f1 s3 f3.
Proof.
  intros [P1 F1] [P2 F2]. split; [by etrans|]. intros H. destruct (F1 H) as [-> H2].
  by apply F2.
Qed.

Lemma piece_grows sent isn fin sent' fin' seg k :
  grows sent fin sent' fin' -> piece sent isn fin seg k -> piece sent' isn fin' seg k.
Proof.
  intros [Hp Hf] (Hc & Hfin & Hpl). destruct (TCPHeader.fin (TCPSegment.header seg)) eqn:E.
  - destruct (Hf (Hfin eq_refl)) as [-> ->]. by split.
  - split_and!; [by eapply carries_prefix|congruence|done].
Qed.

Lemma chain_grows sent isn fin sent' fin' a segs b :
  grows sent fin sent' fin' -> chain sent isn fin a segs b -> chain sent' isn fin' a segs b.
Proof. intros Hg. induction 1; econstructor; eauto using piece_grows. Qed.

Lemma emitted_grows sent isn fin sent' fin' seg :
  grows sent fin sent' fin' -> emitted sent isn fin seg -> emitted sent' isn fin' seg.
Proof. intros Hg (k & Hk & Hs & [Hp|H0]); exists k; eauto 6 using piece_grows. Qed.

Lemma chain_le sent isn fin a segs b : chain sent isn fin a segs b -> a <= b.
Proof. induction 1; lia. Qed.

Lemma chain_nonempty sent isn fin a segs b : chain sent isn fin a segs b -> segs <> [] -> a < b.
Proof. intros H. destruct H as [|a seg segs b Hp Hs Hc]; [done|]. apply chain_le in Hc. lia. Qed.

Lemma chain_same sent isn fin a segs : chain sent isn fin a segs a -> segs = [].
Proof. intros H. destruct (decide (segs = [])) as [|n]; [done|]. pose proof (chain_nonempty _ _ _ _ _ _ H n). lia. Qed.

Lemma chain_snoc sent isn fin a segs b seg :
  chain sent isn fin a segs b -> piece sent isn fin seg b -> 0 < span seg ->
  chain sent isn fin a (segs ++ [seg]) (b + span seg).
Proof.
  intros H. induction H as [a|a s segs b Hp Hs Hc IH]; intros Hp' Hs'; simpl.
  - econstructor; [done|done|constructor].
  - econstructor; eauto.
Qed.

(** The sequence numbers in a chain are those of its segments. *)
Lemma chain_spans sent isn fin a segs b :
  chain sent isn fin a segs b -> b - a = foldr (fun seg n => span seg + n) 0 segs.
Proof. induction 1; simpl; lia. Qed.

Lemma chain_emitted sent isn fin a segs b :
  0 <= a -> chain sent isn fin a segs b -> Forall (emitted sent isn fin) segs.
Proof.
  intros Ha H. revert Ha. induction H as [|a seg segs b Hp Hs Hc IH]; intros Ha; constructor.
  - exists a. split_and!; [done|apply Hp|by left].
  - apply IH. pose proof (span_nonneg seg). lia.
Qed.

(** ** The invariant *)

Record ok (sent : bytes) (s : TCPSender) : Prop := {
  ok_isn : wf (_isn s);
  ok_stream : ByteStream.ok (_stream s);
  ok_read : ByteStream.bytes_read (_stream s) = zlen sent;
  ok_start : _set_syn_flag s = false -> sent = [] /\ _set_fin_flag s = false;
  ok_next : _next_seqno s = (if _set_syn_flag s then 1 else 0) + zlen sent
                            + (if _set_fin_flag s then 1 else 0);
  ok_ack : 0 <= _receiver_ack s;
  ok_flight : _next_seqno s - _receiver_ack s < 2 ^ 31;
  ok_far : _next_seqno s <= 2 ^ 60;
  ok_outstanding : chain sent (_isn s) (_set_fin_flag s) (_receiver_ack s)
                     (_outstanding_segments s) (_next_seqno s);
  ok_out : Forall (emitted sent (_isn s) (_set_fin_flag s)) (_segments_out s);
  ok_timer : RetransmissionTimer.ok (_retransmission_timer s);
  ok_running : RetransmissionTimer._is_running (_retransmission_timer s)
               = bool_decide (_outstanding_segments s <> []);
  ok_timeout : RetransmissionTimer._init_rto (_retransmission_timer s) = _initial_retransmission_timeout s;
  ok_idle : _outstanding_segments s = [] -> _consecutive_retransmissions s = 0;
  ok_window : is_u16 (_receiver_window_size s)
}.

Lemma sender_construct_ok capacity rto fixed_isn random :
  is_u64 capacity -> is_u16 rto -> is_u32 random -> (forall isn, fixed_isn = Some isn -> wf isn) ->
  ok [] (construct capacity rto fixed_isn random).
Proof.
  intros Hc Hr Hrnd Hf. assert (is_u64 rto) by (unfold is_u16, is_u64 in *; lia).
  split; simpl; auto with sponge; try done; try lia.
  - destruct fixed_isn; simpl; auto.
  - constructor.
Qed.

Lemma in_flight_eq sent s : ok sent s -> bytes_in_flight s = _next_seqno s - _receiver_ack s.
Proof.
  intros H. apply to_u64_small. pose proof (chain_le _ _ _ _ _ _ (ok_outstanding _ _ H)).
  pose proof (ok_flight _ _ H). unfold is_u64. lia.
Qed.

(** ** [fill_window] *)

(** The window the sender works with. *)
Definition effective_window (s : TCPSender) : Z :=
  if decide (_receiver_window_size s = 0) then 1 else _receiver_window_size s.

(** Everything the stream holds can be in flight without leaving the range in which
    sequence numbers are unwrapped. *)
Definition fits (s : TCPSender) : Prop :=
  let rest := ByteStream.buffer_size (_stream s) + (if _set_syn_flag s then 0 else 1)
              + (if _set_fin_flag s then 0 else 1) in
  _next_seqno s - _receiver_ack s + rest < 2 ^ 31 /\ _next_seqno s + rest <= 2 ^ 60.

(** Once the FIN is sent nothing is left to send. *)
Definition closed (s : TCPSender) : Prop :=
  _set_fin_flag s = true -> ByteStream.buffer (_stream s) = [] /\ ByteStream.input_ended (_stream s) = true.

(** The effect of sending the segments [new]. *)
Record extends (new : list TCPSegment.TCPSegment) (sent : bytes) (s : TCPSender)
    (sent' : bytes) (s' : TCPSender) : Prop := {
  ext_ok : ok sent' s';
  ext_grows : grows sent (_set_fin_flag s) sent' (_set_fin_flag s');
  ext_fits : fits s';
  ext_out : _segments_out s' = _segments_out s ++ new;
  ext_outstanding : _outstanding_segments s' = _outstanding_segments s ++ new;
  ext_stream : sent' ++ ByteStream.buffer (_stream s') = sent ++ ByteStream.buffer (_stream s);
  ext_data : sent' = sent ++ concat (map (fun seg => Buffer.str (TCPSegment.payload seg)) new);
  ext_ended : ByteStream.input_ended (_stream s') = ByteStream.input_ended (_stream s);
  ext_payload : Forall (fun seg => zlen (Buffer.str (TCPSegment.payload seg)) <= TCPConfig.MAX_PAYLOAD_SIZE) new;
  ext_syn : _set_syn_flag s = true -> _set_syn_flag s' = true;
  ext_isn : _isn s' = _isn s;
  ext_ack : _receiver_ack s' = _receiver_ack s;
  ext_window : _receiver_window_size s' = _receiver_window_size s;
  ext_retx : _consecutive_retransmissions s' = _consecutive_retransmissions s;
  ext_within : bytes_in_flight s <= effective_window s -> bytes_in_flight s' <= effective_window s;
  ext_closed : closed s -> closed s'
}.

Lemma extends_refl sent s : ok sent s -> fits s -> extends [] sent s sent s.
Proof. intros H Hf. split; rewrite ?app_nil_r; auto using grows_refl. Qed.

Lemma extends_trans n1 n2 sent1 s1 sent2 s2 sent3 s3 :
  extends n1 sent1 s1 sent2 s2 -> extends n2 sent2 s2 sent3 s3 -> extends (n1 ++ n2) sent1 s1 sent3 s3.
Proof.
  intros H1 H2. destruct H2 as [K1 K2 K3 K4 K5 K6 Kd K7 K8 Ks K9 K10 K11 K12 K13 Kc].
  destruct H1 as [L1 L2 L3 L4 L5 L6 Ld L7 L8 Ls L9 L10 L11 L12 L13 Lc].
  split; try congruence; try done.
  - by eapply grows_trans.
  - by rewrite K4, L4, app_assoc.
  - by rewrite K5, L5, app_assoc.
  - by rewrite Kd, Ld, map_app, concat_app, app_assoc.
  - by apply Forall_app.
  - auto.
  - intros Hw. unfold effective_window in *. rewrite L11 in K13. auto.
  - auto.
Qed.

(** The state in which [send] finds the sender. *)
Definition staged (stream : ByteStream.ByteStream) (next : Z) (fin : bool) (s : TCPSender) : TCPSender :=
  mk (_isn s) (_segments_out s) (_initial_retransmission_timeout s) stream next (_retransmission_timer s)
     (_receiver_ack s) (_receiver_window_size s) (_outstanding_segments s)
     (_consecutive_retransmissions s) true fin.

Section Send.
Context (sent : bytes) (s : TCPSender) (data : bytes) (stream : ByteStream.ByteStream).
Context (seg : TCPSegment.TCPSegment).
Let fin := TCPHeader.fin (TCPSegment.header seg).
Let next := _next_seqno s + span seg.
Context (Hok : ok sent s) (Hfits : fits s) (Hopen : _set_fin_flag s = false).
Context (Hstream : ByteStream.ok stream) (Hread : ByteStream.bytes_read stream = zlen (sent ++ data))
  (Hdata : data ++ ByteStream.buffer stream = ByteStream.buffer (_stream s))
  (Hended : ByteStream.input_ended stream = ByteStream.input_ended (_stream s)).
Context (Hcarries : carries (sent ++ data) (_isn s) seg (_next_seqno s)) (Hspan : 0 < span seg)
  (Hnext : next = 1 + zlen (sent ++ data) + (if fin then 1 else 0))
  (Hpay : Buffer.str (TCPSegment.payload seg) = data) (Hplain : plain seg)
  (Hlast : fin = true -> ByteStream.buffer stream = [] /\ ByteStream.input_ended stream = true).

Lemma send_fits : fits (send seg (staged stream next fin s)).
Proof.
  pose proof (ok_next _ _ Hok) as Hn. destruct Hfits as [H1 H2]. unfold fits, ByteStream.buffer_size in *.
  simpl. rewrite <- Hdata, Hopen in *. autorewrite with zlen in *. split; repeat case_match; lia.
Qed.

Lemma send_grows : grows sent (_set_fin_flag s) (sent ++ data) fin.
Proof. split; [by apply prefix_app_r|congruence]. Qed.

Lemma send_ok : ok (sent ++ data) (send seg (staged stream next fin s)).
Proof.
  pose proof send_fits as [F1 F2]. pose proof send_grows as Hg.
  pose proof (zlen_nonneg (ByteStream.buffer stream)).
  assert (Hpiece : piece (sent ++ data) (_isn s) fin seg (_next_seqno s)) by done.
  unfold ByteStream.buffer_size in *. simpl in F1, F2.
  destruct Hok as [? ? ? ? ? ? ? ? Hout Hq ? ? ? ? ?].
  split; simpl; try done; auto with sponge; try by (repeat case_match; lia).
  - unfold push_back. apply chain_snoc; [by eapply chain_grows|done|done].
  - unfold push_back. apply Forall_app; split; [|apply Forall_singleton].
    + eapply Forall_impl; [exact Hq|]. intros x. by apply emitted_grows.
    + exists (_next_seqno s). pose proof (chain_le _ _ _ _ _ _ Hout). split_and!; [lia|apply Hcarries|by left].
  - rewrite RetransmissionTimer.start_timer_running. symmetry. apply bool_decide_true.
    unfold push_back. by destruct (_outstanding_segments s).
  - by rewrite RetransmissionTimer.start_timer_init.
  - unfold push_back. by destruct (_outstanding_segments s).
Qed.

Lemma send_extends :
  (bytes_in_flight s <= effective_window s -> next - _receiver_ack s <= effective_window s) ->
  extends [seg] sent s (sent ++ data) (send seg (staged stream next fin s)).
Proof.
  intros Hw. pose proof send_ok as Hok'. split; try done; simpl.
  - apply send_grows.
  - apply send_fits.
  - by rewrite <- Hdata, app_assoc.
  - by rewrite Hpay, app_nil_r.
  - apply Forall_singleton, Hplain.
  - intros Hin. rewrite (in_flight_eq _ _ Hok'). simpl. by apply Hw.
Qed.
End Send.

(** Nothing more can be sent: the stream is finished, the window is full, or the stream
    has no more bytes for now. *)
Definition filled (s : TCPSender) : Prop :=
  _set_fin_flag s = true \/ effective_window s <= bytes_in_flight s \/
  (ByteStream.buffer (_stream s) = [] /\ ByteStream.input_ended (_stream s) = false).

(** Bounds the number of recursive calls of [fill_window]. *)
Definition calls_left (s : TCPSender) : Z :=
  if _set_fin_flag s then 0
  else ByteStream.buffer_size (_stream s) + (if _set_syn_flag s then 1 else 2).

Lemma effective_window_range sent s : ok sent s -> 1 <= effective_window s < 2 ^ 16.
Proof. intros H. pose proof (ok_window _ _ H) as Hw. unfold effective_window, is_u16 in *. case_decide; lia. Qed.

Lemma syn_step sent s :
  ok sent s -> fits s -> _set_fin_flag s = false -> _next_seqno s = 0 ->
  let '(seg, s1) := make_syn s in
  extends [seg] sent s sent (send seg s1) /\ calls_left (send seg s1) < calls_left s.
Proof.
  intros Hok Hfits Hopen H0. pose proof (effective_window_range _ _ Hok) as Hw.
  pose proof (ok_next _ _ Hok) as Hn. pose proof (zlen_nonneg sent).
  assert (Hsyn : _set_syn_flag s = false) by (rewrite Hopen in Hn; destruct (_set_syn_flag s); [lia|done]).
  destruct (ok_start _ _ Hok Hsyn) as [-> _]. simpl.
  replace (assign_next_seqno _ _) with (staged (_stream s) (_next_seqno s + 1) false s)
    by (unfold staged, assign_next_seqno, assign_flags; simpl; by rewrite H0, Hopen).
  split.
  - apply (send_extends [] s [] (_stream s)); simpl; try done; try apply Hok.
    + rewrite H0. split_and!; simpl; try done. apply wf_inj. rewrite raw_wrap.
      pose proof (ok_isn _ _ Hok) as Hi. unfold wf in Hi. width_lia.
    + unfold span; simpl. rewrite H0. done.
    + apply segment_with_plain; [apply Hok|done].
    + rewrite H0. pose proof (chain_le _ _ _ _ _ _ (ok_outstanding _ _ Hok)).
      pose proof (ok_ack _ _ Hok). change (span _) with 1. lia.
  - unfold calls_left. simpl. rewrite Hopen, Hsyn. unfold ByteStream.buffer_size. lia.
Qed.

(** The number of bytes the data branch takes from the stream. *)
Definition payload_size (s : TCPSender) : Z :=
  Z.min (Z.min (to_u64 (effective_window s - bytes_in_flight s)) (ByteStream.buffer_size (_stream s)))
        TCPConfig.MAX_PAYLOAD_SIZE.

Lemma payload_size_range sent s :
  ok sent s -> 0 <= payload_size s <= TCPConfig.MAX_PAYLOAD_SIZE /\
  payload_size s <= zlen (ByteStream.buffer (_stream s)) /\
  (bytes_in_flight s <= effective_window s -> payload_size s <= effective_window s - bytes_in_flight s) /\
  (payload_size s = 0 -> effective_window s = bytes_in_flight s \/ ByteStream.buffer (_stream s) = []).
Proof.
  intros Hok. pose proof (effective_window_range _ _ Hok) as Hw. pose proof (ok_flight _ _ Hok).
  pose proof (chain_le _ _ _ _ _ _ (ok_outstanding _ _ Hok)).
  rewrite (in_flight_eq _ _ Hok). unfold payload_size, ByteStream.buffer_size, TCPConfig.MAX_PAYLOAD_SIZE.
  rewrite (in_flight_eq _ _ Hok). set (w := effective_window s) in *. set (f := _next_seqno s - _receiver_ack s) in *.
  pose proof (zlen_nonneg (ByteStream.buffer (_stream s))).
  assert (Ht : 0 <= to_u64 (w - f) /\ (f <= w -> to_u64 (w - f) = w - f) /\ (to_u64 (w - f) = 0 -> w = f))
    by width_lia.
  split_and!; [lia..|]. intros Hz.
  destruct (decide (to_u64 (w - f) = 0)); [left; by apply Ht|right]. apply zlen_0_nil. lia.
Qed.

(** [make_data] in closed form. *)
Lemma make_data_eq sent s :
  ok sent s -> fits s -> _set_fin_flag s = false -> _next_seqno s <> 0 ->
  let n := payload_size s in
  let stream := ByteStream.advance n (_stream s) in
  let fin := ByteStream.eof stream
             && bool_decide (effective_window s > _next_seqno s + n - _receiver_ack s) in
  let seg := segment_with (next_seqno s) false fin
               (Buffer.of_string (take (Z.to_nat n) (ByteStream.buffer (_stream s)))) in
  make_data (effective_window s) s =
    Ok (if negb fin && bool_decide (n = 0) then None else Some seg,
        staged stream (_next_seqno s + n + (if fin then 1 else 0)) fin s).
Proof.
  intros Hok Hfits Hopen H0 n stream fin seg.
  destruct (payload_size_range _ _ Hok) as ([Hn0 _] & Hnb & _). fold n in Hn0, Hnb.
  pose proof (ok_next _ _ Hok) as Hn. destruct Hfits as [F1 F2]. unfold ByteStream.buffer_size in F1, F2.
  rewrite Hopen in *. assert (Hsyn : _set_syn_flag s = true).
  { destruct (_set_syn_flag s) eqn:E; [done|]. destruct (ok_start _ _ Hok E) as [-> _].
    by destruct (H0 Hn). }
  rewrite Hsyn in *. pose proof (chain_le _ _ _ _ _ _ (ok_outstanding _ _ Hok)). pose proof (ok_ack _ _ Hok).
  unfold make_data. fold (payload_size s). fold n. rewrite ByteStream.read_eq by done.
  rewrite decide_False by lia. cbn [mbind res_bind]. unfold window_not_full, bytes_in_flight. simpl.
  rewrite !(to_u64_small (_next_seqno s + n)) by (unfold is_u64; lia).
  rewrite (to_u64_small (_next_seqno s + n - _)) by (unfold is_u64; lia).
  fold stream fin. unfold staged, assign_next_seqno, assign_stream, assign_flags, seg.
  clearbody fin. destruct fin; simpl.
  - rewrite to_u64_small by (unfold is_u64; lia). by rewrite Hsyn.
  - rewrite Hopen, Hsyn, Z.add_0_r. by case_bool_decide.
Qed.

Lemma syn_sent sent s : ok sent s -> _next_seqno s <> 0 -> _set_syn_flag s = true.
Proof.
  intros Hok H0. destruct (_set_syn_flag s) eqn:E; [done|]. pose proof (ok_next _ _ Hok) as Hn.
  destruct (ok_start _ _ Hok E) as [-> Hf]. rewrite E, Hf in Hn. by destruct (H0 Hn).
Qed.

Lemma segment_with_span seqno fin data :
  span (segment_with seqno false fin (Buffer.of_string data)) = zlen data + (if fin then 1 else 0).
Proof. unfold span. simpl. change (Buffer.str _) with data. lia. Qed.

(** Staging no bytes leaves the sender as it was. *)
Lemma staged_nothing sent s :
  ok sent s -> _set_syn_flag s = true -> _set_fin_flag s = false ->
  staged (ByteStream.advance 0 (_stream s)) (_next_seqno s) false s = s.
Proof.
  intros Hok Hsyn Hopen. unfold staged, ByteStream.advance. rewrite !Z.add_0_r.
  destruct (ByteStream.ok_counters _ (ok_stream _ _ Hok)) as [_ Hr]. rewrite Hr.
  destruct s as [? ? ? [] ? ? ? ? ? ? ? ?]. simpl in *. by subst.
Qed.

Lemma data_step sent s :
  ok sent s -> fits s -> _set_fin_flag s = false -> _next_seqno s <> 0 ->
  exists built s1, make_data (effective_window s) s = Ok (built, s1) /\
    match built with
    | None => s1 = s /\ filled s
    | Some seg => exists data, extends [seg] sent s (sent ++ data) (send seg s1) /\
                    calls_left (send seg s1) < calls_left s
    end.
Proof.
  intros Hok Hfits Hopen H0. pose proof (make_data_eq sent s Hok Hfits Hopen H0) as E. cbv zeta in E.
  destruct (payload_size_range sent s Hok) as (Hn & Hnb & Hnw & Hnz). set (n := payload_size s) in *.
  pose proof (syn_sent _ _ Hok H0) as Hsyn. pose proof (ok_next _ _ Hok) as Hnext. rewrite Hsyn, Hopen in Hnext.
  set (stream := ByteStream.advance n (_stream s)) in *.
  pose proof (ByteStream.advance_ok n (_stream s) (ok_stream _ _ Hok)) as Hstream. fold stream in Hstream.
  set (fin := ByteStream.eof stream && _) in *. do 2 eexists. split; [exact E|]. clear E.
  set (data := take (Z.to_nat n) (ByteStream.buffer (_stream s))).
  assert (Hlen : zlen data = n) by (unfold data; rewrite zlen_take; lia).
  destruct (negb fin && bool_decide (n = 0)) eqn:Eb.
  - apply andb_true_iff in Eb as [Hf Hz]. apply negb_true_iff in Hf. apply bool_decide_eq_true in Hz.
    rewrite Hf. rewrite Hz in *. split.
    + unfold stream. rewrite Hz, !Z.add_0_r. by apply (staged_nothing sent).
    + destruct (Hnz eq_refl) as [Hw|Hb]; [right; left; lia|].
      unfold fin, stream, ByteStream.eof, ByteStream.advance in Hf. rewrite Hb, drop_nil in Hf. simpl in Hf.
      destruct (ByteStream.end_write (_stream s)) eqn:He; [|by right; right].
      simpl in Hf. apply bool_decide_eq_false in Hf. right; left. rewrite (in_flight_eq _ _ Hok). lia.
  - exists data. set (seg := segment_with _ _ _ _).
    assert (Hspan : span seg = n + (if fin then 1 else 0)) by (unfold seg; rewrite segment_with_span; fold data; lia).
    replace (_next_seqno s + n + _) with (_next_seqno s + span seg) by lia.
    assert (Hpos : n <> 0 \/ fin = true).
    { destruct fin; [by right|left]. simpl in Eb. by apply bool_decide_eq_false in Eb. }
    split.
    + apply (send_extends sent s data stream seg); try done.
      * apply Hstream. lia.
      * rewrite zlen_app, Hlen, <- (ok_read _ _ Hok). apply to_u64_small.
        rewrite (ok_read _ _ Hok).
        pose proof (ok_far _ _ Hok). pose proof (zlen_nonneg sent).
        unfold is_u64, TCPConfig.MAX_PAYLOAD_SIZE in *. lia.
      * unfold data, stream. simpl. apply take_drop.
      * replace (_next_seqno s) with (1 + zlen sent) by lia. apply carries_data; [|done|done].
        simpl. unfold next_seqno. f_equal. lia.
      * destruct Hpos as [?| ->]; [case_match|]; lia.
      * rewrite zlen_app. simpl. lia.
      * apply segment_with_plain; [apply wrap_wf|]. rewrite Buffer.str_of_string. fold data. lia.
      * simpl. intros Ef. apply andb_true_iff in Ef as [Ef _]. unfold ByteStream.eof in Ef.
        apply andb_true_iff in Ef as [Ef He]. by apply bool_decide_eq_true in Ef.
      * intros Hin. specialize (Hnw Hin). rewrite (in_flight_eq _ _ Hok) in Hnw.
        destruct fin eqn:Ef; [|lia]. apply andb_true_iff in Ef as [_ Ef]. apply bool_decide_eq_true in Ef. lia.
    + unfold calls_left. simpl. rewrite Hopen, Hsyn. unfold ByteStream.buffer_size. simpl.
      destruct Hpos as [?| ->]; [case_match|]; rewrite ?zlen_drop by lia; lia.
Qed.

(** The recursion of [fill_window]: with fuel above [calls_left] it returns, and it stops
    only when nothing more can be sent. *)
Lemma fill_window_rec_spec fuel : forall sent s,
  ok sent s -> fits s -> calls_left s < Z.of_nat fuel ->
  exists new sent' s', fill_window_rec fuel s = Ok s' /\ extends new sent s sent' s' /\ filled s'.
Proof.
  induction fuel as [|fuel IH]; intros sent s Hok Hfits Hfuel.
  { unfold calls_left, ByteStream.buffer_size in Hfuel. pose proof (zlen_nonneg (ByteStream.buffer (_stream s))).
    repeat case_match; lia. }
  cbn [fill_window_rec]. fold (effective_window s). destruct (_set_fin_flag s) eqn:Hopen.
  { exists [], sent, s. split_and!; [done|by apply extends_refl|by left]. }
  assert (Hstep : exists built s1,
    (if decide (_next_seqno s = 0) then let '(segment, s) := make_syn s in Ok (Some segment, s)
     else make_data (effective_window s) s) = Ok (built, s1) /\
    match built with
    | None => s1 = s /\ filled s
    | Some seg => exists data, extends [seg] sent s (sent ++ data) (send seg s1) /\
                    calls_left (send seg s1) < calls_left s
    end).
  { case_decide as H0; [|by apply data_step]. pose proof (syn_step sent s Hok Hfits Hopen H0) as Hs.
    destruct (make_syn s) as [seg s1]. exists (Some seg), s1. split; [done|]. exists []. by rewrite app_nil_r. }
  destruct Hstep as (built & s1 & E & Hbuilt). rewrite E. cbn [mbind res_bind].
  destruct built as [seg|].
  - destruct Hbuilt as (data & Hext & Hless). set (s2 := send seg s1) in *.
    unfold window_not_full. case_bool_decide as Hw.
    + destruct (IH (sent ++ data) s2) as (new & sent' & s' & E' & Hext' & Hfill); [apply Hext|apply Hext|lia|].
      exists (seg :: new), sent', s'. split_and!; [done|by apply (extends_trans [seg] new _ _ _ _ _ _ Hext Hext')|done].
    + exists [seg], (sent ++ data), s2. split_and!; [done|done|]. right; left.
      unfold effective_window in *. rewrite (ext_window _ _ _ _ _ Hext). lia.
  - destruct Hbuilt as [-> Hfill]. exists [], sent, s. split_and!; [done|by apply extends_refl|done].
Qed.

Lemma fill_window_spec sent s :
  ok sent s -> fits s ->
  exists new sent' s', fill_window s = Ok s' /\ extends new sent s sent' s' /\ filled s'.
Proof.
  intros Hok Hfits. apply fill_window_rec_spec; [done|done|].
  unfold calls_left, fill_window_fuel, ByteStream.buffer_size.
  pose proof (zlen_nonneg (ByteStream.buffer (_stream s))). repeat case_match; lia.
Qed.

(** After [fill_window] the SYN has been sent. *)
Lemma fill_window_syn sent s s' :
  ok sent s -> fits s -> fill_window s = Ok s' -> _set_syn_flag s' = true.
Proof.
  intros Hok Hfits E. destruct (decide (_next_seqno s = 0)) as [H0|H0].
  - assert (Hopen : _set_fin_flag s = false).
    { pose proof (ok_next _ _ Hok) as Hn. pose proof (zlen_nonneg sent). destruct (_set_fin_flag s); [|done].
      case_match; lia. }
    pose proof (syn_step sent s Hok Hfits Hopen H0) as Hs. unfold fill_window in E.
    destruct (fill_window_fuel s) as [|fuel] eqn:Ef; [done|]. cbn [fill_window_rec] in E.
    rewrite Hopen, (decide_True (P := _next_seqno s = 0)) in E by done.
    destruct (make_syn s) as [seg s1] eqn:Em. destruct Hs as [Hext Hless]. cbn [mbind res_bind] in E.
    assert (Hsyn : _set_syn_flag (send seg s1) = true) by (injection Em as <- <-; done).
    case_match; [|by injection E as <-].
    destruct (fill_window_rec_spec fuel sent (send seg s1)) as (new & sent' & s2 & E2 & Hext2 & _);
      [apply Hext|apply Hext| |].
    + unfold fill_window_fuel in Ef. unfold calls_left in *. repeat case_match; lia.
    + rewrite E2 in E. injection E as <-. by apply (ext_syn _ _ _ _ _ Hext2).
  - destruct (fill_window_spec sent s Hok Hfits) as (new & sent' & s2 & E2 & Hext & _). rewrite E2 in E.
    injection E as <-. apply (ext_syn _ _ _ _ _ Hext). by eapply syn_sent.
Qed.

(** ** [ack_received] *)

Lemma chain_head_unwrap sent isn fin a seg segs next :
  chain sent isn fin a (seg :: segs) next -> 0 <= a -> next - a < 2 ^ 31 -> next <= 2 ^ 60 ->
  unwrap (TCPHeader.seqno (TCPSegment.header seg)) isn next = a /\
  to_u64 (a + TCPSegment.length_in_sequence_space seg) = a + span seg.
Proof.
  intros H Ha Hd Hn. inversion H as [|? ? ? ? [[Hs _] _] Hsp Hc]; subst. apply chain_le in Hc.
  rewrite Hs, length_in_sequence_space_eq by lia. split.
  - apply unwrap_exact_near; lia.
  - apply to_u64_small. unfold is_u64. lia.
Qed.

(** The loop removes the longest prefix of the queue that ends at or before the
    acknowledged position. *)
Lemma pop_acked_spec sent isn fin next ackno q : forall a u,
  chain sent isn fin a q next -> 0 <= a -> next - a < 2 ^ 31 -> next <= 2 ^ 60 ->
  exists popped rest a',
    pop_acked isn next ackno q a u = (rest, a', u || bool_decide (popped <> [])) /\
    q = popped ++ rest /\ chain sent isn fin a popped a' /\ chain sent isn fin a' rest next /\
    (popped <> [] -> a' <= ackno) /\ (forall seg, head rest = Some seg -> ackno < a' + span seg).
Proof.
  induction q as [|seg q IH]; intros a u Hc Ha Hd Hn; cbn [pop_acked].
  - exists [], [], a. rewrite orb_false_r. split_and!; try done; constructor.
  - destruct (chain_head_unwrap _ _ _ _ _ _ _ Hc Ha Hd Hn) as [-> Hlen]. rewrite Hlen.
    inversion Hc as [|? ? ? ? Hp Hsp Hrest]; subst. case_decide as Hle.
    + destruct (IH (a + span seg) true Hrest) as (popped & rest & a' & E & -> & Hc1 & Hc2 & Hp1 & Hp2); [lia..|].
      exists (seg :: popped), rest, a'. rewrite E. split_and!; try done.
      * by rewrite orb_true_r.
      * by econstructor.
      * intros _. destruct popped as [|x popped]; [|by apply Hp1]. inversion Hc1; subst. done.
    + exists [], (seg :: q), a. rewrite orb_false_r. split_and!; try done; [constructor|].
      intros ? [= <-]. lia.
Qed.

(** The acknowledgments the sender believes. *)
Definition acceptable (ackno : WrappingInt32) (s : TCPSender) : Prop :=
  _receiver_ack s <= unwrap ackno (_isn s) (_next_seqno s) <= _next_seqno s.

(** The timer after an acknowledgment that removed the segments [popped] and left [rest]. *)
Definition timer_after (popped rest : list TCPSegment.TCPSegment) (s : TCPSender)
    : RetransmissionTimer.RetransmissionTimer :=
  let t := _retransmission_timer s in
  let t := if decide (rest = []) then RetransmissionTimer.stop_timer t else t in
  if decide (popped = []) then t
  else RetransmissionTimer.set_accumulate_time 0
         (RetransmissionTimer.set_timeout (_initial_retransmission_timeout s) t).

(** The sender after that acknowledgment. *)
Definition acked (popped rest : list TCPSegment.TCPSegment) (ack win : Z) (s : TCPSender) : TCPSender :=
  mk (_isn s) (_segments_out s) (_initial_retransmission_timeout s) (_stream s) (_next_seqno s)
     (timer_after popped rest s) ack win rest
     (if decide (popped = []) then _consecutive_retransmissions s else 0)
     (_set_syn_flag s) (_set_fin_flag s).

Lemma ack_received_eq sent s ackno win :
  ok sent s -> acceptable ackno s ->
  exists popped rest a', ack_received ackno win s = acked popped rest a' win s /\
    _outstanding_segments s = popped ++ rest /\
    chain sent (_isn s) (_set_fin_flag s) (_receiver_ack s) popped a' /\
    chain sent (_isn s) (_set_fin_flag s) a' rest (_next_seqno s) /\
    a' <= unwrap ackno (_isn s) (_next_seqno s) /\
    (forall seg, head rest = Some seg -> unwrap ackno (_isn s) (_next_seqno s) < a' + span seg).
Proof.
  intros Hok [Hlo Hhi]. unfold ack_received. set (abs := unwrap _ _ _) in *.
  rewrite decide_False by lia. destruct Hok.
  destruct (pop_acked_spec _ _ _ _ abs _ _ false ok_outstanding0)
    as (popped & rest & a' & E & Hq & Hc1 & Hc2 & Hp1 & Hp2); [done|lia|lia|]. rewrite E.
  exists popped, rest, a'. split_and!; try done.
  - unfold acked, timer_after. destruct (decide (rest = [])), popped; simpl;
      rewrite ?bool_decide_false, ?bool_decide_true by naive_solver; by case_decide.
  - destruct popped as [|x popped]; [|by apply Hp1]. inversion Hc1; subst. done.
Qed.

Lemma timer_after_running popped rest sent s :
  ok sent s -> _outstanding_segments s = popped ++ rest ->
  RetransmissionTimer._is_running (timer_after popped rest s) = bool_decide (rest <> []).
Proof.
  intros Hok Hq. pose proof (ok_running _ _ Hok) as Hr. unfold timer_after.
  destruct (decide (rest = [])) as [->|Hne].
  - rewrite bool_decide_false by naive_solver. case_decide; simpl; apply RetransmissionTimer.stop_timer_running.
  - rewrite bool_decide_true by done. rewrite Hq, bool_decide_true in Hr by (destruct popped; naive_solver).
    by case_decide.
Qed.

Lemma acked_ok sent s popped rest a' win :
  ok sent s -> is_u16 win -> _outstanding_segments s = popped ++ rest ->
  chain sent (_isn s) (_set_fin_flag s) (_receiver_ack s) popped a' ->
  chain sent (_isn s) (_set_fin_flag s) a' rest (_next_seqno s) -> ok sent (acked popped rest a' win s).
Proof.
  intros Hok Hwin Hq Hc1 Hc2. pose proof (timer_after_running _ _ _ _ Hok Hq).
  apply chain_le in Hc1. destruct Hok.
  split; simpl; try done; try lia.
  - unfold timer_after. rewrite <- ok_timeout0. repeat case_decide; auto 6 with sponge.
    all: apply RetransmissionTimer.set_accumulate_time_ok; [|unfold is_u64; lia].
    all: apply RetransmissionTimer.set_timeout_ok; [auto with sponge|apply ok_timer0].
  - unfold timer_after. repeat case_decide; simpl; rewrite ?RetransmissionTimer.stop_timer_init; done.
  - case_decide as Hp; [|done]. intros ->. subst. auto.
Qed.

(** ** [tick] and the remaining operations *)

(** The timer after an expiry. *)
Definition backed_off (s : TCPSender) (t : RetransmissionTimer.RetransmissionTimer)
    : RetransmissionTimer.RetransmissionTimer :=
  RetransmissionTimer.mk (RetransmissionTimer._is_running t) 0
    (if decide (_receiver_window_size s = 0) then _initial_retransmission_timeout s
     else to_u64 (RetransmissionTimer._rto t * 2))
    (RetransmissionTimer._init_rto t).

Lemma tick_eq sent s ms :
  ok sent s ->
  let '(timeout, t) := RetransmissionTimer.check_timeout ms (_retransmission_timer s) in
  if timeout : bool then
    exists seg rest, _outstanding_segments s = seg :: rest /\
      tick ms s = Ok (mk (_isn s) (_segments_out s ++ [seg]) (_initial_retransmission_timeout s) (_stream s)
        (_next_seqno s) (backed_off s t) (_receiver_ack s) (_receiver_window_size s)
        (_outstanding_segments s) (to_u32 (_consecutive_retransmissions s + 1))
        (_set_syn_flag s) (_set_fin_flag s))
  else tick ms s = Ok (assign_timer t s).
Proof.
  intros Hok. unfold tick. pose proof (ok_running _ _ Hok) as Hr. pose proof (ok_window _ _ Hok) as Hw.
  destruct (RetransmissionTimer.check_timeout ms (_retransmission_timer s)) as [timeout t] eqn:Et.
  destruct timeout; [|done].
  assert (Hrun : RetransmissionTimer._is_running (_retransmission_timer s) = true).
  { unfold RetransmissionTimer.check_timeout in Et. by destruct (RetransmissionTimer._is_running _). }
  rewrite Hrun in Hr. symmetry in Hr. apply bool_decide_eq_true in Hr.
  destruct (_outstanding_segments s) as [|seg rest] eqn:Eo; [done|]. exists seg, rest. split; [done|].
  simpl. rewrite Eo. simpl. unfold assign_segments_out, push_back, backed_off, is_u16 in *. simpl. rewrite Eo.
  do 2 f_equal. repeat case_decide; first [lia|done].
Qed.

Lemma tick_ok sent s ms : ok sent s -> exists s', tick ms s = Ok s' /\ ok sent s'.
Proof.
  intros Hok. pose proof (tick_eq sent s ms Hok) as Ht.
  pose proof (RetransmissionTimer.check_timeout_ok ms _ (ok_timer _ _ Hok)) as Hto.
  pose proof (RetransmissionTimer.check_timeout_running ms (_retransmission_timer s)) as Hrun.
  pose proof (RetransmissionTimer.check_timeout_init ms (_retransmission_timer s)) as Hinit.
  destruct (RetransmissionTimer.check_timeout ms (_retransmission_timer s)) as [timeout t]. simpl in *.
  pose proof (chain_emitted _ _ _ _ _ _ (ok_ack _ _ Hok) (ok_outstanding _ _ Hok)) as Hem.
  destruct Hok, Hto. destruct timeout.
  - destruct Ht as (seg & rest & Eo & ->). eexists. split; [done|]. rewrite Eo in *.
    split; simpl; try done; try congruence.
    + apply Forall_app. split; [done|]. apply Forall_singleton. by apply Forall_cons in Hem as [? _].
    + split; simpl; [unfold is_u64; lia| |congruence]. case_decide; [|auto with width].
      by rewrite <- ok_timeout0, <- Hinit.
    + rewrite Hrun, ok_running0. by apply bool_decide_true.
  - rewrite Ht. eexists. split; [done|]. split; simpl; try done; congruence.
Qed.

Lemma send_empty_ok sent s : ok sent s -> ok sent (send_empty_segment s).
Proof.
  intros Hok. pose proof (chain_le _ _ _ _ _ _ (ok_outstanding _ _ Hok)). destruct Hok.
  split; simpl; try done. unfold push_back. apply Forall_app. split; [done|]. apply Forall_singleton.
  exists (_next_seqno s). split_and!; [lia|done|]. right. split; [done|]. by apply segment_with_plain; [apply wrap_wf|].
Qed.

Lemma assign_stream_ok sent s stream :
  ok sent s -> ByteStream.ok stream -> ByteStream.bytes_read stream = ByteStream.bytes_read (_stream s) ->
  ok sent (assign_stream stream s).
Proof. intros [] Hs Hr. split; simpl; try done. congruence. Qed.

Lemma write_spec sent s data :
  ok sent s -> exists n s', write data s = Ok (n, s') /\ ok sent s' /\
    ByteStream.buffer (_stream s') = ByteStream.buffer (_stream s) ++ take (Z.to_nat n) data /\
    _set_fin_flag s' = _set_fin_flag s /\ _isn s' = _isn s.
Proof.
  intros Hok. pose proof (ByteStream.write_eq data _ (ok_stream _ _ Hok)) as E. cbv zeta in E.
  unfold write. rewrite E. do 2 eexists. split; [done|]. split; [|done].
  apply assign_stream_ok; [done| |done]. eapply ByteStream.write_ok; [apply Hok|exact E].
Qed.

Lemma take_segment_ok sent s :
  ok sent s -> ok sent (take_segment s).2 /\
  (forall seg, (take_segment s).1 = Some seg -> emitted sent (_isn s) (_set_fin_flag s) seg).
Proof.
  intros Hok. unfold take_segment. pose proof (ok_out _ _ Hok) as Ho. destruct (_segments_out s) as [|seg rest] eqn:E.
  - done.
  - apply Forall_cons in Ho as [Hs Hr]. split; [|by intros ? [= <-]]. destruct Hok. by split.
Qed.

(** ** Runs of the sender

    The sender with what its owner has written to it and what it has taken out. *)

Record log : Set := mk_log {
  sender : TCPSender;
  accepted : bytes;
  taken : list TCPSegment.TCPSegment
}.

Inductive Op : Set :=
  | OpWrite (data : bytes)
  | OpEndInput
  | OpFillWindow
  | OpAck (ackno : WrappingInt32) (window_size : Z)
  | OpTick (ms : Z)
  | OpSendEmpty
  | OpTakeSegment.

Definition perform (op : Op) (l : log) : res log :=
  let s := sender l in
  match op with
  | OpWrite data => '(n, s') ← write data s; Ok (mk_log s' (accepted l ++ take (Z.to_nat n) data) (taken l))
  | OpEndInput => Ok (mk_log (end_input s) (accepted l) (taken l))
  | OpFillWindow => s' ← fill_window s; Ok (mk_log s' (accepted l) (taken l))
  | OpAck ackno win => Ok (mk_log (ack_received ackno win s) (accepted l) (taken l))
  | OpTick ms => s' ← tick ms s; Ok (mk_log s' (accepted l) (taken l))
  | OpSendEmpty => Ok (mk_log (send_empty_segment s) (accepted l) (taken l))
  | OpTakeSegment => let '(seg, s') := take_segment s in Ok (mk_log s' (accepted l) (taken l ++ option_list seg))
  end.

(** Arguments have their width, and the stream that may go out fits the sequence space. *)
Definition allowed (op : Op) (l : log) : Prop :=
  match op with
  | OpFillWindow => fits (sender l)
  | OpAck _ win => is_u16 win
  | _ => True
  end.

(** [sent] is the part of what the owner wrote that has gone out. *)
Definition sending (sent : bytes) (l : log) : Prop :=
  ok sent (sender l) /\ accepted l = sent ++ ByteStream.buffer (_stream (sender l)) /\
  Forall (emitted sent (_isn (sender l)) (_set_fin_flag (sender l))) (taken l).

Definition log_ok (l : log) : Prop := exists sent, sending sent l.

(** An operation that touches neither the stream's position nor the flags. *)
Lemma sending_same sent l s' seg :
  sending sent l -> ok sent s' -> _isn s' = _isn (sender l) -> _set_fin_flag s' = _set_fin_flag (sender l) ->
  ByteStream.buffer (_stream s') = ByteStream.buffer (_stream (sender l)) ->
  (forall x, seg = Some x -> emitted sent (_isn (sender l)) (_set_fin_flag (sender l)) x) ->
  sending sent (mk_log s' (accepted l) (taken l ++ option_list seg)).
Proof.
  intros (_ & Hacc & Ht) Hok' Hi Hf Hb Hseg. unfold sending. simpl. rewrite Hi, Hf, Hb.
  split_and!; [done..|]. apply Forall_app. split; [done|]. destruct seg; simpl; constructor; auto.
Qed.

(** An acknowledgment, a tick and an empty segment leave the stream alone. *)
Definition same_stream (s s' : TCPSender) : Prop :=
  (_isn s' = _isn s /\ _set_fin_flag s' = _set_fin_flag s /\ _stream s' = _stream s) /\
  _set_syn_flag s' = _set_syn_flag s /\ _receiver_ack s <= _receiver_ack s' /\
  (_outstanding_segments s = [] -> _outstanding_segments s' = []).

Lemma ack_received_spec sent s ackno win :
  ok sent s -> is_u16 win ->
  ok sent (ack_received ackno win s) /\ same_stream s (ack_received ackno win s).
Proof.
  intros Hok Hwin. destruct (decide (acceptable ackno s)) as [Ha|Ha].
  - destruct (ack_received_eq sent _ ackno win Hok Ha) as (popped & rest & a' & -> & Hq & H1 & H2 & _).
    split; [by apply acked_ok|]. apply chain_le in H1. split_and!; simpl; try done.
    rewrite Hq. by intros [_ ?]%app_nil.
  - replace (ack_received ackno win s) with s; [done|].
    unfold ack_received. unfold acceptable in Ha. by rewrite decide_True by lia.
Qed.

Lemma tick_spec sent s ms : ok sent s -> exists s', tick ms s = Ok s' /\ ok sent s' /\ same_stream s s'.
Proof.
  intros Hok. destruct (tick_ok sent s ms Hok) as (s' & E & Hok'). exists s'. split_and!; [done|done|].
  pose proof (tick_eq sent s ms Hok) as Ht. destruct (RetransmissionTimer.check_timeout _ _) as [[] t].
  - destruct Ht as (seg & rest & _ & Ht). rewrite E in Ht. by injection Ht as ->.
  - rewrite E in Ht. by injection Ht as ->.
Qed.

Lemma perform_spec op l sent :
  sending sent l -> allowed op l ->
  exists l' sent', perform op l = Ok l' /\ sending sent' l' /\ _isn (sender l') = _isn (sender l) /\
    grows sent (_set_fin_flag (sender l)) sent' (_set_fin_flag (sender l')).
Proof.
  intros Hsend Hop. pose proof Hsend as (Hok & Hacc & Ht).
  assert (Hsame : forall s', ok sent s' -> same_stream (sender l) s' ->
    sending sent (mk_log s' (accepted l) (taken l)) /\ _isn s' = _isn (sender l) /\
    grows sent (_set_fin_flag (sender l)) sent (_set_fin_flag s')).
  { intros s' Hok' ((Hi & Hf & Hst) & _). rewrite <- (app_nil_r (taken l)), Hf. split_and!; [|done|apply grows_refl..].
    apply (sending_same sent l s' None); [done..|congruence|done]. }
  destruct op as [data| | |ackno win|ms| |]; simpl in Hop |- *.
  - destruct (write_spec sent _ data Hok) as (n & s' & -> & Hok' & Hb & Hf & Hi).
    eexists _, sent. split; [done|]. simpl. rewrite Hf. split_and!; [|done|apply grows_refl..].
    unfold sending. simpl. by rewrite Hb, Hacc, app_assoc, Hf, Hi.
  - eexists _, sent. split; [done|]. simpl. split_and!; [|done|apply grows_refl..]. split_and!; [|done..].
    apply assign_stream_ok; [done| |done]. apply ByteStream.end_input_ok, Hok.
  - destruct (fill_window_spec sent _ Hok Hop) as (new & sent' & s' & -> & Hext & _).
    eexists _, sent'. split; [done|]. simpl. split_and!; [|apply Hext..]. unfold sending. simpl.
    rewrite (ext_stream _ _ _ _ _ Hext), (ext_isn _ _ _ _ _ Hext). split_and!; [apply Hext|done|].
    eapply Forall_impl; [exact Ht|]. intros seg. apply emitted_grows, Hext.
  - destruct (ack_received_spec sent _ ackno win Hok Hop). eexists _, sent. split; [done|]. by apply Hsame.
  - destruct (tick_spec sent _ ms Hok) as (s' & -> & ? & ?). eexists _, sent. split; [done|]. by apply Hsame.
  - eexists _, sent. split; [done|]. apply Hsame; [by apply send_empty_ok|done].
  - destruct (take_segment_ok sent _ Hok) as [Hok' Hem]. unfold take_segment in *.
    destruct (_segments_out (sender l)) as [|seg rest]; eexists _, sent; (split; [done|]); simpl in *.
    + rewrite app_nil_r. apply Hsame; done.
    + split_and!; [|done|apply grows_refl..]. by apply (sending_same sent l _ (Some seg)).
Qed.

Lemma perform_ok op l : log_ok l -> allowed op l -> exists l', perform op l = Ok l' /\ log_ok l'.
Proof.
  intros [sent Hl] Ha. destruct (perform_spec op l sent Hl Ha) as (l' & sent' & E & Hl' & _).
  exists l'. split; [done|]. by exists sent'.
Qed.

#[global] Instance machine : Machine log Op :=
  {| step := perform; state_ok := log_ok; op_ok := allowed; step_ok := perform_ok |}.

(** A sender with nothing written to it. *)
Definition initial (capacity rto : Z) (fixed_isn : option WrappingInt32) (random : Z) : log :=
  mk_log (construct capacity rto fixed_isn random) [] [].

(** The arguments of the constructor have their widths. *)
Definition config_ok (capacity rto : Z) (fixed_isn : option WrappingInt32) (random : Z) : Prop :=
  is_u64 capacity /\ is_u16 rto /\ is_u32 random /\ (forall isn, fixed_isn = Some isn -> wf isn).

Lemma initial_ok capacity rto fixed_isn random :
  config_ok capacity rto fixed_isn random -> log_ok (initial capacity rto fixed_isn random).
Proof. intros (? & ? & ? & ?). exists []. split; [by apply sender_construct_ok|]. split; [done|constructor]. Qed.

Lemma runs_log_ok capacity rto fixed_isn random ops l :
  config_ok capacity rto fixed_isn random -> runs (initial capacity rto fixed_isn random) ops l -> log_ok l.
Proof. intros Hc Hr. apply (runs_state_ok _ _ _ Hr). by apply initial_ok. Qed.

(** ** Properties *)

(** C9: in every run of the sender (writes, end of input, [fill_window], any
    acknowledgments, ticks, empty segments, segments taken out) no operation faults, in
    particular [tick] never reads the front of an empty queue and [fill_window]
    terminates; [bytes_in_flight] is the total length in sequence space of the outstanding
    segments; the timer runs exactly while there are any; [next_seqno_absolute] counts
    the SYN, the bytes taken from the stream and the FIN; and the retransmission count is
    zero when everything is acknowledged. *)
Theorem sender_invariant capacity rto fixed_isn random ops l :
  config_ok capacity rto fixed_isn random -> runs (initial capacity rto fixed_isn random) ops l ->
  let s := sender l in
  bytes_in_flight s = foldr (fun seg n => span seg + n) 0 (_outstanding_segments s) /\
  RetransmissionTimer._is_running (_retransmission_timer s) = bool_decide (_outstanding_segments s <> []) /\
  next_seqno_absolute s = (if _set_syn_flag s then 1 else 0) + ByteStream.bytes_read (stream_in s)
                          + (if _set_fin_flag s then 1 else 0) /\
  (_outstanding_segments s = [] -> consecutive_retransmissions s = 0) /\
  (forall op, allowed op l -> exists l', perform op l = Ok l').
Proof.
  intros Hc Hr. pose proof (runs_log_ok _ _ _ _ _ _ Hc Hr) as Hl. destruct Hl as (sent & Hok & Hrest). cbv zeta.
  split_and!.
  - rewrite (in_flight_eq _ _ Hok). eapply chain_spans, Hok.
  - apply Hok.
  - unfold stream_in. rewrite (ok_read _ _ Hok). apply Hok.
  - apply Hok.
  - intros op Ha. destruct (perform_ok op l) as (l' & E & _); [by exists sent|done|eauto].
Qed.

(** A sender with a stream of two bytes that sends it all, retransmits and is acknowledged. *)
Definition demo_ops : list Op :=
  [OpWrite [Byte.x61; Byte.x62]; OpFillWindow; OpAck (WrappingInt32.mk 6) 10; OpFillWindow; OpEndInput;
   OpFillWindow; OpTick 1000; OpTakeSegment; OpAck (WrappingInt32.mk 9) 10].

Lemma demo_config : config_ok 100 1000 (Some (WrappingInt32.mk 5)) 0.
Proof. split_and!; [concrete..|]. intros isn [= <-]. concrete. Defined.

Ltac demo_step := eapply runs_cons;
  [first [exact I|vm_compute; split; congruence]|vm_compute; reflexivity|].
Ltac demo_runs := repeat demo_step; apply runs_nil.

Lemma sender_invariant_witness :
  exists l, runs (initial 100 1000 (Some (WrappingInt32.mk 5)) 0) demo_ops l /\
    bytes_in_flight (sender l) = 0.
Proof.
  eexists. split; [unfold demo_ops; demo_runs|].
  eapply eq_trans; [eapply (sender_invariant _ _ _ _ demo_ops _ demo_config); unfold demo_ops; demo_runs|reflexivity].
Defined.

(** C7: what leaves the sender is the stream.  In every run, every segment ever placed in
    [segments_out()] (taken by the owner or still queued, first transmissions and
    retransmissions) carries, at some position, exactly the bytes the owner had written at
    that position, with the SYN only at the start and the FIN only after the last byte, or
    occupies no sequence numbers at all, and is fit for the wire (fields within their widths,
    no options, a payload of at most [MAX_PAYLOAD_SIZE]); and the sender keeps every byte it accepted:
    those sent followed by those still buffered are the bytes written. *)
Theorem sender_emits_stream capacity rto fixed_isn random ops l :
  config_ok capacity rto fixed_isn random -> runs (initial capacity rto fixed_isn random) ops l ->
  let s := sender l in
  let sent := take (Z.to_nat (ByteStream.bytes_read (stream_in s))) (accepted l) in
  accepted l = sent ++ ByteStream.buffer (stream_in s) /\
  Forall (fun seg => plain seg /\ exists k, TCPHeader.seqno (TCPSegment.header seg) = wrap k (_isn s) /\
            (carries sent (_isn s) seg k \/ span seg = 0)) (taken l ++ segments_out s).
Proof.
  intros Hc Hr. pose proof (runs_log_ok _ _ _ _ _ _ Hc Hr) as (sent & Hok & Hacc & Ht). cbv zeta.
  assert (Hsent : take (Z.to_nat (ByteStream.bytes_read (stream_in (sender l)))) (accepted l) = sent).
  { unfold stream_in. rewrite (ok_read _ _ Hok), Hacc. unfold zlen. by rewrite Nat2Z.id, take_app_length. }
  rewrite Hsent. split; [done|].
  assert (Hall : Forall (emitted sent (_isn (sender l)) (_set_fin_flag (sender l))) (taken l ++ segments_out (sender l)))
    by (apply Forall_app; split; [done|apply Hok]).
  eapply Forall_impl; [exact Hall|]. intros seg (k & _ & Hs & [(Hp & _ & ?)|[H0 ?]]); eauto.
Qed.

Lemma sender_emits_stream_witness :
  exists l, runs (initial 100 1000 (Some (WrappingInt32.mk 5)) 0) demo_ops l /\
    accepted l = take (Z.to_nat (ByteStream.bytes_read (stream_in (sender l)))) (accepted l)
                 ++ ByteStream.buffer (stream_in (sender l)).
Proof.
  eexists. split; [unfold demo_ops; demo_runs|].
  apply (sender_emits_stream _ _ _ _ demo_ops _ demo_config); unfold demo_ops; demo_runs.
Defined.

(** C10: [fill_window] returns and sends as much as it may: the new segments are queued
    both for transmission and as outstanding, their payloads are the next bytes of the
    stream in order and at most [MAX_PAYLOAD_SIZE] long each, a sender that was within the
    window (an empty window counting as one) stays within it, and afterwards either the
    FIN has been sent, or the window is full, or the stream has nothing more to offer. *)
Theorem fill_window_fills sent s :
  ok sent s -> fits s ->
  exists new s', fill_window s = Ok s' /\
    segments_out s' = segments_out s ++ new /\
    _outstanding_segments s' = _outstanding_segments s ++ new /\
    ByteStream.buffer (stream_in s)
      = concat (map (fun seg => Buffer.str (TCPSegment.payload seg)) new) ++ ByteStream.buffer (stream_in s') /\
    Forall (fun seg => zlen (Buffer.str (TCPSegment.payload seg)) <= TCPConfig.MAX_PAYLOAD_SIZE) new /\
    (bytes_in_flight s <= effective_window s -> bytes_in_flight s' <= effective_window s) /\
    filled s'.
Proof.
  intros Hok Hfits. destruct (fill_window_spec sent s Hok Hfits) as (new & sent' & s' & E & Hext & Hfill).
  exists new, s'. destruct Hext. split_and!; try done.
  unfold stream_in. rewrite ext_data0, <- app_assoc in ext_stream0. by apply app_inv_head in ext_stream0.
Qed.

Lemma fill_window_fills_witness :
  exists new s', fill_window (construct 100 1000 (Some (WrappingInt32.mk 5)) 0) = Ok s' /\
    segments_out s' = segments_out (construct 100 1000 (Some (WrappingInt32.mk 5)) 0) ++ new.
Proof.
  destruct (fill_window_fills [] (construct 100 1000 (Some (WrappingInt32.mk 5)) 0)) as (new & s' & E & Ho & _).
  - apply sender_construct_ok; [concrete..|]. intros isn [= <-]. concrete.
  - concrete.
  - exists new, s'. by split.
Defined.

(** C11: [ack_received] ignores an acknowledgment of something not sent or already
    acknowledged; otherwise it removes from the queue exactly the segments that are fully
    acknowledged (the first one that remains ends after the acknowledged position), moves
    [_receiver_ack] to the end of what it removed, adopts the advertised window, and if it
    removed anything resets the timeout to its initial value, the elapsed time and the
    retransmission count to zero; the timer stops when nothing is outstanding. *)
Theorem ack_received_exact sent s ackno win :
  ok sent s -> is_u16 win ->
  let abs := unwrap ackno (_isn s) (_next_seqno s) in
  let s' := ack_received ackno win s in
  (~ acceptable ackno s -> s' = s) /\
  (acceptable ackno s ->
   exists popped, _outstanding_segments s = popped ++ _outstanding_segments s' /\
     _receiver_ack s' = _receiver_ack s + foldr (fun seg n => span seg + n) 0 popped /\
     _receiver_ack s' <= abs /\
     (forall seg, head (_outstanding_segments s') = Some seg -> abs < _receiver_ack s' + span seg) /\
     _receiver_window_size s' = win /\
     RetransmissionTimer._is_running (_retransmission_timer s') = bool_decide (_outstanding_segments s' <> []) /\
     (popped = [] -> _consecutive_retransmissions s' = _consecutive_retransmissions s) /\
     (popped <> [] -> _consecutive_retransmissions s' = 0 /\
        RetransmissionTimer._accumulate_time (_retransmission_timer s') = 0 /\
        RetransmissionTimer._rto (_retransmission_timer s') = _initial_retransmission_timeout s) /\
     ok sent s').
Proof.
  intros Hok Hwin abs s'. split.
  - intros Hn. unfold s', ack_received. fold abs. unfold acceptable in Hn. fold abs in Hn.
    by rewrite decide_True by lia.
  - intros Ha. destruct (ack_received_eq sent s ackno win Hok Ha) as (popped & rest & a' & E & Hq & H1 & H2 & Hle & Hhd).
    unfold s'. rewrite E. exists popped. pose proof (acked_ok _ _ _ _ _ _ Hok Hwin Hq H1 H2) as Hok'.
    pose proof (timer_after_running _ _ _ _ Hok Hq). apply chain_spans in H1.
    split_and!; simpl; try done; [lia|..].
    + intros ->. done.
    + intros Hp. unfold timer_after. by rewrite !decide_False by done.
Qed.

(** A sender whose SYN is acknowledged and that has [in_flight] bytes out and [left] bytes
    buffered; the receiver has advertised [win]. *)
Definition busy (in_flight left win : nat) : list Op :=
  [OpFillWindow; OpAck (WrappingInt32.mk 6) (Z.of_nat in_flight); OpWrite (replicate in_flight Byte.x61);
   OpFillWindow; OpWrite (replicate left Byte.x62); OpAck (WrappingInt32.mk 6) (Z.of_nat win)].

Fixpoint perform_all (ops : list Op) (l : log) : res log :=
  match ops with [] => Ok l | op :: ops' => l' ← perform op l; perform_all ops' l' end.

Definition busy_log (in_flight left win : nat) : log :=
  let l := initial 100 1000 (Some (WrappingInt32.mk 5)) 0 in
  match perform_all (busy in_flight left win) l with Ok l' => l' | Err _ => l end.
Abbreviation busy_sender in_flight left win := (sender (busy_log in_flight left win)).

Lemma busy_ok : exists sent, ok sent (busy_sender 3 2 1).
Proof.
  destruct (runs_log_ok _ _ _ _ (busy 3 2 1) (busy_log 3 2 1) demo_config) as (sent & Hok & _); [|by exists sent].
  let v := eval vm_compute in (busy_log 3 2 1) in replace (busy_log 3 2 1) with v by (vm_compute; reflexivity).
  unfold busy. demo_runs.
Qed.

Lemma ack_received_exact_witness :
  exists popped, _outstanding_segments (busy_sender 3 2 1)
    = popped ++ _outstanding_segments (ack_received (WrappingInt32.mk 9) 7 (busy_sender 3 2 1)).
Proof.
  destruct busy_ok as (sent & Hok).
  destruct (ack_received_exact sent (busy_sender 3 2 1) (WrappingInt32.mk 9) 7 Hok) as [_ Hs]; [concrete|].
  destruct Hs as (popped & Hp & _); [vm_compute; split; congruence|]. exists popped. exact Hp.
Defined.

(** C12: [tick] accumulates the elapsed time, and when it reaches the timeout retransmits
    the oldest outstanding segment (which exists), counts the retransmission, restarts the
    elapsed time and doubles the timeout, or resets it to the initial value when the
    advertised window is zero; below the timeout, or with the timer stopped, nothing is
    sent. *)
Theorem tick_retransmits sent s ms :
  ok sent s -> 0 <= ms ->
  let t := _retransmission_timer s in
  let time := RetransmissionTimer._accumulate_time t + ms in
  time < 2 ^ 64 ->
  (RetransmissionTimer._is_running t = false -> tick ms s = Ok s) /\
  (RetransmissionTimer._is_running t = true -> time < RetransmissionTimer._rto t ->
     tick ms s = Ok (assign_timer (RetransmissionTimer.set_accumulate_time time t) s)) /\
  (RetransmissionTimer._is_running t = true -> RetransmissionTimer._rto t <= time ->
     exists seg s', head (_outstanding_segments s) = Some seg /\ tick ms s = Ok s' /\
       segments_out s' = segments_out s ++ [seg] /\
       _outstanding_segments s' = _outstanding_segments s /\
       consecutive_retransmissions s' = to_u32 (consecutive_retransmissions s + 1) /\
       RetransmissionTimer._accumulate_time (_retransmission_timer s') = 0 /\
       RetransmissionTimer._rto (_retransmission_timer s')
         = (if decide (_receiver_window_size s = 0) then _initial_retransmission_timeout s
            else to_u64 (RetransmissionTimer._rto t * 2))).
Proof.
  intros Hok Hms t time Htime. pose proof (tick_eq sent s ms Hok) as Ht.
  pose proof (RetransmissionTimer.ok_time _ (ok_timer _ _ Hok)) as Hacc. unfold is_u64 in Hacc.
  unfold RetransmissionTimer.check_timeout in Ht. fold t in Ht, Hacc. split_and!; intros Hr; rewrite Hr in Ht.
  - rewrite Ht. by destruct s.
  - intros Hlt. rewrite to_u64_small in Ht by (unfold is_u64, time in *; lia). fold time in Ht.
    rewrite bool_decide_false in Ht by lia. rewrite Ht. unfold RetransmissionTimer.set_accumulate_time. by rewrite Hr.
  - intros Hge. rewrite to_u64_small in Ht by (unfold is_u64, time in *; lia). fold time in Ht.
    rewrite bool_decide_true in Ht by lia. destruct Ht as (seg & rest & Ho & Ht). rewrite Ht, Ho.
    exists seg. eexists. split_and!; done.
Qed.

Lemma tick_retransmits_witness :
  exists seg s', tick 1000 (busy_sender 3 2 1) = Ok s' /\
    segments_out s' = segments_out (busy_sender 3 2 1) ++ [seg].
Proof.
  destruct busy_ok as (sent & Hok).
  destruct (tick_retransmits sent (busy_sender 3 2 1) 1000 Hok) as (_ & _ & Hs); [lia|reflexivity|].
  destruct Hs as (seg & s' & _ & E & Ho & _); [reflexivity|vm_compute; congruence|]. exists seg, s'. exact (conj E Ho).
Defined.

(** C37: a window that shrinks below what is in flight is not respected:
    [window_size - bytes_in_flight()] wraps around, and [fill_window] sends one more
    segment, as long as the stream and [MAX_PAYLOAD_SIZE] allow, although the receiver has
    no room for it. *)
Theorem shrunk_window_overrun sent s :
  ok sent s -> fits s -> _set_fin_flag s = false -> effective_window s < bytes_in_flight s ->
  exists s', fill_window s = Ok s' /\
    bytes_in_flight s' = bytes_in_flight s
      + Z.min (ByteStream.buffer_size (stream_in s)) TCPConfig.MAX_PAYLOAD_SIZE.
Proof.
  intros Hok Hfits Hopen Hw. pose proof (effective_window_range _ _ Hok) as Hwr.
  pose proof (in_flight_eq _ _ Hok) as Hf. pose proof (ok_flight _ _ Hok). pose proof (ok_ack _ _ Hok).
  assert (Hz0 : _next_seqno s <> 0) by lia. pose proof (syn_sent _ _ Hok Hz0) as Hsyn.
  pose proof (zlen_nonneg (ByteStream.buffer (_stream s))) as Hnn.
  pose proof Hfits as [F1 F2]. rewrite Hopen, Hsyn in F1, F2. unfold ByteStream.buffer_size in F1, F2.
  assert (Hn : payload_size s = Z.min (zlen (ByteStream.buffer (_stream s))) TCPConfig.MAX_PAYLOAD_SIZE).
  { unfold payload_size, ByteStream.buffer_size.
    assert (2 ^ 32 <= to_u64 (effective_window s - bytes_in_flight s)) by width_lia. lia. }
  pose proof (make_data_eq sent s Hok Hfits Hopen Hz0) as E. cbv zeta in E.
  unfold fill_window. destruct (fill_window_fuel s) as [|fuel] eqn:Efuel; [unfold fill_window_fuel in Efuel; lia|].
  cbn [fill_window_rec].
  fold (effective_window s). rewrite Hopen, decide_False by done. rewrite E. cbn [mbind res_bind].
  rewrite Hf. unfold stream_in, ByteStream.buffer_size. unfold TCPConfig.MAX_PAYLOAD_SIZE in *.
  rewrite (bool_decide_false (_ > _)), andb_false_r by lia. cbn [negb andb].
  destruct (bool_decide (payload_size s = 0)) eqn:Hz; cbv beta iota.
  - eexists. split; [done|]. unfold bytes_in_flight. simpl. rewrite to_u64_small by (unfold is_u64; lia). lia.
  - unfold window_not_full. rewrite bool_decide_false.
    + eexists. split; [done|]. unfold bytes_in_flight. simpl. rewrite to_u64_small by (unfold is_u64; lia). lia.
    + unfold bytes_in_flight. simpl. rewrite to_u64_small by (unfold is_u64; lia). lia.
Qed.

Lemma shrunk_window_overrun_witness :
  effective_window (busy_sender 3 2 1) = 1 /\
  exists s', fill_window (busy_sender 3 2 1) = Ok s' /\ bytes_in_flight s' = 5.
Proof.
  split; [reflexivity|]. destruct busy_ok as (sent & Hok).
  apply (shrunk_window_overrun sent (busy_sender 3 2 1) Hok); [vm_compute; split; congruence|reflexivity|reflexivity].
Defined.

End SenderSpec.
