(* ===== verification/Network.v ===== *)
(** * A sender and a receiver joined by an unreliable network

    The closed system that the sender and the receiver of libsponge form: the owner of the
    sender writes and drives it, the segments it takes from [segments_out()] go to a
    network that may drop, repeat and reorder them, the owner of the receiver reads.  The
    acknowledgments that reach the sender are arbitrary.  The theorems are proved from the
    contracts of the two ends ([SenderSpec], [TCPReceiver]). *)

From S2P Require Import Prelude ByteStream WrappingIntegers Buffer TCPHeader TCPSegment.
From S2P Require Import StreamReassembler ReassemblerSpec SegmentSpec TCPReceiver.
From S2P Require Import RetransmissionTimer TCPSender SenderSpec.

Module Network.

Import WrappingInt32 SegmentSpec.

Record net : Set := mk {
  tx : SenderSpec.log;
  rx : TCPReceiver.TCPReceiver;
  got : bytes
}.

Inductive Op : Set :=
  | Drive (op : SenderSpec.Op)
  | Arrive (seg : TCPSegment.TCPSegment)
  | Read (len : Z).

Definition perform (op : Op) (n : net) : res net :=
  match op with
  | Drive op => l ← SenderSpec.perform op (tx n); Ok (mk l (rx n) (got n))
  | Arrive seg => r ← TCPReceiver.segment_received seg (rx n); Ok (mk (tx n) r (got n))
  | Read len => '(out, r) ← TCPReceiver.read_out len (rx n); Ok (mk (tx n) r (got n ++ out))
  end.

Definition isn (n : net) : WrappingInt32 := TCPSender._isn (SenderSpec.sender (tx n)).

(** The bytes that have left the sender. *)
Definition sent (n : net) : bytes :=
  take (Z.to_nat (ByteStream.bytes_read (TCPSender.stream_in (SenderSpec.sender (tx n)))))
    (SenderSpec.accepted (tx n)).

(** The network delivers only what was put into it, and not so late that the receiver has
    moved on by half of the 32-bit sequence space. *)
Definition timely (seg : TCPSegment.TCPSegment) (n : net) : Prop :=
  (exists k, carries (sent n) (isn n) seg k /\ TCPReceiver.near k (rx n)) \/ span seg = 0.

Definition allowed (op : Op) (n : net) : Prop :=
  match op with
  | Drive op => SenderSpec.allowed op (tx n)
  | Arrive seg => seg ∈ SenderSpec.taken (tx n) /\ timely seg n
  | Read len => is_u64 len
  end.

(** The two ends agree on the stream. *)
Record agrees (S : bytes) (n : net) : Prop := {
  agr_tx : SenderSpec.sending S (tx n);
  agr_rx : TCPReceiver.receiving S (isn n) (rx n);
  agr_capacity : 0 <= TCPReceiver._capacity (rx n) <= 2 ^ 60;
  agr_closing : TCPReceiver.closing (rx n) = true -> TCPSender._set_fin_flag (SenderSpec.sender (tx n)) = true;
  agr_got : got n = take (Z.to_nat (ByteStream.bytes_read (TCPReceiver.stream_out (rx n)))) S
}.

Definition net_ok (n : net) : Prop := exists S, agrees S n.

Lemma agrees_sent S n : agrees S n -> sent n = S.
Proof.
  intros [(Hok & Hacc & _) _ _ _ _]. unfold sent, TCPSender.stream_in.
  rewrite (SenderSpec.ok_read _ _ Hok), Hacc. unfold zlen. by rewrite Nat2Z.id, take_app_length.
Qed.

Lemma agrees_size S n : agrees S n -> zlen S <= 2 ^ 60.
Proof.
  intros [(Hok & _) _ _ _ _]. pose proof (SenderSpec.ok_far _ _ Hok). pose proof (SenderSpec.ok_next _ _ Hok).
  repeat case_match; lia.
Qed.

Lemma agrees_fits S n : agrees S n -> TCPReceiver.stream_fits S (TCPReceiver._capacity (rx n)).
Proof. intros H. pose proof (agrees_size S n H). pose proof (agr_capacity _ _ H). split; lia. Qed.

Lemma drive_agrees S n op :
  agrees S n -> SenderSpec.allowed op (tx n) -> exists n' S', perform (Drive op) n = Ok n' /\ agrees S' n'.
Proof.
  intros Ha Hop. pose proof Ha as [Htx Hrx Hcap Hclose Hgot]. simpl.
  destruct (SenderSpec.perform_spec op (tx n) S Htx Hop) as (l & S' & -> & Hl & Hi & Hp & Hfin).
  do 2 eexists. split; [done|]. unfold isn in *. split; unfold isn; simpl; rewrite ?Hi; try done.
  - destruct (TCPReceiver.closing (rx n)) eqn:Hc.
    + destruct (Hfin (Hclose eq_refl)) as [-> _]. done.
    + by eapply TCPReceiver.receiving_prefix.
  - intros Hc. by destruct (Hfin (Hclose Hc)).
  - destruct (TCPReceiver.receiving_stream _ _ _ Hrx) as (Hr & Hw & _ & _). rewrite Hgot.
    destruct Hp as [T ->]. rewrite take_app_le; [done|]. unfold zlen in Hw. lia.
Qed.

Lemma arrive_agrees S n seg :
  agrees S n -> seg ∈ SenderSpec.taken (tx n) -> timely seg n ->
  exists n', perform (Arrive seg) n = Ok n' /\ agrees S n'.
Proof.
  intros Ha Hin Htimely. pose proof (agrees_fits _ _ Ha) as Hfits. unfold timely in Htimely.
  rewrite (agrees_sent _ _ Ha) in Htimely. pose proof Ha as [(Hok & Hacc & Htaken) Hrx Hcap Hclose Hgot]. simpl.
  pose proof (SenderSpec.ok_isn _ _ Hok) as Hw. fold (isn n) in Hw.
  destruct (TCPReceiver.segment_received_spec S (isn n) seg (rx n)) as [(_ & _ & ->)|(r' & -> & Hd & _)]; try done.
  { eexists. split; [done|]. by destruct Ha. }
  destruct Hd as (Hrx' & _ & Hc' & Hrd & Hcl). eexists. split; [done|].
  split; simpl; try done; [congruence| |congruence].
  intros Hcl'. destruct (Hcl Hcl') as [?|Hfin]; [auto|].
  rewrite Forall_forall in Htaken. destruct (Htaken seg Hin) as (k & _ & _ & [(_ & Hp & _)|[H0 _]]); [auto|].
  unfold span in H0. rewrite Hfin in H0. pose proof (zlen_nonneg (Buffer.str (TCPSegment.payload seg))).
  case_match; lia.
Qed.

Lemma read_agrees S n len :
  agrees S n -> is_u64 len -> exists n', perform (Read len) n = Ok n' /\ agrees S n'.
Proof.
  intros [Htx Hrx Hcap Hclose Hgot] Hlen. simpl.
  destruct (TCPReceiver.read_out_step S (isn n) len (rx n) Hlen Hrx) as (out & r' & -> & Hrx' & _ & Hc' & He & Hf & Ht).
  eexists. split; [done|]. split; simpl; try done; [congruence| |congruence].
  unfold TCPReceiver.closing in *. by rewrite He, Hf.
Qed.

Lemma net_perform_ok op n : net_ok n -> allowed op n -> exists n', perform op n = Ok n' /\ net_ok n'.
Proof.
  intros [S Ha] Hop. destruct op as [op|seg|len]; cbn [allowed] in Hop.
  - destruct (drive_agrees S n op Ha Hop) as (n' & S' & E & Ha'). exists n'. split; [done|]. by exists S'.
  - destruct (arrive_agrees S n seg Ha) as (n' & E & Ha'); [apply Hop..|]. exists n'. split; [done|]. by exists S.
  - destruct (read_agrees S n len Ha Hop) as (n' & E & Ha'). exists n'. split; [done|]. by exists S.
Qed.

#[global] Instance machine : Machine net Op :=
  {| step := perform; state_ok := net_ok; op_ok := allowed; step_ok := net_perform_ok |}.

(** A new sender and a new receiver. *)
Definition initial (capacity rto : Z) (fixed_isn : option WrappingInt32) (random rcv_capacity : Z) : net :=
  mk (SenderSpec.initial capacity rto fixed_isn random) (TCPReceiver.construct rcv_capacity) [].

Lemma net_initial_ok capacity rto fixed_isn random rcv_capacity :
  SenderSpec.config_ok capacity rto fixed_isn random -> 0 <= rcv_capacity <= 2 ^ 60 ->
  net_ok (initial capacity rto fixed_isn random rcv_capacity).
Proof.
  intros (? & ? & ? & ?) Hr. exists []. split; try done.
  - split_and!; [by apply SenderSpec.sender_construct_ok|done|constructor].
  - apply (TCPReceiver.construct_good [] (isn (initial capacity rto fixed_isn random rcv_capacity)) rcv_capacity).
    split; [lia|]. rewrite (@zlen_nil byte). lia.
Qed.

(** What was read and what waits are the bytes written to the receiver's stream. *)
Lemma delivered S n :
  agrees S n -> got n ++ ByteStream.buffer (TCPReceiver.stream_out (rx n))
                = take (Z.to_nat (ByteStream.bytes_written (TCPReceiver.stream_out (rx n)))) S.
Proof.
  intros Ha. destruct (TCPReceiver.receiving_stream _ _ _ (agr_rx _ _ Ha)) as (Hrd & Hw & Hb & He).
  rewrite Hb, (agr_got _ _ Ha). set (k := Z.to_nat (ByteStream.bytes_read _)). set (m := Z.to_nat (ByteStream.bytes_written _)).
  replace (take k S) with (take k (take m S)); [apply take_drop|]. rewrite take_take. f_equal. lia.
Qed.

(** What the receiver has, in every state that the invariant allows. *)
Lemma delivery n :
  net_ok n ->
  let out := TCPReceiver.stream_out (rx n) in
  let s := SenderSpec.sender (tx n) in
  got n ++ ByteStream.buffer out
    = take (Z.to_nat (ByteStream.bytes_written out)) (SenderSpec.accepted (tx n)) /\
  (ByteStream.input_ended out = true ->
     TCPSender._set_fin_flag s = true /\ got n ++ ByteStream.buffer out = sent n) /\
  (forall a, TCPReceiver.ackno (rx n) = Some a ->
     unwrap a (isn n) (ByteStream.bytes_written out)
       <= 1 + zlen (sent n) + (if TCPSender._set_fin_flag s then 1 else 0)).
Proof.
  intros Hn. cbv zeta.
  destruct Hn as [S Ha]. pose proof (agrees_sent _ _ Ha) as Hsent. pose proof (agrees_size _ _ Ha) as Hsize.
  pose proof (delivered S n Ha) as Hall. destruct Ha as [(Hok & Hacc & _) Hrx Hcap Hclose Hgot].
  destruct (TCPReceiver.receiving_stream _ _ _ Hrx) as (Hrd & Hw & Hb & He).
  split_and!.
  - rewrite Hall, Hacc. rewrite take_app_le; [done|]. unfold zlen in Hw. lia.
  - intros Hend. split; [apply Hclose; unfold TCPReceiver.closing; by rewrite Hend, orb_true_r|].
    rewrite Hall, (He Hend), Hsent. apply take_ge. unfold zlen. lia.
  - intros a. unfold TCPReceiver.ackno. destruct Hrx as [[->| ->] _]; [done|]. intros [= <-].
    rewrite Hsent. rewrite to_u64_small by (unfold is_u64; case_match; lia).
    rewrite unwrap_exact_near by (try case_match; lia).
    destruct (ByteStream.input_ended _) eqn:Hend; [|case_match; lia].
    rewrite Hclose by (unfold TCPReceiver.closing; by rewrite Hend, orb_true_r). lia.
Qed.

(** ** Properties *)

(** C1: the transport is reliable and in order.  In every run of the closed system,
    whatever the network drops, repeats or reorders and whatever acknowledgments reach the
    sender, no operation of either end faults; the bytes the receiver's owner has read
    followed by the bytes waiting for it are a prefix of the bytes the sender's owner
    wrote; when the receiver's stream ends, the sender has sent its FIN and that prefix is
    everything it sent; and the receiver acknowledges nothing that was not sent. *)
Theorem end_to_end_delivery capacity rto fixed_isn random rcv_capacity ops n :
  SenderSpec.config_ok capacity rto fixed_isn random -> 0 <= rcv_capacity <= 2 ^ 60 ->
  runs (initial capacity rto fixed_isn random rcv_capacity) ops n ->
  let out := TCPReceiver.stream_out (rx n) in
  let s := SenderSpec.sender (tx n) in
  got n ++ ByteStream.buffer out
    = take (Z.to_nat (ByteStream.bytes_written out)) (SenderSpec.accepted (tx n)) /\
  (ByteStream.input_ended out = true ->
     TCPSender._set_fin_flag s = true /\ got n ++ ByteStream.buffer out = sent n) /\
  (forall a, TCPReceiver.ackno (rx n) = Some a ->
     unwrap a (isn n) (ByteStream.bytes_written out)
       <= 1 + zlen (sent n) + (if TCPSender._set_fin_flag s then 1 else 0)) /\
  (forall op, allowed op n -> exists n', perform op n = Ok n').
Proof.
  intros Hc Hr Hruns. cbv zeta.
  assert (Hn : net_ok n) by (apply (runs_state_ok _ _ _ Hruns); by apply net_initial_ok).
  destruct (delivery n Hn) as (H1 & H2 & H3). split_and!; [done..|].
  intros op Hop. destruct (net_perform_ok op n Hn Hop) as (n' & E & _). by exists n'.
Qed.

(** A session that sends the stream of one byte 'a' in two segments. *)
Definition seg_syn : TCPSegment.TCPSegment :=
  TCPSender.segment_with (WrappingInt32.mk 5) true false Buffer.empty_buffer.
Definition seg_data : TCPSegment.TCPSegment :=
  TCPSender.segment_with (WrappingInt32.mk 6) false true (Buffer.of_string [Byte.x61]).
Definition session : list Op :=
  [Drive SenderSpec.OpFillWindow; Drive SenderSpec.OpTakeSegment; Arrive seg_syn;
   Drive (SenderSpec.OpWrite [Byte.x61]); Drive SenderSpec.OpEndInput;
   Drive (SenderSpec.OpAck (WrappingInt32.mk 6) 10); Drive SenderSpec.OpFillWindow;
   Drive SenderSpec.OpTakeSegment; Arrive seg_data; Arrive seg_syn; Read 1].

(** [Arrive] of a segment taken earlier whose position is [k]. *)
Ltac arrives k :=
  eapply runs_cons; [|vm_compute; reflexivity|];
  [split; [vm_compute; repeat constructor|left; exists k; vm_compute; repeat split; congruence]|].

Lemma end_to_end_delivery_witness :
  exists n, runs (initial 100 1000 (Some (WrappingInt32.mk 5)) 0 10) session n /\
    TCPSender._set_fin_flag (SenderSpec.sender (tx n)) = true /\ got n ++ [] = sent n.
Proof.
  assert (Hr : exists n, runs (initial 100 1000 (Some (WrappingInt32.mk 5)) 0 10) session n /\
    ByteStream.input_ended (TCPReceiver.stream_out (rx n)) = true /\
    ByteStream.buffer (TCPReceiver.stream_out (rx n)) = []).
  { eexists. split; [|split]; [unfold session|..].
    - do 2 SenderSpec.demo_step. arrives 0. do 5 SenderSpec.demo_step. arrives 1. arrives 0.
      SenderSpec.demo_step. apply runs_nil.
    - reflexivity.
    - reflexivity. }
  destruct Hr as (n & Hr & He & Hb). exists n. split; [exact Hr|]. rewrite <- Hb.
  apply (end_to_end_delivery 100 1000 (Some (WrappingInt32.mk 5)) 0 10 session n SenderSpec.demo_config);
    [lia|exact Hr|exact He].
Defined.

End Network.
