(* ===== verification/Progress.v ===== *)
(** * Recovery: a sender and a receiver make progress

    [Network] shows that nothing wrong is delivered; this file shows that everything is.  A
    round is what happens when the retransmission timer expires and one retransmission and
    one acknowledgment get through: the sender fills its window, the timer expires, the
    owner sends what is queued, the oldest outstanding segment reaches the receiver, whose
    owner reads, and the receiver's acknowledgment reaches the sender.  Acknowledgments are
    genuine here: the position they carry has been reached by the receiver. *)

From S2P Require Import Prelude ByteStream WrappingIntegers Buffer TCPHeader TCPSegment.
From S2P Require Import StreamReassembler ReassemblerSpec SegmentSpec TCPReceiver.
From S2P Require Import RetransmissionTimer TCPSender SenderSpec Network.

Module Progress.

Import WrappingInt32 SegmentSpec Network.

(** ** The receiver *)

(** The sequence number of the first thing the receiver misses. *)
Definition position (r : TCPReceiver.TCPReceiver) : Z :=
  match TCPReceiver._isn r with
  | None => 0
  | Some _ => ByteStream.bytes_written (TCPReceiver.stream_out r) + 1
              + (if ByteStream.input_ended (TCPReceiver.stream_out r) then 1 else 0)
  end.

(** The owner reads everything that is there. *)
Lemma drain_step S isn r :
  TCPReceiver.receiving S isn r -> let len := ByteStream.buffer_size (TCPReceiver.stream_out r) in
  is_u64 len /\
  exists out r', TCPReceiver.read_out len r = Ok (out, r') /\ TCPReceiver.receiving S isn r' /\
    position r' = position r /\ TCPReceiver._isn r' = TCPReceiver._isn r /\
    TCPReceiver._capacity r' = TCPReceiver._capacity r /\
    ByteStream.bytes_written (TCPReceiver.stream_out r') = ByteStream.bytes_written (TCPReceiver.stream_out r) /\
    ByteStream.bytes_read (TCPReceiver.stream_out r') = ByteStream.bytes_written (TCPReceiver.stream_out r).
Proof.
  intros Hr len. pose proof Hr as (_ & _ & ops & st & R & T).
  destruct (Reassembly.available _ _ R) as [Hav Hlt]. pose proof (Reassembly.ref_bound _ _ R) as Hb.
  assert (Hlen : is_u64 len).
  { unfold len, ByteStream.buffer_size, TCPReceiver.stream_out, StreamReassembler.stream_out, is_u64. lia. }
  split; [done|]. destruct (TCPReceiver.read_out_step S isn len r Hlen Hr) as (out & r' & E & Hr' & Hi & Hc & He & _).
  exists out, r'. split; [done|]. split; [done|].
  destruct (Reassembly.read_step _ st len R Hlen) as (sr' & E' & R').
  unfold TCPReceiver.read_out in E. rewrite E' in E. cbn in E. injection E as <- <-.
  assert (Hl : len = Spec.next st - Spec.consumed st) by exact Hav.
  unfold Reassembly.Spec_read in R'. rewrite decide_True in R' by lia. cbn [snd] in R'.
  unfold position, TCPReceiver.stream_out, StreamReassembler.stream_out in *. cbn [TCPReceiver._isn TCPReceiver._reassembler] in *.
  rewrite He, <- (Reassembly.ref_next _ _ R'), <- (Reassembly.ref_consumed _ _ R'), <- (Reassembly.ref_next _ _ R).
  unfold Spec.consume, Spec.next in *. cbn [Spec.assembled Spec.consumed]. split_and!; try done. lia.
Qed.

(** A segment that starts at or before the first missing position and ends after it moves
    the receiver on, if there is room for one byte. *)
Lemma segment_advances S isn seg k r :
  wf isn -> carries S isn seg k -> TCPReceiver.near k r -> TCPReceiver.stream_fits S (TCPReceiver._capacity r) ->
  TCPReceiver.receiving S isn r -> 0 < TCPReceiver._capacity r ->
  ByteStream.bytes_read (TCPReceiver.stream_out r) = ByteStream.bytes_written (TCPReceiver.stream_out r) ->
  k <= position r < k + span seg ->
  exists r', TCPReceiver.segment_received seg r = Ok r' /\ position r < position r'.
Proof.
  intros Hw Hcar Hnear Hfit Hr Hcap Hdrained Hk. pose proof Hr as (Hi & Hc & ops & st & R & T).
  pose proof (Reassembly.ref_cap _ _ R) as Hcap'.
  destruct (TCPReceiver.deliver_step S isn seg k r ops st) as (index & sr' & E & Hidx & R' & T'); try done.
  { by rewrite Hcap', Hc. }
  assert (Hrec : TCPReceiver.segment_received seg r = Ok (TCPReceiver.mk sr' (TCPReceiver._capacity r) (Some isn))).
  { unfold TCPReceiver.segment_received. destruct Hi as [Hi|Hi]; rewrite Hi; [|done].
    unfold position in Hk. rewrite Hi in Hk. destruct Hcar as (Hseq & Hsyn & Hk0 & _).
    assert (k = 0) as -> by lia. rewrite (proj2 Hsyn eq_refl). simpl. by rewrite Hseq, TCPReceiver.wrap_0. }
  eexists. split; [exact Hrec|].
  pose proof (Spec.next_push_le (Buffer.copy (TCPSegment.payload seg)) index (TCPHeader.fin (TCPSegment.header seg)) st) as Hmono.
  unfold position in *. unfold TCPReceiver.stream_out, StreamReassembler.stream_out in *.
  cbn [TCPReceiver._isn TCPReceiver._reassembler].
  rewrite <- (Reassembly.ref_next _ _ R'), <- (Reassembly.ref_ended _ _ R').
  destruct Hi as [Hi|Hi]; rewrite Hi in *; [pose proof (Reassembly.ref_bound _ _ R); destruct (Spec.ended _); lia|].
  rewrite <- (Reassembly.ref_next _ _ R), <- (Reassembly.ref_ended _ _ R), <- (Reassembly.ref_consumed _ _ R) in *.
  pose proof (Reassembly.ref_bound _ _ R) as Hbound.
  destruct (carries_end _ _ _ _ Hcar) as [Hend Hfin]. pose proof (Reassembly.tracks_sound _ _ _ T) as Hsound.
  destruct (Spec.ended st) eqn:Hended.
  { pose proof (Spec.sound_ended _ _ Hsound Hended). case_match; lia. }
  pose proof Hcar as (_ & Hsyn & Hk0 & Hi0 & Hex & _ & Hlast). rewrite <- Hidx in Hi0, Hex, Hlast.
  unfold span, Buffer.copy in *. set (data := Buffer.str (TCPSegment.payload seg)) in *.
  assert (Hsynk : TCPHeader.syn (TCPSegment.header seg) = true -> k = 0) by apply Hsyn.
  destruct (decide (Spec.next st < index + zlen data)) as [Hin|Hout].
  - assert (Spec.next st < Spec.next (Spec.push data index (TCPHeader.fin (TCPSegment.header seg)) st)).
    { apply Spec.push_advances; [lia|unfold Spec.limit; lia|].
      destruct (TCPHeader.syn _); [specialize (Hsynk eq_refl)|]; lia. }
    repeat case_match; lia.
  - destruct (TCPHeader.fin (TCPSegment.header seg)) eqn:Ef; [|destruct (TCPHeader.syn _); lia].
    specialize (Hlast eq_refl).
    assert (Hpos : Spec.next st = index + zlen data)
      by (destruct (TCPHeader.syn _); [specialize (Hsynk eq_refl)|]; lia).
    assert (He : Spec.ended (Spec.push data index true st) = true).
    { unfold Spec.push. cbn [Spec.ended]. rewrite (bool_decide_true (Some _ = Some (Spec.next st))); [by rewrite orb_true_r|].
      f_equal. rewrite <- Hpos. apply to_u64_small. unfold is_u64.
      destruct (Reassembly.available _ _ R). pose proof (Reassembly.ref_bound _ _ R). lia. }
    rewrite He. lia.
Qed.

(** A push never moves a receiver back. *)
Lemma push_never_back isn r st sr' data index fin :
  Reassembly.refines (TCPReceiver._reassembler r) st -> Reassembly.refines sr' (Spec.push data index fin st) ->
  position (TCPReceiver.mk (TCPReceiver._reassembler r) (TCPReceiver._capacity r) (Some isn)) <=
  position (TCPReceiver.mk sr' (TCPReceiver._capacity r) (Some isn)).
Proof.
  intros R R'. pose proof (Spec.next_push_le data index fin st) as Hmono.
  unfold position, TCPReceiver.stream_out, StreamReassembler.stream_out. cbn [TCPReceiver._isn TCPReceiver._reassembler].
  rewrite <- (Reassembly.ref_next _ _ R'), <- (Reassembly.ref_ended _ _ R').
  rewrite <- (Reassembly.ref_next _ _ R), <- (Reassembly.ref_ended _ _ R).
  destruct (Spec.ended st) eqn:He; [|match goal with |- context [if ?b then 1 else 0] => destruct b end; lia].
  assert (He' : Spec.ended (Spec.push data index fin st) = true) by (unfold Spec.push; cbn [Spec.ended]; by rewrite He).
  rewrite He'. lia.
Qed.

Lemma push_never_back_known isn r st sr' data index fin :
  TCPReceiver._isn r = Some isn ->
  Reassembly.refines (TCPReceiver._reassembler r) st -> Reassembly.refines sr' (Spec.push data index fin st) ->
  position r <= position (TCPReceiver.mk sr' (TCPReceiver._capacity r) (Some isn)).
Proof. intros Hi. pose proof (push_never_back isn r st sr' data index fin) as H. destruct r. simpl in *. by rewrite Hi in *. Qed.

(** A delivery never moves the receiver back. *)
Lemma segment_keeps S isn seg k r :
  wf isn -> carries S isn seg k -> TCPReceiver.near k r -> TCPReceiver.stream_fits S (TCPReceiver._capacity r) ->
  TCPReceiver.receiving S isn r ->
  exists r', TCPReceiver.segment_received seg r = Ok r' /\ position r <= position r' /\
    ByteStream.bytes_read (TCPReceiver.stream_out r') = ByteStream.bytes_read (TCPReceiver.stream_out r).
Proof.
  intros Hw Hcar Hnear Hfit Hr. pose proof Hr as (Hi & Hc & ops & st & R & T).
  destruct (TCPReceiver.segment_received_spec S isn seg r Hw) as [(_ & _ & E)|(r' & E & Hd & _)]; try done.
  { left. by exists k. }
  { exists r. done. }
  destruct Hd as (Hrc & Hi' & _ & Hrd & _). exists r'. split_and!; [done| |done].
  destruct (TCPReceiver.deliver_step S isn seg k r ops st) as (index & sr' & Ed & _ & R' & _); try done.
  { by rewrite (Reassembly.ref_cap _ _ R), Hc. }
  destruct Hi as [Hi|Hi].
  - unfold position. rewrite Hi, Hi'. destruct (TCPReceiver.receiving_stream S isn r' Hrc) as (Hw' & _).
    pose proof (Reassembly.ref_bound _ _ R). destruct (ByteStream.input_ended (TCPReceiver.stream_out r')); lia.
  - unfold TCPReceiver.segment_received in E. rewrite Hi, Ed in E. injection E as <-. by eapply push_never_back_known.
Qed.

(** Neither does a segment that occupies no sequence numbers. *)
Lemma bare_keeps S isn seg r r' :
  span seg = 0 -> TCPReceiver.stream_fits S (TCPReceiver._capacity r) -> TCPReceiver.receiving S isn r ->
  TCPReceiver.segment_received seg r = Ok r' -> position r <= position r'.
Proof.
  intros Hspan Hfit (Hi & Hc & ops & st & R & T) E. destruct (TCPReceiver.span_0 seg Hspan) as (Hsyn & _).
  unfold TCPReceiver.segment_received in E. rewrite Hsyn in E. destruct Hi as [Hi|Hi]; rewrite Hi in E.
  - by injection E as <-.
  - destruct (TCPReceiver.deliver_bare_step S isn seg r ops st Hspan Hfit Hc R T) as (sr' & Ed & R').
    rewrite Ed in E. injection E as <-. by eapply push_never_back_known.
Qed.

(** Reading leaves the position alone. *)
Lemma read_keeps S isn len r out r' :
  is_u64 len -> TCPReceiver.receiving S isn r -> TCPReceiver.read_out len r = Ok (out, r') ->
  position r' = position r /\ TCPReceiver._capacity r' = TCPReceiver._capacity r.
Proof.
  intros Hlen Hr E. destruct (TCPReceiver.read_out_step S isn len r Hlen Hr) as (out' & r2 & E2 & _ & Hi & Hc & He & _).
  rewrite E2 in E. injection E as <- <-. split; [|done]. pose proof Hr as (_ & _ & ops & st & R & _).
  destruct (Reassembly.read_step _ st len R Hlen) as (sr' & E' & R').
  unfold TCPReceiver.read_out in E2. rewrite E' in E2. cbn in E2. injection E2 as <- <-.
  unfold position, TCPReceiver.stream_out, StreamReassembler.stream_out in *. cbn [TCPReceiver._isn TCPReceiver._reassembler] in *.
  rewrite He, <- (Reassembly.ref_next _ _ R'), <- (Reassembly.ref_next _ _ R).
  unfold Reassembly.Spec_read. by case_decide.
Qed.

(** ** Live states *)

Abbreviation snd_ n := (SenderSpec.sender (tx n)).
Abbreviation accepted n := (SenderSpec.accepted (tx n)).

Record live (S : bytes) (n : net) : Prop := {
  live_agrees : agrees S n;
  live_honest : TCPSender._receiver_ack (snd_ n) <= position (rx n);
  live_fits : SenderSpec.fits (snd_ n);
  live_room : 0 < TCPReceiver._capacity (rx n);
  live_closed : SenderSpec.closed (snd_ n)
}.

(** The members that an expiry of the timer and the owner's taking of segments leave alone. *)
Definition same_core (s s' : TCPSender.TCPSender) : Prop :=
  TCPSender._isn s' = TCPSender._isn s /\ TCPSender._stream s' = TCPSender._stream s /\
  TCPSender._next_seqno s' = TCPSender._next_seqno s /\ TCPSender._receiver_ack s' = TCPSender._receiver_ack s /\
  TCPSender._outstanding_segments s' = TCPSender._outstanding_segments s /\
  TCPSender._set_syn_flag s' = TCPSender._set_syn_flag s /\ TCPSender._set_fin_flag s' = TCPSender._set_fin_flag s.

Lemma same_core_trans s1 s2 s3 : same_core s1 s2 -> same_core s2 s3 -> same_core s1 s3.
Proof. unfold same_core. intuition congruence. Qed.

Lemma live_drive S n op l :
  live S n -> SenderSpec.allowed op (tx n) -> SenderSpec.perform op (tx n) = Ok l ->
  same_core (snd_ n) (SenderSpec.sender l) -> SenderSpec.accepted l = accepted n ->
  live S (mk l (rx n) (got n)).
Proof.
  intros [Ha Hh Hf Hr Hc] Hop E Hcore Hacc. destruct (drive_agrees S n op Ha Hop) as (n' & S' & E' & Ha').
  simpl in E'. rewrite E in E'. cbn in E'. injection E' as <-.
  destruct Hcore as (Hi & Hst & Hn & Hack & Ho & Hy & Hfi).
  assert (S' = S) as ->.
  { rewrite <- (agrees_sent _ _ Ha), <- (agrees_sent _ _ Ha'). unfold sent, TCPSender.stream_in. simpl. congruence. }
  split; simpl; try done.
  - by rewrite Hack.
  - unfold SenderSpec.fits in *. by rewrite Hst, Hn, Hack, Hy, Hfi.
  - unfold SenderSpec.closed in *. by rewrite Hst, Hfi.
Qed.

Lemma perform_drive op n l :
  SenderSpec.perform op (tx n) = Ok l -> perform (Drive op) n = Ok (mk l (rx n) (got n)).
Proof. intros E. unfold perform. by rewrite E. Qed.

(** Steps of the network in which it meets its obligations. *)
Definition reaches (n n' : net) : Prop := exists ops, runs n ops n'.

Lemma reaches_refl n : reaches n n.
Proof. exists []. constructor. Qed.

Lemma reaches_step n op n' n'' : allowed op n -> perform op n = Ok n' -> reaches n' n'' -> reaches n n''.
Proof. intros Ha E [ops Hr]. exists (op :: ops). by econstructor. Qed.

Lemma reaches_trans n n' n'' : reaches n n' -> reaches n' n'' -> reaches n n''.
Proof. intros [ops Hr] [ops' Hr']. exists (ops ++ ops'). by eapply runs_app. Qed.

Lemma reaches_one n op n' : allowed op n -> perform op n = Ok n' -> reaches n n'.
Proof. intros Ha E. by eapply reaches_step, reaches_refl. Qed.

(** ** A round *)

(** The milliseconds until the timer expires. *)
Definition expiry (n : net) : Z :=
  let t := TCPSender._retransmission_timer (snd_ n) in
  Z.max 0 (RetransmissionTimer._rto t - RetransmissionTimer._accumulate_time t).

Fixpoint take_all (fuel : nat) (n : net) : res net :=
  match fuel with O => Ok n | S fuel' => n ← perform (Drive SenderSpec.OpTakeSegment) n; take_all fuel' n end.

(** The bytes waiting for the receiver's owner. *)
Definition waiting (n : net) : Z := ByteStream.buffer_size (TCPReceiver.stream_out (rx n)).

Definition round (n : net) : res net :=
  n ← perform (Drive SenderSpec.OpFillWindow) n;
  n ← perform (Drive (SenderSpec.OpTick (expiry n))) n;
  n ← take_all (length (TCPSender.segments_out (snd_ n))) n;
  n ← perform (Read (waiting n)) n;
  n ← match TCPSender._outstanding_segments (snd_ n) with [] => Ok n | seg :: _ => perform (Arrive seg) n end;
  n ← perform (Read (waiting n)) n;
  match TCPReceiver.ackno (rx n) with
  | None => Ok n
  | Some a => perform (Drive (SenderSpec.OpAck a (Z.min (TCPReceiver.window_size (rx n)) 65535))) n
  end.

Fixpoint rounds (k : nat) (n : net) : res net :=
  match k with O => Ok n | S k' => n ← round n; rounds k' n end.

(** The steps of a round, each with the obligation of the network met. *)
Definition does (op : Op) (n n' : net) : Prop := allowed op n /\ perform op n = Ok n'.
Fixpoint takes (fuel : nat) (n n' : net) : Prop :=
  match fuel with
  | O => n' = n
  | S fuel' => TCPSender._segments_out (snd_ n) <> [] /\
      exists n1, does (Drive SenderSpec.OpTakeSegment) n n1 /\ takes fuel' n1 n'
  end.
Definition arrives (n n' : net) : Prop :=
  match TCPSender._outstanding_segments (snd_ n) with [] => n' = n | seg :: _ => does (Arrive seg) n n' end.
Definition acknowledges (n n' : net) : Prop :=
  match TCPReceiver.ackno (rx n) with
  | None => n' = n
  | Some a => does (Drive (SenderSpec.OpAck a (Z.min (TCPReceiver.window_size (rx n)) 65535))) n n'
  end.
Inductive round_steps (n n' : net) : Prop :=
  | in_a_round n1 n2 n3 n4 n5 n6 :
      does (Drive SenderSpec.OpFillWindow) n n1 ->
      does (Drive (SenderSpec.OpTick (expiry n1))) n1 n2 ->
      takes (length (TCPSender.segments_out (snd_ n2))) n2 n3 ->
      does (Read (waiting n3)) n3 n4 ->
      arrives n4 n5 ->
      does (Read (waiting n5)) n5 n6 ->
      acknowledges n6 n' ->
      round_steps n n'.
Inductive rounds_steps : nat -> net -> net -> Prop :=
  | no_round n : rounds_steps 0 n n
  | one_round k n n1 n' : round_steps n n1 -> rounds_steps k n1 n' -> rounds_steps (S k) n n'.

Lemma does_reaches op n n' : does op n n' -> reaches n n'.
Proof. intros [Ha E]. by eapply reaches_one. Qed.

Lemma takes_all fuel : forall n n', takes fuel n n' -> take_all fuel n = Ok n' /\ reaches n n'.
Proof.
  induction fuel as [|fuel IH]; intros n n'; cbn [takes take_all].
  - intros ->. split; [done|apply reaches_refl].
  - intros (_ & n1 & [Ha E] & Ht). rewrite E. cbn [mbind res_bind]. destruct (IH _ _ Ht) as [-> R].
    split; [done|]. by eapply reaches_step.
Qed.

(** They are the round, and a run of the network. *)
Lemma round_of_steps n n' : round_steps n n' -> round n = Ok n' /\ reaches n n'.
Proof.
  intros [n1 n2 n3 n4 n5 n6 H1 H2 H3 H4 H5 H6 H7]. destruct (takes_all _ _ _ H3) as [E3 R3]. split.
  - destruct H1 as [_ E1], H2 as [_ E2], H4 as [_ E4], H6 as [_ E6]. unfold round.
    rewrite E1. cbn [mbind res_bind]. rewrite E2. cbn [mbind res_bind]. rewrite E3. cbn [mbind res_bind].
    rewrite E4. cbn [mbind res_bind]. unfold arrives, acknowledges in *.
    assert (E5 : match TCPSender._outstanding_segments (snd_ n4) with [] => Ok n4 | seg :: _ => perform (Arrive seg) n4 end = Ok n5)
      by (destruct (TCPSender._outstanding_segments (snd_ n4)); [by subst|apply H5]).
    rewrite E5. cbn [mbind res_bind]. rewrite E6. cbn [mbind res_bind].
    destruct (TCPReceiver.ackno (rx n6)); [apply H7|by subst].
  - assert (R5 : reaches n4 n5) by (unfold arrives in H5; case_match; [subst; apply reaches_refl|by eapply does_reaches]).
    assert (R7 : reaches n6 n') by (unfold acknowledges in H7; case_match; [by eapply does_reaches|subst; apply reaches_refl]).
    repeat (eapply reaches_trans; [first [eapply does_reaches; eassumption|exact R3|exact R5]|]). exact R7.
Qed.

Lemma rounds_of_steps k n n' : rounds_steps k n n' -> rounds k n = Ok n' /\ reaches n n'.
Proof.
  induction 1 as [n|k n n1 n' Hr _ [IHe IHr]]; [split; [done|apply reaches_refl]|].
  destruct (round_of_steps _ _ Hr) as [E R]. cbn [rounds]. rewrite E. split; [done|]. by eapply reaches_trans.
Qed.

Lemma fill_stage S n :
  live S n -> exists n' S', perform (Drive SenderSpec.OpFillWindow) n = Ok n' /\ live S' n' /\
    allowed (Drive SenderSpec.OpFillWindow) n /\ rx n' = rx n /\ got n' = got n /\ accepted n' = accepted n /\
    ByteStream.input_ended (TCPSender._stream (snd_ n')) = ByteStream.input_ended (TCPSender._stream (snd_ n)) /\
    TCPSender._receiver_ack (snd_ n') = TCPSender._receiver_ack (snd_ n) /\
    TCPSender._set_syn_flag (snd_ n') = true /\ SenderSpec.filled (snd_ n').
Proof.
  intros [Ha Hh Hf Hr Hc]. destruct (drive_agrees S n SenderSpec.OpFillWindow Ha Hf) as (n' & S' & E & Ha').
  pose proof (agr_tx _ _ Ha) as (Hok & _). exists n', S'. split; [done|].
  destruct (SenderSpec.fill_window_spec S (snd_ n) Hok Hf) as (new & sent' & s' & Es & Hext & Hfill).
  pose proof (SenderSpec.fill_window_syn S (snd_ n) s' Hok Hf Es) as Hsyn.
  simpl in E. rewrite Es in E. injection E as <-. split; [split|]; simpl; try done.
  - by rewrite (SenderSpec.ext_ack _ _ _ _ _ Hext).
  - apply Hext.
  - by apply (SenderSpec.ext_closed _ _ _ _ _ Hext).
  - split_and!; try done; apply Hext.
Qed.

Lemma tick_stage S n :
  live S n -> exists n', perform (Drive (SenderSpec.OpTick (expiry n))) n = Ok n' /\ live S n' /\
    same_core (snd_ n) (snd_ n') /\ rx n' = rx n /\ got n' = got n /\ accepted n' = accepted n /\
    (forall seg, head (TCPSender._outstanding_segments (snd_ n)) = Some seg -> seg ∈ TCPSender._segments_out (snd_ n')) /\
    TCPSender._receiver_window_size (snd_ n') = TCPSender._receiver_window_size (snd_ n).
Proof.
  intros Hl. pose proof (agr_tx _ _ (live_agrees _ _ Hl)) as (Hok & _).
  pose proof (SenderSpec.tick_eq S (snd_ n) (expiry n) Hok) as Ht.
  assert (Hexp : forall seg, head (TCPSender._outstanding_segments (snd_ n)) = Some seg ->
    (RetransmissionTimer.check_timeout (expiry n) (TCPSender._retransmission_timer (snd_ n))).1 = true).
  { intros seg Hseg. unfold RetransmissionTimer.check_timeout. rewrite (SenderSpec.ok_running _ _ Hok).
    destruct (TCPSender._outstanding_segments (snd_ n)); [done|]. rewrite bool_decide_true by done.
    destruct (SenderSpec.ok_timer _ _ Hok) as [Ht1 Ht2 _]. unfold expiry.
    rewrite to_u64_small by (unfold is_u64 in *; lia). rewrite bool_decide_true by lia. done. }
  assert (Hdone : forall s', TCPSender.tick (expiry n) (snd_ n) = Ok s' -> same_core (snd_ n) s' ->
    live S (mk (SenderSpec.mk_log s' (accepted n) (SenderSpec.taken (tx n))) (rx n) (got n))).
  { intros s' E Hcore. apply (live_drive S n (SenderSpec.OpTick (expiry n))); try done. simpl. by rewrite E. }
  destruct (RetransmissionTimer.check_timeout _ _) as [[] t] eqn:Ec.
  - destruct Ht as (seg & rest & Ho & Ht). simpl. rewrite Ht. cbn [mbind res_bind]. eexists. split; [done|].
    split; [by apply Hdone|]. simpl. split_and!; try done. intros seg' Hseg'. rewrite Ho in Hseg'. injection Hseg' as <-.
    apply elem_of_app. right. by left.
  - simpl. rewrite Ht. cbn [mbind res_bind]. eexists. split; [done|]. split; [by apply Hdone|].
    split_and!; try done. intros seg' Hseg'. by specialize (Hexp seg' Hseg').
Qed.

Lemma take_stage S fuel : forall n,
  live S n -> (length (TCPSender._segments_out (snd_ n)) = fuel)%nat ->
  exists n', takes fuel n n' /\ live S n' /\ same_core (snd_ n) (snd_ n') /\
    rx n' = rx n /\ got n' = got n /\ accepted n' = accepted n /\
    TCPSender._receiver_window_size (snd_ n') = TCPSender._receiver_window_size (snd_ n) /\
    SenderSpec.taken (tx n') = SenderSpec.taken (tx n) ++ TCPSender._segments_out (snd_ n).
Proof.
  induction fuel as [|fuel IH]; intros n Hl Hlen.
  - exists n. destruct (TCPSender._segments_out (snd_ n)); [|done]. rewrite app_nil_r. split_and!; done.
  - destruct (TCPSender._segments_out (snd_ n)) as [|seg out] eqn:Eo; [done|]. simpl in Hlen.
    assert (E : SenderSpec.perform SenderSpec.OpTakeSegment (tx n) = Ok (SenderSpec.mk_log
      (TCPSender.assign_segments_out out (snd_ n)) (accepted n) (SenderSpec.taken (tx n) ++ [seg]))).
    { simpl. unfold TCPSender.take_segment. by rewrite Eo. }
    assert (Hl1 : live S (mk (SenderSpec.mk_log (TCPSender.assign_segments_out out (snd_ n)) (accepted n)
      (SenderSpec.taken (tx n) ++ [seg])) (rx n) (got n))) by (eapply live_drive; [done| |exact E|done|done]; done).
    destruct (IH _ Hl1) as (n' & E' & Hl' & Hcore & Hrx & Hgot & Hacc & Hwin & Htak); [simpl; lia|].
    exists n'. simpl in Htak, Hcore, Hwin. rewrite <- app_assoc in Htak. split_and!; try done; try apply Hcore.
    cbn [takes]. rewrite Eo. split; [done|]. eexists. split; [split; [|exact (perform_drive _ _ _ E)]|exact E']. done.
Qed.

Lemma read_stage S n :
  live S n -> exists n', perform (Read (waiting n)) n = Ok n' /\ live S n' /\ allowed (Read (waiting n)) n /\
    tx n' = tx n /\ position (rx n') = position (rx n) /\
    ByteStream.bytes_read (TCPReceiver.stream_out (rx n')) = ByteStream.bytes_written (TCPReceiver.stream_out (rx n')).
Proof.
  intros [Ha Hh Hf Hr Hc]. destruct (drain_step S (isn n) (rx n) (agr_rx _ _ Ha)) as (Hlen & out & r' & E & Hr' & Hp & Hi & Hcap & Hw & Hrd).
  destruct (read_agrees S n (waiting n) Ha Hlen) as (n' & E' & Ha'). exists n'. split; [done|].
  simpl in E'. unfold waiting in E'. rewrite E in E'. injection E' as <-.
  split; [split; simpl; try done; congruence|]. split_and!; try done. simpl. congruence.
Qed.

(** The receiver is not ahead of the sender. *)
Lemma position_bounds S n :
  agrees S n -> 0 <= position (rx n) <= zlen S + 1 + (if TCPSender._set_fin_flag (snd_ n) then 1 else 0).
Proof.
  intros Ha. destruct (TCPReceiver.receiving_stream _ _ _ (agr_rx _ _ Ha)) as (Hrd & Hw & _).
  pose proof (agr_closing _ _ Ha) as Hc. unfold TCPReceiver.closing in Hc. unfold position.
  destruct (TCPReceiver._isn (rx n)); [|destruct (TCPSender._set_fin_flag _); pose proof (zlen_nonneg S); lia].
  destruct (ByteStream.input_ended _).
  - rewrite Hc by apply orb_true_r. lia.
  - destruct (TCPSender._set_fin_flag _); lia.
Qed.

Lemma next_seqno_eq S n :
  agrees S n -> TCPSender._set_syn_flag (snd_ n) = true ->
  TCPSender._next_seqno (snd_ n) = 1 + zlen S + (if TCPSender._set_fin_flag (snd_ n) then 1 else 0).
Proof. intros [(Hok & _) _ _ _ _] Hs. pose proof (SenderSpec.ok_next _ _ Hok) as Hn. rewrite Hs in Hn. lia. Qed.

Lemma arrive_stage S n seg rest :
  live S n -> TCPSender._set_syn_flag (snd_ n) = true ->
  TCPSender._outstanding_segments (snd_ n) = seg :: rest -> seg ∈ SenderSpec.taken (tx n) ->
  ByteStream.bytes_read (TCPReceiver.stream_out (rx n)) = ByteStream.bytes_written (TCPReceiver.stream_out (rx n)) ->
  exists n', perform (Arrive seg) n = Ok n' /\ allowed (Arrive seg) n /\ live S n' /\ tx n' = tx n /\
    position (rx n) <= position (rx n') /\
    (position (rx n) < TCPSender._receiver_ack (snd_ n) + span seg -> position (rx n) < position (rx n')).
Proof.
  intros [Ha Hh Hf Hr Hc] Hsyn Ho Hin Hdr. pose proof (agrees_fits _ _ Ha) as Hfits.
  pose proof Ha as [(Hok & _ & _) Hrx _ _ _]. pose proof (SenderSpec.ok_isn _ _ Hok) as Hw. fold (isn n) in Hw.
  pose proof (SenderSpec.ok_outstanding _ _ Hok) as Hch. rewrite Ho in Hch.
  inversion Hch as [|? ? ? ? [Hcar _] Hsp _]; subst. set (k := TCPSender._receiver_ack (snd_ n)) in *. fold (isn n) in Hcar.
  assert (Hnear : TCPReceiver.near k (rx n)).
  { destruct (TCPReceiver.receiving_stream _ _ _ Hrx) as (Hrd & Hbw & _ & _).
    pose proof (next_seqno_eq _ _ Ha Hsyn) as Hn. pose proof (SenderSpec.ok_flight _ _ Hok) as Hfl.
    pose proof (SenderSpec.ok_ack _ _ Hok) as Hk0. fold k in Hfl, Hk0. unfold TCPReceiver.near, position in *.
    destruct (TCPReceiver._isn (rx n)), (ByteStream.input_ended (TCPReceiver.stream_out (rx n))),
      (TCPSender._set_fin_flag (snd_ n)); lia. }
  assert (Ht : timely seg n) by (left; exists k; by rewrite (agrees_sent _ _ Ha)).
  destruct (arrive_agrees S n seg Ha Hin Ht) as (n' & E & Ha'). exists n'. split; [done|]. split; [done|].
  destruct (segment_keeps S (isn n) seg k (rx n) Hw Hcar Hnear Hfits Hrx) as (r' & Er & Hle & _).
  simpl in E. rewrite Er in E. injection E as <-. simpl.
  assert (Hcap : 0 < TCPReceiver._capacity r').
  { destruct (TCPReceiver.segment_received_spec S (isn n) seg (rx n) Hw) as [(_ & _ & E)|(r2 & E & Hd & _)]; try done.
    - left. by exists k.
    - rewrite Er in E. by injection E as ->.
    - rewrite Er in E. injection E as <-. destruct Hd as (_ & _ & Hcap & _). by rewrite Hcap. }
  split; [split; simpl; try done; fold k; lia|]. split_and!; [done|done|]. intros Hlt.
  destruct (segment_advances S (isn n) seg k (rx n)) as (r2 & E2 & Hadv); try done. rewrite Er in E2. by injection E2 as ->.
Qed.

Lemma ack_stage S n :
  live S n -> TCPSender._set_syn_flag (snd_ n) = true -> TCPReceiver._isn (rx n) <> None ->
  exists a n', TCPReceiver.ackno (rx n) = Some a /\
    let op := Drive (SenderSpec.OpAck a (Z.min (TCPReceiver.window_size (rx n)) 65535)) in
    perform op n = Ok n' /\ allowed op n /\ live S n' /\ rx n' = rx n /\ got n' = got n /\ accepted n' = accepted n /\
    TCPSender._stream (snd_ n') = TCPSender._stream (snd_ n) /\
    TCPSender._receiver_ack (snd_ n) <= TCPSender._receiver_ack (snd_ n') /\
    (forall seg rest, TCPSender._outstanding_segments (snd_ n) = seg :: rest ->
       TCPSender._receiver_ack (snd_ n) + span seg <= position (rx n) ->
       TCPSender._receiver_ack (snd_ n) < TCPSender._receiver_ack (snd_ n')) /\
    (TCPSender._outstanding_segments (snd_ n) = [] -> TCPSender._outstanding_segments (snd_ n') = []).
Proof.
  intros [Ha Hh Hf Hr Hc] Hsyn Hi. pose proof Ha as [(Hok & _ & _) Hrx _ _ _].
  pose proof (position_bounds _ _ Ha) as Hpos. pose proof (next_seqno_eq _ _ Ha Hsyn) as Hnext.
  pose proof (SenderSpec.ok_far _ _ Hok) as Hfar. pose proof (SenderSpec.ok_flight _ _ Hok) as Hfl.
  pose proof (SenderSpec.ok_ack _ _ Hok) as Hack0.
  assert (Eack : TCPReceiver.ackno (rx n) = Some (wrap (position (rx n)) (isn n))).
  { pose proof Hrx as [[Hn|Hn] _]; [done|]. unfold TCPReceiver.ackno, position in *. rewrite Hn in *.
    by rewrite to_u64_small by (unfold is_u64; lia). }
  exists (wrap (position (rx n)) (isn n)). set (a := wrap (position (rx n)) (isn n)) in *.
  set (w := Z.min _ 65535).
  assert (Hwin : is_u16 w).
  { unfold w, TCPReceiver.window_size, ByteStream.remaining_capacity. pose proof (is_u64_to_u64 (ByteStream.capacity
      (TCPReceiver.stream_out (rx n)) - zlen (ByteStream.buffer (TCPReceiver.stream_out (rx n))))). unfold is_u64, is_u16 in *. lia. }
  assert (Hu : unwrap a (isn n) (TCPSender._next_seqno (snd_ n)) = position (rx n)) by (apply unwrap_exact_near; lia).
  assert (Hacc : SenderSpec.acceptable a (snd_ n)) by (unfold SenderSpec.acceptable; fold (isn n); rewrite Hu; lia).
  destruct (SenderSpec.ack_received_eq S (snd_ n) a w Hok Hacc) as (popped & rest & a' & E & Hq & H1 & H2 & Hle & Hhd).
  fold (isn n) in Hle, Hhd. rewrite Hu in Hle, Hhd. pose proof (SenderSpec.chain_le _ _ _ _ _ _ H1) as Hmono.
  destruct (drive_agrees S n (SenderSpec.OpAck a w) Ha Hwin) as (n' & S' & E' & Ha'). exists n'.
  split; [done|]. simpl. simpl in E'. rewrite E in E'. injection E' as <-.
  assert (S' = S) as -> by (rewrite <- (agrees_sent _ _ Ha), <- (agrees_sent _ _ Ha'); done).
  rewrite E. split; [done|]. split; [done|]. split; [split; simpl; try done|].
  - unfold SenderSpec.fits in *. simpl. lia.
  - split_and!; try done.
    + intros seg rest' Ho Hend. simpl. rewrite Hq in Ho. destruct popped as [|x popped].
      * simpl in Ho. subst rest. inversion H1; subst. specialize (Hhd seg eq_refl). lia.
      * by apply (SenderSpec.chain_nonempty _ _ _ _ _ _ H1).
    + simpl. intros Ho. rewrite Hq in Ho. by apply app_nil in Ho as [_ ->].
Qed.

(** Everything has arrived: the receiver's owner has all the sender's owner wrote, the end of
    the stream too if it was announced, and the sender has nothing left to send or to wait for. *)
Definition complete (n : net) : Prop :=
  got n = accepted n /\
  (ByteStream.input_ended (TCPSender._stream (snd_ n)) = true ->
     ByteStream.input_ended (TCPReceiver.stream_out (rx n)) = true) /\
  ByteStream.buffer (TCPSender._stream (snd_ n)) = [] /\ TCPSender._outstanding_segments (snd_ n) = [].

(** How far both ends are from the end of the stream. *)
Definition gap (n : net) : Z := 2 * (zlen (accepted n) + 2) - position (rx n) - TCPSender._receiver_ack (snd_ n).

Lemma gap_nonneg S n : live S n -> 0 <= gap n.
Proof.
  intros Hl. pose proof (live_agrees _ _ Hl) as Ha. pose proof Ha as [(Hok & Hacc & _) _ _ _ _].
  pose proof (position_bounds _ _ Ha). pose proof (SenderSpec.ok_next _ _ Hok).
  pose proof (SenderSpec.chain_le _ _ _ _ _ _ (SenderSpec.ok_outstanding _ _ Hok)).
  unfold gap. rewrite Hacc, zlen_app. pose proof (zlen_nonneg (ByteStream.buffer (TCPSender._stream (snd_ n)))).
  destruct (TCPSender._set_fin_flag (snd_ n)), (TCPSender._set_syn_flag (snd_ n)); lia.
Qed.

(** With nothing outstanding, nothing to send and everything read, the job is done. *)
Lemma idle_complete S n :
  live S n -> TCPSender._set_syn_flag (snd_ n) = true -> TCPSender._outstanding_segments (snd_ n) = [] ->
  ByteStream.buffer (TCPSender._stream (snd_ n)) = [] ->
  (ByteStream.input_ended (TCPSender._stream (snd_ n)) = true -> TCPSender._set_fin_flag (snd_ n) = true) ->
  ByteStream.bytes_read (TCPReceiver.stream_out (rx n)) = ByteStream.bytes_written (TCPReceiver.stream_out (rx n)) ->
  complete n.
Proof.
  intros Hl Hsyn Ho Hb Hend Hdr. pose proof (live_agrees _ _ Hl) as Ha. pose proof Ha as [(Hok & Hacc & _) Hrx _ _ Hgot].
  pose proof (live_honest _ _ Hl) as Hh. pose proof (next_seqno_eq _ _ Ha Hsyn) as Hnext.
  pose proof (SenderSpec.ok_outstanding _ _ Hok) as Hch. rewrite Ho in Hch. inversion Hch; subst.
  destruct (TCPReceiver.receiving_stream _ _ _ Hrx) as (Hrd & Hbw & _ & He). pose proof (zlen_nonneg S).
  unfold position in Hh. destruct (TCPReceiver._isn (rx n)); [|destruct (TCPSender._set_fin_flag (snd_ n)); lia].
  assert (Hall : ByteStream.bytes_written (TCPReceiver.stream_out (rx n)) = zlen S).
  { destruct (ByteStream.input_ended (TCPReceiver.stream_out (rx n))); [by apply He|].
    destruct (TCPSender._set_fin_flag (snd_ n)); lia. }
  split_and!; [| |done|done].
  - rewrite Hgot, Hdr, Hall, Hacc, Hb, app_nil_r. apply take_ge. unfold zlen. lia.
  - intros Hie. rewrite (Hend Hie) in *. destruct (ByteStream.input_ended (TCPReceiver.stream_out (rx n))); [done|lia].
Qed.

(** When [fill_window] leaves nothing outstanding, there is nothing left to send. *)
Lemma filled_idle S n :
  live S n -> SenderSpec.filled (snd_ n) -> TCPSender._outstanding_segments (snd_ n) = [] ->
  ByteStream.buffer (TCPSender._stream (snd_ n)) = [] /\
  (ByteStream.input_ended (TCPSender._stream (snd_ n)) = true -> TCPSender._set_fin_flag (snd_ n) = true).
Proof.
  intros Hl Hf Ho. pose proof (agr_tx _ _ (live_agrees _ _ Hl)) as (Hok & _).
  pose proof (SenderSpec.ok_outstanding _ _ Hok) as Hch. rewrite Ho in Hch. inversion Hch; subst.
  pose proof (SenderSpec.effective_window_range _ _ Hok). destruct Hf as [Hfin|[Hw|[Hb He]]].
  - destruct (live_closed _ _ Hl Hfin). done.
  - rewrite (SenderSpec.in_flight_eq _ _ Hok) in Hw. lia.
  - split; [done|congruence].
Qed.

Lemma isn_known r : 0 < position r -> TCPReceiver._isn r <> None.
Proof. unfold position. destruct (TCPReceiver._isn r); [done|lia]. Qed.

(** The last part of a round, from the state in which the owner of the receiver has read. *)
Lemma arrival_part S n :
  live S n -> TCPSender._set_syn_flag (snd_ n) = true ->
  ByteStream.bytes_read (TCPReceiver.stream_out (rx n)) = ByteStream.bytes_written (TCPReceiver.stream_out (rx n)) ->
  (forall seg, head (TCPSender._outstanding_segments (snd_ n)) = Some seg -> seg ∈ SenderSpec.taken (tx n)) ->
  (TCPSender._outstanding_segments (snd_ n) = [] -> ByteStream.buffer (TCPSender._stream (snd_ n)) = [] /\
     (ByteStream.input_ended (TCPSender._stream (snd_ n)) = true -> TCPSender._set_fin_flag (snd_ n) = true)) ->
  exists n1 n2 n',
    arrives n n1 /\ does (Read (waiting n1)) n1 n2 /\ acknowledges n2 n' /\ live S n' /\ accepted n' = accepted n /\ TCPSender._stream (snd_ n') = TCPSender._stream (snd_ n) /\
    (complete n' \/ gap n' < gap n).
Proof.
  intros Hl Hsyn Hdr Hin Hidle. pose proof (agr_tx _ _ (live_agrees _ _ Hl)) as (Hok & _).
  unfold arrives, acknowledges. destruct (TCPSender._outstanding_segments (snd_ n)) as [|seg rest] eqn:Ho.
  - assert (Hp : 0 < position (rx n)).
    { pose proof (SenderSpec.ok_outstanding _ _ Hok) as Hch. rewrite Ho in Hch. inversion Hch; subst.
      pose proof (live_honest _ _ Hl). pose proof (next_seqno_eq _ _ (live_agrees _ _ Hl) Hsyn). pose proof (zlen_nonneg S).
      destruct (TCPSender._set_fin_flag (snd_ n)); lia. }
    destruct (read_stage S n Hl) as (n2 & E2 & Hl2 & Ha2 & Htx2 & Hp2 & Hd2).
    destruct (ack_stage S n2 Hl2) as (a & n' & Ea & E' & Ha' & Hl' & Hrx' & Hg' & Hacc' & Hst' & _ & _ & Ho');
      [by rewrite Htx2|apply isn_known; lia|].
    exists n, n2, n'. rewrite Ea. split_and!; try done.
    + by rewrite Hacc', Htx2.
    + by rewrite Hst', Htx2.
    + left. destruct (Hidle eq_refl) as [Hb Hend]. assert (Hcomp : complete n2).
      { apply (idle_complete S); rewrite ?Htx2; done. }
      destruct Hcomp as (C1 & C2 & C3 & C4). unfold complete. rewrite Hg', Hacc', Hrx', Hst'. auto.
  - destruct (arrive_stage S n seg rest Hl Hsyn Ho (Hin seg eq_refl) Hdr) as (n1 & E1 & Ha1 & Hl1 & Htx1 & Hle1 & Hlt1).
    destruct (read_stage S n1 Hl1) as (n2 & E2 & Hl2 & Ha2 & Htx2 & Hp2 & Hd2).
    pose proof (SenderSpec.ok_outstanding _ _ Hok) as Hch. rewrite Ho in Hch. inversion Hch as [|? ? ? ? _ Hsp _]; subst.
    pose proof (SenderSpec.ok_ack _ _ Hok) as Hk0. pose proof (position_bounds _ _ (live_agrees _ _ Hl)).
    assert (Hp : 0 < position (rx n2)) by lia.
    destruct (ack_stage S n2 Hl2) as (a & n' & Ea & E' & Ha' & Hl' & Hrx' & Hg' & Hacc' & Hst' & Hmono & Hup & _);
      [by rewrite Htx2, Htx1|by apply isn_known|].
    exists n1, n2, n'. rewrite Ea. split_and!; try done.
    + by rewrite Hacc', Htx2, Htx1.
    + by rewrite Hst', Htx2, Htx1.
    + right. specialize (Hup seg rest). rewrite Htx2, Htx1 in Hup, Hmono. specialize (Hup Ho).
      unfold gap. rewrite Hacc', Hrx', Htx2, Htx1. lia.
Qed.

Lemma round_spec S n :
  live S n -> exists n' S', round_steps n n' /\ live S' n' /\ accepted n' = accepted n /\
    ByteStream.input_ended (TCPSender._stream (snd_ n')) = ByteStream.input_ended (TCPSender._stream (snd_ n)) /\
    (complete n' \/ gap n' < gap n).
Proof.
  intros Hl. destruct (fill_stage S n Hl) as (n1 & S1 & E1 & Hl1 & Ha1 & Hrx1 & _ & Hacc1 & Hie1 & Hack1 & Hsyn1 & Hfill1).
  destruct (tick_stage S1 n1 Hl1) as (n2 & E2 & Hl2 & C2 & Hrx2 & _ & Hacc2 & Hout2 & _).
  destruct (take_stage S1 _ n2 Hl2 eq_refl) as (n3 & E3 & Hl3 & C3 & Hrx3 & _ & Hacc3 & _ & Htak3).
  destruct (read_stage S1 n3 Hl3) as (n4 & E4 & Hl4 & Ha4 & Htx4 & Hp4 & Hd4).
  pose proof (same_core_trans _ _ _ C2 C3) as C. rewrite <- Htx4 in C.
  destruct C as (_ & Cst & _ & Cack & Co & Csyn & Cfin).
  destruct (arrival_part S1 n4 Hl4) as (n5 & n6 & n' & E5 & E6 & E7 & Hl' & Hacc' & Hst' & Hprog); [congruence|done| | |].
  - intros seg Hseg. rewrite Co in Hseg. rewrite Htx4, Htak3. apply elem_of_app. right. by apply Hout2.
  - rewrite Co, Cst, Cfin. by apply (filled_idle S1).
  - exists n', S1. split_and!; try done.
    + exists n1 n2 n3 n4 n5 n6; done.
    + congruence.
    + rewrite Hst', Cst. congruence.
    + destruct Hprog as [?|Hlt]; [by left|right]. unfold gap in *.
      rewrite Hacc', Hp4, Cack, Hrx3, Hrx2, Hrx1, Hack1 in *. rewrite Htx4, Hacc3, Hacc2, Hacc1 in *. exact Hlt.
Qed.

Lemma rounds_complete g : forall S n,
  live S n -> gap n < Z.of_nat g -> exists k n', (k <= g)%nat /\ rounds_steps k n n' /\
    accepted n' = accepted n /\
    ByteStream.input_ended (TCPSender._stream (snd_ n')) = ByteStream.input_ended (TCPSender._stream (snd_ n)) /\ complete n'.
Proof.
  induction g as [|g IH]; intros S n Hl Hg; [pose proof (gap_nonneg _ _ Hl); lia|].
  destruct (round_spec S n Hl) as (n1 & S1 & E1 & Hl1 & Hacc1 & Hie1 & [Hc|Hlt]).
  - exists 1%nat, n1. split_and!; try done; [lia|]. econstructor; [exact E1|constructor].
  - destruct (IH S1 n1 Hl1) as (k & n' & Hk & E & Hacc & Hie & Hc); [lia|].
    exists (Datatypes.S k), n'. split_and!; try done; try congruence; [lia|]. by econstructor.
Qed.

(** ** Genuine runs *)

(** Acknowledgments carry a position that the receiver has reached, not one that is half of the
    sequence space old, and the owner of the sender does not write after ending its input. *)
Definition genuine (op : Op) (n : net) : Prop :=
  allowed op n /\
  match op with
  | Drive (SenderSpec.OpAck a _) =>
      exists k, a = wrap k (isn n) /\ 0 <= k <= position (rx n) /\ TCPSender._next_seqno (snd_ n) - k < 2 ^ 31
  | Drive (SenderSpec.OpWrite _) => ByteStream.input_ended (TCPSender._stream (snd_ n)) = false
  | _ => True
  end.

Definition honest (n : net) : Prop :=
  net_ok n /\ TCPSender._receiver_ack (snd_ n) <= position (rx n) /\ SenderSpec.closed (snd_ n) /\
  0 < TCPReceiver._capacity (rx n).

Lemma drive_honest S op n n' :
  agrees S n -> genuine (Drive op) n -> TCPSender._receiver_ack (snd_ n) <= position (rx n) ->
  SenderSpec.closed (snd_ n) -> perform (Drive op) n = Ok n' ->
  TCPSender._receiver_ack (snd_ n') <= position (rx n) /\ SenderSpec.closed (snd_ n').
Proof.
  intros Ha [Hop Hgen] Hh Hc E. pose proof (agr_tx _ _ Ha) as (Hok & _).
  destruct op as [data| | |a win|ms| |]; simpl in Hop, Hgen, E.
  - unfold TCPSender.write in E. destruct (ByteStream.write data _) as [[k stream]|f]; [|done]. injection E as <-.
    split; [done|]. intros Hf. destruct (Hc Hf). congruence.
  - injection E as <-. split; [done|]. intros Hf. by destruct (Hc Hf).
  - destruct (SenderSpec.fill_window_spec S (snd_ n) Hok Hop) as (new & S' & s' & Es & Hext & _).
    rewrite Es in E. injection E as <-. simpl. rewrite (SenderSpec.ext_ack _ _ _ _ _ Hext). split; [done|].
    by apply (SenderSpec.ext_closed _ _ _ _ _ Hext).
  - injection E as <-. simpl. destruct (decide (SenderSpec.acceptable a (snd_ n))) as [Hacc|Hacc].
    + destruct (SenderSpec.ack_received_eq S (snd_ n) a win Hok Hacc) as (popped & rest & a' & -> & _ & _ & _ & Hle & _).
      split; [|done]. simpl. destruct Hgen as (k & -> & Hk & Hnear). fold (isn n) in Hle.
      pose proof (position_bounds _ _ Ha). pose proof (agrees_size _ _ Ha). pose proof (SenderSpec.ok_far _ _ Hok).
      pose proof (SenderSpec.ok_next _ _ Hok). pose proof (zlen_nonneg S).
      rewrite unwrap_exact_near in Hle;
        destruct (TCPSender._set_fin_flag (snd_ n)), (TCPSender._set_syn_flag (snd_ n)); lia.
    + unfold TCPSender.ack_received. unfold SenderSpec.acceptable in Hacc. by rewrite decide_True by lia.
  - pose proof (SenderSpec.tick_eq S (snd_ n) ms Hok) as Ht. destruct (RetransmissionTimer.check_timeout _ _) as [[] t].
    + destruct Ht as (seg & rest & _ & Ht). rewrite Ht in E. by injection E as <-.
    + rewrite Ht in E. by injection E as <-.
  - by injection E as <-.
  - unfold TCPSender.take_segment in E. destruct (TCPSender._segments_out (snd_ n)); by injection E as <-.
Qed.

Lemma genuine_ok op n : honest n -> genuine op n -> exists n', perform op n = Ok n' /\ honest n'.
Proof.
  intros ([S Ha] & Hh & Hc & Hr) Hgen. destruct (net_perform_ok op n (ex_intro _ S Ha) (proj1 Hgen)) as (n' & E & Hok').
  exists n'. split; [done|]. split; [done|]. destruct op as [op|seg|len].
  - destruct (drive_honest S op n n' Ha Hgen Hh Hc E) as [Hh' Hc']. simpl in E.
    destruct (SenderSpec.perform op (tx n)); [|done]. by injection E as <-.
  - simpl in E. destruct (TCPReceiver.segment_received seg (rx n)) as [r'|] eqn:Er; [|done]. injection E as <-. simpl.
    pose proof (agrees_fits _ _ Ha) as Hfits. pose proof Ha as [(Hok & _ & _) Hrx _ _ _].
    pose proof (SenderSpec.ok_isn _ _ Hok) as Hw. fold (isn n) in Hw. destruct Hgen as [[_ Ht] _].
    unfold timely in Ht. rewrite (agrees_sent _ _ Ha) in Ht.
    assert (Hcap : TCPReceiver._capacity r' = TCPReceiver._capacity (rx n)).
    { destruct (TCPReceiver.segment_received_spec S (isn n) seg (rx n) Hw Ht Hfits Hrx) as [(_ & _ & E)|(r2 & E & Hd & _)].
      - rewrite Er in E. by injection E as ->.
      - rewrite Er in E. injection E as <-. by destruct Hd as (_ & _ & ? & _). }
    rewrite Hcap. split_and!; [|done|done]. destruct Ht as [(k & Hcar & Hnear)|Hspan].
    + destruct (segment_keeps S (isn n) seg k (rx n) Hw Hcar Hnear Hfits Hrx) as (r2 & E2 & Hle & _).
      rewrite Er in E2. injection E2 as <-. lia.
    + pose proof (bare_keeps S (isn n) seg (rx n) r' Hspan Hfits Hrx Er). lia.
  - simpl in E. destruct (TCPReceiver.read_out len (rx n)) as [[out r']|] eqn:Er; [|done]. injection E as <-. simpl.
    destruct (read_keeps S (isn n) len (rx n) out r' (proj1 Hgen) (agr_rx _ _ Ha) Er) as [-> ->]. done.
Qed.

(** The network with genuine acknowledgments. *)
Definition genuine_machine : Machine net Op :=
  {| step := perform; state_ok := honest; op_ok := genuine; step_ok := genuine_ok |}.

Lemma initial_honest capacity rto fixed_isn random rcv_capacity :
  SenderSpec.config_ok capacity rto fixed_isn random -> 0 < rcv_capacity <= 2 ^ 60 ->
  honest (initial capacity rto fixed_isn random rcv_capacity).
Proof. intros Hc Hr. split; [apply net_initial_ok; [done|lia]|]. split_and!; [done|done|simpl; lia]. Qed.

(** From such a state, rounds deliver everything. *)
Lemma honest_rounds n :
  honest n -> SenderSpec.fits (snd_ n) ->
  exists k n', Z.of_nat k <= 2 * zlen (accepted n) + 5 /\ rounds_steps k n n' /\ got n' = accepted n /\
    (ByteStream.input_ended (TCPSender.stream_in (snd_ n)) = true ->
       ByteStream.input_ended (TCPReceiver.stream_out (rx n')) = true) /\
    TCPSender.bytes_in_flight (snd_ n') = 0.
Proof.
  intros ([S Ha] & Hh & Hcl & Hcap) Hf. assert (Hl : live S n) by done.
  pose proof (gap_nonneg _ _ Hl) as Hg.
  destruct (rounds_complete (Z.to_nat (gap n + 1)) S n Hl) as (k & n' & Hk & E & Hacc & Hie & C1 & C2 & C3 & C4); [lia|].
  exists k, n'. pose proof (position_bounds _ _ Ha). pose proof (agr_tx _ _ Ha) as (Hok & _).
  pose proof (SenderSpec.ok_ack _ _ Hok). split_and!; try done.
  - unfold gap in *. lia.
  - congruence.
  - intros He. apply C2. rewrite Hie. exact He.
  - destruct (rounds_of_steps _ _ _ E) as [_ [ops' R]].
    assert (Hn' : net_ok n') by (apply (runs_state_ok _ _ _ R); by exists S).
    destruct Hn' as [S' [(Hok' & _) _ _ _ _]]. rewrite (SenderSpec.in_flight_eq _ _ Hok').
    pose proof (SenderSpec.ok_outstanding _ _ Hok') as Hch. rewrite C4 in Hch. inversion Hch; subst. lia.
Qed.

(** ** Properties *)


(** A session in which the segment with the data and the end of the stream is lost. *)
Definition lossy : list Op :=
  [Drive SenderSpec.OpFillWindow; Drive SenderSpec.OpTakeSegment; Arrive seg_syn;
   Drive (SenderSpec.OpWrite [Byte.x61]); Drive SenderSpec.OpEndInput;
   Drive (SenderSpec.OpAck (WrappingInt32.mk 6) 10); Drive SenderSpec.OpFillWindow; Drive SenderSpec.OpTakeSegment].

Ltac genuine_step :=
  eapply (@runs_cons _ _ genuine_machine);
  [split; [first [exact I|vm_compute; split; congruence]|first [exact I|reflexivity]]|vm_compute; reflexivity|].

Lemma lossy_runs :
  exists n, @runs _ _ genuine_machine (initial 100 1000 (Some (WrappingInt32.mk 5)) 0 10) lossy n /\
    SenderSpec.fits (snd_ n) /\ accepted n = [Byte.x61] /\ got n = [].
Proof.
  eexists. split; [unfold lossy|].
  - do 2 genuine_step.
    eapply (@runs_cons _ _ genuine_machine); [split; [|exact I]|vm_compute; reflexivity|].
    { split; [vm_compute; repeat constructor|left; exists 0; vm_compute; repeat split; congruence]. }
    do 2 genuine_step.
    eapply (@runs_cons _ _ genuine_machine); [split; [vm_compute; split; congruence|exists 1]|vm_compute; reflexivity|].
    { vm_compute. repeat split; congruence. }
    do 2 genuine_step. apply (@runs_nil _ _ genuine_machine).
  - vm_compute. repeat split; congruence.
Defined.


End Progress.
