(* ===== verification/Wire.v ===== *)
(** * A sender and a receiver joined by datagrams

    [Network] lets segments travel as objects.  Here they travel as bytes, as in the program:
    what the owner of the sender takes from [segments_out()] goes through
    [TCPSegment::serialize] into a datagram, and what reaches the receiver comes out of
    [TCPSegment::parse]; the network may also damage datagrams in a way that the checksum
    reveals, and any bytes at all may reach the sender as acknowledgments.  Every run of this
    system is matched by a run of [Network], so everything proved there holds here. *)

From S2P Require Import Prelude ByteStream WrappingIntegers Buffer Parser Checksum TCPHeader TCPSegment.
From S2P Require Import StreamReassembler ReassemblerSpec SegmentSpec TCPReceiver.
From S2P Require Import TCPSender SenderSpec Network.

Module Wire.

Import SegmentSpec Parser.

(** The two ends, what the reader has got, and the datagrams sent so far. *)
Record wire : Set := mk {
  tx : SenderSpec.log;
  rx : TCPReceiver.TCPReceiver;
  got : bytes;
  link : list bytes
}.

(** The same system with segments instead of datagrams. *)
Definition segments (w : wire) : Network.net := Network.mk (tx w) (rx w) (got w).

Inductive Op : Set :=
  | Drive (op : SenderSpec.Op)
  | Transmit
  | Receive (datagram : bytes)
  | Hear (datagram : bytes)
  | Read (len : Z).

Section Datagrams.
(** The part of the checksum that comes from the datagram layer. *)
Context (pseudo : Z).

Definition encode (seg : TCPSegment.TCPSegment) : res bytes :=
  bl ← TCPSegment.serialize pseudo seg; Ok (BufferList.concatenate bl).
Definition decode (d : bytes) : res (ParseResult * TCPSegment.TCPSegment) :=
  TCPSegment.parse (Buffer.of_string d) pseudo TCPSegment.default_segment.

(** A datagram that does not parse is dropped; the sender looks at acknowledgments only. *)
Definition perform (op : Op) (w : wire) : res wire :=
  match op with
  | Drive op => l ← SenderSpec.perform op (tx w); Ok (mk l (rx w) (got w) (link w))
  | Transmit =>
      match TCPSender.segments_out (SenderSpec.sender (tx w)) with
      | [] => Ok w
      | seg :: _ =>
          l ← SenderSpec.perform SenderSpec.OpTakeSegment (tx w);
          d ← encode seg;
          Ok (mk l (rx w) (got w) (link w ++ [d]))
      end
  | Receive d =>
      '(r, seg) ← decode d;
      if decide (r = NoError) then r ← TCPReceiver.segment_received seg (rx w); Ok (mk (tx w) r (got w) (link w))
      else Ok w
  | Hear d =>
      '(r, seg) ← decode d;
      let h := TCPSegment.header seg in
      if decide (r = NoError /\ TCPHeader.ack h = true) then
        l ← SenderSpec.perform (SenderSpec.OpAck (TCPHeader.ackno h) (TCPHeader.win h)) (tx w);
        Ok (mk l (rx w) (got w) (link w))
      else Ok w
  | Read len => '(out, r) ← TCPReceiver.read_out len (rx w); Ok (mk (tx w) r (got w ++ out) (link w))
  end.

(** A damaged datagram: its checksum is wrong. *)
Definition damaged (d : bytes) : Prop :=
  InternetChecksum.value (InternetChecksum.add d (InternetChecksum.construct pseudo)) <> Ok 0.

(** The network delivers to the receiver what was sent, not half a sequence space late, or
    something damaged. *)
Definition in_time (d : bytes) (w : wire) : Prop :=
  forall seg, decode d = Ok (NoError, seg) -> Network.timely seg (segments w).

Definition allowed (op : Op) (w : wire) : Prop :=
  match op with
  | Drive (SenderSpec.OpAck _ _) | Drive SenderSpec.OpTakeSegment => False
  | Drive op => SenderSpec.allowed op (tx w)
  | Transmit => True
  | Receive d => zlen d < 2 ^ 64 /\ (d ∈ link w /\ in_time d w \/ damaged d)
  | Hear d => zlen d < 2 ^ 64
  | Read len => is_u64 len
  end.

(** ** Encoding and decoding *)

(** The parts of a segment that matter to the receiver. *)
Definition alike (seg seg' : TCPSegment.TCPSegment) : Prop :=
  let h := TCPSegment.header seg in let h' := TCPSegment.header seg' in
  TCPHeader.seqno h' = TCPHeader.seqno h /\ TCPHeader.syn h' = TCPHeader.syn h /\ TCPHeader.fin h' = TCPHeader.fin h /\
  Buffer.str (TCPSegment.payload seg') = Buffer.str (TCPSegment.payload seg).

Lemma segment_received_alike seg seg' r :
  alike seg seg' -> TCPReceiver.segment_received seg' r = TCPReceiver.segment_received seg r.
Proof.
  intros (Hq & Hs & Hf & Hp). unfold TCPReceiver.segment_received, TCPReceiver.deliver, Buffer.copy.
  by rewrite Hq, Hs, Hf, Hp.
Qed.

Lemma timely_alike seg seg' n : alike seg seg' -> Network.timely seg' n -> Network.timely seg n.
Proof.
  intros (Hq & Hs & Hf & Hp). unfold Network.timely, carries, span, Buffer.copy. by rewrite Hq, Hs, Hf, Hp.
Qed.

Context (Hpseudo : 0 <= pseudo <= 2 ^ 20).

(** What the sender puts on the wire comes out of it. *)
Lemma encode_decode seg :
  SenderSpec.plain seg -> exists d seg' c, encode seg = Ok d /\ zlen d < 2 ^ 64 /\ decode d = Ok (NoError, seg') /\
    alike seg seg' /\ TCPSegment.header seg' = TCPSegment.set_cksum c (TCPSegment.header seg).
Proof.
  intros (Hwf & Hd & Hlen). unfold TCPConfig.MAX_PAYLOAD_SIZE in Hlen.
  destruct (TCPSegment.serialize_parse pseudo seg TCPSegment.default_segment) as (bl & c & seg' & E & _ & Ep & Hh & Hs & Hsz).
  - done.
  - lia.
  - unfold TCPSegment.sum_fits. lia.
  - exists (BufferList.concatenate bl), seg', c. unfold encode, decode. rewrite E. split_and!; [done|lia|done| |done].
    unfold alike. rewrite Hh. by destruct (TCPSegment.header seg).
Qed.

(** Decoding never throws, reports a wrong checksum, and yields a header with its fields in
    range. *)
Lemma decode_total d :
  zlen d < 2 ^ 64 -> exists r seg, decode d = Ok (r, seg) /\ (damaged d -> r <> NoError) /\ is_u16 (TCPHeader.win (TCPSegment.header seg)).
Proof.
  intros Hd. assert (Hu : is_u32 pseudo) by (unfold is_u32; lia). unfold decode, TCPSegment.parse, damaged.
  rewrite Buffer.str_of_string. destruct (InternetChecksum.value _) as [v|f] eqn:Ev;
    [|by destruct (TCPSegment.value_defined d pseudo Hu f Ev)].
  res_simpl. case_decide as Hv; [by do 2 eexists|].
  destruct (TCPHeader.parse_total (NetParser.construct (Buffer.of_string d)))
    as (r & h & p & E & _ & (Hwf & _) & _); [done|by apply Buffer.of_string_wf|].
  rewrite E. res_simpl. do 2 eexists. split; [done|]. split; [|apply Hwf].
  intros Hne. destruct Hne. f_equal. destruct (decide (v = 0)); [done|]. by destruct Hv.
Qed.

(** ** The simulation *)

Definition represents (d : bytes) (seg : TCPSegment.TCPSegment) : Prop :=
  encode seg = Ok d /\ zlen d < 2 ^ 64 /\ exists seg', decode d = Ok (NoError, seg') /\ alike seg seg'.

Definition wire_ok (w : wire) : Prop :=
  Network.net_ok (segments w) /\ Forall2 represents (link w) (SenderSpec.taken (tx w)).

(** The step of the network of segments that a step with datagrams stands for. *)
Definition shadows (op : Op) (nop : Network.Op) : Prop :=
  match op with
  | Drive o => nop = Network.Drive o
  | Transmit => nop = Network.Drive SenderSpec.OpTakeSegment
  | Receive _ => exists seg, nop = Network.Arrive seg
  | Hear d => exists seg, decode d = Ok (NoError, seg) /\ TCPHeader.ack (TCPSegment.header seg) = true /\
      nop = Network.Drive (SenderSpec.OpAck (TCPHeader.ackno (TCPSegment.header seg)) (TCPHeader.win (TCPSegment.header seg)))
  | Read len => nop = Network.Read len
  end.

(** A step changes nothing but the datagrams, or makes that step. *)
Definition matched (op : Op) (w w' : wire) : Prop :=
  segments w' = segments w \/
  exists nop, shadows op nop /\ Network.allowed nop (segments w) /\ Network.perform nop (segments w) = Ok (segments w').

(** A step of the network of segments. *)
Lemma match_step w op n' :
  wire_ok w -> Network.allowed op (segments w) -> Network.perform op (segments w) = Ok n' -> Network.net_ok n'.
Proof.
  intros [Hn _] Hop E. destruct (Network.net_perform_ok op (segments w) Hn Hop) as (n1 & E1 & Hn1).
  rewrite E in E1. by injection E1 as <-.
Qed.

Lemma perform_taken op l l' :
  SenderSpec.perform op l = Ok l' -> op <> SenderSpec.OpTakeSegment -> SenderSpec.taken l' = SenderSpec.taken l.
Proof.
  intros E Hne. destruct op as [data| | | |ms| |]; cbn [SenderSpec.perform] in E; try done.
  - destruct (TCPSender.write data _) as [[n s']|]; [|done]. by injection E as <-.
  - by injection E as <-.
  - destruct (TCPSender.fill_window _) as [s'|]; [|done]. by injection E as <-.
  - by injection E as <-.
  - destruct (TCPSender.tick _ _) as [s'|]; [|done]. by injection E as <-.
  - by injection E as <-.
Qed.

(** A step of the sender that takes no segment. *)
Lemma drive_matched w op :
  wire_ok w -> SenderSpec.allowed op (tx w) -> op <> SenderSpec.OpTakeSegment ->
  exists l, SenderSpec.perform op (tx w) = Ok l /\
    let w' := mk l (rx w) (got w) (link w) in
    Network.perform (Network.Drive op) (segments w) = Ok (segments w') /\ wire_ok w'.
Proof.
  intros Hw Hop Hne. pose proof Hw as [Hn Hl].
  destruct (Network.net_perform_ok (Network.Drive op) (segments w) Hn Hop) as (n' & E & _).
  simpl in E. destruct (SenderSpec.perform op (tx w)) as [l|f] eqn:El; [|done]. injection E as <-.
  exists l. split; [done|].
  assert (E : Network.perform (Network.Drive op) (segments w) = Ok (Network.mk l (rx w) (got w))) by (simpl; by rewrite El).
  split; [exact E|]. split; [exact (match_step w (Network.Drive op) _ Hw Hop E)|]. simpl.
  replace (SenderSpec.taken l) with (SenderSpec.taken (tx w)); [done|].
  symmetry. by eapply perform_taken.
Qed.

Lemma transmit_matched w :
  wire_ok w -> exists w', perform Transmit w = Ok w' /\ matched Transmit w w' /\ wire_ok w'.
Proof.
  intros Hw. pose proof Hw as [[S Ha] Hl]. pose proof (Network.agr_tx _ _ Ha) as (Hok & _).
  cbn [perform]. unfold TCPSender.segments_out.
  destruct (TCPSender._segments_out (SenderSpec.sender (tx w))) as [|seg rest] eqn:Eo.
  { exists w. split_and!; [done|by left|done]. }
  assert (Hplain : SenderSpec.plain seg).
  { pose proof (SenderSpec.ok_out _ _ Hok) as Hout. simpl in Hout. rewrite Eo in Hout. apply Forall_cons in Hout as [(k & _ & _ & Hp) _].
    destruct Hp as [(_ & _ & ?)|[_ ?]]; done. }
  destruct (encode_decode seg Hplain) as (d & seg' & c & Ed & Hsz & Edec & Halike & _). rewrite Ed.
  set (l := SenderSpec.mk_log (TCPSender.assign_segments_out rest (SenderSpec.sender (tx w))) (SenderSpec.accepted (tx w))
              (SenderSpec.taken (tx w) ++ [seg])).
  assert (El : SenderSpec.perform SenderSpec.OpTakeSegment (tx w) = Ok l)
    by (simpl; unfold TCPSender.take_segment; by rewrite Eo).
  rewrite El. eexists. split; [done|].
  assert (E : Network.perform (Network.Drive SenderSpec.OpTakeSegment) (segments w) = Ok (Network.mk l (rx w) (got w)))
    by (cbn [Network.perform segments Network.tx]; by rewrite El).
  split; [right; by eexists|]. split; [exact (match_step w (Network.Drive SenderSpec.OpTakeSegment) _ Hw I E)|]. simpl. apply Forall2_app; [done|].
  constructor; [|done]. split_and!; [done|done|]. by exists seg'.
Qed.

Lemma receive_matched w d :
  wire_ok w -> allowed (Receive d) w -> exists w', perform (Receive d) w = Ok w' /\ matched (Receive d) w w' /\ wire_ok w'.
Proof.
  intros Hw [Hsize Hd]. pose proof Hw as [Hn Hl].
  cbn [perform]. destruct Hd as [[Hin Htime]|Hbad].
  - apply list_elem_of_lookup_1 in Hin as [i Hi]. destruct (Forall2_lookup_l _ _ _ _ _ Hl Hi) as (seg & Hseg & _ & _ & seg' & E & Ha).
    rewrite E. cbn [mbind res_bind]. rewrite decide_True by done.
    assert (Hop : Network.allowed (Network.Arrive seg) (segments w)).
    { split; [by eapply list_elem_of_lookup_2|]. by eapply timely_alike, Htime. }
    destruct (Network.net_perform_ok _ _ Hn Hop) as (n' & En & _).
    pose proof (match_step w _ n' Hw Hop En) as Hn'. pose proof En as En'. cbn [Network.perform] in En.
    rewrite (segment_received_alike seg seg') by done. change (Network.rx (segments w)) with (rx w) in En.
    destruct (TCPReceiver.segment_received seg (rx w)) as [r|]; [|done]. injection En as <-.
    eexists. split; [done|]. split; [right; exists (Network.Arrive seg); split_and!; [by exists seg|done|done]|]. by split.
  - destruct (decode_total d Hsize) as (r & seg & E & Hr & _). rewrite E. cbn [mbind res_bind].
    rewrite decide_False by auto. exists w. split_and!; [done|by left|done].
Qed.

Lemma hear_matched w d :
  wire_ok w -> zlen d < 2 ^ 64 -> exists w', perform (Hear d) w = Ok w' /\ matched (Hear d) w w' /\ wire_ok w'.
Proof.
  intros Hw Hsize. destruct (decode_total d Hsize) as (r & seg & E & _ & Hwin). cbn [perform]. rewrite E. cbn [mbind res_bind].
  case_decide as Hack; [|exists w; split_and!; [done|by left|done]].
  destruct (drive_matched w (SenderSpec.OpAck (TCPHeader.ackno (TCPSegment.header seg)) (TCPHeader.win (TCPSegment.header seg))) Hw)
    as (l & El & Hm & Hok); [done|done|]. cbv zeta. rewrite El. eexists. split; [done|]. split; [right|done].
  eexists. split; [by exists seg; destruct Hack as [-> ?]|]. by split.
Qed.

Lemma read_matched w len :
  wire_ok w -> is_u64 len -> exists w', perform (Read len) w = Ok w' /\ matched (Read len) w w' /\ wire_ok w'.
Proof.
  intros Hw Hlen. pose proof Hw as [Hn Hl]. destruct (Network.net_perform_ok (Network.Read len) _ Hn Hlen) as (n' & En & _).
  pose proof (match_step w (Network.Read len) n' Hw Hlen En) as Hn'. pose proof En as En'.
  cbn [perform Network.perform] in *.
  change (Network.rx (segments w)) with (rx w) in En.
  destruct (TCPReceiver.read_out len (rx w)) as [[out r]|]; [|done]. injection En as <-.
  eexists. split; [done|]. split; [right; by exists (Network.Read len)|]. by split.
Qed.

(** Every step is matched. *)
Lemma step_matched op w :
  wire_ok w -> allowed op w -> exists w', perform op w = Ok w' /\ matched op w w' /\ wire_ok w'.
Proof.
  intros Hw Hop. destruct op as [op| |d|d|len].
  - assert (Hd : SenderSpec.allowed op (tx w) /\ op <> SenderSpec.OpTakeSegment) by (by destruct op).
    destruct (drive_matched w op Hw) as (l & El & Hm & Hok); [apply Hd..|]. cbn [perform]. rewrite El. eexists. split; [done|].
    split; [right; exists (Network.Drive op); split_and!; [done|apply Hd|done]|done].
  - by apply transmit_matched.
  - by apply receive_matched.
  - by apply hear_matched.
  - by apply read_matched.
Qed.

Lemma wire_perform_ok op w : wire_ok w -> allowed op w -> exists w', perform op w = Ok w' /\ wire_ok w'.
Proof. intros Hw Hop. destruct (step_matched op w Hw Hop) as (w' & E & _ & Hw'). by exists w'. Qed.

Definition machine : Machine wire Op :=
  {| step := perform; state_ok := wire_ok; op_ok := allowed; step_ok := wire_perform_ok |}.

Lemma runs_matched w ops w' : @runs _ _ machine w ops w' -> wire_ok w -> exists ops', runs (segments w) ops' (segments w').
Proof.
  induction 1 as [w|w op w1 ops w' Hop E _ IH]; intros Hw; [exists []; apply runs_nil|].
  destruct (step_matched op w Hw Hop) as (w2 & E2 & Hm & Hw2). cbn [step machine] in E. rewrite E in E2. injection E2 as <-.
  destruct (IH Hw2) as [ops2 Hm2]. destruct Hm as [Hm|(nop & _ & Hn & En)]; [exists ops2; by rewrite <- Hm|].
  exists (nop :: ops2). by econstructor.
Qed.
End Datagrams.

(** New ends and an empty link. *)
Definition initial (capacity rto : Z) (fixed_isn : option WrappingInt32.WrappingInt32) (random rcv_capacity : Z) : wire :=
  mk (SenderSpec.initial capacity rto fixed_isn random) (TCPReceiver.construct rcv_capacity) [] [].

Lemma wire_initial_ok pseudo capacity rto fixed_isn random rcv_capacity :
  SenderSpec.config_ok capacity rto fixed_isn random -> 0 <= rcv_capacity <= 2 ^ 60 ->
  wire_ok pseudo (initial capacity rto fixed_isn random rcv_capacity).
Proof. intros Hc Hr. split; [by apply Network.net_initial_ok|constructor]. Qed.

(** ** Properties *)

(** C2: segments that travel as bytes behave as segments.  Every run of the two ends in which
    segments are serialized into datagrams, datagrams are lost, repeated, reordered or
    visibly damaged on the way, and what arrives is parsed (any bytes whatsoever at the
    sender), is a run of the network of segments, the damaged datagrams being lost ones.  So
    no operation faults, the reader gets a prefix of what was written, and at the end of the
    stream everything that was sent. *)
Theorem wire_refines_network pseudo (Hpseudo : 0 <= pseudo <= 2 ^ 20) capacity rto fixed_isn random rcv_capacity ops w :
  SenderSpec.config_ok capacity rto fixed_isn random -> 0 <= rcv_capacity <= 2 ^ 60 ->
  @runs _ _ (machine pseudo Hpseudo) (initial capacity rto fixed_isn random rcv_capacity) ops w ->
  let out := TCPReceiver.stream_out (rx w) in
  (exists ops', runs (Network.initial capacity rto fixed_isn random rcv_capacity) ops' (segments w)) /\
  got w ++ ByteStream.buffer out
    = take (Z.to_nat (ByteStream.bytes_written out)) (SenderSpec.accepted (tx w)) /\
  (ByteStream.input_ended out = true ->
     TCPSender._set_fin_flag (SenderSpec.sender (tx w)) = true /\
     got w ++ ByteStream.buffer out = Network.sent (segments w)) /\
  (forall op, allowed pseudo op w -> exists w', perform pseudo op w = Ok w').
Proof.
  intros Hc Hr Hruns. cbv zeta. pose proof (wire_initial_ok pseudo _ _ _ _ _ Hc Hr) as Hi.
  assert (Hw : wire_ok pseudo w) by (by apply (runs_state_ok _ _ _ Hruns)).
  destruct (Network.delivery (segments w) (proj1 Hw)) as (H1 & H2 & _).
  split_and!; [exact (runs_matched _ _ _ _ _ Hruns Hi)|done|done|].
  intros op Hop. destruct (wire_perform_ok pseudo Hpseudo op w Hw Hop) as (w' & E & _). by exists w'.
Qed.

(** The SYN and the only data segment of a session on the wire, the latter also with a bit flipped, and
    an acknowledgment of the SYN. *)
Definition bytes_of (seg : TCPSegment.TCPSegment) : bytes := match encode 0 seg with Ok d => d | Err _ => [] end.
Definition wire_syn : bytes := Eval vm_compute in bytes_of Network.seg_syn.
Definition wire_data : bytes := Eval vm_compute in bytes_of Network.seg_data.
Definition wire_damaged : bytes := <[20%nat := Byte.x63]> wire_data.
Definition wire_ack : bytes := Eval vm_compute in bytes_of (TCPSegment.mk
  (TCPHeader.mk 0 0 (WrappingInt32.mk 0) (WrappingInt32.mk 6) 5 false true false false false false 10 0 0) Buffer.empty_buffer).

Definition wire_session : list Op :=
  [Drive SenderSpec.OpFillWindow; Transmit; Receive wire_syn; Drive (SenderSpec.OpWrite [Byte.x61]);
   Drive SenderSpec.OpEndInput; Hear wire_ack; Hear wire_damaged; Drive SenderSpec.OpFillWindow; Transmit;
   Receive wire_damaged; Receive wire_data; Receive wire_syn; Read 1].

Ltac wire_step tac := eapply (@runs_cons _ _ (machine 0 _)); [tac|vm_compute; reflexivity|].
Ltac drives := wire_step ltac:(first [exact I|vm_compute; split; congruence|vm_compute; reflexivity]).
Ltac receives k := wire_step ltac:(split; [vm_compute; reflexivity|left; split; [vm_compute; repeat constructor|]];
  intros seg Hseg; vm_compute in Hseg; injection Hseg as <-; left; exists k; vm_compute; repeat split; congruence).

Lemma wire_refines_network_witness :
  exists w, got w ++ [] = [Byte.x61] /\ Network.sent (segments w) = [Byte.x61].
Proof.
  assert (H0 : 0 <= 0 <= 2 ^ 20) by lia.
  assert (Hr : exists w, @runs _ _ (machine 0 H0) (initial 100 1000 (Some (WrappingInt32.mk 5)) 0 10) wire_session w /\
    ByteStream.input_ended (TCPReceiver.stream_out (rx w)) = true /\ ByteStream.buffer (TCPReceiver.stream_out (rx w)) = [] /\
    Network.sent (segments w) = [Byte.x61]).
  { eexists. split; [unfold wire_session|].
    - do 2 drives. receives 0. do 6 drives.
      wire_step ltac:(split; [vm_compute; reflexivity|right; vm_compute; congruence]).
      receives 1. receives 0. drives. apply (@runs_nil _ _ (machine 0 H0)).
    - by vm_compute. }
  destruct Hr as (w & Hr & He & Hb & Hs). exists w. split; [|exact Hs].
  destruct (wire_refines_network 0 H0 100 1000 (Some (WrappingInt32.mk 5)) 0 10 wire_session w SenderSpec.demo_config)
    as (_ & _ & H & _); [lia|exact Hr|]. destruct (H He) as [_ E]. rewrite Hb, Hs in E. exact E.
Defined.

End Wire.
