(* ===== verification/WireProgress.v ===== *)
(** * Recovery when segments travel as bytes

    [Progress] shows that rounds of retransmission deliver everything when segments and
    acknowledgments travel as objects.  Here both travel as datagrams: the sender's segments are
    serialized, the receiver's acknowledgment and window go back in the header of a segment of
    their own, and both are parsed on arrival. *)

From S2P Require Import Prelude ByteStream WrappingIntegers Buffer Parser TCPHeader TCPSegment.
From S2P Require Import SegmentSpec TCPReceiver TCPSender SenderSpec Network Progress Wire.

Module WireProgress.

Import Parser Wire.

(** ** A round *)

(** The segment that carries an acknowledgment and a window, and nothing else. *)
Definition acknowledgment (a : WrappingInt32.WrappingInt32) (win : Z) : TCPSegment.TCPSegment :=
  TCPSegment.mk (TCPHeader.mk 0 0 (WrappingInt32.mk 0) a 5 false true false false false false win 0 0) Buffer.empty_buffer.

Abbreviation sender w := (SenderSpec.sender (tx w)).

Section Rounds.
Context (pseudo : Z).

Fixpoint transmit_all (fuel : nat) (w : wire) : res wire :=
  match fuel with O => Ok w | S fuel' => w ← perform pseudo Transmit w; transmit_all fuel' w end.

(** The datagram of the oldest outstanding segment gets through. *)
Definition deliver_oldest (w : wire) : res wire :=
  match TCPSender._outstanding_segments (sender w) with
  | [] => Ok w
  | seg :: _ => d ← encode pseudo seg; perform pseudo (Receive d) w
  end.

(** The receiver's acknowledgment gets through; the window field has 16 bits. *)
Definition return_acknowledgment (w : wire) : res wire :=
  match TCPReceiver.ackno (rx w) with
  | None => Ok w
  | Some a =>
      d ← encode pseudo (acknowledgment a (Z.min (TCPReceiver.window_size (rx w)) 65535));
      perform pseudo (Hear d) w
  end.

Definition round (w : wire) : res wire :=
  w ← perform pseudo (Drive SenderSpec.OpFillWindow) w;
  w ← perform pseudo (Drive (SenderSpec.OpTick (Progress.expiry (segments w)))) w;
  w ← transmit_all (length (TCPSender.segments_out (sender w))) w;
  w ← perform pseudo (Read (Progress.waiting (segments w))) w;
  w ← deliver_oldest w;
  w ← perform pseudo (Read (Progress.waiting (segments w))) w;
  return_acknowledgment w.

Fixpoint rounds (k : nat) (w : wire) : res wire :=
  match k with O => Ok w | S k' => w ← round w; rounds k' w end.

Context (Hpseudo : 0 <= pseudo <= 2 ^ 20).

(** ** Each step of a round follows the one of the segments *)

Definition reaches (w w' : wire) : Prop := exists ops, @runs _ _ (machine pseudo Hpseudo) w ops w'.

#[global] Instance reaches_preorder : PreOrder reaches.
Proof.
  split; [intros w; exists []; apply (@runs_nil _ _ (machine pseudo Hpseudo))|].
  intros w w1 w2 [ops H] [ops' H']. exists (ops ++ ops'). by eapply (@runs_app _ _ (machine pseudo Hpseudo)).
Qed.

(** [m] takes [w] to a state of the system whose segments are in the state [n']. *)
Definition follows (m : res wire) (w : wire) (n' : Network.net) : Prop :=
  exists w', m = Ok w' /\ segments w' = n' /\ wire_ok pseudo w' /\ reaches w w'.

Lemma follows_step op w w' n' :
  wire_ok pseudo w -> allowed pseudo op w -> perform pseudo op w = Ok w' -> segments w' = n' ->
  follows (perform pseudo op w) w n'.
Proof.
  intros Hw Hop E Hs. destruct (wire_perform_ok pseudo Hpseudo op w Hw Hop) as (w2 & E2 & Hw2).
  rewrite E in E2. injection E2 as <-. exists w'. split_and!; [done|done|done|]. exists [op].
  eapply (@runs_cons _ _ (machine pseudo Hpseudo)); [exact Hop|exact E|apply (@runs_nil _ _ (machine pseudo Hpseudo))].
Qed.

Lemma follows_stay w : wire_ok pseudo w -> follows (Ok w) w (segments w).
Proof. intros Hw. exists w. split_and!; [done|done|done|reflexivity]. Qed.

Lemma follows_bind m k w n1 n' :
  follows m w n1 -> (forall w1, wire_ok pseudo w1 -> segments w1 = n1 -> follows (k w1) w1 n') -> follows (m ≫= k) w n'.
Proof.
  intros (w1 & -> & Hs & Hw & R) Hk. destruct (Hk w1 Hw Hs) as (w' & E & Hs' & Hw' & R').
  exists w'. split_and!; [done|done|done|]. by etrans.
Qed.

Lemma follows_drive op w n' :
  wire_ok pseudo w -> (match op with SenderSpec.OpAck _ _ | SenderSpec.OpTakeSegment => False | _ => True end) ->
  Progress.does (Network.Drive op) (segments w) n' -> follows (perform pseudo (Drive op) w) w n'.
Proof.
  intros Hw Hop [Ha E]. cbn [Network.perform Network.allowed] in *. change (Network.tx (segments w)) with (tx w) in *.
  destruct (SenderSpec.perform op (tx w)) as [l|] eqn:El; [|done]. injection E as <-.
  eapply follows_step; [done|by destruct op|cbn [perform]; by rewrite El|done].
Qed.

Lemma follows_read len w n' :
  wire_ok pseudo w -> Progress.does (Network.Read len) (segments w) n' -> follows (perform pseudo (Read len) w) w n'.
Proof.
  intros Hw [Ha E]. cbn [Network.perform] in E. change (Network.rx (segments w)) with (rx w) in *.
  destruct (TCPReceiver.read_out len (rx w)) as [[out r]|] eqn:Er; [|done]. injection E as <-.
  eapply follows_step; [done|done|cbn [perform]; by rewrite Er|done].
Qed.

Lemma follows_transmit w n' :
  wire_ok pseudo w -> TCPSender._segments_out (sender w) <> [] ->
  Progress.does (Network.Drive SenderSpec.OpTakeSegment) (segments w) n' -> follows (perform pseudo Transmit w) w n'.
Proof.
  intros Hw Hne [_ E]. destruct (transmit_matched pseudo Hpseudo w Hw) as (w' & E' & _ & _).
  apply (follows_step Transmit w w'); [done|done|done|]. revert E'. cbn [perform]. unfold TCPSender.segments_out.
  destruct (TCPSender._segments_out (sender w)) as [|seg rest]; [done|]. cbn [Network.perform] in E.
  change (Network.tx (segments w)) with (tx w) in E.
  destruct (SenderSpec.perform SenderSpec.OpTakeSegment (tx w)) as [l|]; [|done]. injection E as <-.
  destruct (encode pseudo seg); [|done]. by intros [= <-].
Qed.

Lemma follows_receive seg w n' :
  wire_ok pseudo w -> Progress.does (Network.Arrive seg) (segments w) n' ->
  follows (d ← encode pseudo seg; perform pseudo (Receive d) w) w n'.
Proof.
  intros Hw [[Hin Ht] E]. pose proof Hw as [_ Hl]. apply list_elem_of_lookup_1 in Hin as [i Hi].
  destruct (Forall2_lookup_r _ _ _ _ _ Hl Hi) as (d & Hd & Ed & Hsz & seg' & Edec & Halike). rewrite Ed. cbn [mbind res_bind].
  cbn [Network.perform] in E. change (Network.rx (segments w)) with (rx w) in E.
  assert (Hr : TCPReceiver.segment_received seg' (rx w) = TCPReceiver.segment_received seg (rx w))
    by (by apply segment_received_alike).
  destruct (TCPReceiver.segment_received seg (rx w)) as [r|] eqn:Er; [|done]. injection E as <-.
  eapply follows_step; [done| |cbn [perform]; rewrite Edec; cbn [mbind res_bind]; by rewrite decide_True, Hr|done].
  split; [done|]. left. split; [by eapply list_elem_of_lookup_2|]. intros seg2 E2. rewrite Edec in E2. injection E2 as <-.
  destruct Halike as (Hq & Hs & Hf & Hp). by apply (timely_alike seg' seg).
Qed.

Lemma follows_hear a win w n' :
  wire_ok pseudo w -> WrappingInt32.wf a -> Progress.does (Network.Drive (SenderSpec.OpAck a win)) (segments w) n' ->
  follows (d ← encode pseudo (acknowledgment a win); perform pseudo (Hear d) w) w n'.
Proof.
  intros Hw Ha [Hwin E]. cbn [Network.allowed SenderSpec.allowed] in Hwin.
  destruct (encode_decode pseudo Hpseudo (acknowledgment a win)) as (d & seg' & c & Ed & Hsz & Edec & _ & Hh).
  { split_and!; [by split|done|done]. }
  rewrite Ed. cbn [mbind res_bind]. cbn [Network.perform] in E. change (Network.tx (segments w)) with (tx w) in E.
  cbn [SenderSpec.perform mbind res_bind] in E. injection E as <-.
  eapply follows_step; [done|exact Hsz| |].
  - cbn [perform]. rewrite Edec. cbn [mbind res_bind]. rewrite Hh. cbn. rewrite decide_True by done. reflexivity.
  - done.
Qed.

Lemma follows_transmits fuel : forall w n',
  wire_ok pseudo w -> Progress.takes fuel (segments w) n' -> follows (transmit_all fuel w) w n'.
Proof.
  induction fuel as [|fuel IH]; intros w n' Hw; cbn [Progress.takes transmit_all]; [intros ->; by apply follows_stay|].
  intros (Hne & n1 & Hd & Ht). eapply follows_bind; [by apply (follows_transmit w n1)|]. intros w1 Hw1 <-. by apply IH.
Qed.

(** ** Rounds follow rounds *)

Lemma follows_round w n' : wire_ok pseudo w -> Progress.round_steps (segments w) n' -> follows (round w) w n'.
Proof.
  intros Hw [n1 n2 n3 n4 n5 n6 H1 H2 H3 H4 H5 H6 H7]. unfold round.
  eapply follows_bind; [by apply (follows_drive _ w n1)|intros w1 Hw1 <-].
  eapply follows_bind; [by apply (follows_drive _ w1 n2)|intros w2 Hw2 <-].
  eapply follows_bind; [by apply (follows_transmits _ w2 n3)|intros w3 Hw3 <-].
  eapply follows_bind; [by apply (follows_read _ w3 n4)|intros w4 Hw4 <-].
  eapply (follows_bind _ _ _ n5); [|intros w5 Hw5 <-].
  { unfold deliver_oldest, Progress.arrives in *. cbn [segments Network.tx] in H5.
    destruct (TCPSender._outstanding_segments (sender w4)); [subst; by apply follows_stay|by apply follows_receive]. }
  eapply follows_bind; [by apply (follows_read _ w5 n6)|intros w6 Hw6 <-].
  unfold return_acknowledgment, Progress.acknowledges in *. change (Network.rx (segments w6)) with (rx w6) in H7.
  destruct (TCPReceiver.ackno (rx w6)) as [a|] eqn:Ea; [|subst; by apply follows_stay].
  apply follows_hear; [done| |done]. unfold TCPReceiver.ackno in Ea. destruct (TCPReceiver._isn (rx w6)); [|done].
  injection Ea as <-. apply WrappingInt32.wrap_wf.
Qed.

Lemma follows_rounds k w n' : wire_ok pseudo w -> Progress.rounds_steps k (segments w) n' -> follows (rounds k w) w n'.
Proof.
  revert w. induction k as [|k IH]; intros w Hw Hr; inversion Hr as [|? ? n1 ? H1 H2]; subst; cbn [rounds].
  - by apply follows_stay.
  - eapply follows_bind; [by apply (follows_round w n1)|]. intros w1 Hw1 <-. by apply IH.
Qed.

(** ** Genuine runs *)

(** What the sender hears is not an acknowledgment, or one of a position that the receiver
    has reached and that is not half of the sequence space old; its owner does not write after
    ending its input. *)
Definition genuine (op : Op) (w : wire) : Prop :=
  allowed pseudo op w /\
  match op with
  | Hear d => forall seg, decode pseudo d = Ok (NoError, seg) -> TCPHeader.ack (TCPSegment.header seg) = true ->
      exists k, TCPHeader.ackno (TCPSegment.header seg) = WrappingInt32.wrap k (Network.isn (segments w)) /\
        0 <= k <= Progress.position (rx w) /\ TCPSender._next_seqno (sender w) - k < 2 ^ 31
  | Drive (SenderSpec.OpWrite _) => ByteStream.input_ended (TCPSender._stream (sender w)) = false
  | _ => True
  end.

Definition honest (w : wire) : Prop := wire_ok pseudo w /\ Progress.honest (segments w).

Lemma genuine_perform_ok op w : honest w -> genuine op w -> exists w', perform pseudo op w = Ok w' /\ honest w'.
Proof.
  intros [Hw Hh] [Hop Hgen]. destruct (step_matched pseudo Hpseudo op w Hw Hop) as (w' & E & Hm & Hw').
  exists w'. split; [done|]. split; [done|]. destruct Hm as [->|(nop & Hs & Ha & En)]; [done|].
  assert (Hg : Progress.genuine nop (segments w)).
  { split; [done|]. destruct op as [op| |d|d|len]; cbn [shadows] in Hs.
    - subst nop. by destruct op.
    - by subst nop.
    - by destruct Hs as [seg ->].
    - destruct Hs as (seg & Edec & Hack & ->). by apply (Hgen seg).
    - by subst nop. }
  destruct (Progress.genuine_ok nop (segments w) Hh Hg) as (n' & En' & Hh'). rewrite En in En'. by injection En' as <-.
Qed.

Definition genuine_machine : Machine wire Op :=
  {| step := perform pseudo; state_ok := honest; op_ok := genuine; step_ok := genuine_perform_ok |}.
End Rounds.

(** ** Properties *)


(** The datagram with the data and the end of the stream is lost, and a damaged one heard. *)
Definition lossy_wire : list Op :=
  [Drive SenderSpec.OpFillWindow; Transmit; Receive wire_syn; Drive (SenderSpec.OpWrite [Byte.x61]);
   Drive SenderSpec.OpEndInput; Hear wire_ack; Hear wire_damaged; Drive SenderSpec.OpFillWindow; Transmit].

Ltac genuinely tac := eapply (@runs_cons _ _ (genuine_machine 0 _)); [tac|vm_compute; reflexivity|].
Ltac plainly := genuinely ltac:(split; [first [exact I|vm_compute; split; congruence]|first [exact I|vm_compute; reflexivity]]).
Ltac heard k := genuinely ltac:(split; [vm_compute; reflexivity|];
  intros seg Hseg; vm_compute in Hseg; first [discriminate Hseg|injection Hseg as <-]; intros _; exists k; vm_compute; repeat split; congruence).

Lemma lossy_wire_runs (H0 : 0 <= 0 <= 2 ^ 20) :
  exists w, @runs _ _ (genuine_machine 0 H0) (initial 100 1000 (Some (WrappingInt32.mk 5)) 0 10) lossy_wire w /\
    SenderSpec.fits (sender w) /\ SenderSpec.accepted (tx w) = [Byte.x61] /\ got w = [].
Proof.
  eexists. split; [unfold lossy_wire|].
  - do 2 plainly.
    genuinely ltac:(split; [split; [vm_compute; reflexivity|left; split; [vm_compute; repeat constructor|]]|exact I];
      intros seg Hseg; vm_compute in Hseg; injection Hseg as <-; left; exists 0; vm_compute; repeat split; congruence).
    do 2 plainly. heard 1. heard 1. do 2 plainly. apply (@runs_nil _ _ (genuine_machine 0 _)).
  - vm_compute. repeat split; congruence.
Defined.


End WireProgress.
