(* ===== verification/TCPState.v ===== *)
(** * Summaries of the connection state (libsponge/tcp_helpers/tcp_state.hh, .cc)

    [state_summary] describes a receiver or a sender in words.  The theorems relate the
    summary of a sender to its flags and acknowledgments and show that the life of a
    sender only moves forward. *)

From S2P Require Import Prelude ByteStream WrappingIntegers Buffer TCPHeader TCPSegment.
From S2P Require Import StreamReassembler ReassemblerSpec SegmentSpec TCPReceiver.
From S2P Require Import RetransmissionTimer TCPSender SenderSpec.

Module TCPReceiverStateSummary.
Definition ERROR : string := "error (connection was reset)".
Definition LISTEN : string := "waiting for SYN: ackno is empty".
Definition SYN_RECV : string := "SYN received (ackno exists), and input to stream hasn't ended".
Definition FIN_RECV : string := "input to stream has ended".
End TCPReceiverStateSummary.

Module TCPSenderStateSummary.
Definition ERROR : string := "error (connection was reset)".
Definition CLOSED : string := "waiting for stream to begin (no SYN sent)".
Definition SYN_SENT : string := "stream started but nothing acknowledged".
Definition SYN_ACKED : string := "stream ongoing".
Definition FIN_SENT : string := "stream finished (FIN sent) but not fully acknowledged".
Definition FIN_ACKED : string := "stream finished and fully acknowledged".
End TCPSenderStateSummary.

Module TCPState.

Import TCPSender SenderSpec.

(** [std::string state_summary(const TCPReceiver &receiver)] *)
Definition receiver_state_summary (receiver : TCPReceiver.TCPReceiver) : string :=
  if ByteStream.error (TCPReceiver.stream_out receiver) then TCPReceiverStateSummary.ERROR
  else if decide (TCPReceiver.ackno receiver = None) then TCPReceiverStateSummary.LISTEN
  else if ByteStream.input_ended (TCPReceiver.stream_out receiver) then TCPReceiverStateSummary.FIN_RECV
  else TCPReceiverStateSummary.SYN_RECV.

(** [std::string state_summary(const TCPSender &sender)] *)
Definition sender_state_summary (sender : TCPSender) : string :=
  if ByteStream.error (stream_in sender) then TCPSenderStateSummary.ERROR
  else if decide (next_seqno_absolute sender = 0) then TCPSenderStateSummary.CLOSED
  else if decide (next_seqno_absolute sender = bytes_in_flight sender) then TCPSenderStateSummary.SYN_SENT
  else if negb (ByteStream.eof (stream_in sender)) then TCPSenderStateSummary.SYN_ACKED
  else if decide (next_seqno_absolute sender < to_u64 (ByteStream.bytes_written (stream_in sender) + 2))
       then TCPSenderStateSummary.SYN_ACKED
  else if decide (bytes_in_flight sender <> 0) then TCPSenderStateSummary.FIN_SENT
  else TCPSenderStateSummary.FIN_ACKED.

(** ** The life of a sender *)

Inductive phase : Set := Closed | SynSent | SynAcked | FinSent | FinAcked.

Definition phase_of (s : TCPSender) : phase :=
  if negb (_set_syn_flag s) then Closed
  else if decide (_receiver_ack s = 0) then SynSent
  else if negb (_set_fin_flag s) then SynAcked
  else if decide (_outstanding_segments s = []) then FinAcked else FinSent.

Definition describe (p : phase) : string :=
  match p with
  | Closed => TCPSenderStateSummary.CLOSED
  | SynSent => TCPSenderStateSummary.SYN_SENT
  | SynAcked => TCPSenderStateSummary.SYN_ACKED
  | FinSent => TCPSenderStateSummary.FIN_SENT
  | FinAcked => TCPSenderStateSummary.FIN_ACKED
  end.

Definition rank (p : phase) : Z :=
  match p with Closed => 0 | SynSent => 1 | SynAcked => 2 | FinSent => 3 | FinAcked => 4 end.

(** What the rank of the phase depends on. *)
Lemma rank_le sent s sent' s' :
  ok sent s -> ok sent' s' ->
  (_set_syn_flag s = true -> _set_syn_flag s' = true) -> (_set_fin_flag s = true -> _set_fin_flag s' = true) ->
  _receiver_ack s <= _receiver_ack s' ->
  (_set_fin_flag s = true -> _outstanding_segments s = [] -> _outstanding_segments s' = []) ->
  rank (phase_of s) <= rank (phase_of s').
Proof.
  intros Hok Hok' Hsyn Hfin Hack Hout. unfold phase_of.
  pose proof (ok_ack _ _ Hok). pose proof (ok_start _ _ Hok'). 
  destruct (_set_syn_flag s), (_set_syn_flag s'), (_set_fin_flag s), (_set_fin_flag s'); simpl;
    repeat case_decide; simpl; try lia; try (by discriminate Hsyn); try (by discriminate Hfin);
    try (by specialize (Hsyn eq_refl)); try (by specialize (Hfin eq_refl)); exfalso; auto.
Qed.

Lemma fill_window_fin s s' : _set_fin_flag s = true -> fill_window s = Ok s' -> s' = s.
Proof.
  intros Hf. unfold fill_window, fill_window_fuel. rewrite Nat.add_comm. cbn [Nat.add fill_window_rec].
  rewrite Hf. by intros [= <-].
Qed.

Lemma same_stream_rank sent s sent' s' :
  ok sent s -> ok sent' s' -> same_stream s s' -> rank (phase_of s) <= rank (phase_of s').
Proof. intros Hok Hok' ((_ & Hf & _) & Hsyn & Hack & Hout). by eapply rank_le; try done; congruence || auto. Qed.

Lemma phase_step op l sent l' :
  sending sent l -> allowed op l -> perform op l = Ok l' ->
  rank (phase_of (sender l)) <= rank (phase_of (sender l')).
Proof.
  intros Hs Hop E. destruct (perform_spec op l sent Hs Hop) as (l2 & sent' & E2 & Hs' & _ & Hg).
  rewrite E in E2. injection E2 as <-. destruct Hs as (Hok & _). destruct Hs' as (Hok' & _).
  destruct op as [data| | |ackno win|ms| |]; cbn [perform allowed] in E, Hop.
  - apply bind_Ok in E as ([n s'] & Ew & [= <-]). unfold write in Ew.
    apply bind_Ok in Ew as ([m stream] & _ & [= <- <-]). simpl. done.
  - injection E as <-. simpl. done.
  - apply bind_Ok in E as (s' & Ef & [= <-]). simpl in *.
    destruct (fill_window_spec sent _ Hok Hop) as (new & sent2 & s2 & Ef2 & Hext & _).
    rewrite Ef in Ef2. injection Ef2 as <-. eapply rank_le; [exact Hok|exact Hok'|..].
    + apply Hext.
    + apply Hg.
    + rewrite (ext_ack _ _ _ _ _ Hext). lia.
    + intros Hf. by rewrite (fill_window_fin _ _ Hf Ef).
  - injection E as <-. destruct (ack_received_spec sent _ ackno win Hok Hop) as [_ Hst]. by eapply same_stream_rank.
  - apply bind_Ok in E as (s' & Et & [= <-]). destruct (tick_spec sent _ ms Hok) as (s2 & Et2 & _ & Hst).
    rewrite Et in Et2. injection Et2 as <-. by eapply same_stream_rank.
  - injection E as <-. simpl. done.
  - destruct (take_segment (sender l)) as [o s'] eqn:Et. injection E as <-. unfold take_segment in Et.
    destruct (_segments_out (sender l)); injection Et as <- <-; simpl; done.
Qed.

(** ** Properties *)

(** C26: the summary of a sender tells its phase: whether the SYN was sent, whether anything
    was acknowledged, whether the FIN was sent and whether everything is acknowledged,
    although the code looks only at [next_seqno_absolute], [bytes_in_flight] and the
    stream; provided the stream has no error and is not written to after it was closed. *)
Theorem sender_summary_is_phase sent s :
  ok sent s -> ByteStream.error (stream_in s) = false ->
  (_set_fin_flag s = true -> ByteStream.eof (stream_in s) = true) ->
  sender_state_summary s = describe (phase_of s).
Proof.
  intros Hok Herr Hclosed. pose proof (ok_ack _ _ Hok) as Hack. pose proof (zlen_nonneg sent).
  pose proof (ok_next _ _ Hok) as Hn. pose proof (ok_far _ _ Hok). pose proof (ok_read _ _ Hok) as Hr.
  pose proof (chain_le _ _ _ _ _ _ (ok_outstanding _ _ Hok)) as Hle.
  pose proof (ByteStream.ok_written _ (ok_stream _ _ Hok)) as Hw. unfold ByteStream.bytes_read in Hr. rewrite Hr in Hw.
  unfold sender_state_summary, phase_of, next_seqno_absolute, stream_in, ByteStream.bytes_written in *.
  rewrite Herr, (in_flight_eq _ _ Hok). destruct (_set_syn_flag s) eqn:Es; simpl.
  - rewrite decide_False by (case_match; lia).
    rewrite (decide_ext (_next_seqno s = _ - _) (_receiver_ack s = 0)) by lia.
    case_decide; [done|]. destruct (_set_fin_flag s) eqn:Ef; simpl.
    + specialize (Hclosed eq_refl). rewrite Hclosed. simpl. unfold ByteStream.eof in Hclosed.
      apply andb_true_iff in Hclosed as [Hb _]. apply bool_decide_eq_true in Hb. rewrite Hb in Hw.
      rewrite (@zlen_nil byte), Z.add_0_r, to_u64_small in Hw by (unfold is_u64; lia).
      rewrite Hw, decide_False by (rewrite to_u64_small by (unfold is_u64; lia); lia).
      destruct (decide (_outstanding_segments s = [])) as [Ho|Ho].
      * rewrite decide_False; [done|]. pose proof (ok_outstanding _ _ Hok) as Hc. rewrite Ho in Hc.
        inversion Hc. lia.
      * rewrite decide_True; [done|]. pose proof (chain_nonempty _ _ _ _ _ _ (ok_outstanding _ _ Hok) Ho). lia.
    + destruct (ByteStream.eof (_stream s)) eqn:Eeof; simpl; [|done]. unfold ByteStream.eof in Eeof.
      apply andb_true_iff in Eeof as [Hb _]. apply bool_decide_eq_true in Hb. rewrite Hb in Hw.
      rewrite (@zlen_nil byte), Z.add_0_r, to_u64_small in Hw by (unfold is_u64; lia).
      rewrite Hw, decide_True by (rewrite to_u64_small by (unfold is_u64; lia); lia). done.
  - destruct (ok_start _ _ Hok Es) as [-> Hf]. rewrite Hf in Hn. by rewrite decide_True.
Qed.

Lemma sender_summary_is_phase_witness :
  sender_state_summary (busy_sender 3 2 1) = TCPSenderStateSummary.SYN_ACKED.
Proof.
  destruct busy_ok as (sent & Hok). apply (sender_summary_is_phase sent _ Hok); [reflexivity|]. vm_compute. congruence.
Defined.

(** C27: a sender only moves forward: along every run, from any point to any later point,
    its phase never goes back in the order closed, SYN sent, SYN acknowledged, FIN sent,
    FIN acknowledged. *)
Theorem sender_phase_advances capacity rto fixed_isn random ops l ops' l' :
  config_ok capacity rto fixed_isn random -> runs (initial capacity rto fixed_isn random) ops l ->
  runs l ops' l' -> rank (phase_of (sender l)) <= rank (phase_of (sender l')).
Proof.
  intros Hc Hr Hr'. pose proof (runs_log_ok _ _ _ _ _ _ Hc Hr) as Hl. clear Hr.
  induction Hr' as [l|l op l1 ops' l' Hop E _ IH]; [lia|].
  destruct Hl as [sent Hs]. pose proof (phase_step op l sent l1 Hs Hop E).
  destruct (perform_ok op l) as (l2 & E2 & Hl2); [by exists sent|done|]. cbn in E. rewrite E in E2.
  injection E2 as <-. specialize (IH Hl2). lia.
Qed.

Lemma sender_phase_advances_witness :
  exists l, runs (initial 100 1000 (Some (WrappingInt32.mk 5)) 0) demo_ops l /\
    rank (phase_of (construct 100 1000 (Some (WrappingInt32.mk 5)) 0)) <= rank (phase_of (sender l)).
Proof.
  assert (Hr : exists l, runs (initial 100 1000 (Some (WrappingInt32.mk 5)) 0) demo_ops l)
    by (eexists; unfold demo_ops; demo_runs).
  destruct Hr as [l Hr]. exists l. split; [exact Hr|].
  apply (sender_phase_advances 100 1000 (Some (WrappingInt32.mk 5)) 0 []
           (initial 100 1000 (Some (WrappingInt32.mk 5)) 0) demo_ops l demo_config); [constructor|exact Hr].
Defined.

End TCPState.
