(* ===== verification/FileDescriptor.v ===== *)
(** * File descriptors (libsponge/util/file_descriptor.hh, .cc; SystemCall of util.cc)

    A [FileDescriptor] is a counted reference to a [FDWrapper] shared by its duplicates.
    The model keeps the shared objects in a heap, so that duplicates see each other's
    effects, and passes the heap and the state of the kernel through every operation; an
    exception keeps the effects that happened before it.  The kernel is a parameter. *)

From stdpp Require Import pretty.
From S2P Require Import Prelude Errors Buffer.

(** ** System calls *)

(** The calls the library makes, with the returned value and [errno] (for [read], the error
    number or the bytes stored in the buffer); what an error number means, and printing on
    the standard error of the process. *)
Class Kernel (K : Type) := {
  sys_read : Z -> Z -> K -> (Z + bytes) * K;
  sys_writev : Z -> list (bytes * Z) -> K -> Z * Z * K;
  sys_close : Z -> K -> Z * Z * K;
  sys_fcntl : Z -> Z -> Z -> K -> Z * Z * K;
  strerror : Z -> string;
  put_error : string -> K -> K
}.

Module FileDescriptor.

Record FDWrapper : Set := mk_wrapper {
  _fd : Z;
  _eof : bool;
  _closed : bool;
  _read_count : Z;
  _write_count : Z
}.

(** A [FDWrapper] on the heap with the number of handles that share it. *)
Record cell : Set := mk_cell { wrapper : FDWrapper; use_count : Z }.

Record state (K : Type) : Type := mk_state { kernel : K; heap : list cell }.
Arguments mk_state {K} kernel heap.
Arguments kernel {K} _.
Arguments heap {K} _.

(** A computation that may throw and keeps the state when it does. *)
Definition M (K A : Type) : Type := state K -> res A * state K.
#[global] Instance M_ret {K} : MRet (M K) := fun A a st => (Ok a, st).
#[global] Instance M_bind {K} : MBind (M K) := fun A B k m st =>
  match m st with (Ok a, st') => k a st' | (Err f, st') => (Err f, st') end.
Definition M_throw {K A} (what : string) : M K A := fun st => (throw what, st).
Definition lift {K A} (r : res A) : M K A := fun st => (r, st).

(** [explicit unix_error(const std::string &attempt, const int error)] *)
Definition system_category {K} `{Kernel K} : TaggedError.error_category :=
  TaggedError.mk_category "system" (strerror (K := K)).
Definition unix_error K `{Kernel K} (attempt : string) (error : Z) : TaggedError.tagged_error :=
  TaggedError.construct (system_category (K := K)) attempt error.

(** [int SystemCall(const char *attempt, const int return_value, const int errno_mask = 0)] *)
Definition SystemCall {K} `{Kernel K} (attempt : string) (return_value errno errno_mask : Z) : M K Z :=
  if decide (return_value >= 0 \/ errno = errno_mask) then mret return_value
  else M_throw (TaggedError.what (unix_error K attempt errno)).

(** [int SystemCall(const std::string &attempt, const int return_value, const int errno_mask = 0)] *)
Definition SystemCall_string {K} `{Kernel K} (attempt : string) (return_value errno errno_mask : Z) : M K Z :=
  SystemCall (TaggedError.c_str attempt) return_value errno errno_mask.

(** Access through the shared pointer. *)
Definition deref {K} (p : nat) : M K FDWrapper := fun st =>
  match heap st !! p with
  | Some c => if decide (use_count c > 0) then (Ok (wrapper c), st) else (Err Undefined, st)
  | None => (Err Undefined, st)
  end.
Definition store {K} (p : nat) (w : FDWrapper) : M K () := fun st =>
  match heap st !! p with
  | Some c => (Ok (), mk_state (kernel st) (<[p := mk_cell w (use_count c)]> (heap st)))
  | None => (Err Undefined, st)
  end.
Definition call {K A} (f : K -> A * K) : M K A := fun st =>
  let '(a, k) := f (kernel st) in (Ok a, mk_state k (heap st)).

Definition register_read {K} (p : nat) : M K () :=
  w ← deref p; store p (mk_wrapper (_fd w) (_eof w) (_closed w) (to_u32 (_read_count w + 1)) (_write_count w)).
Definition register_write {K} (p : nat) : M K () :=
  w ← deref p; store p (mk_wrapper (_fd w) (_eof w) (_closed w) (_read_count w) (to_u32 (_write_count w + 1))).

(** Accessors. *)
Definition fd_num {K} (p : nat) : M K Z := w ← deref p; mret (_fd w).
Definition eof {K} (p : nat) : M K bool := w ← deref p; mret (_eof w).
Definition closed {K} (p : nat) : M K bool := w ← deref p; mret (_closed w).
Definition read_count {K} (p : nat) : M K Z := w ← deref p; mret (_read_count w).
Definition write_count {K} (p : nat) : M K Z := w ← deref p; mret (_write_count w).

Section Operations.
Context {K : Type} `{Kernel K}.

(** [explicit FileDescriptor(const int fd)] *)
Definition construct (fd : Z) : M K nat :=
  if decide (fd < 0) then M_throw ("invalid fd number:" +:+ pretty fd) else fun st =>
  (Ok (length (heap st)),
   mk_state (kernel st) (heap st ++ [mk_cell (mk_wrapper fd false false 0 0) 1])).

(** [FileDescriptor duplicate() const] *)
Definition duplicate (p : nat) : M K nat := fun st =>
  match heap st !! p with
  | Some c => (Ok p, mk_state (kernel st) (<[p := mk_cell (wrapper c) (use_count c + 1)]> (heap st)))
  | None => (Err Undefined, st)
  end.

(** [void FDWrapper::close()] *)
Definition close (p : nat) : M K () :=
  w ← deref p;
  '(r, errno) ← call (sys_close (_fd w));
  _ ← SystemCall "close" (to_i32 r) errno 0;
  store p (mk_wrapper (_fd w) true true (_read_count w) (_write_count w)).

(** [~FileDescriptor()]: the last handle runs [~FDWrapper()], which closes the descriptor
    unless it is closed; an exception does not escape but is reported on the standard error. *)
Definition destructing (what : string) : string :=
  "Exception destructing FDWrapper: " +:+ what +:+ String.String (Ascii.ascii_of_nat 10) String.EmptyString.
Definition destroy (p : nat) : M K () := fun st =>
  match heap st !! p with
  | None => (Err Undefined, st)
  | Some c =>
      let release st := mk_state (kernel st) (<[p := mk_cell (wrapper c) (use_count c - 1)]> (heap st)) in
      if decide (use_count c <> 1) then (Ok (), release st)
      else if _closed (wrapper c) then (Ok (), release st)
      else
        match close p st with
        | (Err (Exception what), st') =>
            (Ok (), release (mk_state (put_error (destructing what) (kernel st')) (heap st')))
        | (_, st') => (Ok (), release st')
        end
  end.

(** A constructor of a subclass whose body throws destroys the base object, here the handle [p]. *)
Definition or_destroy {A} (p : nat) (body : M K A) : M K A := fun st =>
  match body st with
  | (Err (Exception what), st') => (throw what, (destroy p st').2)
  | r => r
  end.

(** [void read(std::string &str, const size_t limit)], returning [str] *)
Definition BUFFER_SIZE : Z := 1024 * 1024.
Definition read (p : nat) (limit : Z) : M K bytes :=
  let size_to_read := Z.min BUFFER_SIZE limit in
  w ← deref p;
  answer ← call (sys_read (_fd w) size_to_read);
  let '(r, errno, data) :=
    match answer with inl e => (-1, e, []) | inr d => (zlen d, 0, d) end in
  bytes_read ← SystemCall "read" (to_i32 r) errno 0;
  _ ← (if decide (limit > 0 /\ bytes_read = 0)
       then store p (mk_wrapper (_fd w) true (_closed w) (_read_count w) (_write_count w)) else mret ());
  if decide (bytes_read > size_to_read) then M_throw "read() read more than requested" else
  if decide (bytes_read < 0) then M_throw "basic_string::_M_replace_aux" else
  let str := take (Z.to_nat bytes_read) data in
  _ ← register_read p;
  mret str.

(** [size_t write(BufferViewList buffer, const bool write_all)], the body of the loop
    and the loop, with at most [fuel] iterations. *)
Definition write_once (p : nat) (buffer : BufferViewList.BufferViewList)
    : M K (Z * BufferViewList.BufferViewList) :=
  let iovecs := BufferViewList.as_iovecs buffer in
  fd ← fd_num p;
  '(r, errno) ← call (sys_writev fd iovecs);
  bytes_written ← SystemCall "writev" (to_i32 r) errno 0;
  if decide (bytes_written = 0 /\ BufferViewList.size buffer <> 0)
  then M_throw "write returned 0 given non-empty input buffer" else
  if decide (bytes_written > to_i64 (BufferViewList.size buffer))
  then M_throw "write wrote more than length of input buffer" else
  _ ← register_write p;
  buffer ← lift (BufferViewList.remove_prefix (to_u64 bytes_written) buffer);
  mret (bytes_written, buffer).

Fixpoint write_loop (fuel : nat) (p : nat) (buffer : BufferViewList.BufferViewList) (write_all : bool)
    (total_bytes_written : Z) : M K Z :=
  match fuel with
  | O => lift (Err OutOfFuel)
  | S fuel' =>
      '(bytes_written, buffer) ← write_once p buffer;
      let total := to_u64 (total_bytes_written + bytes_written) in
      if write_all && bool_decide (BufferViewList.size buffer <> 0)
      then write_loop fuel' p buffer write_all total else mret total
  end.

(** Every iteration but the last writes at least one byte. *)
Definition write (p : nat) (buffer : BufferViewList.BufferViewList) (write_all : bool) : M K Z :=
  write_loop (S (Z.to_nat (BufferViewList.size buffer))) p buffer write_all 0.

(** [std::string read(const size_t limit)] *)
Definition read_string (p : nat) (limit : Z) : M K bytes := ret ← read p limit; mret ret.
Definition no_limit : Z := 2 ^ 64 - 1.

(** [size_t write(const std::string &str, const bool write_all)], and for a C string *)
Definition write_string (p : nat) (str : bytes) (write_all : bool) : M K Z :=
  write p (BufferViewList.of_string str) write_all.
Definition write_cstr (p : nat) (str : bytes) (write_all : bool) : M K Z :=
  write p (BufferViewList.of_cstr str) write_all.

(** [void set_blocking(const bool blocking_state)] *)
Definition F_GETFL : Z := 3.
Definition F_SETFL : Z := 4.
Definition O_NONBLOCK : Z := 2048.
Definition new_flags (flags : Z) (blocking_state : bool) : Z :=
  if blocking_state then Z.lxor flags (Z.land flags O_NONBLOCK) else Z.lor flags O_NONBLOCK.
Definition set_blocking (p : nat) (blocking_state : bool) : M K () :=
  fd ← fd_num p;
  '(r, errno) ← call (sys_fcntl fd F_GETFL 0);
  flags ← SystemCall "fcntl" r errno 0;
  '(r, errno) ← call (sys_fcntl fd F_SETFL (new_flags flags blocking_state));
  _ ← SystemCall "fcntl" r errno 0;
  mret ().
End Operations.

(** ** Steps of the monad *)

Lemma M_bind_Ok {K A B} (m : M K A) (k : A -> M K B) st a st' :
  m st = (Ok a, st') -> (m ≫= k) st = k a st'.
Proof. intros E. unfold mbind, M_bind. by rewrite E. Qed.

Lemma SystemCall_Ok {K} `{Kernel K} attempt r errno (st : state K) : r >= 0 -> SystemCall attempt r errno 0 st = (Ok r, st).
Proof. intros Hr. unfold SystemCall. by rewrite decide_True by lia. Qed.

Lemma deref_Ok {K} p (st : state K) c :
  heap st !! p = Some c -> use_count c > 0 -> deref p st = (Ok (wrapper c), st).
Proof. intros Hc Hu. unfold deref. by rewrite Hc, decide_True. Qed.

Lemma store_Ok {K} p w (st : state K) c :
  heap st !! p = Some c -> store p w st = (Ok (), mk_state (kernel st) (<[p := mk_cell w (use_count c)]> (heap st))).
Proof. intros Hc. unfold store. by rewrite Hc. Qed.

Lemma register_read_Ok {K} p (st : state K) c :
  let w := wrapper c in
  heap st !! p = Some c -> use_count c > 0 ->
  register_read p st = (Ok (), mk_state (kernel st) (<[p := mk_cell (mk_wrapper (_fd w) (_eof w) (_closed w)
    (to_u32 (_read_count w + 1)) (_write_count w)) (use_count c)]> (heap st))).
Proof.
  intros w Hc Hu. unfold register_read. rewrite (M_bind_Ok _ _ _ _ _ (deref_Ok _ _ _ Hc Hu)).
  by apply store_Ok.
Qed.

(** [fd_num], a system call and its check, as one step each. *)
Lemma fd_num_Ok {K} p (st : state K) c :
  heap st !! p = Some c -> use_count c > 0 -> fd_num p st = (Ok (_fd (wrapper c)), st).
Proof. intros Hc Hu. unfold fd_num. by rewrite (M_bind_Ok _ _ _ _ _ (deref_Ok _ _ _ Hc Hu)). Qed.

Lemma call_Ok {K A} (f : K -> A * K) (st : state K) a k :
  f (kernel st) = (a, k) -> call f st = (Ok a, mk_state k (heap st)).
Proof. intros E. unfold call. by rewrite E. Qed.

Lemma SystemCall_Err {K} `{Kernel K} attempt r errno (st : state K) :
  r < 0 -> errno <> 0 -> SystemCall attempt r errno 0 st = (throw (TaggedError.what (unix_error K attempt errno)), st).
Proof. intros Hr He. unfold SystemCall. rewrite decide_False by lia. done. Qed.

Lemma M_bind_Err {K A B} (m : M K A) (k : A -> M K B) st f st' :
  m st = (Err f, st') -> (m ≫= k) st = (Err f, st').
Proof. intros E. unfold mbind, M_bind. by rewrite E. Qed.

(** The last step of a handle. *)
Lemma destroy_heap {K} `{Kernel K} p (st : state K) c :
  heap st !! p = Some c -> use_count c > 0 ->
  exists st', destroy p st = (Ok (), st') /\ (forall q, q <> p -> heap st' !! q = heap st !! q) /\
    exists c', heap st' !! p = Some c' /\ use_count c' = use_count c - 1.
Proof.
  intros Hc Hu. assert (Hlt : (p < length (heap st))%nat) by (by eapply lookup_lt_Some).
  assert (Hclose : length (heap (close p st).2) = length (heap st) /\
    forall q, q <> p -> heap (close p st).2 !! q = heap st !! q).
  { unfold close. rewrite (M_bind_Ok _ _ _ _ _ (deref_Ok _ _ _ Hc Hu)).
    unfold call, mbind, M_bind. destruct (sys_close (_fd (wrapper c)) (kernel st)) as [[x e] k']. simpl.
    unfold SystemCall, store. case_decide; simpl; [|done]. rewrite Hc. simpl.
    rewrite length_insert. split; [done|]. intros q Hq. by apply list_lookup_insert_ne. }
  assert (Hrel : forall st1 : state K, length (heap st1) = length (heap st) ->
    (forall q, q <> p -> heap st1 !! q = heap st !! q) ->
    let h := <[p := mk_cell (wrapper c) (use_count c - 1)]> (heap st1) in
    (forall q, q <> p -> h !! q = heap st !! q) /\ exists c', h !! p = Some c' /\ use_count c' = use_count c - 1).
  { intros st1 Hlen Hq h. split.
    - intros q Hne. unfold h. rewrite list_lookup_insert_ne by done. by apply Hq.
    - eexists. unfold h. rewrite list_lookup_insert_eq by lia. done. }
  unfold destroy. rewrite Hc. case_decide; [|destruct (_closed (wrapper c))].
  - eexists. split; [done|]. by apply (Hrel st).
  - eexists. split; [done|]. by apply (Hrel st).
  - destruct (close p st) as [o st1]. simpl in Hclose. destruct Hclose as [Hlen Hq]. pose proof (Hrel st1 Hlen Hq) as Hr.
    destruct o as [|[]]; (eexists; split; [reflexivity|exact Hr]).
Qed.

(** The kernel after the destructor of the last handle tried to close [fd]. *)
Definition after_close {K} `{Kernel K} (fd : Z) (k : K) : K :=
  let '(r, errno, k') := sys_close fd k in
  if decide (to_i32 r >= 0 \/ errno = 0) then k'
  else put_error (destructing (TaggedError.what (unix_error K "close" errno))) k'.

(** Destroying the last handle of an open descriptor. *)
Lemma destroy_last {K} `{Kernel K} p (st : state K) c :
  heap st !! p = Some c -> use_count c = 1 -> _closed (wrapper c) = false ->
  exists st', destroy p st = (Ok (), st') /\ kernel st' = after_close (_fd (wrapper c)) (kernel st) /\
    (forall q, q <> p -> heap st' !! q = heap st !! q) /\ (use_count <$> heap st' !! p) = Some 0.
Proof.
  intros Hc Hu Hcl. destruct (destroy_heap p st c Hc ltac:(lia)) as (st' & E & Hq & c' & Hc' & Hu').
  exists st'. split_and!; [done| |done|by rewrite Hc'; simpl; f_equal; lia].
  revert E. unfold destroy. rewrite Hc, Hu, Hcl. rewrite decide_False by lia.
  unfold close. rewrite (M_bind_Ok _ _ _ _ _ (deref_Ok _ _ _ Hc ltac:(lia))). unfold call, mbind, M_bind.
  unfold after_close. destruct (sys_close _ _) as [[r e] k]. unfold SystemCall. case_decide; simpl; [|by intros [= <-]].
  unfold store. simpl. rewrite Hc. by intros [= <-].
Qed.

(** The handles of every object. *)
Definition handles {K} (st : state K) : list Z := use_count <$> heap st.

Lemma handles_lookup {K} p (st : state K) : handles st !! p = use_count <$> heap st !! p.
Proof. apply list_lookup_fmap. Qed.

(** The only handle of the object after [h]. *)
Lemma only_handle {K} h l p (st : state K) :
  handles st = h ++ 1 :: l -> p = length h -> exists c, heap st !! p = Some c /\ use_count c = 1.
Proof.
  intros Hh Hp. assert (Hl : handles st !! p = Some 1) by (by rewrite Hh, Hp, lookup_app_r, Nat.sub_diag by lia).
  rewrite handles_lookup in Hl. apply fmap_Some in Hl as (c & Hc & Hu). by exists c.
Qed.

(** Destroying it. *)
Lemma destroy_handles {K} `{Kernel K} h n p (st : state K) :
  handles st = h ++ 1 :: replicate n 0 -> p = length h ->
  exists st', destroy p st = (Ok (), st') /\ handles st' = h ++ replicate (S n) 0.
Proof.
  intros Hh Hp. destruct (only_handle h _ p st Hh Hp) as (c & Hc & Hu).
  destruct (destroy_heap p st c Hc ltac:(lia)) as (st' & E & Hq & c' & Hc' & Hu'). exists st'. split; [done|].
  apply list_eq. intros q. rewrite handles_lookup. destruct (decide (q = p)) as [->|Hne].
  - rewrite Hc'. simpl. rewrite Hu', Hu, Hp, lookup_app_r, Nat.sub_diag by lia. done.
  - rewrite Hq, <- handles_lookup, Hh by done. destruct (decide (q < p)%nat); [by rewrite !lookup_app_l by lia|].
    rewrite !lookup_app_r by lia. destruct (q - length h)%nat eqn:Eq; [lia|done].
Qed.

(** ** Computations that need one handle *)

Abbreviation contents buffer := (concat (BufferViewList._views buffer)).

Create HintDb tame.
Section Tame.
Context {K : Type} `{Kernel K} (p : nat).

(** [m] runs as long as the object [p] is alive, keeps the number of handles and returns only
    values with [Q]; an exception is the only other outcome. *)
Definition alive (st : state K) : Prop := exists c, heap st !! p = Some c /\ use_count c > 0.
Definition tame_to {X} (Q : X -> Prop) (m : M K X) : Prop :=
  forall st, alive st -> let '(r, st') := m st in
    match r with Ok x => Q x | Err (Exception _) => True | Err _ => False end /\
    forall q, use_count <$> heap st' !! q = use_count <$> heap st !! q.
Definition tame {X} (m : M K X) : Prop := tame_to (fun _ => True) m.

Lemma alive_preserved (st st' : state K) :
  (forall q, use_count <$> heap st' !! q = use_count <$> heap st !! q) -> alive st -> alive st'.
Proof.
  intros Hq (c & Hc & Hu). specialize (Hq p). rewrite Hc in Hq. simpl in Hq.
  apply fmap_Some in Hq as (c' & Hc' & Hu'). exists c'. split; [done|lia].
Qed.

Lemma tame_to_bind {X Y} (P : X -> Prop) (Q : Y -> Prop) (m : M K X) (k : X -> M K Y) :
  tame_to P m -> (forall x, P x -> tame_to Q (k x)) -> tame_to Q (m ≫= k).
Proof.
  intros Hm Hk st Hst. unfold mbind, M_bind. specialize (Hm st Hst). destruct (m st) as [[x|f] st'].
  - destruct Hm as [HP Hq]. specialize (Hk x HP st' (alive_preserved _ _ Hq Hst)). destruct (k x st') as [r st2].
    destruct Hk as [Hr Hq2]. split; [done|]. intros q. by rewrite Hq2.
  - done.
Qed.

Lemma tame_bind {X Y} (m : M K X) (k : X -> M K Y) : tame m -> (forall x, tame (k x)) -> tame (m ≫= k).
Proof. intros Hm Hk. apply (tame_to_bind _ _ m k Hm). intros x _. apply Hk. Qed.

Lemma tame_to_ret {X} (Q : X -> Prop) (x : X) : Q x -> tame_to Q (mret x).
Proof. intros Hx st Hst. done. Qed.

Lemma tame_ret {X} (x : X) : tame (mret x).
Proof. by apply tame_to_ret. Qed.

Lemma tame_to_throw {X} (Q : X -> Prop) what : tame_to Q (M_throw what).
Proof. intros st Hst. done. Qed.

Lemma tame_throw {X} what : tame (M_throw (A := X) what).
Proof. apply tame_to_throw. Qed.

Lemma tame_deref : tame (deref p).
Proof. intros st (c & Hc & Hu). by rewrite (deref_Ok _ _ _ Hc Hu). Qed.

Lemma tame_store w : tame (store p w).
Proof.
  intros st (c & Hc & Hu). unfold store. rewrite Hc. simpl. split; [done|]. intros q.
  destruct (decide (q = p)) as [->|Hne]; [|by rewrite list_lookup_insert_ne].
  rewrite list_lookup_insert_eq by (by eapply lookup_lt_Some). by rewrite Hc.
Qed.

Lemma tame_call {X} (f : K -> X * K) : tame (call f).
Proof. intros st Hst. unfold call. by destruct (f (kernel st)). Qed.

Lemma tame_SystemCall what r errno mask : tame (SystemCall what r errno mask).
Proof. unfold SystemCall. case_decide; [apply tame_ret|apply tame_throw]. Qed.

Lemma tame_if {X} (P : Prop) `{Decision P} (m m' : M K X) : tame m -> tame m' -> tame (if decide P then m else m').
Proof. by case_decide. Qed.

#[local] Hint Resolve tame_bind tame_ret tame_throw tame_deref tame_store tame_call tame_SystemCall tame_if : tame.

Lemma read_tame limit : tame (read p limit).
Proof.
  unfold read, register_read. cbv zeta. apply tame_bind; [eauto with tame|intros w].
  apply tame_bind; [eauto with tame|intros answer].
  destruct (match answer with inl e => (-1, e, []) | inr d => (zlen d, 0, d) end) as [[r errno] data].
  repeat first [apply tame_if|apply tame_bind; [|intros ?]|progress eauto with tame].
Qed.
(** One write, whatever the kernel returns: a count below zero ends in an exception of
    [remove_prefix]. *)
Lemma write_once_tame buffer :
  zlen (contents buffer) < 2 ^ 63 ->
  tame_to (fun '(n, buffer') => contents buffer' = drop (Z.to_nat n) (contents buffer) /\
    n <= zlen (contents buffer) /\ (contents buffer <> [] -> 0 < n)) (write_once p buffer).
Proof.
  intros Hsize. pose proof (zlen_nonneg (contents buffer)). unfold write_once, fd_num, register_write.
  assert (Hsz : BufferViewList.size buffer = zlen (contents buffer))
    by (rewrite BufferViewList.size_concat; apply to_u64_small; unfold is_u64; lia).
  apply (tame_to_bind (fun _ => True)); [change (tame (w ← deref p; mret (_fd w))); eauto with tame|intros fd _].
  apply (tame_to_bind (fun _ => True)); [apply tame_call|intros [r errno] _].
  eapply (tame_to_bind (fun n => - 2 ^ 31 <= n < 2 ^ 31)); [|intros n Hn].
  { unfold SystemCall. case_decide; [apply tame_to_ret; width_lia|apply tame_to_throw]. }
  rewrite Hsz. replace (to_i64 (zlen (contents buffer))) with (zlen (contents buffer)) by width_lia.
  case_decide as Hzero; [apply tame_to_throw|]. case_decide as Hmore; [apply tame_to_throw|].
  apply (tame_to_bind (fun _ => True)); [apply tame_bind; eauto with tame|intros [] _].
  destruct (decide (0 <= n)) as [Hpos|Hneg].
  - rewrite to_u64_small by (unfold is_u64; lia).
    destruct (BufferViewList.remove_prefix_drops n buffer) as (buffer' & -> & Hb); [unfold is_u64; lia..|].
    apply tame_to_ret. split_and!; [done|lia|]. intros Hne. destruct (contents buffer); [done|].
    destruct (decide (n = 0)) as [->|]; [|lia]. destruct Hzero. split; [done|]. autorewrite with zlen.
    pose proof (zlen_nonneg l). lia.
  - rewrite BufferViewList.remove_prefix_beyond; [apply tame_to_throw|apply is_u64_to_u64|].
    width_lia.
Qed.

Lemma write_loop_tame fuel : forall buffer write_all total,
  zlen (contents buffer) < 2 ^ 63 -> zlen (contents buffer) < Z.of_nat fuel ->
  tame (write_loop fuel p buffer write_all total).
Proof.
  induction fuel as [|fuel IH]; intros buffer write_all total Hsize Hfuel.
  { pose proof (zlen_nonneg (contents buffer)). lia. }
  cbn [write_loop]. eapply tame_to_bind; [by apply write_once_tame|]. intros [n buffer'] (Hb & Hle & Hn).
  case_bool_decide as Hz; [|rewrite andb_false_r; apply tame_ret]. destruct write_all; [|apply tame_ret]. cbn [andb].
  assert (Hne : contents buffer <> []).
  { intros Hnil. rewrite Hnil, drop_nil in Hb. destruct Hz. by rewrite BufferViewList.size_concat, Hb. }
  specialize (Hn Hne). apply IH; rewrite Hb, zlen_drop; lia.
Qed.

(** Writing terminates, whatever the kernel returns. *)
Lemma write_tame buffer write_all : zlen (contents buffer) < 2 ^ 63 -> tame (write p buffer write_all).
Proof.
  intros Hsize. unfold write. pose proof (zlen_nonneg (contents buffer)).
  apply write_loop_tame; [done|]. rewrite BufferViewList.size_concat, to_u64_small by (unfold is_u64; lia). lia.
Qed.
Lemma close_tame : tame (close p).
Proof. unfold close. apply tame_bind; [apply tame_deref|intros w]. apply tame_bind; [apply tame_call|intros [r errno]]. eauto with tame. Qed.

Lemma register_read_tame : tame (register_read p).
Proof. unfold register_read. eauto with tame. Qed.

Lemma register_write_tame : tame (register_write p).
Proof. unfold register_write. eauto with tame. Qed.

Lemma fd_num_tame : tame (fd_num p).
Proof. unfold fd_num. eauto with tame. Qed.
End Tame.
#[export] Hint Resolve tame_bind tame_ret tame_throw tame_call tame_SystemCall tame_if fd_num_tame
  register_read_tame register_write_tame read_tame close_tame : tame.

(** ** Writing *)

(** The bytes of a list of I/O vectors. *)
Definition iov_bytes (iov : list (bytes * Z)) : bytes := concat (map fst iov).

(** What writev(2) promises for a blocking descriptor that accepts data: it writes a
    non-empty prefix of what it is given (all of nothing when there is nothing). *)
Record BlockingWrites {K} `{Kernel K} (fd : Z) (inv : K -> Prop) (output : K -> bytes) : Prop := {
  writev_prefix : forall iov k, inv k -> zlen (iov_bytes iov) < 2 ^ 31 ->
    exists n errno k', sys_writev fd iov k = (n, errno, k') /\ inv k' /\
      0 <= n <= zlen (iov_bytes iov) /\ (iov_bytes iov <> [] -> 0 < n) /\
      output k' = output k ++ take (Z.to_nat n) (iov_bytes iov)
}.

(** The heap cell after [n] more writes. *)
Definition written (n : Z) (c : cell) : cell :=
  let w := wrapper c in
  mk_cell (mk_wrapper (_fd w) (_eof w) (_closed w) (_read_count w) (to_u32 (_write_count w + n))) (use_count c).

Lemma written_written n m c : written n (written m c) = written (m + n) c.
Proof. unfold written. simpl. do 2 f_equal. width_lia. Qed.

Section Writing.
Context {K : Type} `{Kernel K} (fd : Z) (inv : K -> Prop) (output : K -> bytes).
Context (Hkernel : BlockingWrites fd inv output).

Lemma write_once_spec p buffer st c :
  heap st !! p = Some c -> use_count c > 0 -> _fd (wrapper c) = fd -> inv (kernel st) ->
  zlen (contents buffer) < 2 ^ 31 ->
  exists n buffer' k', write_once p buffer st = (Ok (n, buffer'), mk_state k' (<[p := written 1 c]> (heap st))) /\
    inv k' /\ 0 <= n <= zlen (contents buffer) /\ (contents buffer <> [] -> 0 < n) /\
    contents buffer' = drop (Z.to_nat n) (contents buffer) /\
    output k' = output (kernel st) ++ take (Z.to_nat n) (contents buffer).
Proof.
  intros Hc Huse Hfd Hinv Hsize. pose proof (zlen_nonneg (contents buffer)).
  destruct (writev_prefix _ _ _ Hkernel (BufferViewList.as_iovecs buffer) (kernel st) Hinv)
    as (n & errno & k' & E & Hinv' & Hn & Hpos & Hout); unfold iov_bytes in *; rewrite BufferViewList.concat_iovecs in *;
    [done|].
  assert (Hsz : BufferViewList.size buffer = zlen (contents buffer))
    by (rewrite BufferViewList.size_concat; apply to_u64_small; unfold is_u64; lia).
  destruct (BufferViewList.remove_prefix_drops n buffer) as (buffer' & Er & Hb); [unfold is_u64; lia|lia|].
  exists n, buffer', k'. split_and!; try done; [|lia..].
  unfold write_once, fd_num, deref, mbind, M_bind, mret, M_ret, call. rewrite Hc, decide_True by done.
  cbn [wrapper]. rewrite Hfd, E. unfold SystemCall.
  replace (to_i32 n) with n by width_lia. rewrite decide_True by lia. unfold mret, M_ret.
  rewrite Hsz. replace (to_i64 (zlen (contents buffer))) with (zlen (contents buffer)) by width_lia.
  rewrite decide_False; [|intros [-> Hnz]; destruct (contents buffer); [done|]; specialize (Hpos ltac:(done)); lia].
  rewrite decide_False by lia. unfold register_write, deref, store, mbind, M_bind. simpl.
  rewrite Hc, decide_True by done. simpl. rewrite Hc. unfold lift.
  rewrite to_u64_small by (unfold is_u64; lia). by rewrite Er.
Qed.

Lemma write_loop_spec fuel : forall p buffer st c total,
  heap st !! p = Some c -> use_count c > 0 -> _fd (wrapper c) = fd -> inv (kernel st) ->
  zlen (contents buffer) < Z.of_nat fuel -> zlen (contents buffer) < 2 ^ 31 ->
  0 <= total -> total + zlen (contents buffer) < 2 ^ 64 ->
  exists k' n, write_loop fuel p buffer true total st
      = (Ok (total + zlen (contents buffer)), mk_state k' (<[p := written n c]> (heap st))) /\
    inv k' /\ 1 <= n /\ output k' = output (kernel st) ++ contents buffer.
Proof.
  induction fuel as [|fuel IH]; intros p buffer st c total Hc Huse Hfd Hinv Hfuel Hsize Ht Hfit.
  { pose proof (zlen_nonneg (contents buffer)). lia. }
  destruct (write_once_spec p buffer st c Hc Huse Hfd Hinv Hsize) as (n & buffer' & k' & E & Hinv' & Hn & Hpos & Hb & Hout).
  cbn [write_loop]. unfold mbind, M_bind. rewrite E.
  assert (Hlen : zlen (contents buffer') = zlen (contents buffer) - n) by (rewrite Hb, zlen_drop; lia).
  assert (Hsz : BufferViewList.size buffer' = zlen (contents buffer'))
    by (rewrite BufferViewList.size_concat; apply to_u64_small; unfold is_u64; lia).
  rewrite Hsz. rewrite to_u64_small by (unfold is_u64; lia). cbn [andb]. case_bool_decide as Hz.
  - assert (Hne : contents buffer <> []) by (intros Hnil; rewrite Hnil in *; autorewrite with zlen in *; lia).
    specialize (Hpos Hne).
    destruct (IH p buffer' (mk_state k' (<[p := written 1 c]> (heap st))) (written 1 c) (total + n))
      as (k2 & m & E2 & Hinv2 & Hm & Hout2); simpl; try done; try lia.
    { rewrite list_lookup_insert_eq; [done|]. by eapply lookup_lt_Some. }
    exists k2, (1 + m). rewrite E2. split_and!; [|done|lia|].
    + simpl. rewrite list_insert_insert_eq, written_written. do 2 f_equal. lia.
    + rewrite Hout2. simpl. by rewrite Hout, Hb, <- app_assoc, take_drop.
  - exists k', 1. unfold mret, M_ret. split_and!; [do 2 f_equal; lia|done|lia|].
    rewrite Hout. f_equal. apply take_ge. unfold zlen in *. lia.
Qed.

(** Writing a buffer with [write_all] set, to a blocking descriptor that takes at least
    one byte per call, terminates, returns the length of the buffer, and appends exactly
    the bytes of the buffer to the descriptor's output, however the kernel splits the
    work; of the shared object it changes only the write count. *)
Lemma write_all_spec p buffer st c :
  heap st !! p = Some c -> use_count c > 0 -> _fd (wrapper c) = fd -> inv (kernel st) ->
  zlen (contents buffer) < 2 ^ 31 ->
  exists k' n, write p buffer true st
      = (Ok (zlen (contents buffer)), mk_state k' (<[p := written n c]> (heap st))) /\
    inv k' /\ 1 <= n /\ output k' = output (kernel st) ++ contents buffer.
Proof.
  intros Hc Huse Hfd Hinv Hsize. pose proof (zlen_nonneg (contents buffer)).
  assert (Hsz : BufferViewList.size buffer = zlen (contents buffer))
    by (rewrite BufferViewList.size_concat; apply to_u64_small; unfold is_u64; lia).
  by apply (write_loop_spec (S (Z.to_nat (BufferViewList.size buffer))) p buffer st c 0); try lia.
Qed.
End Writing.

(** ** Reading *)

(** The heap cell after a read of [data]. *)
Definition was_read (limit : Z) (data : bytes) (c : cell) : cell :=
  let w := wrapper c in
  mk_cell (mk_wrapper (_fd w) (_eof w || bool_decide (limit > 0 /\ data = [])) (_closed w)
    (to_u32 (_read_count w + 1)) (_write_count w)) (use_count c).

(** What [read] does with the answer of the kernel. *)
Lemma read_answer {K} `{Kernel K} p limit (st : state K) c answer k' :
  let w := wrapper c in
  let size_to_read := Z.min BUFFER_SIZE limit in
  heap st !! p = Some c -> use_count c > 0 ->
  sys_read (_fd w) size_to_read (kernel st) = (answer, k') ->
  read p limit st = (
    let '(r, errno, data) := match answer with inl e => (-1, e, []) | inr d => (zlen d, 0, d) end in
    bytes_read ← SystemCall "read" (to_i32 r) errno 0;
    _ ← (if decide (limit > 0 /\ bytes_read = 0)
         then store p (mk_wrapper (_fd w) true (_closed w) (_read_count w) (_write_count w)) else mret ());
    if decide (bytes_read > size_to_read) then M_throw "read() read more than requested" else
    if decide (bytes_read < 0) then M_throw "basic_string::_M_replace_aux" else
    _ ← register_read p; mret (take (Z.to_nat bytes_read) data)) (mk_state k' (heap st)).
Proof.
  intros w size_to_read Hc Huse E. unfold read, deref, call, mbind at 1 2, M_bind at 1 2.
  rewrite Hc, decide_True by done. fold w size_to_read. rewrite E. by destruct answer.
Qed.

(** An error of the kernel ends the read with an exception. *)
Lemma read_error {K} `{Kernel K} p limit (st : state K) c e k' :
  heap st !! p = Some c -> use_count c > 0 -> is_u64 limit ->
  sys_read (_fd (wrapper c)) (Z.min BUFFER_SIZE limit) (kernel st) = (inl e, k') ->
  exists what st', read p limit st = (throw what, st').
Proof.
  intros Hc Hu Hl E. rewrite (read_answer _ _ _ _ _ _ Hc Hu E). unfold SystemCall, mbind, M_bind.
  change (to_i32 (-1)) with (-1). case_decide; [|by do 2 eexists]. cbn [mret M_ret].
  rewrite decide_False by lia. cbn [mret M_ret]. rewrite decide_False, decide_True by (unfold is_u64, BUFFER_SIZE in *; lia).
  by do 2 eexists.
Qed.

Lemma read_data {K} `{Kernel K} p limit (st : state K) c data k' :
  heap st !! p = Some c -> use_count c > 0 -> is_u64 limit ->
  sys_read (_fd (wrapper c)) (Z.min BUFFER_SIZE limit) (kernel st) = (inr data, k') ->
  zlen data <= Z.min BUFFER_SIZE limit ->
  read p limit st = (Ok data, mk_state k' (<[p := was_read limit data c]> (heap st))).
Proof.
  intros Hc Huse Hlim E Hle. rewrite (read_answer _ _ _ _ _ _ Hc Huse E).
  assert (Hlt : (p < length (heap st))%nat) by (by eapply lookup_lt_Some).
  set (w := wrapper c) in *. pose proof (zlen_nonneg data).
  assert (Hsz : 0 <= zlen data <= 1048576) by (unfold BUFFER_SIZE in *; lia).
  replace (to_i32 (zlen data)) with (zlen data) by width_lia.
  assert (Hr : zlen data >= 0) by lia. rewrite (M_bind_Ok _ _ _ _ _ (SystemCall_Ok _ _ _ _ Hr)).
  rewrite (decide_False (P := zlen data > _)), (decide_False (P := zlen data < 0)) by lia.
  assert (Ht : take (Z.to_nat (zlen data)) data = data) by (apply take_ge; unfold zlen; lia).
  rewrite Ht. set (c' := mk_cell (mk_wrapper (_fd w) (_eof w || bool_decide (limit > 0 /\ data = [])) (_closed w)
    (_read_count w) (_write_count w)) (use_count c)).
  assert (Heof : (if decide (limit > 0 /\ zlen data = 0)
       then store p (mk_wrapper (_fd w) true (_closed w) (_read_count w) (_write_count w))
       else mret ()) (mk_state k' (heap st)) = (Ok (), mk_state k' (<[p := c']> (heap st)))).
  { unfold c'. destruct (decide (limit > 0 /\ zlen data = 0)) as [Hz|Hz].
    - rewrite bool_decide_true by (split; [apply Hz|apply zlen_0_nil, Hz]). rewrite orb_true_r.
      by rewrite (store_Ok _ _ _ c).
    - rewrite bool_decide_false by (intros [? ->]; apply Hz; done). rewrite orb_false_r. unfold mret, M_ret.
      do 2 f_equal. symmetry. apply list_insert_id. rewrite Hc. unfold w. by destruct c as [[]]. }
  rewrite (M_bind_Ok _ _ _ _ _ Heof).
  rewrite (M_bind_Ok _ _ _ _ _ (register_read_Ok p (mk_state k' (<[p := c']> (heap st))) c'
    (list_lookup_insert_eq _ _ _ Hlt) Huse)).
  unfold mret, M_ret. simpl. by rewrite list_insert_insert_eq.
Qed.

(** ** Properties *)

(** A kernel with one open descriptor, 7, that keeps what is written and takes at most
    three bytes per call. *)
#[global] Instance pipe_kernel : Kernel bytes := {|
  sys_read _ n k := (inr (take (Z.to_nat n) k), drop (Z.to_nat n) k);
  sys_writev _ iov k := (Z.min 3 (zlen (iov_bytes iov)), 0, k ++ take 3 (iov_bytes iov));
  sys_close fd k := if decide (fd = 7) then (0, 0, k) else (-1, 9, k);
  sys_fcntl _ _ _ k := (0, 0, k);
  strerror _ := "Bad file descriptor";
  put_error _ k := k
|}.

Example writes_in_pieces :
  write 0%nat (BufferViewList.mk [[Byte.x61; Byte.x62]; [Byte.x63; Byte.x64]]) true
    (mk_state [] [mk_cell (mk_wrapper 7 false false 0 0) 1])
  = (Ok 4, mk_state [Byte.x61; Byte.x62; Byte.x63; Byte.x64] [mk_cell (mk_wrapper 7 false false 0 2) 1]).
Proof. by vm_compute. Qed.

(** A state with one open handle. *)
Definition one_handle (k : bytes) : state bytes := mk_state k [mk_cell (mk_wrapper 7 false false 0 0) 1].

(** [read] on every branch: the bytes the kernel delivers are returned, at most
    [limit] and 1 MiB of them, the read is counted, and the end of file is recorded exactly
    when something was asked for and nothing came; a failing system call throws and
    changes only the kernel; a kernel that claims more bytes than were asked for makes
    [read] throw without counting the read. *)
Lemma read_outcomes {K} `{Kernel K} p limit (st : state K) c answer k' :
  let w := wrapper c in
  let size_to_read := Z.min BUFFER_SIZE limit in
  heap st !! p = Some c -> use_count c > 0 -> is_u64 limit ->
  sys_read (_fd w) size_to_read (kernel st) = (answer, k') ->
  match answer with
  | inr data =>
      (zlen data <= size_to_read ->
       read p limit st = (Ok data, mk_state k' (<[p := was_read limit data c]> (heap st)))) /\
      (size_to_read < zlen data < 2 ^ 31 ->
       read p limit st = (throw "read() read more than requested", mk_state k' (heap st)))
  | inl errno => errno <> 0 ->
      read p limit st = (throw (TaggedError.what (unix_error K "read" errno)), mk_state k' (heap st))
  end.
Proof.
  intros w size_to_read Hc Huse Hlim E. destruct answer as [errno|data].
  - intros He. rewrite (read_answer _ _ _ _ _ _ Hc Huse E). unfold SystemCall, mbind at 1, M_bind at 1.
    change (to_i32 (-1)) with (-1). by rewrite decide_False by lia.
  - split; intros Hle; [by apply read_data|]. rewrite (read_answer _ _ _ _ _ _ Hc Huse E). fold size_to_read.
    assert (Hsz : 0 <= size_to_read) by (unfold is_u64, size_to_read, BUFFER_SIZE in *; lia).
    replace (to_i32 (zlen data)) with (zlen data) by width_lia.
    unfold SystemCall, mbind, M_bind. rewrite decide_True by lia. unfold mret, M_ret.
    rewrite decide_False by lia. by rewrite decide_True by lia.
Qed.

(** Handles that come and go: [true] duplicates one, [false] destroys one. *)
Fixpoint share {K} `{Kernel K} (ops : list bool) (p : nat) : M K () :=
  match ops with
  | [] => mret ()
  | true :: ops' => _ ← duplicate p; share ops' p
  | false :: ops' => _ ← destroy p; share ops' p
  end.

(** The number of handles left, as long as no operation is applied to a dead object. *)
Fixpoint handles_left (ops : list bool) (n : Z) : option Z :=
  match ops with
  | [] => Some n
  | true :: ops' => if decide (n > 0) then handles_left ops' (n + 1) else None
  | false :: ops' => if decide (n > 0) then handles_left ops' (n - 1) else None
  end.

Lemma handles_left_dead ops m : handles_left ops 0 = Some m -> ops = [].
Proof. by destruct ops as [|[]]. Qed.

(** C28: however handles to one descriptor are duplicated and destroyed, the descriptor
    stays open while a handle is left, and the destruction of the last one closes it with
    exactly one close(2), whose failure does not escape but is reported on the standard
    error. *)
Theorem last_handle_closes {K} `{Kernel K} ops p (st : state K) c m :
  heap st !! p = Some c -> use_count c > 0 -> _closed (wrapper c) = false ->
  handles_left ops (use_count c) = Some m ->
  exists st', share ops p st = (Ok (), st') /\
    kernel st' = (if decide (m = 0) then after_close (_fd (wrapper c)) (kernel st) else kernel st) /\
    (m <> 0 -> heap st' = <[p := mk_cell (wrapper c) m]> (heap st)).
Proof.
  revert st c. induction ops as [|op ops IH]; intros st c Hc Huse Hopen Hleft.
  - injection Hleft as <-. exists st. split; [done|]. rewrite decide_False by lia. split; [done|].
    intros _. symmetry. apply list_insert_id. rewrite Hc. by destruct c.
  - assert (Hlt : (p < length (heap st))%nat) by (by eapply lookup_lt_Some).
    assert (Hstep : forall n, n > 0 -> handles_left ops n = Some m ->
      exists st', share ops p (mk_state (kernel st) (<[p := mk_cell (wrapper c) n]> (heap st))) = (Ok (), st') /\
        kernel st' = (if decide (m = 0) then after_close (_fd (wrapper c)) (kernel st) else kernel st) /\
        (m <> 0 -> heap st' = <[p := mk_cell (wrapper c) m]> (heap st))).
    { intros n Hn Hl. destruct (IH (mk_state (kernel st) (<[p := mk_cell (wrapper c) n]> (heap st))) (mk_cell (wrapper c) n))
        as (st' & E & Hk & Hh); simpl; try done; [by apply list_lookup_insert_eq|].
      exists st'. split_and!; [done|done|]. intros Hm. rewrite (Hh Hm). apply list_insert_insert_eq. }
    destruct op; cbn [share handles_left] in *; rewrite decide_True in Hleft by done; unfold mbind, M_bind.
    + unfold duplicate. rewrite Hc. by apply Hstep; [lia|].
    + destruct (decide (use_count c <> 1)) as [Hone|Hone].
      * unfold destroy. rewrite Hc, decide_True by done. apply Hstep; [lia|done].
      * assert (H1 : use_count c = 1) by lia. rewrite H1 in Hleft. change (1 - 1) with 0 in Hleft.
        pose proof (handles_left_dead ops m Hleft) as ->. injection Hleft as <-. rewrite decide_True by done.
        destruct (destroy_last p st c Hc H1 Hopen) as (st' & E & Hk & _). rewrite E. exists st'. by split_and!.
Qed.

Lemma last_handle_closes_witness :
  exists st', share [true; false; true; true; false; false; false] 0%nat (one_handle [Byte.x61]) = (Ok (), st') /\
    kernel st' = [Byte.x61].
Proof.
  destruct (last_handle_closes [true; false; true; true; false; false; false] 0%nat (one_handle [Byte.x61])
    (mk_cell (mk_wrapper 7 false false 0 0) 1) 0) as (st' & E & Hk & _); [reflexivity|concrete|reflexivity|reflexivity|].
  exists st'. split; [exact E|exact Hk].
Defined.

End FileDescriptor.
