(* ===== verification/Address.v ===== *)
(** * Socket addresses (libsponge/util/address.hh, .cc)

    An [Address] is a [sockaddr_storage] of 128 bytes and the number of its bytes in use.
    Name resolution is a library call: the class [Resolver] stands for it.  Integers in host
    byte order are little-endian here, as on the platforms the library is built for. *)

From stdpp Require Import pretty.
From S2P Require Import Prelude Errors Parser.

(** The fields of [struct addrinfo] that the library sets in its hints. *)
Record addrinfo : Set := mk_addrinfo { ai_flags : Z; ai_family : Z }.

(** [getaddrinfo]: the return code and the first result, its bytes and their number (or a null pointer);
    [getnameinfo]: the return code, the host and the service; [gai_strerror]: what a return code
    means. *)
Class Resolver := {
  getaddrinfo : string -> string -> addrinfo -> Z * option (bytes * Z);
  getnameinfo : bytes -> Z -> Z * string * string;
  gai_strerror : Z -> string
}.

Module Address.

Import BigEndian.

Definition sizeof_storage : Z := 128.
Definition sizeof_sockaddr_in : Z := 16.
Definition AF_INET : Z := 2.
Definition AI_NUMERICHOST : Z := 4.
Definition AI_ALL : Z := 16.
Definition AI_NUMERICSERV : Z := 1024.

(** [Address::Raw] is the storage; a value-initialized one is all zeros. *)
Definition Raw : Set := bytes.
Definition zeros (n : Z) : bytes := replicate (Z.to_nat n) Byte.x00.

Record Address : Set := mk { _size : Z; _address : Raw }.

#[global] Instance Address_eq_dec : EqDecision Address.
Proof. solve_decision. Defined.

(** [memcpy(dst, src, n)] *)
Definition memcpy (dst src : bytes) (n : Z) : res bytes :=
  if decide (n <= zlen dst /\ n <= zlen src)
  then Ok (take (Z.to_nat n) src ++ drop (Z.to_nat n) dst) else Err Undefined.

(** [Address(const sockaddr *addr, const std::size_t size)] *)
Definition of_sockaddr (addr : bytes) (size : Z) : res Address :=
  if decide (size > sizeof_storage) then throw "invalid sockaddr size" else
  storage ← memcpy (zeros sizeof_storage) addr size;
  Ok (mk (to_u32 size) storage).

(** [static inline addrinfo make_hints(const int ai_flags, const int ai_family)] *)
Definition make_hints (ai_flags ai_family : Z) : addrinfo := mk_addrinfo ai_flags ai_family.

(** [class gai_error_category] *)
Definition gai_error_category `{Resolver} : TaggedError.error_category :=
  TaggedError.mk_category "gai_error_category" gai_strerror.
Definition gai_error `{Resolver} (attempt : string) (error : Z) : string :=
  TaggedError.what (TaggedError.construct gai_error_category attempt error).

(** [Address(const std::string &node, const std::string &service, const addrinfo &hints)] *)
Definition resolve `{Resolver} (node service : string) (hints : addrinfo) : res Address :=
  let '(gai_ret, resolved_address) := getaddrinfo (TaggedError.c_str node) (TaggedError.c_str service) hints in
  if decide (gai_ret <> 0) then throw (gai_error ("getaddrinfo(" +:+ node +:+ ", " +:+ service +:+ ")") gai_ret) else
  match resolved_address with
  | None => throw "getaddrinfo returned successfully but with no results"
  | Some (ai_addr, ai_addrlen) => of_sockaddr ai_addr ai_addrlen
  end.

(** [Address(const std::string &hostname, const std::string &service)] *)
Definition of_hostname `{Resolver} (hostname service : string) : res Address :=
  resolve hostname service (make_hints AI_ALL AF_INET).

(** [Address(const std::string &ip, const std::uint16_t port)] *)
Definition of_ip_port `{Resolver} (ip : string) (port : Z) : res Address :=
  resolve ip (pretty port) (make_hints (Z.lor AI_NUMERICHOST AI_NUMERICSERV) AF_INET).

(** [std::stoi]: white space, an optional sign, then the longest run of digits, at least one;
    it throws without digits and when the number is not an [int]. *)
Definition char_code (c : Ascii.ascii) : Z := Z.of_N (Ascii.N_of_ascii c).
Definition digit (c : Ascii.ascii) : option Z :=
  if decide (48 <= char_code c <= 57) then Some (char_code c - 48) else None.
Definition isspace (c : Ascii.ascii) : bool :=
  bool_decide (9 <= char_code c <= 13 \/ char_code c = 32).
Fixpoint digits (s : string) (acc : Z) : Z :=
  match s with
  | String.String c s' => match digit c with Some d => digits s' (acc * 10 + d) | None => acc end
  | String.EmptyString => acc
  end.
Definition magnitude (s : string) : option Z :=
  match s with
  | String.String c _ => if decide (digit c = None) then None else Some (digits s 0)
  | String.EmptyString => None
  end.
Fixpoint skip_space (s : string) : string :=
  match s with String.String c s' => if isspace c then skip_space s' else s | String.EmptyString => s end.
Definition stoi (s : string) : res Z :=
  let s := skip_space s in
  let '(sign, s) :=
    match s with
    | String.String c s' =>
        if decide (char_code c = 45) then (-1, s') else if decide (char_code c = 43) then (1, s') else (1, s)
    | String.EmptyString => (1, s)
    end in
  match magnitude s with
  | None => throw "stoi"
  | Some m => let v := sign * m in if decide (- 2 ^ 31 <= v < 2 ^ 31) then Ok v else throw "stoi"
  end.

Example stoi_cases :
  (stoi "8080", stoi "  -12x", stoi "+", stoi "2147483648") = (Ok 8080, Ok (-12), throw "stoi", throw "stoi").
Proof. by vm_compute. Qed.

(** [std::pair<std::string, uint16_t> ip_port() const] *)
Definition ip_port `{Resolver} (a : Address) : res (string * Z) :=
  let '(gni_ret, ip, port) := getnameinfo (_address a) (_size a) in
  if decide (gni_ret <> 0) then throw (gai_error "getnameinfo" gni_ret) else
  p ← stoi port; Ok (ip, to_u16 p).
Definition ip `{Resolver} (a : Address) : res string := '(i, _) ← ip_port a; Ok i.
Definition port `{Resolver} (a : Address) : res Z := '(_, p) ← ip_port a; Ok p.

(** [std::string to_string() const] *)
Definition to_string `{Resolver} (a : Address) : res string :=
  '(i, p) ← ip_port a; Ok (i +:+ ":" +:+ pretty p).

(** The fields of a [sockaddr_in] inside its bytes: the family (host order), the port and the
    address (network order), then zeros. *)
Definition le_val (l : bytes) : Z := be_val (rev l).
Definition ss_family (storage : bytes) : Z := le_val (take 2 storage).
Definition sockaddr_in (family port addr : Z) : bytes :=
  rev (be_bytes 2 family) ++ be_bytes 2 port ++ be_bytes 4 addr ++ zeros 8.
Definition s_addr (sa : bytes) : bytes := take 4 (drop 4 sa).

(** [uint32_t ipv4_numeric() const] *)
Definition ipv4_numeric (a : Address) : res Z :=
  if decide (ss_family (_address a) <> AF_INET \/ _size a <> sizeof_sockaddr_in)
  then throw "ipv4_numeric called on non-IPV4 address" else
  ipv4_addr ← memcpy (zeros sizeof_sockaddr_in) (_address a) (_size a);
  Ok (be_val (s_addr ipv4_addr)).

(** [static Address from_ipv4_numeric(const uint32_t ip_address)] *)
Definition from_ipv4_numeric (ip_address : Z) : res Address :=
  of_sockaddr (sockaddr_in AF_INET 0 ip_address) sizeof_sockaddr_in.

(** [bool operator==(const Address &other) const], [operator!=] *)
Definition eqb (a b : Address) : bool :=
  if decide (_size a <> _size b) then false
  else bool_decide (take (Z.to_nat (_size a)) (_address a) = take (Z.to_nat (_size a)) (_address b)).
Definition neqb (a b : Address) : bool := negb (eqb a b).

(** [socklen_t size() const] *)
Definition size (a : Address) : Z := _size a.

(** ** Lemmas *)

Lemma length_sockaddr_in f p x : length (sockaddr_in f p x) = 16%nat.
Proof. unfold sockaddr_in. by rewrite !length_app, length_rev, !length_be_bytes. Qed.

Lemma s_addr_sockaddr f p x l : s_addr (sockaddr_in f p x ++ l) = be_bytes 4 x.
Proof.
  unfold s_addr, sockaddr_in. rewrite <- !app_assoc, (app_assoc (rev _)).
  rewrite drop_app_length' by (by rewrite length_app, length_rev, !length_be_bytes).
  by rewrite take_app_length' by (by rewrite length_be_bytes).
Qed.

(** The address of a number, in closed form. *)
Lemma from_ipv4_numeric_eq x :
  from_ipv4_numeric x = Ok (mk 16 (sockaddr_in AF_INET 0 x ++ zeros 112)).
Proof.
  unfold from_ipv4_numeric, of_sockaddr, memcpy. rewrite decide_False by (unfold sizeof_sockaddr_in, sizeof_storage; lia).
  rewrite decide_True by (unfold zlen; rewrite length_sockaddr_in; done). cbn [mbind res_bind].
  rewrite take_ge by (rewrite length_sockaddr_in; done). done.
Qed.

(** [getaddrinfo] gives as many bytes as it says: then resolving a name has a defined outcome. *)
Definition honest_resolver `{Resolver} : Prop :=
  forall node service hints ret addr len, getaddrinfo node service hints = (ret, Some (addr, len)) -> len <= zlen addr.

Lemma of_sockaddr_defined addr n : n <= zlen addr \/ sizeof_storage <= zlen addr -> defined (of_sockaddr addr n).
Proof.
  intros Ha. unfold of_sockaddr, memcpy. case_decide as Hn; [done|]. rewrite decide_True; [done|].
  change (zlen (zeros sizeof_storage)) with sizeof_storage. lia.
Qed.

Lemma resolve_defined `{Resolver} node service hints : honest_resolver -> defined (resolve node service hints).
Proof.
  intros Hr. unfold resolve. destruct (getaddrinfo _ _ _) as [ret [[addr len]|]] eqn:E; case_decide; try done.
  apply of_sockaddr_defined. left. by eapply Hr.
Qed.

(** ** Properties *)

(** C31: IPv4 addresses and 32-bit numbers correspond: the address made from a number
    reads back as that number and has the size of a [sockaddr_in]; two such addresses are
    equal exactly when the numbers are; an address of another family or size is rejected
    with an exception; and a raw address that would not fit the storage is refused. *)
Theorem address_ipv4_roundtrip x y :
  is_u32 x -> is_u32 y ->
  exists a b, from_ipv4_numeric x = Ok a /\ from_ipv4_numeric y = Ok b /\
    ipv4_numeric a = Ok x /\ size a = sizeof_sockaddr_in /\ (eqb a b = true <-> x = y) /\
    (forall c, ss_family (_address c) <> AF_INET \/ size c <> sizeof_sockaddr_in ->
       ipv4_numeric c = throw "ipv4_numeric called on non-IPV4 address") /\
    (forall addr n, sizeof_storage < n -> of_sockaddr addr n = throw "invalid sockaddr size").
Proof.
  intros Hx Hy. rewrite !from_ipv4_numeric_eq. do 2 eexists. split; [done|]. split; [done|].
  assert (Hval : forall z, is_u32 z -> be_val (be_bytes 4 z) = z)
    by (intros z Hz; rewrite be_val_bytes; apply Z.mod_small; done).
  split_and!; [|done| | |].
  - unfold ipv4_numeric. cbn [_size _address]. rewrite decide_False; [|intros [Hf|Hf]; by apply Hf].
    unfold memcpy. rewrite decide_True by (unfold sizeof_sockaddr_in, zlen; rewrite length_app, length_sockaddr_in; done).
    cbn [mbind res_bind]. change (Z.to_nat 16) with 16%nat. rewrite take_app_le by (rewrite length_sockaddr_in; done).
    rewrite take_ge by (rewrite length_sockaddr_in; done). rewrite s_addr_sockaddr. f_equal. by apply Hval.
  - unfold eqb. cbn [_size _address]. rewrite decide_False by (intros Hf; by apply Hf).
    change (Z.to_nat 16) with 16%nat. rewrite bool_decide_eq_true.
    rewrite !take_app_le, !take_ge by (rewrite length_sockaddr_in; done).
    split; [|by intros ->]. unfold sockaddr_in. intros E. apply app_inv_head in E. apply app_inv_head in E.
    apply app_inv_tail in E. rewrite <- (Hval x Hx), <- (Hval y Hy). by rewrite E.
  - intros c Hc. unfold ipv4_numeric. by rewrite decide_True.
  - intros addr n Hn. unfold of_sockaddr. by rewrite decide_True by lia.
Qed.

Lemma address_ipv4_roundtrip_witness :
  exists a b, from_ipv4_numeric 3232235777 = Ok a /\ from_ipv4_numeric 1 = Ok b /\ ipv4_numeric a = Ok 3232235777.
Proof.
  destruct (address_ipv4_roundtrip 3232235777 1) as (a & b & Ea & Eb & Hn & _); [concrete..|].
  exists a, b. split; [exact Ea|]. split; [exact Eb|exact Hn].
Defined.

End Address.
