(* ===== verification/EventLoop.v ===== *)
(** * The event loop (libsponge/util/eventloop.hh, .cc)

    Rules on file descriptors, each with a callback, an interest test and a cancellation
    callback; [wait_next_event] polls the interesting ones and runs the callbacks of the
    ready ones.  The closures of the rules are names whose meaning is a parameter: they may
    do anything to the world, also add rules while the loop runs.  poll(2) is a parameter. *)

From S2P Require Import Prelude Buffer FileDescriptor.

Record pollfd : Set := mk_pollfd { pfd : Z; events : Z; revents : Z }.

(** [poll]: the returned value, [errno] and the new [revents]. *)
Class PollKernel (K : Type) := { sys_poll : list pollfd -> Z -> K -> Z * Z * list Z * K }.

Module EventLoop.

Create HintDb safe.

Import FileDescriptor.

Definition POLLIN : Z := 1.
Definition POLLOUT : Z := 4.
Definition POLLERR : Z := 8.
Definition POLLHUP : Z := 16.
Definition POLLNVAL : Z := 32.
Definition EINTR : Z := 4.

Inductive Direction : Set := In | Out.
#[global] Instance Direction_eq_dec : EqDecision Direction.
Proof. solve_decision. Defined.
Definition direction_events (d : Direction) : Z := match d with In => POLLIN | Out => POLLOUT end.

Inductive Result : Set := Success | Timeout | Exit.

Record Rule (CB IN : Type) : Type := mk_rule {
  fd : nat;
  direction : Direction;
  callback : CB;
  interest : IN;
  cancel : CB
}.
Arguments mk_rule {CB IN} fd direction callback interest cancel.
Arguments fd {CB IN} _.
Arguments direction {CB IN} _.
Arguments callback {CB IN} _.
Arguments interest {CB IN} _.
Arguments cancel {CB IN} _.

(** The file descriptors and the kernel, the rules of the loop, and what the closures
    capture. *)
Record world (K CB IN A : Type) : Type := mk_world {
  io : state K;
  _rules : list (Rule CB IN);
  app : A
}.
Arguments mk_world {K CB IN A} io _rules app.
Arguments io {K CB IN A} _.
Arguments _rules {K CB IN A} _.
Arguments app {K CB IN A} _.

Definition W (K CB IN A X : Type) : Type := world K CB IN A -> res X * world K CB IN A.
#[global] Instance W_ret {K CB IN A} : MRet (W K CB IN A) := fun X x w => (Ok x, w).
#[global] Instance W_bind {K CB IN A} : MBind (W K CB IN A) := fun X Y k m w =>
  match m w with (Ok x, w') => k x w' | (Err f, w') => (Err f, w') end.
Definition W_throw {K CB IN A X} (what : string) : W K CB IN A X := fun w => (throw what, w).
Definition on_io {K CB IN A X} (m : M K X) : W K CB IN A X := fun w =>
  let '(r, st) := m (io w) in (r, mk_world st (_rules w) (app w)).

Definition on_rules {K CB IN A} (f : list (Rule CB IN) -> list (Rule CB IN)) : W K CB IN A () := fun w =>
  (Ok (), mk_world (io w) (f (_rules w)) (app w)).
Definition pure {K CB IN A X} (r : res X) : W K CB IN A X := fun w => (r, w).

Section Loop.
Context {K CB IN A : Type} `{Kernel K} `{PollKernel K}.
Context (run_callback : CB -> W K CB IN A ()) (run_interest : IN -> W K CB IN A bool).

(** [unsigned int Rule::service_count() const] *)
Definition service_count (r : Rule CB IN) : W K CB IN A Z :=
  on_io (match direction r with In => read_count (fd r) | Out => write_count (fd r) end).

(** [void add_rule(...)] *)
Definition add_rule (f : nat) (d : Direction) (cb : CB) (i : IN) (c : CB) : W K CB IN A () :=
  p ← on_io (duplicate f); on_rules (fun rules => push_back rules (mk_rule p d cb i c)).

(** [it = _rules.erase(it)] at position [i]: the rule and its handle are destroyed. *)
Definition erase (i : nat) (r : Rule CB IN) : W K CB IN A () :=
  _ ← on_io (destroy (fd r)); on_rules (delete i).

(** The loop that sets up the [pollfd] of each rule, at the rule in position [i]. *)
Fixpoint setup (fuel : nat) (i : nat) (pollfds : list pollfd) (something_to_poll : bool)
    : W K CB IN A (list pollfd * bool) := fun w =>
  match fuel with
  | O => (Err OutOfFuel, w)
  | S fuel' =>
      match _rules w !! i with
      | None => (Ok (pollfds, something_to_poll), w)
      | Some this_rule =>
          (at_eof ← (if decide (direction this_rule = In) then on_io (eof (fd this_rule)) else mret false);
           if at_eof : bool then
             _ ← run_callback (cancel this_rule); _ ← erase i this_rule;
             setup fuel' i pollfds something_to_poll
           else
           is_closed ← on_io (closed (fd this_rule));
           if is_closed : bool then
             _ ← run_callback (cancel this_rule); _ ← erase i this_rule;
             setup fuel' i pollfds something_to_poll
           else
           interested ← run_interest (interest this_rule);
           n ← on_io (fd_num (fd this_rule));
           if interested : bool then
             setup fuel' (S i) (push_back pollfds (mk_pollfd n (direction_events (direction this_rule)) 0)) true
           else setup fuel' (S i) (push_back pollfds (mk_pollfd n 0 0)) something_to_poll) w
      end
  end.

(** The loop over the poll results, at the rule in position [i] and the result [idx]. *)
Fixpoint dispatch (fuel : nat) (i : nat) (idx : nat) (pollfds : list pollfd) : W K CB IN A () := fun w =>
  match fuel with
  | O => (Err OutOfFuel, w)
  | S fuel' =>
      match _rules w !! i with
      | None => (Ok (), w)
      | Some this_rule =>
          (this_pollfd ← pure (at_ pollfds (Z.of_nat idx));
           let poll_error := bool_decide (Z.land (revents this_pollfd) (Z.lor POLLERR POLLNVAL) <> 0) in
           if poll_error then W_throw "EventLoop: error on polled file descriptor" else
           let poll_ready := bool_decide (Z.land (revents this_pollfd) (events this_pollfd) <> 0) in
           let poll_hup := bool_decide (Z.land (revents this_pollfd) POLLHUP <> 0) in
           if poll_hup && bool_decide (events this_pollfd <> 0) && negb poll_ready then
             _ ← run_callback (cancel this_rule); _ ← erase i this_rule;
             dispatch fuel' i (S idx) pollfds
           else if poll_ready then
             count_before ← service_count this_rule;
             _ ← run_callback (callback this_rule);
             count_after ← service_count this_rule;
             busy ← (if decide (count_before = count_after) then run_interest (interest this_rule)
                     else mret false);
             if busy : bool
             then W_throw "EventLoop: busy wait detected: callback did not read/write fd and is still interested"
             else dispatch fuel' (S i) (S idx) pollfds
           else dispatch fuel' (S i) (S idx) pollfds) w
      end
  end.

(** The [pollfd]s with what poll(2) reported. *)
Definition with_revents (pollfds : list pollfd) (rs : list Z) : list pollfd :=
  imap (fun i p => mk_pollfd (pfd p) (events p) (default 0 (rs !! i))) pollfds.

(** [Result wait_next_event(const int timeout_ms)]; each loop makes at most [fuel] rounds. *)
Definition wait_next_event (fuel : nat) (timeout_ms : Z) : W K CB IN A Result :=
  '(pollfds, something_to_poll) ← setup fuel 0 [] false;
  if negb something_to_poll then mret Exit else
  '(r, errno, rs) ← on_io (call (fun k => sys_poll pollfds timeout_ms k));
  if decide (to_i32 r >= 0 \/ errno = 0) then
    if decide (to_i32 r = 0) then mret Timeout
    else _ ← dispatch fuel 0 0 (with_revents pollfds rs); mret Success
  else if decide (errno = EINTR) then mret Exit
  else _ ← dispatch fuel 0 0 (with_revents pollfds rs); mret Success.
End Loop.

(** ** Safety *)

(** From a world that satisfies [P], [m] returns into [Q] or throws; it does not index
    outside a container or run out of fuel. *)
Definition safe {K CB IN A X} (P : world K CB IN A -> Prop) (m : W K CB IN A X)
    (Q : X -> world K CB IN A -> Prop) : Prop :=
  forall w, P w -> let '(r, w') := m w in
    match r with Ok x => Q x w' | Err (Exception _) => True | Err _ => False end.

Section Rules.
Context {K CB IN A : Type}.
Implicit Types (P : world K CB IN A -> Prop).

Lemma safe_bind {X Y} P (m : W K CB IN A X) (k : X -> W K CB IN A Y) Q R :
  safe P m Q -> (forall x, safe (Q x) (k x) R) -> safe P (m ≫= k) R.
Proof.
  intros Hm Hk w Hw. unfold mbind, W_bind. specialize (Hm w Hw). destruct (m w) as [[x|f] w']; [by apply Hk|done].
Qed.

Lemma safe_ret {X} P (x : X) : safe P (mret x) (fun y w => y = x /\ P w).
Proof. intros w Hw. done. Qed.

Lemma safe_weaken {X} P (m : W K CB IN A X) P' Q Q' :
  safe P' m Q' -> (forall w, P w -> P' w) -> (forall x w, Q' x w -> Q x w) -> safe P m Q.
Proof.
  intros Hm HP HQ w Hw. specialize (Hm w (HP w Hw)). destruct (m w) as [[x|f] w']; [by apply HQ|done].
Qed.
End Rules.

(** How many handles of a list refer to the object [p]. *)
Definition uses (p : nat) (handles : list nat) : Z := zlen (filter (fun q => q = p) handles).

(** The handles alive: one per rule, and those the closures captured. *)
Definition handles {K CB IN A} (owned : list nat) (w : world K CB IN A) : list nat :=
  map fd (_rules w) ++ owned.

(** Every handle alive is counted by the object it refers to. *)
Definition handles_ok {K CB IN A} (owned : list nat) (w : world K CB IN A) : Prop :=
  forall p, p ∈ handles owned w ->
    exists c, heap (io w) !! p = Some c /\ uses p (handles owned w) <= use_count c.

(** What the closures of the rules are assumed to do: return or throw, leave the rules of the
    loop alone and drop no handle (they may read, write and close). *)
Definition well_behaved {K CB IN A X} (owned : list nat) (m : W K CB IN A X) : Prop :=
  forall w, handles_ok owned w -> let '(r, w') := m w in
    match r with Ok _ | Err (Exception _) => True | Err _ => False end /\ _rules w' = _rules w /\
    forall p c, heap (io w) !! p = Some c ->
      exists c', heap (io w') !! p = Some c' /\ use_count c <= use_count c'.

Lemma uses_pos p l : p ∈ l -> 1 <= uses p l.
Proof.
  intros Hp. unfold uses. assert (Hf : p ∈ filter (fun q => q = p) l) by (by apply list_elem_of_filter).
  destruct (filter _ l) as [|q l']; [by apply elem_of_nil in Hf|]. rewrite zlen_cons. pose proof (zlen_nonneg l'). lia.
Qed.

Lemma uses_app p l l' : uses p (l ++ l') = uses p l + uses p l'.
Proof. unfold uses. by rewrite filter_app, zlen_app. Qed.

Lemma uses_delete {CB IN} p i (r : Rule CB IN) rules :
  rules !! i = Some r -> uses p (map fd (delete i rules)) = uses p (map fd rules) - (if decide (fd r = p) then 1 else 0).
Proof.
  intros Hr. rewrite delete_take_drop. rewrite <- (take_drop_middle rules i r Hr) at 3.
  rewrite !map_app, map_cons, !uses_app. unfold uses. rewrite filter_cons.
  case_decide; rewrite ?zlen_cons; lia.
Qed.

Section Safe.
Context {K CB IN A : Type} `{Kernel K} `{PollKernel K} (owned : list nat).
Implicit Types (w : world K CB IN A) (rules : list (Rule CB IN)).

(** The invariant of the two loops. *)
Definition loop_inv rules w : Prop := handles_ok owned w /\ _rules w = rules.

Lemma handle_alive w p :
  handles_ok owned w -> p ∈ handles owned w -> exists c, heap (io w) !! p = Some c /\ use_count c > 0.
Proof.
  intros Hw Hp. destruct (Hw p Hp) as (c & Hc & Hu). pose proof (uses_pos p _ Hp). exists c. split; [done|lia].
Qed.

Lemma rule_alive w rules i r :
  loop_inv rules w -> rules !! i = Some r -> exists c, heap (io w) !! fd r = Some c /\ use_count c > 0.
Proof.
  intros [Hw <-] Hr. apply handle_alive; [done|]. apply elem_of_app. left.
  apply list_elem_of_fmap. exists r. split; [done|]. by eapply list_elem_of_lookup_2.
Qed.

Lemma field_Ok {X} (f : FDWrapper -> X) i r rules w :
  loop_inv rules w -> rules !! i = Some r ->
  exists x, on_io (w ← deref (fd r); mret (f w)) w = (Ok x, w).
Proof.
  intros Hw Hr. destruct (rule_alive w rules i r Hw Hr) as (c & Hc & Hu). exists (f (wrapper c)).
  unfold on_io. rewrite (M_bind_Ok _ _ _ _ _ (deref_Ok _ _ _ Hc Hu)). simpl. by destruct w.
Qed.

Lemma safe_field {X} (f : FDWrapper -> X) i r rules :
  rules !! i = Some r -> safe (loop_inv rules) (on_io (w ← deref (fd r); mret (f w))) (fun _ => loop_inv rules).
Proof. intros Hr w Hw. by destruct (field_Ok f i r rules w Hw Hr) as [x ->]. Qed.

(** A closure returns or throws, and leaves the invariant either way. *)
Lemma closure_step {X} (m : W K CB IN A X) rules w :
  well_behaved owned m -> loop_inv rules w ->
  loop_inv rules (m w).2 /\ match (m w).1 with Ok _ | Err (Exception _) => True | Err _ => False end.
Proof.
  intros Hm [Hh Hr]. specialize (Hm w Hh). destruct (m w) as [o w'].
  destruct Hm as (Ho & Hr' & Hheap). simpl. split; [|done]. split; [|congruence].
  unfold handles_ok, handles in *. rewrite Hr'. intros p Hin. destruct (Hh p Hin) as (c & Hc & Hu).
  destruct (Hheap _ _ Hc) as (c' & Hc' & Hle). exists c'. split; [done|lia].
Qed.

Lemma safe_closure {X} (m : W K CB IN A X) rules :
  well_behaved owned m -> safe (loop_inv rules) m (fun _ => loop_inv rules).
Proof. intros Hm w Hw. destruct (closure_step m rules w Hm Hw) as [Hw' Ho]. by destruct (m w) as [[x|[]] w']. Qed.

Lemma erase_Ok i r rules w :
  loop_inv rules w -> rules !! i = Some r ->
  exists w', erase i r w = (Ok (), w') /\ loop_inv (delete i rules) w' /\ app w' = app w.
Proof.
  intros Hw Hr. destruct (rule_alive w rules i r Hw Hr) as (c & Hc & Hu). destruct Hw as [Hh <-].
  destruct (destroy_heap _ _ _ Hc Hu) as (st' & E & Hother & c' & Hc' & Hu').
  unfold erase, on_io, on_rules, mbind, W_bind. rewrite E. simpl. eexists. split; [done|]. split; [|done]. split; [|done].
  intros p Hin. unfold handles in *. simpl in *. rewrite uses_app, (uses_delete _ _ _ _ Hr).
  assert (Hin' : p ∈ handles owned w).
  { apply elem_of_app in Hin as [Hin|Hin]; apply elem_of_app; [left|by right].
    apply list_elem_of_fmap in Hin as (r' & -> & Hin). apply list_elem_of_fmap. exists r'. split; [done|].
    eapply elem_of_sublist; [done|apply sublist_delete]. }
  destruct (Hh p Hin') as (d & Hd & Hud). unfold handles in Hud. rewrite uses_app in Hud. case_decide as Heq.
  - subst p. rewrite Hc in Hd. injection Hd as <-. exists c'. split; [done|lia].
  - exists d. rewrite Hother by done. split; [done|lia].
Qed.

Lemma safe_erase i r rules :
  rules !! i = Some r -> safe (loop_inv rules) (erase i r) (fun _ => loop_inv (delete i rules)).
Proof. intros Hr w Hw. by destruct (erase_Ok i r rules w Hw Hr) as (w' & -> & ? & _). Qed.

#[local] Hint Resolve safe_field safe_closure safe_erase : safe.
#[local] Hint Extern 1 (safe _ (mret _) _) => eapply safe_weaken; [apply safe_ret|done|by intros ?? [? ?]] : safe.
#[local] Hint Extern 1 (safe _ (on_io (eof _)) _) => eapply (safe_field _eof) : safe.
#[local] Hint Extern 1 (safe _ (on_io (closed _)) _) => eapply (safe_field _closed) : safe.
#[local] Hint Extern 1 (safe _ (on_io (fd_num _)) _) => eapply (safe_field _fd) : safe.
Tactic Notation "safe_step" "as" simple_intropattern(x) := eapply safe_bind; [solve [eauto with safe]|intros x; cbv beta].

Context (run_callback : CB -> W K CB IN A ()) (run_interest : IN -> W K CB IN A bool).
Context (callbacks_ok : forall c, well_behaved owned (run_callback c)).
Context (interests_ok : forall i, well_behaved owned (run_interest i)).

(** The set-up loop leaves one [pollfd] per rule. *)
Definition setup_post rules (p : list pollfd * bool) w : Prop :=
  handles_ok owned w /\ length p.1 = length (_rules w) /\ (length (_rules w) <= length rules)%nat.

Lemma setup_safe fuel i pollfds b rules :
  length pollfds = i -> (i <= length rules < i + fuel)%nat ->
  safe (loop_inv rules) (setup run_callback run_interest fuel i pollfds b)
    (setup_post rules).
Proof.
  revert i pollfds b rules. induction fuel as [|fuel IH]; intros i pollfds b rules Hi Hf; [lia|].
  intros w Hw. simpl. rewrite (proj2 Hw). destruct (rules !! i) as [r|] eqn:Hr.
  - assert (Hlt := lookup_lt_Some _ _ _ Hr). pose proof (length_delete rules i (mk_is_Some _ _ Hr)) as Hdel.
    assert (Hcancel : forall b', safe (loop_inv rules)
        (_ ← run_callback (cancel r); _ ← erase i r; setup run_callback run_interest fuel i pollfds b')
        (setup_post rules)).
    { intros b'. safe_step as []. safe_step as []. eapply safe_weaken; [apply IH; [done|]|done|]; [lia|]. unfold setup_post. intuition lia. }
    refine (safe_bind (loop_inv rules) _ _ (fun _ => loop_inv rules) _ _ _ w Hw).
    { case_decide; eauto with safe. }
    intros []; [apply Hcancel|]. safe_step as []; [apply Hcancel|]. safe_step as interested. safe_step as n.
    assert (Hnext : forall p b', safe (loop_inv rules)
        (setup run_callback run_interest fuel (S i) (push_back pollfds p) b')
        (setup_post rules)).
    { intros p b'. apply IH; [unfold push_back; rewrite length_app; simpl|]; lia. }
    destruct interested; apply Hnext.
  - destruct Hw as [Hh Hrules]. apply lookup_ge_None in Hr. split; [done|]. simpl. rewrite Hrules. lia.
Qed.

Lemma safe_service_count i r rules :
  rules !! i = Some r -> safe (loop_inv rules) (service_count r) (fun _ => loop_inv rules).
Proof.
  intros Hr. unfold service_count. destruct (direction r); [eapply (safe_field _read_count)|eapply (safe_field _write_count)]; done.
Qed.
#[local] Hint Resolve safe_service_count : safe.

(** The loop over the results stays inside [pollfds] as long as one is left per rule. *)
Lemma dispatch_safe fuel i idx pollfds rules :
  (length pollfds + i = length rules + idx)%nat -> (i <= length rules < i + fuel)%nat ->
  safe (loop_inv rules) (dispatch run_callback run_interest fuel i idx pollfds) (fun _ => handles_ok owned).
Proof.
  revert i idx rules. induction fuel as [|fuel IH]; intros i idx rules Hi Hf; [lia|].
  intros w Hw. simpl. rewrite (proj2 Hw). destruct (rules !! i) as [r|] eqn:Hr; [|by destruct Hw].
  assert (Hlt := lookup_lt_Some _ _ _ Hr). pose proof (length_delete rules i (mk_is_Some _ _ Hr)) as Hdel.
  destruct (lookup_lt_is_Some_2 pollfds idx ltac:(lia)) as [pf Hpf].
  assert (Hat : safe (loop_inv rules) (pure (at_ pollfds (Z.of_nat idx))) (fun _ => loop_inv rules)).
  { intros w' Hw'. unfold pure, at_. rewrite decide_True, Nat2Z.id, Hpf by lia. done. }
  refine (safe_bind (loop_inv rules) _ _ _ _ Hat _ w Hw). intros p. cbv zeta.
  assert (Hnext : safe (loop_inv rules) (dispatch run_callback run_interest fuel (S i) (S idx) pollfds)
    (fun _ => handles_ok owned)) by (apply IH; lia).
  case_bool_decide; [done|]. destruct (_ && _ && _).
  - safe_step as []. safe_step as []. apply IH; lia.
  - case_bool_decide; [|done]. safe_step as before. safe_step as []. safe_step as after.
    eapply (safe_bind _ _ _ (fun _ => loop_inv rules)); [case_decide; eauto with safe|]. by intros [].
Qed.

Lemma wait_safe fuel timeout_ms rules :
  (length rules < fuel)%nat ->
  safe (loop_inv rules) (wait_next_event run_callback run_interest fuel timeout_ms) (fun _ => handles_ok owned).
Proof.
  intros Hf. unfold wait_next_event. eapply safe_bind; [by apply setup_safe; simpl; lia|].
  intros [pollfds b]. destruct b; simpl; [|intros w [? ?]; done].
  eapply (safe_bind _ _ _ (fun _ => setup_post rules (pollfds, true))).
  { intros w Hw. unfold on_io, call. destruct (sys_poll _ _ _) as [a k]. by destruct w. }
  intros [[r errno] rs].
  assert (Hd : safe (setup_post rules (pollfds, true))
    (_ ← dispatch run_callback run_interest fuel 0 0 (with_revents pollfds rs); mret Success) (fun _ => handles_ok owned)).
  { intros w (Hh & Hlen & Hle). simpl in Hlen.
    refine (safe_bind (loop_inv (_rules w)) _ _ _ _ (dispatch_safe _ _ _ _ _ _ _) _ w _); [..|done].
    - unfold with_revents. rewrite length_imap. lia.
    - lia.
    - intros _ w' Hw'. done. }
  case_decide; [case_decide; [|done]|case_decide; [|done]]; by intros w (Hh & _).
Qed.
End Safe.

(** ** Reading is well-behaved *)

Lemma on_io_well_behaved {K CB IN A X} owned p (m : M K X) :
  p ∈ owned -> tame p m -> well_behaved owned (on_io (CB := CB) (IN := IN) (A := A) m).
Proof.
  intros Hp Hm w Hw. unfold on_io. destruct (handle_alive owned w p Hw) as (c & Hc & Hu).
  { apply elem_of_app. by right. }
  specialize (Hm (io w) ltac:(by exists c)). destruct (m (io w)) as [r st]. destruct Hm as [Hr Hq].
  simpl. split; [done|]. split; [done|]. intros q d Hd. specialize (Hq q). rewrite Hd in Hq.
  apply fmap_Some in Hq as (d' & Hd' & Hu'). exists d'. split; [done|lia].
Qed.

(** ** Results of one call *)

(** C29: with closures that return or throw, keep the list of rules as it is and drop no handle
    they did not take, one call of [wait_next_event] returns a result or throws: its two loops
    end within one round more than there are rules, every [pollfds[idx]] is inside the vector,
    no handle is used after it was released, and each rule still holds its handle after. *)
Theorem wait_next_event_returns {K CB IN A} `{Kernel K} `{PollKernel K} (owned : list nat)
    (run_callback : CB -> W K CB IN A ()) (run_interest : IN -> W K CB IN A bool)
    (fuel : nat) (timeout_ms : Z) (w : world K CB IN A) :
  (forall c, well_behaved owned (run_callback c)) -> (forall i, well_behaved owned (run_interest i)) ->
  handles_ok owned w -> (length (_rules w) < fuel)%nat ->
  let '(r, w') := wait_next_event run_callback run_interest fuel timeout_ms w in
  (exists result, r = Ok result /\ handles_ok owned w') \/ (exists what, r = throw what).
Proof.
  intros Hc Hi Hh Hf.
  pose proof (wait_safe owned _ _ Hc Hi fuel timeout_ms (_rules w) Hf w (conj Hh eq_refl)) as Hs.
  destruct (wait_next_event _ _ _ _ w) as [[r|[|what|]] w']; try done; [left|right]; by eexists.
Qed.

(** With no reported event the second loop runs no closure. *)
Lemma dispatch_idle {K CB IN A} `{Kernel K} (run_callback : CB -> W K CB IN A ())
    (run_interest : IN -> W K CB IN A bool) fuel i pollfds w :
  length pollfds = length (_rules w) -> (i <= length (_rules w) < i + fuel)%nat ->
  dispatch run_callback run_interest fuel i i (with_revents pollfds []) w = (Ok (), w).
Proof.
  intros Hlen. revert i. induction fuel as [|fuel IH]; intros i Hf; [lia|]. simpl.
  destruct (_rules w !! i) as [r|] eqn:Hr; [|done]. apply lookup_lt_Some in Hr.
  destruct (lookup_lt_is_Some_2 pollfds i ltac:(lia)) as [pf Hpf].
  unfold mbind, W_bind at 1, pure, at_. rewrite decide_True, Nat2Z.id by lia.
  unfold with_revents. rewrite list_lookup_imap, Hpf. apply (IH (S i)). lia.
Qed.

(** C30: when poll(2) fails with an error other than [EINTR], the exception is caught and
    dropped: no closure of the second loop runs and the call returns [Success], where the
    comment on the function says that it throws. *)
Theorem poll_error_ignored {K CB IN A} `{Kernel K} `{PollKernel K}
    (run_callback : CB -> W K CB IN A ()) (run_interest : IN -> W K CB IN A bool)
    (fuel : nat) (timeout_ms : Z) (w w1 : world K CB IN A) (pollfds : list pollfd) (r errno : Z) (k' : K) :
  setup run_callback run_interest fuel 0 [] false w = (Ok (pollfds, true), w1) ->
  length pollfds = length (_rules w1) -> (length (_rules w1) < fuel)%nat ->
  sys_poll pollfds timeout_ms (kernel (io w1)) = (r, errno, [], k') ->
  to_i32 r < 0 -> errno <> 0 -> errno <> EINTR ->
  wait_next_event run_callback run_interest fuel timeout_ms w =
    (Ok Success, mk_world (mk_state k' (heap (io w1))) (_rules w1) (app w1)).
Proof.
  intros Hs Hlen Hf Hp Hr He He'. unfold wait_next_event, mbind, W_bind. rewrite Hs. simpl.
  unfold on_io, call. rewrite Hp. simpl. rewrite decide_False by lia. rewrite decide_False by done.
  rewrite dispatch_idle by (simpl; lia). done.
Qed.

(** ** Concrete runs *)

(** Polling the pipe of [FileDescriptor]: every descriptor is readable while it holds data;
    poll(2) fails with [ENOMEM] on a negative timeout. *)
#[global] Instance pipe_poll : PollKernel bytes := {|
  sys_poll pollfds timeout_ms k :=
    if decide (timeout_ms < 0) then (-1, 12, [], k)
    else let rs := map (fun p => if decide (k = []) then 0 else Z.land (events p) POLLIN) pollfds in
         (zlen (filter (fun r => r <> 0) rs), 0, rs, k)
|}.

(** A callback that reads two bytes, one that adds a rule after reading, one that does nothing. *)
Inductive action : Set := ReadTwo | ReadAndAdd | Nothing.
Definition run_action (a : action) : W bytes action () () () :=
  match a with
  | ReadTwo => _ ← on_io (read 0 2); mret ()
  | ReadAndAdd => _ ← on_io (read 0 2); add_rule 0 In Nothing () Nothing
  | Nothing => mret ()
  end.
Definition always (_ : ()) : W bytes action () () bool := mret true.

(** A loop with one rule on a pipe that holds three bytes. *)
Definition one_rule (a : action) : world bytes action () () :=
  (add_rule 0 In a () Nothing (mk_world (one_handle (replicate 3 Byte.x61)) [] ())).2.

(** Two calls read the pipe dry; the third finds nothing to read. *)
Example three_calls :
  let step w := wait_next_event run_action always 2 0 w in
  let '(r1, w1) := step (one_rule ReadTwo) in let '(r2, w2) := step w1 in let '(r3, w3) := step w2 in
  (r1, r2, r3) = (Ok Success, Ok Success, Ok Timeout) /\ kernel (io w3) = [] /\ length (_rules w3) = 1%nat.
Proof. by vm_compute. Qed.

(** A callback that adds a rule makes the loop index past the end of [pollfds]. *)
Example added_rule_reads_past_pollfds :
  (wait_next_event run_action always 3 0 (one_rule ReadAndAdd)).1 = Err Undefined.
Proof. by vm_compute. Qed.

Lemma poll_error_ignored_witness :
  exists w', wait_next_event run_action always 2 (-1) (one_rule ReadTwo) = (Ok Success, w') /\
    kernel (io w') = replicate 3 Byte.x61.
Proof.
  eexists. split.
  - apply (poll_error_ignored run_action always 2 (-1) (one_rule ReadTwo) (one_rule ReadTwo)
             [mk_pollfd 7 POLLIN 0] (-1) 12 (replicate 3 Byte.x61)); by vm_compute.
  - by vm_compute.
Defined.

(** Closures that read the captured handle (or do nothing) are well-behaved. *)
Definition run_read (b : bool) : W bytes bool () () () := on_io (if b then _ ← read 0 2; mret () else mret ()).
Definition curious (_ : ()) : W bytes bool () () bool := on_io (mret true).

Lemma run_read_ok b : well_behaved [0%nat] (run_read b).
Proof.
  apply (on_io_well_behaved _ 0%nat); [by left|]. destruct b; [|apply tame_ret].
  apply tame_bind; [apply read_tame|intros; apply tame_ret].
Qed.

Lemma curious_ok i : well_behaved [0%nat] (curious i).
Proof. apply (on_io_well_behaved _ 0%nat); [by left|apply tame_ret]. Qed.

Definition reading_world : world bytes bool () () :=
  (add_rule 0 In true () false (mk_world (one_handle (replicate 3 Byte.x61)) [] ())).2.

Lemma reading_world_ok : handles_ok [0%nat] reading_world.
Proof.
  intros p Hp. exists (mk_cell (mk_wrapper 7 false false 0 0) 2).
  apply list_elem_of_lookup_1 in Hp as [[|[|j]] Hj]; [injection Hj as <-..|done]; by vm_compute.
Qed.

Lemma wait_next_event_returns_witness :
  let '(r, w') := wait_next_event run_read curious 2 0 reading_world in
  (exists result, r = Ok result /\ handles_ok [0%nat] w') \/ (exists what, r = throw what).
Proof.
  apply (wait_next_event_returns [0%nat] run_read curious 2 0 reading_world run_read_ok curious_ok
           reading_world_ok). concrete.
Defined.

End EventLoop.
