(* ===== verification/EventLoopSpec.v ===== *)
(** * What one call of the event loop runs

    [EventLoop] shows that [wait_next_event] is safe; this file says which closures it
    runs.  [prepared] is the set-up of the call rule by rule: which rules are cancelled, from
    the end-of-file and closed marks of their descriptors, and what the others are polled
    for, from their interest tests.  The closures keep a log of their own runs, and one call
    appends to it the cancellations, then, in the order of the rules, what the poll results
    ask for. *)

From S2P Require Import Prelude FileDescriptor EventLoop.

Module EventLoopSpec.

Import FileDescriptor EventLoop.

(** ** What a poll result asks for *)

Inductive verdict : Set := Failed | Hangup | Ready | Idle.
#[global] Instance verdict_eq_dec : EqDecision verdict.
Proof. solve_decision. Defined.

Definition judge (p : pollfd) : verdict :=
  if decide (Z.land (revents p) (Z.lor POLLERR POLLNVAL) <> 0) then Failed else
  if decide (Z.land (revents p) (events p) <> 0) then Ready else
  if decide (Z.land (revents p) POLLHUP <> 0 /\ events p <> 0) then Hangup else Idle.

Section Serving.
Context {CB IN : Type}.

(** The closures that a rule runs for its result. *)
Definition served (step : Rule CB IN * pollfd) : list CB :=
  match judge step.2 with Failed | Idle => [] | Hangup => [cancel step.1] | Ready => [callback step.1] end.

(** The rules that are left. *)
Definition remaining (steps : list (Rule CB IN * pollfd)) : list (Rule CB IN) :=
  (filter (fun step => judge step.2 <> Hangup) steps).*1.

Lemma remaining_cons r p steps :
  remaining ((r, p) :: steps) = if decide (judge p = Hangup) then remaining steps else r :: remaining steps.
Proof. unfold remaining. rewrite filter_cons. simpl. repeat case_decide; done. Qed.
End Serving.

Lemma W_bind_assoc {K CB IN A X Y Z} (m : W K CB IN A X) (f : X -> W K CB IN A Y) (g : Y -> W K CB IN A Z) w :
  (x ← m; y ← f x; g y) w = (y ← (x ← m; f x); g y) w.
Proof. unfold mbind, W_bind. by destruct (m w) as [[x|] w']. Qed.

Lemma W_bind_Ok {K CB IN A X Y} (m : W K CB IN A X) (f : X -> W K CB IN A Y) w x w' :
  m w = (Ok x, w') -> (x ← m; f x) w = f x w'.
Proof. unfold mbind, W_bind. by intros ->. Qed.

Lemma W_bind_Err {K CB IN A X Y} (m : W K CB IN A X) (f : X -> W K CB IN A Y) w e w' :
  m w = (Err e, w') -> (x ← m; f x) w = (Err e, w').
Proof. unfold mbind, W_bind. by intros ->. Qed.

(** A list with its middle element deleted. *)
Lemma delete_between {X} (l : list X) x k : delete (length l) (l ++ x :: k) = l ++ k.
Proof. induction l; simpl; [done|by f_equal]. Qed.

(** ** The set-up *)

Section SetUp.
Context {K CB IN A : Type} `{Kernel K}.
Context (run_callback : CB -> W K CB IN A ()) (run_interest : IN -> W K CB IN A bool).
Implicit Types (w : world K CB IN A) (r : Rule CB IN) (kept todo : list (Rule CB IN)).

(** The descriptor of a rule, as it is now. *)
Definition descriptor r w : option FDWrapper := wrapper <$> heap (io w) !! fd r.

(** A rule is over when there is nothing more to read for it, or when it is closed. *)
Definition over r (d : FDWrapper) : bool :=
  bool_decide (direction r = In) && _eof d || _closed d.

(** What poll(2) is asked for. *)
Definition request r (d : FDWrapper) (interested : bool) : pollfd :=
  mk_pollfd (_fd d) (if interested then direction_events (direction r) else 0) 0.

(** [prepared kept todo w cancelled polled thrown w']: from the world [w], with the rules
    [kept] behind it and [todo] ahead, the set-up cancels the rules [cancelled], asks poll(2)
    for [polled], and ends in [w'], by an exception if [thrown] is its text. *)
Inductive prepared : list (Rule CB IN) -> list (Rule CB IN) -> world K CB IN A ->
    list (Rule CB IN) -> list (Rule CB IN * pollfd) -> option string -> world K CB IN A -> Prop :=
  | prepared_end kept w : prepared kept [] w [] [] None w
  | prepared_over kept r todo w d w1 st cancelled polled thrown w' :
      descriptor r w = Some d -> over r d = true ->
      run_callback (cancel r) w = (Ok (), w1) -> destroy (fd r) (io w1) = (Ok (), st) ->
      prepared kept todo (mk_world st (kept ++ todo) (app w1)) cancelled polled thrown w' ->
      prepared kept (r :: todo) w (r :: cancelled) polled thrown w'
  | prepared_cancel_throws kept r todo w d what w1 :
      descriptor r w = Some d -> over r d = true -> run_callback (cancel r) w = (throw what, w1) ->
      prepared kept (r :: todo) w [r] [] (Some what) w1
  | prepared_asked kept r todo w d interested w1 d1 cancelled polled thrown w' :
      descriptor r w = Some d -> over r d = false ->
      run_interest (interest r) w = (Ok interested, w1) -> descriptor r w1 = Some d1 ->
      prepared (kept ++ [r]) todo w1 cancelled polled thrown w' ->
      prepared kept (r :: todo) w cancelled ((r, request r d1 interested) :: polled) thrown w'
  | prepared_interest_throws kept r todo w d what w1 :
      descriptor r w = Some d -> over r d = false -> run_interest (interest r) w = (throw what, w1) ->
      prepared kept (r :: todo) w [] [] (Some what) w1.

(** The rule ahead decides which of the cases applies. *)
Lemma prepared_asked_inv kept r todo w d interested w1 d1 cancelled polled thrown w' :
  descriptor r w = Some d -> over r d = false ->
  run_interest (interest r) w = (Ok interested, w1) -> descriptor r w1 = Some d1 ->
  prepared kept (r :: todo) w cancelled polled thrown w' ->
  exists polled', polled = (r, request r d1 interested) :: polled' /\
    prepared (kept ++ [r]) todo w1 cancelled polled' thrown w'.
Proof.
  intros Hd Ho Hi Hd1. inversion 1; subst; unfold throw in *; try congruence.
  match goal with E : run_interest _ w = (Ok _, _) |- _ => rewrite Hi in E; injection E as -> -> end.
  simplify_eq. eauto.
Qed.

Lemma prepared_end_inv kept w cancelled polled thrown w' :
  prepared kept [] w cancelled polled thrown w' -> cancelled = [] /\ polled = [] /\ thrown = None /\ w' = w.
Proof. by inversion 1. Qed.
End SetUp.

(** ** The loops *)

Section Logged.
Context {K CB IN A : Type} `{Kernel K} `{PollKernel K} (owned : list nat) (log : A -> list CB).
Context (run_callback : CB -> W K CB IN A ()) (run_interest : IN -> W K CB IN A bool).
Implicit Types (w : world K CB IN A) (rules : list (Rule CB IN)).

(** The callbacks record that they run, also when they throw; the interest tests record
    nothing. *)
Record logged : Prop := {
  callback_ok c : well_behaved owned (run_callback c);
  interest_ok i : well_behaved owned (run_interest i);
  callback_logs c w : log (app (run_callback c w).2) = log (app w) ++ [c];
  interest_quiet i w : log (app (run_interest i w).2) = log (app w)
}.
Context (Hlog : logged).

(** The outcome of running a callback at a rule. *)
Lemma callback_step c rules w :
  loop_inv owned rules w ->
  exists o w', run_callback c w = (o, w') /\ loop_inv owned rules w' /\ log (app w') = log (app w) ++ [c] /\
    (o = Ok () \/ exists what, o = throw what).
Proof.
  intros Hw. destruct (closure_step owned _ rules w (callback_ok Hlog c) Hw) as [Hw' Ho].
  pose proof (callback_logs Hlog c w) as Hl. destruct (run_callback c w) as [o w']. exists o, w'.
  split_and!; [done..|]. destruct o as [[]|[]]; try done; [by left|right; by eexists].
Qed.

Lemma interest_step i rules w :
  loop_inv owned rules w ->
  exists o w', run_interest i w = (o, w') /\ loop_inv owned rules w' /\ log (app w') = log (app w) /\
    ((exists b, o = Ok b) \/ exists what, o = throw what).
Proof.
  intros Hw. destruct (closure_step owned _ rules w (interest_ok Hlog i) Hw) as [Hw' Ho].
  pose proof (interest_quiet Hlog i w) as Hl. destruct (run_interest i w) as [o w']. exists o, w'.
  split_and!; [done..|]. destruct o as [b|[]]; try done; [left|right]; by eexists.
Qed.

Lemma service_count_Ok i r rules w :
  loop_inv owned rules w -> rules !! i = Some r -> exists n, service_count r w = (Ok n, w).
Proof.
  intros Hw Hr. unfold service_count. destruct (direction r);
    [eapply (field_Ok owned _read_count)|eapply (field_Ok owned _write_count)]; done.
Qed.

(** Running the cancellation and erasing the rule in the middle. *)
Lemma cancel_step kept r todo w :
  loop_inv owned (kept ++ r :: todo) w ->
  exists o w', (_ ← run_callback (cancel r); erase (length kept) r) w = (o, w') /\
    log (app w') = log (app w) ++ [cancel r] /\
    (o = Ok () /\ loop_inv owned (kept ++ todo) w' \/ exists what, o = throw what).
Proof.
  intros Hw. destruct (callback_step (cancel r) _ w Hw) as (o & w1 & E & Hw1 & Hl & Ho).
  unfold mbind, W_bind. rewrite E. destruct Ho as [->|[what ->]]; [|exists (throw what), w1; eauto].
  destruct (erase_Ok owned (length kept) r _ w1 Hw1) as (w2 & E2 & Hw2 & Ha); [by apply list_lookup_middle|].
  exists (Ok ()), w2. rewrite E2, Ha. rewrite delete_between in Hw2. auto.
Qed.

(** What [dispatch] did when it stops: everything, or up to the rule at which it threw. *)
Definition dispatched (steps : list (Rule CB IN * pollfd)) kept w (o : res ()) w' : Prop :=
  match o with
  | Ok _ => log (app w') = log (app w) ++ flat_map served steps /\ _rules w' = kept ++ remaining steps /\
            Forall (fun step => judge step.2 <> Failed) steps
  | Err (Exception _) => exists done step rest, steps = done ++ step :: rest /\ judge step.2 <> Idle /\
            log (app w') = log (app w) ++ flat_map served (done ++ [step])
  | Err _ => False
  end.

Lemma dispatched_cons r p steps kept kept' w w1 o w' :
  log (app w1) = log (app w) ++ served (r, p) -> judge p <> Failed ->
  kept' = (if decide (judge p = Hangup) then kept else kept ++ [r]) ->
  dispatched steps kept' w1 o w' -> dispatched ((r, p) :: steps) kept w o w'.
Proof.
  unfold dispatched. intros Hl Hp -> Hd. destruct o as [?|[]]; try done.
  - destruct Hd as (-> & -> & Hall). rewrite Hl, <- app_assoc, remaining_cons. split_and!; [done| |by constructor].
    case_decide; [done|]. by rewrite <- app_assoc.
  - destruct Hd as (done_ & step & rest & -> & Hi & ->). exists ((r, p) :: done_), step, rest.
    by rewrite Hl, <- app_assoc.
Qed.

Lemma dispatched_throw r p steps kept w w' what :
  judge p <> Idle -> log (app w') = log (app w) ++ served (r, p) ->
  dispatched ((r, p) :: steps) kept w (throw what) w'.
Proof. intros Hp Hl. exists [], (r, p), steps. simpl. by rewrite app_nil_r. Qed.

(** A rule whose descriptor is ready: its callback runs, and it must make progress or lose
    interest. *)
Lemma ready_step r p kept todo steps w k :
  judge p = Ready -> loop_inv owned (kept ++ r :: todo) w ->
  (forall w1, loop_inv owned (kept ++ r :: todo) w1 -> log (app w1) = log (app w) ++ served (r, p) ->
     dispatched ((r, p) :: steps) kept w (k w1).1 (k w1).2) ->
  let '(o, w') :=
    (count_before ← service_count r;
     _ ← run_callback (callback r);
     count_after ← service_count r;
     busy ← (if decide (count_before = count_after) then run_interest (interest r) else mret false);
     if busy : bool
     then W_throw "EventLoop: busy wait detected: callback did not read/write fd and is still interested"
     else k) w in
  dispatched ((r, p) :: steps) kept w o w'.
Proof.
  intros Hp Hw Hk. assert (Hr : (kept ++ r :: todo) !! length kept = Some r) by (by apply list_lookup_middle).
  assert (Hthrow : forall what w', log (app w') = log (app w) ++ served (r, p) ->
    dispatched ((r, p) :: steps) kept w (throw what) w') by (intros; apply dispatched_throw; congruence).
  assert (Hs : served (r, p) = [callback r]) by (unfold served; simpl; by rewrite Hp).
  destruct (service_count_Ok _ _ _ w Hw Hr) as [before E]. rewrite (W_bind_Ok _ _ _ _ _ E).
  destruct (callback_step (callback r) _ w Hw) as (o & w1 & E1 & Hw1 & Hl1 & [->|[what ->]]); rewrite <- Hs in Hl1.
  2:{ rewrite (W_bind_Err _ _ _ _ _ E1). by apply Hthrow. }
  rewrite (W_bind_Ok _ _ _ _ _ E1).
  destruct (service_count_Ok _ _ _ w1 Hw1 Hr) as [after E2]. rewrite (W_bind_Ok _ _ _ _ _ E2).
  case_decide.
  - destruct (interest_step (interest r) _ w1 Hw1) as (o & w2 & E3 & Hw2 & Hl2 & [[[] ->]|[what ->]]).
    + rewrite (W_bind_Ok _ _ _ _ _ E3). apply Hthrow. congruence.
    + rewrite (W_bind_Ok _ _ _ _ _ E3). specialize (Hk w2 Hw2). destruct (k w2). apply Hk. congruence.
    + rewrite (W_bind_Err _ _ _ _ _ E3). apply Hthrow. congruence.
  - rewrite (W_bind_Ok (mret false) _ w1 false w1) by done. specialize (Hk w1 Hw1 Hl1). by destruct (k w1).
Qed.

Lemma dispatch_spec fuel : forall todo pfs kept idx pollfds w,
  loop_inv owned (kept ++ todo) w -> drop idx pollfds = pfs -> length pfs = length todo -> (length todo < fuel)%nat ->
  let '(o, w') := dispatch run_callback run_interest fuel (length kept) idx pollfds w in
  dispatched (zip todo pfs) kept w o w'.
Proof.
  induction fuel as [|fuel IH]; intros todo pfs kept idx pollfds w Hw Hd Hlen Hf; [lia|].
  cbn [dispatch]. rewrite (proj2 Hw). destruct todo as [|r todo].
  { destruct pfs; [|done]. rewrite lookup_ge_None_2 by (rewrite app_nil_r; lia). simpl.
    rewrite !app_nil_r. split_and!; [done| |constructor]. rewrite (proj2 Hw). apply app_nil_r. }
  destruct pfs as [|p pfs]; [done|]. rewrite list_lookup_middle by done. simpl in Hlen, Hf.
  assert (Hp : pollfds !! idx = Some p) by (rewrite <- (Nat.add_0_r idx), <- lookup_drop, Hd; done).
  assert (Hd' : drop (S idx) pollfds = pfs) by (erewrite drop_S in Hd by done; by injection Hd).
  rewrite (W_bind_Ok _ _ _ p w) by (unfold pure, at_; by rewrite decide_True, Nat2Z.id, Hp by lia).
  cbv zeta. cbn [zip zip_with].
  assert (Hnext : forall w1, loop_inv owned (kept ++ r :: todo) w1 -> log (app w1) = log (app w) ++ served (r, p) ->
    judge p <> Failed -> judge p <> Hangup ->
    let '(o, w') := dispatch run_callback run_interest fuel (S (length kept)) (S idx) pollfds w1 in
    dispatched ((r, p) :: zip todo pfs) kept w o w').
  { intros w1 Hw1 Hl Hn1 Hn2. specialize (IH todo pfs (kept ++ [r]) (S idx) pollfds w1).
    rewrite length_app, Nat.add_1_r in IH. rewrite <- app_assoc in IH. specialize (IH Hw1 Hd' ltac:(lia) ltac:(lia)).
    destruct (dispatch _ _ _ _ _ _ _) as [o w']. eapply dispatched_cons; [done|done| |exact IH]. by rewrite decide_False. }
  case_bool_decide as Hfail.
  { apply dispatched_throw; unfold served, judge; simpl; rewrite decide_True by done; [done|by rewrite app_nil_r]. }
  destruct (decide (Z.land (revents p) (events p) <> 0)) as [Hready|Hready].
  { rewrite (bool_decide_true (Z.land (revents p) (events p) <> 0)) by done. rewrite andb_false_r. assert (Hj : judge p = Ready) by (unfold judge; by rewrite decide_False, decide_True by tauto).
    apply (ready_step r p kept todo); [done|done|]. intros w1 Hw1 Hl. specialize (Hnext w1 Hw1 Hl).
    rewrite Hj in Hnext. destruct (dispatch _ _ _ _ _ _ _). by apply Hnext. }
  rewrite (bool_decide_false (Z.land (revents p) (events p) <> 0)) by done. rewrite andb_true_r.
  destruct (bool_decide _ && _) eqn:Hh.
  - assert (Hj : judge p = Hangup).
    { unfold judge. rewrite !andb_true_iff, !bool_decide_eq_true in Hh. repeat case_decide; tauto. }
    rewrite W_bind_assoc. destruct (cancel_step kept r todo w Hw) as (o & w1 & E & Hl & Ho).
    assert (Hs : log (app w1) = log (app w) ++ served (r, p)) by (rewrite Hl; unfold served; simpl; by rewrite Hj).
    destruct Ho as [[-> Hw1]|[what ->]].
    + rewrite (W_bind_Ok _ _ _ _ _ E). specialize (IH todo pfs kept (S idx) pollfds w1 Hw1 Hd' ltac:(lia) ltac:(lia)).
      destruct (dispatch _ _ _ _ _ _ _). eapply dispatched_cons; [done|congruence| |exact IH]. by rewrite decide_True.
    + rewrite (W_bind_Err _ _ _ _ _ E). by apply dispatched_throw; [congruence|].
  - assert (Hj : judge p = Idle).
    { apply not_true_iff_false in Hh. unfold judge.
      rewrite !andb_true_iff, !bool_decide_eq_true in Hh. repeat case_decide; tauto. }
    apply Hnext; [done| |congruence..]. unfold served. simpl. by rewrite Hj, app_nil_r.
Qed.

(** Nothing is polled for. *)
Definition nothing_asked (polled : list (Rule CB IN * pollfd)) : Prop := Forall (fun step => events step.2 = 0) polled.
#[global] Instance nothing_asked_dec polled : Decision (nothing_asked polled).
Proof. unfold nothing_asked. apply _. Defined.

Lemma nothing_asked_cons b r d interested polled :
  (b || interested) || negb (bool_decide (nothing_asked polled))
  = b || negb (bool_decide (nothing_asked ((r, request r d interested) :: polled))).
Proof.
  rewrite <- orb_assoc. f_equal. unfold nothing_asked, request. destruct interested; simpl.
  - rewrite bool_decide_false; [done|]. intros Hall. apply Forall_cons in Hall as [He _]. by destruct (direction r).
  - f_equal. apply bool_decide_ext. rewrite Forall_cons. by intuition.
Qed.

(** What the set-up loop does is what [prepared] says. *)
Definition setup_outcome (pollfds : list pollfd) (b : bool) (polled : list (Rule CB IN * pollfd)) (thrown : option string)
    : res (list pollfd * bool) :=
  match thrown with
  | None => Ok (pollfds ++ polled.*2, b || negb (bool_decide (nothing_asked polled)))
  | Some what => throw what
  end.

Definition setup_does kept todo w pollfds b (res : _ * world K CB IN A) : Prop :=
  exists cancelled polled thrown w',
    prepared run_callback run_interest kept todo w cancelled polled thrown w' /\
    log (app w') = log (app w) ++ map cancel cancelled /\
    res = (setup_outcome pollfds b polled thrown, w') /\
    (thrown = None -> loop_inv owned (kept ++ polled.*1) w').

Lemma rule_descriptor i r rules w :
  loop_inv owned rules w -> rules !! i = Some r ->
  exists d, descriptor r w = Some d /\ forall X (f : FDWrapper -> X), on_io (w ← deref (fd r); mret (f w)) w = (Ok (f d), w).
Proof.
  intros Hw Hr. destruct (rule_alive owned w rules i r Hw Hr) as (c & Hc & Hu). exists (wrapper c).
  unfold descriptor. rewrite Hc. split; [done|]. intros X f.
  unfold on_io. rewrite (M_bind_Ok _ _ _ _ _ (deref_Ok _ _ _ Hc Hu)). simpl. by destruct w.
Qed.

Lemma setup_cancels kept r todo w d pollfds b k :
  loop_inv owned (kept ++ r :: todo) w -> descriptor r w = Some d -> over r d = true ->
  (forall w1, loop_inv owned (kept ++ todo) w1 -> setup_does kept todo w1 pollfds b (k w1)) ->
  setup_does kept (r :: todo) w pollfds b ((_ ← run_callback (cancel r); _ ← erase (length kept) r; k) w).
Proof.
  intros Hw Hd Ho Hk. destruct (callback_step (cancel r) _ w Hw) as (o & w1 & E & Hw1 & Hl & [->|[what ->]]).
  - rewrite (W_bind_Ok _ _ _ _ _ E).
    destruct (erase_Ok owned (length kept) r _ w1 Hw1) as (w2 & E2 & Hw2 & _); [by apply list_lookup_middle|].
    rewrite (W_bind_Ok _ _ _ _ _ E2). revert E2. unfold erase, on_io, on_rules, mbind, W_bind.
    destruct (destroy (fd r) (io w1)) as [[[]|] st] eqn:Ed; [|done]. simpl. rewrite (proj2 Hw1), delete_between in *.
    intros [= <-]. destruct (Hk _ Hw2) as (cancelled & polled & thrown & w' & Hp & Hl' & Ek & Hi).
    exists (r :: cancelled), polled, thrown, w'. split_and!; [by eapply prepared_over| |done|done].
    simpl in *. by rewrite Hl', Hl, <- app_assoc.
  - rewrite (W_bind_Err _ _ _ _ _ E). exists [r], [], (Some what), w1. split_and!; [by eapply prepared_cancel_throws|done|done|done].
Qed.

Lemma setup_asks kept r todo w d pollfds b k :
  loop_inv owned (kept ++ r :: todo) w -> descriptor r w = Some d -> over r d = false ->
  (forall w1 p b', loop_inv owned (kept ++ r :: todo) w1 ->
     setup_does (kept ++ [r]) todo w1 (push_back pollfds p) b' (k p b' w1)) ->
  setup_does kept (r :: todo) w pollfds b
    ((interested ← run_interest (interest r);
      n ← on_io (fd_num (fd r));
      if interested : bool then k (mk_pollfd n (direction_events (direction r)) 0) true else k (mk_pollfd n 0 0) b) w).
Proof.
  intros Hw Hd Ho Hk. destruct (interest_step (interest r) _ w Hw) as (o & w1 & E & Hw1 & Hl & [[interested ->]|[what ->]]).
  - rewrite (W_bind_Ok _ _ _ _ _ E).
    destruct (rule_descriptor (length kept) r _ w1 Hw1) as (d1 & Hd1 & Hf); [by apply list_lookup_middle|].
    rewrite (W_bind_Ok _ _ _ _ _ (Hf _ _fd)).
    match goal with |- setup_does _ _ _ _ _ ?x => replace x with (k (request r d1 interested) (b || interested) w1) end;
      [|destruct interested; by rewrite ?orb_true_r, ?orb_false_r].
    destruct (Hk w1 (request r d1 interested) (b || interested) Hw1)
      as (cancelled & polled & thrown & w' & Hp & Hl' & -> & Hi).
    exists cancelled, ((r, request r d1 interested) :: polled), thrown, w'.
    split_and!; [by eapply prepared_asked|congruence| |].
    + destruct thrown; [done|]. simpl. unfold push_back. by rewrite <- app_assoc, (nothing_asked_cons b r d1).
    + intros Ht. specialize (Hi Ht). by rewrite <- app_assoc in Hi.
  - rewrite (W_bind_Err _ _ _ _ _ E). exists [], [], (Some what), w1.
    split_and!; [by eapply prepared_interest_throws|by rewrite Hl, app_nil_r|done|done].
Qed.

Lemma setup_spec fuel : forall todo kept pollfds b w,
  loop_inv owned (kept ++ todo) w -> (length todo < fuel)%nat ->
  setup_does kept todo w pollfds b (setup run_callback run_interest fuel (length kept) pollfds b w).
Proof.
  induction fuel as [|fuel IH]; intros todo kept pollfds b w Hw Hf; [lia|].
  cbn [setup]. rewrite (proj2 Hw). destruct todo as [|r todo].
  { rewrite lookup_ge_None_2 by (rewrite app_nil_r; lia). exists [], [], None, w.
    simpl. rewrite !app_nil_r, orb_false_r in *. split_and!; [constructor|done..]. }
  assert (Hr : (kept ++ r :: todo) !! length kept = Some r) by (by apply list_lookup_middle). rewrite Hr. simpl in Hf.
  destruct (rule_descriptor _ r _ w Hw Hr) as (d & Hd & Hfield).
  assert (Hcancel : over r d = true -> setup_does kept (r :: todo) w pollfds b
    ((_ ← run_callback (cancel r); _ ← erase (length kept) r; setup run_callback run_interest fuel (length kept) pollfds b) w)).
  { intros Ho. eapply setup_cancels; [done..|]. intros w1 Hw1. apply IH; [done|lia]. }
  assert (He : (if decide (direction r = In) then on_io (eof (fd r)) else mret false) w
    = (Ok (bool_decide (direction r = In) && _eof d), w)).
  { case_decide; [rewrite bool_decide_true by done; apply (Hfield _ _eof)|by rewrite bool_decide_false by done]. }
  rewrite (W_bind_Ok _ _ _ _ _ He). unfold over in Hcancel. destruct (bool_decide _ && _eof d) eqn:Eo; [by apply Hcancel|].
  rewrite (W_bind_Ok _ _ _ _ _ (Hfield _ _closed)). destruct (_closed d) eqn:Ec; [by apply Hcancel|].
  apply (setup_asks kept r todo w d pollfds b
    (fun p b' => setup run_callback run_interest fuel (S (length kept)) (push_back pollfds p) b')).
  - done.
  - done.
  - unfold over. by rewrite Eo, Ec.
  - intros w1 p b' Hw1. specialize (IH todo (kept ++ [r]) (push_back pollfds p) b' w1).
    rewrite length_app, Nat.add_1_r in IH. apply IH; [by rewrite <- app_assoc|lia].
Qed.
(** What a call does with the poll results, from the world [w] after poll(2). *)
Definition serves (steps : list (Rule CB IN * pollfd)) w (o : res Result) w' : Prop :=
  (o = Ok Success /\ log (app w') = log (app w) ++ flat_map served steps /\ _rules w' = remaining steps /\
     Forall (fun step => judge step.2 <> Failed) steps) \/
  (exists what done step rest, o = throw what /\ steps = done ++ step :: rest /\ judge step.2 <> Idle /\
     log (app w') = log (app w) ++ flat_map served (done ++ [step])).

Lemma dispatch_serves fuel pollfds w :
  handles_ok owned w -> length pollfds = length (_rules w) -> (length (_rules w) < fuel)%nat ->
  let '(o, w') := (_ ← dispatch run_callback run_interest fuel 0 0 pollfds; mret Success) w in
  serves (zip (_rules w) pollfds) w o w'.
Proof.
  intros Hh Hlen Hf. pose proof (dispatch_spec fuel (_rules w) pollfds [] 0 pollfds w) as Hd. cbn [length] in Hd.
  unfold mbind, W_bind. destruct (dispatch run_callback run_interest fuel 0 0 pollfds w) as [o w'].
  specialize (Hd ltac:(done) ltac:(done) Hlen Hf). destruct o as [[]|[|what|]]; try done; [left; by destruct Hd|right].
  destruct Hd as (done_ & step & rest & ? & ? & ?). by exists what, done_, step, rest.
Qed.

(** The set-up never adds rules. *)
Lemma prepared_length kept todo w cancelled polled thrown w' :
  prepared run_callback run_interest kept todo w cancelled polled thrown w' -> (length polled <= length todo)%nat.
Proof. induction 1; simpl; lia. Qed.
End Logged.

(** The world after poll(2) left the kernel in [k]. *)
Definition polled_world {K CB IN A} (k : K) (w : world K CB IN A) : world K CB IN A :=
  mk_world (mk_state k (heap (io w))) (_rules w) (app w).

(** ** Properties *)

(** C17: one call of [wait_next_event] runs exactly the closures that the descriptors ask
    for, in the order of the rules.  First the rules are prepared: a rule whose descriptor is
    at the end of the file (and that reads) or closed has its cancellation run once, is
    removed and its handle is destroyed; every other rule is kept and polled for the events of
    its direction if its interest test says so and for none if not.  An exception in a
    closure ends the call there.  If no events are asked for the call returns [Exit] without
    calling poll(2); after a poll(2) that reports nothing it returns [Timeout], and after one
    that was interrupted, [Exit].  Otherwise the rules are served in order: a ready one runs
    its callback, one that only hung up runs its cancellation and is removed, the others run
    nothing; the call returns [Success] only if no result is an error.  If it throws, the
    rules before the offending one were served and the later ones were not. *)
Theorem wait_next_event_serves {K CB IN A} `{Kernel K} `{PollKernel K} (owned : list nat) (log : A -> list CB)
    (run_callback : CB -> W K CB IN A ()) (run_interest : IN -> W K CB IN A bool)
    (fuel : nat) (timeout_ms : Z) (w : world K CB IN A) :
  logged owned log run_callback run_interest -> handles_ok owned w -> (length (_rules w) < fuel)%nat ->
  exists cancelled polled thrown w1,
    prepared run_callback run_interest [] (_rules w) w cancelled polled thrown w1 /\
    log (app w1) = log (app w) ++ map cancel cancelled /\
    let '(o, w') := wait_next_event run_callback run_interest fuel timeout_ms w in
    match thrown with
    | Some what => o = throw what /\ w' = w1
    | None =>
        _rules w1 = polled.*1 /\
        if decide (nothing_asked polled) then o = Ok Exit /\ w' = w1 else
        let '(r, errno, rs, k) := sys_poll polled.*2 timeout_ms (kernel (io w1)) in
        if decide (to_i32 r = 0) then o = Ok Timeout /\ w' = polled_world k w1 else
        if decide (to_i32 r < 0 /\ errno = EINTR) then o = Ok Exit /\ w' = polled_world k w1 else
        serves log (zip (_rules w1) (with_revents polled.*2 rs)) (polled_world k w1) o w'
    end.
Proof.
  intros Hlog Hh Hf.
  destruct (setup_spec owned log _ _ Hlog fuel (_rules w) [] [] false w)
    as (cancelled & polled & thrown & w1 & Hp & Hl & Es & Hi); [done|done|].
  exists cancelled, polled, thrown, w1. split_and!; [done|done|]. cbn [length] in Es.
  pose proof (prepared_length _ _ _ _ _ _ _ _ _ Hp) as Hle. unfold wait_next_event.
  destruct thrown as [what|]; [by rewrite (W_bind_Err _ _ _ _ _ Es)|]. destruct (Hi eq_refl) as [Hh1 Hr1]. simpl in Hr1.
  rewrite (W_bind_Ok _ _ _ _ _ Es). cbn [orb List.app]. rewrite negb_involutive.
  destruct (decide (nothing_asked polled)) as [Hn|Hn]; [by rewrite bool_decide_true by done|].
  rewrite bool_decide_false by done. unfold on_io at 1, call at 1, mbind at 1, W_bind at 1.
  destruct (sys_poll polled.*2 timeout_ms (kernel (io w1))) as [[[r errno] rs] k]. fold (polled_world k w1).
  pose proof (dispatch_serves owned log run_callback run_interest Hlog fuel (with_revents polled.*2 rs) (polled_world k w1)) as Hd.
  assert (Hlen : length (with_revents polled.*2 rs) = length (_rules (polled_world k w1))).
  { unfold with_revents. rewrite length_imap, length_fmap. simpl. by rewrite Hr1, length_fmap. }
  specialize (Hd Hh1 Hlen). simpl _rules in Hd. rewrite Hr1, length_fmap in Hd.
  specialize (Hd ltac:(lia)). rewrite Hr1.
  assert (HEINTR : EINTR = 4) by done. repeat case_decide; try (exfalso; lia); try (exfalso; tauto); try done.
  all: by match type of Hd with let '(_, _) := ?served in _ => destruct served end.
Qed.

(** Closures that read the captured handle and write down that they ran. *)
Definition run_and_log (b : bool) : W bytes bool () (list bool) () := fun w =>
  let '(r, w') := on_io (if b then _ ← read 0 2; mret () else mret ()) w in
  (r, mk_world (io w') (_rules w') (app w' ++ [b])).
Definition look (_ : ()) : W bytes bool () (list bool) bool := on_io (mret true).

Lemma run_and_log_ok : logged [0%nat] id run_and_log look.
Proof.
  split.
  - intros b w Hw. unfold run_and_log.
    assert (Hb : well_behaved [0%nat] (on_io (CB := bool) (IN := ()) (A := list bool)
      (if b then _ ← read 0 2; mret () else mret ()))).
    { apply (on_io_well_behaved _ 0%nat); [by left|]. destruct b; [|apply tame_ret].
      apply tame_bind; [apply read_tame|intros; apply tame_ret]. }
    specialize (Hb w Hw). by destruct (on_io _ w).
  - intros i. apply (on_io_well_behaved _ 0%nat); [by left|apply tame_ret].
  - intros b w. unfold run_and_log, on_io. by repeat case_match; simplify_eq.
  - done.
Defined.

Definition logging_world : world bytes bool () (list bool) :=
  (add_rule 0 In true () false (mk_world (one_handle (replicate 3 Byte.x61)) [] [])).2.

Lemma logging_world_ok : handles_ok [0%nat] logging_world.
Proof.
  intros p Hp. exists (mk_cell (mk_wrapper 7 false false 0 0) 2).
  apply list_elem_of_lookup_1 in Hp as [[|[|j]] Hj]; [injection Hj as <-..|done]; by vm_compute.
Qed.

(** The pipe is readable, so the callback of the rule runs, once. *)
Lemma wait_next_event_serves_witness :
  exists w', wait_next_event run_and_log look 2 0 logging_world = (Ok Success, w') /\ app w' = [] ++ [true].
Proof.
  destruct (wait_next_event_serves [0%nat] id run_and_log look 2 0 logging_world run_and_log_ok logging_world_ok)
    as (cancelled & polled & thrown & w1 & Hp & Hl & Hs); [concrete|].
  assert (E : exists w', wait_next_event run_and_log look 2 0 logging_world = (Ok Success, w')) by (eexists; vm_compute; reflexivity).
  destruct E as [w' E]. exists w'. split; [exact E|]. rewrite E in Hs. clear E.
  destruct (prepared_asked_inv run_and_log look [] (mk_rule 0 In true () false) [] logging_world
    (mk_wrapper 7 false false 0 0) true logging_world (mk_wrapper 7 false false 0 0)
    cancelled polled thrown w1 eq_refl eq_refl eq_refl eq_refl Hp) as (polled' & -> & Hrest).
  apply prepared_end_inv in Hrest as (-> & -> & -> & ->). destruct Hs as [_ Hs].
  rewrite decide_False in Hs by (intros Hn; by apply Forall_cons in Hn as [? _]).
  destruct Hs as [(_ & Hs & _)|(what & _ & _ & _ & ? & _)]; [exact Hs|done].
Defined.

End EventLoopSpec.
