(* ===== verification/Socket.v ===== *)
(** * Sockets (libsponge/util/socket.hh, .cc)

    [Socket] and its subclasses are [FileDescriptor]s: an object is a handle of the heap of
    [FileDescriptor], and every method is a computation over that heap and the kernel.  The
    socket calls of the kernel are a parameter (class [SocketKernel]). *)

From S2P Require Import Prelude Errors Buffer Parser FileDescriptor Address.

(** The socket calls, each with the returned value and [errno].  Calls that fill a variable
    of the caller also return what they stored there: [getsockopt] the option (or nothing)
    and its length, the address calls the bytes of the address and its length, [recvfrom] the
    bytes of the datagram and then the address. *)
Class SocketKernel (K : Type) := {
  sys_socket : Z -> Z -> Z -> K -> Z * Z * K;
  sys_getsockopt : Z -> Z -> Z -> Z -> K -> Z * Z * (option Z * Z) * K;
  sys_setsockopt : Z -> Z -> Z -> Z -> Z -> K -> Z * Z * K;
  sys_getsockname : Z -> Z -> K -> Z * Z * (bytes * Z) * K;
  sys_getpeername : Z -> Z -> K -> Z * Z * (bytes * Z) * K;
  sys_bind : Z -> bytes -> Z -> K -> Z * Z * K;
  sys_connect : Z -> bytes -> Z -> K -> Z * Z * K;
  sys_shutdown : Z -> Z -> K -> Z * Z * K;
  sys_listen : Z -> Z -> K -> Z * Z * K;
  sys_accept : Z -> K -> Z * Z * K;
  sys_recvfrom : Z -> Z -> Z -> Z -> K -> Z * Z * (bytes * (bytes * Z)) * K;
  sys_sendmsg : Z -> option bytes -> Z -> list (bytes * Z) -> K -> Z * Z * K
}.

Module Socket.

Import FileDescriptor.

Definition AF_UNIX : Z := 1.
Definition SOCK_STREAM : Z := 1.
Definition SOCK_DGRAM : Z := 2.
Definition SOL_SOCKET : Z := 1.
Definition SO_REUSEADDR : Z := 2.
Definition SO_TYPE : Z := 3.
Definition SO_DOMAIN : Z := 39.
Definition SHUT_RD : Z := 0.
Definition SHUT_WR : Z := 1.
Definition SHUT_RDWR : Z := 2.
Definition MSG_TRUNC : Z := 32.
Definition sizeof_int : Z := 4.

(** The storage of [n] bytes after a call wrote [data] at its start. *)
Definition filled (storage data : bytes) : bytes :=
  take (length storage) (data ++ drop (length data) storage).

Section Operations.
Context {K : Type} `{Kernel K} `{SocketKernel K}.

(** [Socket(const int domain, const int type)] *)
Definition construct (domain type : Z) : M K nat :=
  '(r, errno) ← call (sys_socket domain type 0);
  fd ← SystemCall "socket" r errno 0;
  FileDescriptor.construct fd.

(** One check of [Socket(FileDescriptor &&fd, const int domain, const int type)]: the option
    is read into [actual_value], which nothing initialized. *)
Definition verify_option (p : nat) (actual_value : option Z) (option expected : Z) (what : string)
    : M K (Datatypes.option Z) :=
  fd ← fd_num p;
  '(r, errno, (stored, len)) ← call (sys_getsockopt fd SOL_SOCKET option sizeof_int);
  _ ← SystemCall "getsockopt" r errno 0;
  let actual_value := match stored with Some v => Some v | None => actual_value end in
  if decide (len <> sizeof_int) then M_throw what else
  match actual_value with
  | None => lift (Err Undefined)
  | Some v => if decide (v <> expected) then M_throw what else mret actual_value
  end.

(** [Socket(FileDescriptor &&fd, const int domain, const int type)], taking over the handle [p] *)
Definition of_fd (p : nat) (domain type : Z) : M K nat :=
  or_destroy p (
    actual_value ← verify_option p None SO_DOMAIN domain "socket domain mismatch";
    _ ← verify_option p actual_value SO_TYPE type "socket type mismatch";
    mret p).

(** [Address get_address(name_of_function, function) const] *)
Definition get_address (name_of_function : string) (function : Z -> Z -> K -> Z * Z * (bytes * Z) * K)
    (p : nat) : M K Address.Address :=
  let address := Address.zeros Address.sizeof_storage in
  fd ← fd_num p;
  '(r, errno, (stored, size)) ← call (function fd Address.sizeof_storage);
  _ ← SystemCall_string name_of_function r errno 0;
  lift (Address.of_sockaddr (filled address stored) (to_u32 size)).

(** [Address local_address() const], [Address peer_address() const] *)
Definition local_address : nat -> M K Address.Address := get_address "getsockname" sys_getsockname.
Definition peer_address : nat -> M K Address.Address := get_address "getpeername" sys_getpeername.

(** [void bind(const Address &address)] *)
Definition bind (p : nat) (address : Address.Address) : M K () :=
  fd ← fd_num p;
  '(r, errno) ← call (sys_bind fd (Address._address address) (Address.size address));
  _ ← SystemCall "bind" r errno 0; mret ().

(** [void connect(const Address &address)] *)
Definition connect (p : nat) (address : Address.Address) : M K () :=
  fd ← fd_num p;
  '(r, errno) ← call (sys_connect fd (Address._address address) (Address.size address));
  _ ← SystemCall "connect" r errno 0; mret ().

(** [void shutdown(const int how)] *)
Definition shutdown (p : nat) (how : Z) : M K () :=
  fd ← fd_num p;
  '(r, errno) ← call (sys_shutdown fd how);
  _ ← SystemCall "shutdown" r errno 0;
  if decide (how = SHUT_RD) then register_read p
  else if decide (how = SHUT_WR) then register_write p
  else if decide (how = SHUT_RDWR) then _ ← register_read p; register_write p
  else M_throw "Socket::shutdown() called with invalid `how`".

(** [void setsockopt(const int level, const int option, const option_type &option_value)] for
    options of type [int], and [void set_reuseaddr()] *)
Definition setsockopt (p : nat) (level option option_value : Z) : M K () :=
  fd ← fd_num p;
  '(r, errno) ← call (sys_setsockopt fd level option option_value sizeof_int);
  _ ← SystemCall "setsockopt" r errno 0; mret ().
Definition set_reuseaddr (p : nat) : M K () := setsockopt p SOL_SOCKET SO_REUSEADDR 1.

End Operations.

(** ** UDP *)

(** [struct received_datagram] *)
Record received_datagram : Set := mk_datagram { source_address : Address.Address; payload : bytes }.

Section UDP.
Context {K : Type} `{Kernel K} `{SocketKernel K}.

(** [UDPSocket()], [UDPSocket(FileDescriptor &&fd)] *)
Definition udp_socket : M K nat := construct Address.AF_INET SOCK_DGRAM.
Definition udp_of_fd (p : nat) : M K nat := of_fd p Address.AF_INET SOCK_DGRAM.

(** [std::string::resize] *)
Definition resize (n : Z) (s : bytes) : bytes :=
  take (Z.to_nat n) s ++ replicate (Z.to_nat n - length s) Byte.x00.

(** [void recv(received_datagram &datagram, const size_t mtu)], returning [datagram] *)
Definition recv_into (p : nat) (datagram : received_datagram) (mtu : Z) : M K received_datagram :=
  let datagram_source_address := Address.zeros Address.sizeof_storage in
  let buffer := resize mtu (payload datagram) in
  fd ← fd_num p;
  '(r, errno, (data, (from, fromlen))) ←
    call (sys_recvfrom fd mtu MSG_TRUNC Address.sizeof_storage);
  recv_len ← SystemCall "recvfrom" (to_i32 r) errno 0;
  if decide (recv_len > to_i64 mtu) then M_throw "recvfrom (oversized datagram)" else
  _ ← register_read p;
  source ← lift (Address.of_sockaddr (filled datagram_source_address from) (to_u32 fromlen));
  if decide (recv_len < 0) then M_throw "basic_string::_M_replace_aux" else
  mret (mk_datagram source (resize recv_len (filled buffer data))).

(** [received_datagram recv(const size_t mtu)] *)
Definition recv (p : nat) (mtu : Z) : M K received_datagram :=
  nowhere ← lift (Address.of_sockaddr [] 0);
  recv_into p (mk_datagram nowhere []) mtu.

(** [void sendmsg_helper(fd_num, destination_address, destination_address_len, payload)] *)
Definition sendmsg_helper (fd_num : Z) (destination_address : option bytes) (destination_address_len : Z)
    (payload : BufferViewList.BufferViewList) : M K () :=
  let iovecs := BufferViewList.as_iovecs payload in
  '(r, errno) ← call (sys_sendmsg fd_num destination_address destination_address_len iovecs);
  bytes_sent ← SystemCall "sendmsg" (to_i32 r) errno 0;
  if decide (to_u64 bytes_sent <> BufferViewList.size payload)
  then M_throw "datagram payload too big for sendmsg()" else mret ().

(** [void sendto(const Address &destination, const BufferViewList &payload)] *)
Definition sendto (p : nat) (destination : Address.Address) (payload : BufferViewList.BufferViewList) : M K () :=
  fd ← fd_num p;
  _ ← sendmsg_helper fd (Some (Address._address destination)) (Address.size destination) payload;
  register_write p.

(** [void send(const BufferViewList &payload)] *)
Definition send (p : nat) (payload : BufferViewList.BufferViewList) : M K () :=
  fd ← fd_num p;
  _ ← sendmsg_helper fd None 0 payload;
  register_write p.
End UDP.

(** ** TCP and local sockets *)

Section Stream.
Context {K : Type} `{Kernel K} `{SocketKernel K}.

(** [TCPSocket()], [TCPSocket(FileDescriptor &&fd)], [LocalStreamSocket(FileDescriptor &&fd)] *)
Definition tcp_socket : M K nat := construct Address.AF_INET SOCK_STREAM.
Definition tcp_of_fd (p : nat) : M K nat := of_fd p Address.AF_INET SOCK_STREAM.
Definition local_stream_of_fd (p : nat) : M K nat := of_fd p AF_UNIX SOCK_STREAM.

(** [void listen(const int backlog)] *)
Definition listen (p : nat) (backlog : Z) : M K () :=
  fd ← fd_num p;
  '(r, errno) ← call (sys_listen fd backlog);
  _ ← SystemCall "listen" r errno 0; mret ().

(** [TCPSocket accept()] *)
Definition accept (p : nat) : M K nat :=
  _ ← register_read p;
  fd ← fd_num p;
  '(r, errno) ← call (sys_accept fd);
  new_fd ← SystemCall "accept" r errno 0;
  q ← FileDescriptor.construct new_fd;
  tcp_of_fd q.
End Stream.

(** ** Lemmas *)

Ltac m_step H := rewrite (M_bind_Ok _ _ _ _ _ H).

Lemma verify_option_spec {K} `{Kernel K} `{SocketKernel K} p actual option expected what st c v errno k :
  heap st !! p = Some c -> use_count c > 0 ->
  sys_getsockopt (_fd (wrapper c)) SOL_SOCKET option sizeof_int (kernel st) = (0, errno, (Some v, sizeof_int), k) ->
  verify_option p actual option expected what st
    = (if decide (v = expected) then Ok (Some v) else throw what, mk_state k (heap st)).
Proof.
  intros Hc Hu E. unfold verify_option. m_step (fd_num_Ok _ _ _ Hc Hu). m_step (call_Ok _ _ _ _ E).
  m_step (SystemCall_Ok "getsockopt" 0 errno (mk_state k (heap st)) ltac:(lia)).
  rewrite decide_False by (intros Hf; by apply Hf). case_decide; case_decide; done.
Qed.

Lemma length_filled storage data : (length data <= length storage)%nat -> length (filled storage data) = length storage.
Proof. intros Hle. unfold filled. rewrite length_take, length_app, length_drop. lia. Qed.

(** Shrinking a buffer to what was stored in it. *)
Lemma resize_filled storage data :
  (length data <= length storage)%nat -> resize (zlen data) (filled storage data) = data.
Proof.
  intros Hle. unfold resize. unfold zlen. rewrite Nat2Z.id, length_filled by done.
  replace (length data - length storage)%nat with 0%nat by lia. rewrite app_nil_r.
  unfold filled. rewrite take_take, Nat.min_l by done. by rewrite take_app_length.
Qed.

Lemma length_resize n s : 0 <= n -> length (resize n s) = Z.to_nat n.
Proof. intros Hn. unfold resize. rewrite length_app, length_take, length_replicate. lia. Qed.

(** An address that the kernel stored, as an [Address]. *)
Definition stored_address (from : bytes) : Address.Address :=
  Address.mk (zlen from) (from ++ Address.zeros (Address.sizeof_storage - zlen from)).

Lemma of_sockaddr_filled from :
  zlen from <= Address.sizeof_storage ->
  Address.of_sockaddr (filled (Address.zeros Address.sizeof_storage) from) (zlen from) = Ok (stored_address from).
Proof.
  intros Hle. pose proof (zlen_nonneg from).
  assert (Hz : length (Address.zeros Address.sizeof_storage) = 128%nat) by (unfold Address.zeros; by rewrite length_replicate).
  unfold Address.of_sockaddr, Address.memcpy. rewrite decide_False by lia.
  change Address.sizeof_storage with 128 in *.
  rewrite decide_True by (unfold zlen in *; rewrite length_filled by lia; lia).
  cbn [mbind res_bind]. unfold stored_address. do 2 f_equal; [apply to_u32_small; width_lia|].
  f_equal.
  - unfold filled, zlen. rewrite Nat2Z.id, take_take, Nat.min_l by (unfold zlen in *; lia). by rewrite take_app_length.
  - unfold Address.zeros. rewrite drop_replicate. f_equal. change Address.sizeof_storage with 128. unfold zlen in *. lia.
Qed.

Lemma register_write_Ok {K} p (st : state K) c :
  heap st !! p = Some c -> use_count c > 0 ->
  register_write p st = (Ok (), mk_state (kernel st) (<[p := written 1 c]> (heap st))).
Proof.
  intros Hc Hu. unfold register_write. m_step (deref_Ok _ _ _ Hc Hu). by rewrite (store_Ok _ _ _ _ Hc).
Qed.

(** The heap cell after one more read. *)
Definition read_once (c : cell) : cell :=
  let w := wrapper c in
  mk_cell (mk_wrapper (_fd w) (_eof w) (_closed w) (to_u32 (_read_count w + 1)) (_write_count w)) (use_count c).

(** The bytes at [dest] are, up to the length [len], the socket address [address]. *)
Definition addressed (address dest : bytes) (len : Z) : Prop :=
  len = zlen address /\ take (Z.to_nat len) dest = address.

(** What the kernel promises for datagrams from the socket [src], bound to the address [self],
    to the socket [dst], bound to the address [peer], over a link that loses nothing: a message
    sent to the address [peer] joins [queue], the datagrams for [dst] under way with their source
    addresses; with [MSG_TRUNC] the length of the whole datagram is returned.  Nothing is
    promised for a message sent to any other address. *)
Record Datagrams {K} `{SocketKernel K} (queue : K -> list (bytes * bytes)) (src dst : Z) (self peer : bytes) : Prop := {
  datagram_sent : forall dest len iov k, addressed peer dest len -> zlen (iov_bytes iov) <= 65507 ->
    exists e k', sys_sendmsg src (Some dest) len iov k = (zlen (iov_bytes iov), e, k') /\
      queue k' = queue k ++ [(self, iov_bytes iov)];
  datagram_received : forall n from data q k, queue k = (from, data) :: q -> 0 <= n ->
    exists e k', sys_recvfrom dst n MSG_TRUNC Address.sizeof_storage k
        = (zlen data, e, (take (Z.to_nat n) data, (from, zlen from)), k') /\ queue k' = q
}.

(** [accept] counts a read of the listening socket, also when the call fails, and returns a
    new handle on the connection. *)
Lemma accept_connection {K} `{Kernel K} `{SocketKernel K} p (st : state K) c r e k1 :
  heap st !! p = Some c -> use_count c > 0 -> sys_accept (_fd (wrapper c)) (kernel st) = (r, e, k1) ->
  (r < 0 -> e <> 0 -> accept p st = (throw (TaggedError.what (unix_error K "accept" e)), mk_state k1 (<[p := read_once c]> (heap st)))) /\
  (forall e1 e2 k2 k3, r >= 0 ->
     sys_getsockopt r SOL_SOCKET SO_DOMAIN sizeof_int k1 = (0, e1, (Some Address.AF_INET, sizeof_int), k2) ->
     sys_getsockopt r SOL_SOCKET SO_TYPE sizeof_int k2 = (0, e2, (Some SOCK_STREAM, sizeof_int), k3) ->
     accept p st = (Ok (length (heap st)),
       mk_state k3 (<[p := read_once c]> (heap st) ++ [mk_cell (mk_wrapper r false false 0 0) 1]))).
Proof.
  intros Hc Hu E. assert (Hlt : (p < length (heap st))%nat) by (by eapply lookup_lt_Some).
  set (h := <[p := read_once c]> (heap st)).
  assert (Hc' : heap (mk_state (kernel st) h) !! p = Some (read_once c)) by (by apply list_lookup_insert_eq).
  unfold accept. m_step (register_read_Ok p st c Hc Hu). fold (read_once c). fold h.
  m_step (fd_num_Ok p (mk_state (kernel st) h) (read_once c) Hc' Hu).
  m_step (call_Ok (sys_accept (_fd (wrapper c))) (mk_state (kernel st) h) _ _ E). split.
  - intros Hr He. by rewrite (M_bind_Err _ _ _ _ _ (SystemCall_Err _ _ _ _ Hr He)).
  - intros e1 e2 k2 k3 Hr E1 E2. m_step (SystemCall_Ok "accept" r e (mk_state k1 h) Hr).
    assert (Hlen : length h = length (heap st)) by apply length_insert.
    assert (Econs : FileDescriptor.construct r (mk_state k1 h) = (Ok (length (heap st)),
      mk_state k1 (h ++ [mk_cell (mk_wrapper r false false 0 0) 1]))).
    { unfold FileDescriptor.construct. rewrite decide_False by lia. simpl. by rewrite Hlen. }
    m_step Econs. set (c' := mk_cell (mk_wrapper r false false 0 0) 1).
    assert (Hq : (h ++ [c']) !! length (heap st) = Some c') by (rewrite lookup_app_r, Hlen, Nat.sub_diag by lia; done).
    unfold tcp_of_fd, of_fd, or_destroy, mbind, M_bind.
    rewrite (verify_option_spec _ _ _ _ _ (mk_state k1 (h ++ [c'])) c' _ e1 k2) by (done || simpl; lia).
    rewrite decide_True by done.
    rewrite (verify_option_spec _ _ _ _ _ (mk_state k2 (h ++ [c'])) c' _ e2 k3) by (done || simpl; lia).
    by rewrite decide_True by done.
Qed.

(** [shutdown] counts an operation in each direction that it shuts down, after the call
    succeeded; with another argument it throws. *)
Lemma shutdown_counts {K} `{Kernel K} `{SocketKernel K} p how (st : state K) c r e k :
  heap st !! p = Some c -> use_count c > 0 -> sys_shutdown (_fd (wrapper c)) how (kernel st) = (r, e, k) ->
  (r < 0 -> e <> 0 -> shutdown p how st = (throw (TaggedError.what (unix_error K "shutdown" e)), mk_state k (heap st))) /\
  (r >= 0 ->
   (how = SHUT_RD -> shutdown p how st = (Ok (), mk_state k (<[p := read_once c]> (heap st)))) /\
   (how = SHUT_WR -> shutdown p how st = (Ok (), mk_state k (<[p := written 1 c]> (heap st)))) /\
   (how = SHUT_RDWR -> shutdown p how st = (Ok (), mk_state k (<[p := written 1 (read_once c)]> (heap st)))) /\
   (how < 0 \/ how > 2 ->
    shutdown p how st = (throw "Socket::shutdown() called with invalid `how`", mk_state k (heap st)))).
Proof.
  intros Hc Hu E. assert (Hlt : (p < length (heap st))%nat) by (by eapply lookup_lt_Some).
  unfold shutdown. m_step (fd_num_Ok _ _ _ Hc Hu). m_step (call_Ok _ _ _ _ E). split.
  - intros Hr He. by rewrite (M_bind_Err _ _ _ _ _ (SystemCall_Err _ _ _ _ Hr He)).
  - intros Hr. m_step (SystemCall_Ok "shutdown" r e (mk_state k (heap st)) Hr).
    unfold SHUT_RD, SHUT_WR, SHUT_RDWR. split_and!; intros Hhow.
    + rewrite decide_True by done. by rewrite (register_read_Ok p (mk_state k (heap st)) c Hc Hu).
    + rewrite decide_False, decide_True by lia. by rewrite (register_write_Ok p (mk_state k (heap st)) c Hc Hu).
    + rewrite !decide_False, decide_True by lia. m_step (register_read_Ok p (mk_state k (heap st)) c Hc Hu).
      fold (read_once c). rewrite (register_write_Ok p _ (read_once c)); [|by apply list_lookup_insert_eq|done].
      simpl. by rewrite list_insert_insert_eq.
    + by rewrite !decide_False by lia.
Qed.

(** Connecting and shutting down, whatever the kernel returns. *)
Lemma connect_tame {K} `{Kernel K} `{SocketKernel K} p address : tame p (connect p address).
Proof.
  unfold connect. apply tame_bind; [apply fd_num_tame|intros fd]. apply tame_bind; [apply tame_call|intros [r errno]].
  eauto with tame.
Qed.

Lemma shutdown_tame {K} `{Kernel K} `{SocketKernel K} p how : tame p (shutdown p how).
Proof.
  unfold shutdown. apply tame_bind; [apply fd_num_tame|intros fd]. apply tame_bind; [apply tame_call|intros [r errno]].
  eauto 8 with tame.
Qed.

(** ** Properties *)

(** C32: a socket taken over from a file descriptor is checked: if the kernel reports the
    expected domain and type, the socket is the same handle and nothing else changed; if it
    reports another domain or type, the constructor throws the matching message, and the
    handle, which was the last one, is gone and its descriptor was closed once. *)
Theorem socket_adoption {K} `{Kernel K} `{SocketKernel K} p domain type (st : state K) c d t e1 e2 k1 k2 :
  let fd := _fd (wrapper c) in
  heap st !! p = Some c -> use_count c = 1 -> _closed (wrapper c) = false ->
  sys_getsockopt fd SOL_SOCKET SO_DOMAIN sizeof_int (kernel st) = (0, e1, (Some d, sizeof_int), k1) ->
  sys_getsockopt fd SOL_SOCKET SO_TYPE sizeof_int k1 = (0, e2, (Some t, sizeof_int), k2) ->
  let '(r, st') := of_fd p domain type st in
  (d = domain /\ t = type /\ r = Ok p /\ st' = mk_state k2 (heap st)) \/
  (exists what k, r = throw what /\
     (d <> domain /\ what = "socket domain mismatch" /\ k = k1 \/
      d = domain /\ t <> type /\ what = "socket type mismatch" /\ k = k2) /\
     kernel st' = after_close fd k /\ (use_count <$> heap st' !! p) = Some 0 /\
     forall q, q <> p -> heap st' !! q = heap st !! q).
Proof.
  intros fd Hc Hu Hcl E1 E2.
  assert (Hclose : forall k, exists st', destroy p (mk_state k (heap st)) = (Ok (), st') /\
    kernel st' = after_close fd k /\ (forall q, q <> p -> heap st' !! q = heap st !! q) /\
    (use_count <$> heap st' !! p) = Some 0) by (intros k; by apply (destroy_last p (mk_state k (heap st)) c)).
  unfold of_fd, or_destroy, mbind, M_bind.
  rewrite (verify_option_spec _ _ _ _ _ _ c d e1 k1) by (done || lia). case_decide as Hd.
  - rewrite (verify_option_spec _ _ _ _ _ _ c t e2 k2) by (done || lia). case_decide as Ht.
    + left. done.
    + right. simpl. destruct (Hclose k2) as (st' & -> & Hk & Hq & Hp). by exists "socket type mismatch", k2; intuition.
  - right. simpl. destruct (Hclose k1) as (st' & -> & Hk & Hq & Hp). by exists "socket domain mismatch", k1; intuition.
Qed.

(** C21: a datagram sent with [sendto] over a loss-free link to the address of a socket is what
    [recv] on that socket returns: the bytes of the payload, however it is split into buffers,
    and the sender's address, when it fits [mtu]; a longer one makes [recv] throw, without counting a read, and is lost.  Both calls
    count one operation on their socket and change nothing else. *)
Theorem udp_roundtrip {K} `{Kernel K} `{SocketKernel K} queue p q (st : state K) cp cq self peer destination view mtu :
  Datagrams queue (_fd (wrapper cp)) (_fd (wrapper cq)) self peer ->
  addressed peer (Address._address destination) (Address.size destination) ->
  p <> q -> heap st !! p = Some cp -> use_count cp > 0 -> heap st !! q = Some cq -> use_count cq > 0 ->
  queue (kernel st) = [] -> zlen (contents view) <= 65507 -> zlen self <= Address.sizeof_storage ->
  0 <= mtu < 2 ^ 31 ->
  exists k1 k2, sendto p destination view st = (Ok (), mk_state k1 (<[p := written 1 cp]> (heap st))) /\
    queue k2 = [] /\
    recv q mtu (mk_state k1 (<[p := written 1 cp]> (heap st))) =
      if decide (zlen (contents view) <= mtu)
      then (Ok (mk_datagram (stored_address self) (contents view)),
            mk_state k2 (<[q := read_once cq]> (<[p := written 1 cp]> (heap st))))
      else (throw "recvfrom (oversized datagram)", mk_state k2 (<[p := written 1 cp]> (heap st))).
Proof.
  intros Hk Hdest Hne Hp Hup Hq Huq Hempty Hsize Hself Hmtu. pose proof (zlen_nonneg (contents view)).
  pose proof (zlen_nonneg self). set (data := contents view) in *.
  destruct (datagram_sent _ _ _ _ _ Hk (Address._address destination) (Address.size destination)
              (BufferViewList.as_iovecs view) (kernel st)) as (e1 & k1 & E1 & Hq1);
    [exact Hdest|unfold iov_bytes; by rewrite BufferViewList.concat_iovecs|].
  unfold iov_bytes in *. rewrite BufferViewList.concat_iovecs in *.
  fold data in E1, Hq1. rewrite Hempty in Hq1. destruct (datagram_received _ _ _ _ _ Hk mtu self data [] k1 Hq1 ltac:(lia)) as (e2 & k2 & E2 & Hq2).
  exists k1, k2. split_and!; [|done|].
  - unfold sendto. m_step (fd_num_Ok _ _ _ Hp Hup).
    assert (Eh : sendmsg_helper (_fd (wrapper cp)) (Some (Address._address destination)) (Address.size destination) view st
                 = (Ok (), mk_state k1 (heap st))).
    { unfold sendmsg_helper. m_step (call_Ok _ _ _ _ E1). replace (to_i32 (zlen data)) with (zlen data) by width_lia.
      m_step (SystemCall_Ok "sendmsg" (zlen data) e1 (mk_state k1 (heap st)) ltac:(lia)).
      rewrite BufferViewList.size_concat. fold data. by rewrite decide_False by (intros Hf; by apply Hf). }
    m_step Eh. by rewrite (register_write_Ok p (mk_state k1 (heap st)) cp).
  - set (h := <[p := written 1 cp]> (heap st)).
    assert (Hq' : heap (mk_state k1 h) !! q = Some cq) by (simpl; unfold h; by rewrite list_lookup_insert_ne).
    unfold recv. rewrite (M_bind_Ok _ _ _ (Address.mk 0 (Address.zeros 128)) (mk_state k1 h)) by done.
    unfold recv_into. simpl payload. m_step (fd_num_Ok _ _ _ Hq' Huq). m_step (call_Ok _ (mk_state k1 h) _ _ E2).
    replace (to_i32 (zlen data)) with (zlen data) by width_lia.
    m_step (SystemCall_Ok "recvfrom" (zlen data) e2 (mk_state k2 h) ltac:(lia)).
    replace (to_i64 mtu) with mtu by width_lia. destruct (decide (zlen data <= mtu)) as [Hle|Hgt]; [rewrite decide_False by lia|by rewrite decide_True by lia].
    m_step (register_read_Ok q (mk_state k2 h) cq Hq' Huq). fold (read_once cq). simpl heap.
    rewrite (to_u32_small (zlen self)) by (unfold Address.sizeof_storage in *; width_lia).
    rewrite (of_sockaddr_filled self Hself). rewrite (M_bind_Ok _ _ _ (stored_address self)
      (mk_state k2 (<[q := read_once cq]> h))) by done.
    rewrite decide_False by lia. rewrite take_ge by (unfold zlen in *; lia).
    by rewrite resize_filled by (rewrite length_resize by lia; unfold zlen in *; lia).
Qed.

(** ** Concrete runs *)

(** A host whose socket 4, at port 4000, sends to its socket 5, at port 5000: the datagrams
    under way.  What is sent to another address goes astray. *)
Definition loopback : Type := list (bytes * bytes).
Definition localhost : bytes := Address.sockaddr_in Address.AF_INET 4000 2130706433.
Definition neighbour : bytes := Address.sockaddr_in Address.AF_INET 5000 2130706433.

#[global] Instance loopback_kernel : Kernel loopback := {|
  sys_read _ _ k := (inl 22, k);
  sys_writev _ _ k := (-1, 22, k);
  sys_close _ k := (0, 0, k);
  sys_fcntl _ _ _ k := (0, 0, k);
  strerror _ := "Input/output error";
  put_error _ k := k
|}.
#[global] Instance loopback_sockets : SocketKernel loopback := {|
  sys_socket _ _ _ k := (4, 0, k);
  sys_getsockopt _ _ option _ k := (0, 0, (Some 2, sizeof_int), k);
  sys_setsockopt _ _ _ _ _ k := (0, 0, k);
  sys_getsockname _ _ k := (0, 0, (localhost, 16), k);
  sys_getpeername _ _ k := (-1, 107, ([], 128), k);
  sys_bind _ _ _ k := (0, 0, k);
  sys_connect _ _ _ k := (0, 0, k);
  sys_shutdown _ _ k := (-1, 107, k);
  sys_listen _ _ k := (-1, 95, k);
  sys_accept _ k := (-1, 95, k);
  sys_recvfrom _ n _ _ k :=
    match k with
    | (from, data) :: k' => (zlen data, 0, (take (Z.to_nat n) data, (from, zlen from)), k')
    | [] => (-1, 11, ([], ([], 128)), k)
    end;
  sys_sendmsg _ dest len iov k :=
    (zlen (iov_bytes iov), 0,
     if decide (take (Z.to_nat len) <$> dest = Some neighbour) then k ++ [(localhost, iov_bytes iov)] else k)
|}.

Lemma loopback_datagrams src dst : Datagrams (fun k : loopback => k) src dst localhost neighbour.
Proof.
  split.
  - intros dest len iov k [_ Hd] _. eexists _, _. split; [reflexivity|]. by rewrite decide_True by (simpl; by rewrite Hd).
  - intros n from data q k -> _. by eexists _, _.
Qed.

Definition socket_cell (fd : Z) : cell := mk_cell (mk_wrapper fd false false 0 0) 1.
Definition two_sockets : state loopback := mk_state [] [socket_cell 4; socket_cell 5].

Lemma socket_adoption_witness :
  let '(r, st') := of_fd 0 Address.AF_INET SOCK_STREAM two_sockets in
  r = throw "socket type mismatch" /\ (use_count <$> heap st' !! 0%nat) = Some 0.
Proof.
  pose proof (socket_adoption 0%nat Address.AF_INET SOCK_STREAM two_sockets (socket_cell 4) 2 2 0 0 [] []
    eq_refl eq_refl eq_refl eq_refl eq_refl) as Hs.
  destruct (of_fd 0 Address.AF_INET SOCK_STREAM two_sockets) as [r st'].
  destruct Hs as [(_ & Ht & _)|(what & k & -> & [(Hd & _)|(_ & _ & -> & _)] & _ & Hu & _)]; [done..|].
  split; [done|exact Hu].
Defined.

Lemma udp_roundtrip_witness :
  exists k1 k2, sendto 0 (stored_address neighbour) (BufferViewList.mk [[Byte.x61]; [Byte.x62; Byte.x63]]) two_sockets
      = (Ok (), mk_state k1 [written 1 (socket_cell 4); socket_cell 5]) /\
    recv 1 2000 (mk_state k1 [written 1 (socket_cell 4); socket_cell 5])
      = (Ok (mk_datagram (stored_address localhost) [Byte.x61; Byte.x62; Byte.x63]),
         mk_state k2 [written 1 (socket_cell 4); read_once (socket_cell 5)]).
Proof.
  destruct (udp_roundtrip (fun k : loopback => k) 0%nat 1%nat two_sockets (socket_cell 4) (socket_cell 5) localhost neighbour
    (stored_address neighbour) (BufferViewList.mk [[Byte.x61]; [Byte.x62; Byte.x63]]) 2000)
    as (k1 & k2 & E1 & _ & E2); [apply loopback_datagrams|by vm_compute|lia|done|done|done|done|done|by vm_compute..|lia|].
  exists k1, k2. split; [exact E1|]. rewrite decide_True in E2 by (by vm_compute). exact E2.
Defined.

End Socket.
