(* ===== verification/Tun.v ===== *)
(** * TUN and TAP devices (libsponge/util/tun.hh, .cc)

    The constructor of [TunTapFD]: it opens the clone device and asks the kernel to attach
    the descriptor to the named interface.  [open] and the [ioctl] are a parameter. *)

From S2P Require Import Prelude Errors Buffer FileDescriptor.

(** The fields of [struct ifreq] that are set. *)
Record ifreq : Set := mk_ifreq { ifr_name : bytes; ifr_flags : Z }.

Class TunKernel (K : Type) := {
  sys_open : string -> Z -> K -> Z * Z * K;
  sys_ioctl : Z -> Z -> ifreq -> K -> Z * Z * K
}.

Module TunTap.

Import FileDescriptor.

Definition CLONEDEV : string := "/dev/net/tun".
Definition O_RDWR : Z := 2.
Definition IFF_TUN : Z := 1.
Definition IFF_TAP : Z := 2.
Definition IFF_NO_PI : Z := 4096.
Definition IFNAMSIZ : nat := 16.
Definition TUNSETIFF : Z := 1074025674.

(** [strncpy(dst, src, n)]: the C string [src], cut or padded with null bytes to [n]. *)
Definition strncpy (dst src : bytes) (n : nat) : bytes :=
  let s := take n (take (BufferViewList.strlen src) src) in
  s ++ replicate (n - length s) Byte.x00 ++ drop n dst.

Definition make_request (devname : bytes) (is_tun : bool) : ifreq :=
  let name := strncpy (replicate IFNAMSIZ Byte.x00) devname (IFNAMSIZ - 1) in
  mk_ifreq (<[(IFNAMSIZ - 1)%nat := Byte.x00]> name) (Z.lor (if is_tun then IFF_TUN else IFF_TAP) IFF_NO_PI).

Section Operations.
Context {K : Type} `{Kernel K} `{TunKernel K}.

(** [TunTapFD(const std::string &devname, const bool is_tun)] *)
Definition construct (devname : bytes) (is_tun : bool) : M K nat :=
  '(r, errno) ← call (sys_open CLONEDEV O_RDWR);
  fd ← SystemCall "open" r errno 0;
  p ← FileDescriptor.construct fd;
  or_destroy p (
    let tun_req := make_request devname is_tun in
    fd ← fd_num p;
    '(r, errno) ← call (sys_ioctl fd TUNSETIFF tun_req);
    _ ← SystemCall "ioctl" r errno 0;
    mret p).

(** [TunFD(const std::string &devname)], [TapFD(const std::string &devname)] *)
Definition tun_fd (devname : bytes) : M K nat := construct devname true.
Definition tap_fd (devname : bytes) : M K nat := construct devname false.
End Operations.

(** ** Lemmas *)

Lemma strlen_le s : (BufferViewList.strlen s <= length s)%nat.
Proof. induction s as [|b s IH]; simpl; [done|]. case_decide; lia. Qed.

Lemma strlen_prefix s n t :
  (n <= BufferViewList.strlen s)%nat -> BufferViewList.strlen (take n s ++ Byte.x00 :: t) = n.
Proof.
  revert n. induction s as [|b s IH]; intros n Hn; simpl in *; [destruct n; [done|lia]|].
  destruct n as [|n]; [done|]. simpl. case_decide; [lia|]. f_equal. apply IH. lia.
Qed.

(** The name in the request, in closed form. *)
Lemma ifr_name_eq devname is_tun :
  ifr_name (make_request devname is_tun)
  = take (Nat.min 15 (BufferViewList.strlen devname)) devname
      ++ replicate (16 - Nat.min 15 (BufferViewList.strlen devname)) Byte.x00.
Proof.
  unfold make_request, strncpy, IFNAMSIZ. cbn [ifr_name Nat.sub]. rewrite take_take, length_take.
  pose proof (strlen_le devname). set (n := Nat.min 15 (BufferViewList.strlen devname)).
  replace (Nat.min n (length devname)) with n by lia. change (drop 15 (replicate 16 Byte.x00)) with (replicate 1 Byte.x00).
  rewrite <- replicate_add. replace (15 - n + 1)%nat with (16 - n)%nat by lia.
  rewrite insert_app_r_alt by (rewrite length_take; lia). f_equal. rewrite length_take.
  apply list_insert_id. apply lookup_replicate. split; [done|lia].
Qed.

(** ** Properties *)

(** Opening a TUN or TAP device never overflows the name field: whatever the device name,
    the request holds 16 bytes whose C string is the name cut to 15 characters.  When the
    kernel accepts the request the result is a new handle on the opened descriptor; when it
    refuses, the constructor throws and the descriptor it opened is closed again. *)
Lemma tun_construct {K} `{Kernel K} `{TunKernel K} devname is_tun (st : state K) fd e1 k1 r e2 k2 :
  let name := ifr_name (make_request devname is_tun) in
  sys_open CLONEDEV O_RDWR (kernel st) = (fd, e1, k1) -> fd >= 0 ->
  sys_ioctl fd TUNSETIFF (make_request devname is_tun) k1 = (r, e2, k2) -> r >= 0 \/ e2 <> 0 ->
  length name = IFNAMSIZ /\
  take (BufferViewList.strlen name) name = take (Nat.min 15 (BufferViewList.strlen devname)) devname /\
  let '(o, st') := construct devname is_tun st in
  if decide (r >= 0)
  then o = Ok (length (heap st)) /\
       st' = mk_state k2 (heap st ++ [mk_cell (mk_wrapper fd false false 0 0) 1])
  else o = throw (TaggedError.what (unix_error K "ioctl" e2)) /\ kernel st' = after_close fd k2 /\
       (use_count <$> heap st' !! length (heap st)) = Some 0.
Proof.
  intros name E1 Hfd E2 Hr. pose proof (strlen_le devname). unfold name. rewrite ifr_name_eq. split_and!.
  - rewrite length_app, length_take, length_replicate. unfold IFNAMSIZ. lia.
  - set (n := Nat.min 15 (BufferViewList.strlen devname)).
    replace (16 - n)%nat with (S (15 - n)) by lia. cbn [replicate]. rewrite strlen_prefix by lia.
    rewrite take_app_length' by (rewrite length_take; lia). done.
  - unfold construct. rewrite (M_bind_Ok _ _ _ _ _ (call_Ok _ _ _ _ E1)).
    rewrite (M_bind_Ok _ _ _ _ _ (SystemCall_Ok "open" fd e1 (mk_state k1 (heap st)) Hfd)).
    set (c := mk_cell (mk_wrapper fd false false 0 0) 1).
    assert (Ec : FileDescriptor.construct fd (mk_state k1 (heap st)) = (Ok (length (heap st)), mk_state k1 (heap st ++ [c])))
      by (unfold FileDescriptor.construct; by rewrite decide_False by lia).
    rewrite (M_bind_Ok _ _ _ _ _ Ec).
    assert (Hc : (heap st ++ [c]) !! length (heap st) = Some c) by (rewrite lookup_app_r, Nat.sub_diag by lia; done).
    unfold or_destroy. rewrite (M_bind_Ok _ _ _ _ _ (fd_num_Ok _ (mk_state k1 (heap st ++ [c])) c Hc ltac:(done))).
    rewrite (M_bind_Ok _ _ _ _ _ (call_Ok (sys_ioctl fd TUNSETIFF (make_request devname is_tun))
      (mk_state k1 (heap st ++ [c])) _ _ E2)). case_decide as Hr'.
    + by rewrite (M_bind_Ok _ _ _ _ _ (SystemCall_Ok "ioctl" r e2 (mk_state k2 (heap st ++ [c])) Hr')).
    + rewrite (M_bind_Err _ _ _ _ _ (SystemCall_Err "ioctl" r e2 (mk_state k2 (heap st ++ [c])) ltac:(lia) ltac:(lia))).
      destruct (destroy_last (length (heap st)) (mk_state k2 (heap st ++ [c])) c Hc) as (st' & Ed & Hk & _ & Hu); try done.
      simpl. by rewrite Ed.
Qed.

(** A kernel that knows the device "tun144": the descriptors it has closed. *)
#[global] Instance device_kernel : Kernel (list Z) := {|
  sys_read _ _ k := (inl 22, k);
  sys_writev _ _ k := (-1, 22, k);
  sys_close fd k := (0, 0, fd :: k);
  sys_fcntl _ _ _ k := (0, 0, k);
  strerror _ := "Input/output error";
  put_error _ k := k
|}.
Definition tun144 : bytes := [Byte.x74; Byte.x75; Byte.x6e; Byte.x31; Byte.x34; Byte.x34].
#[global] Instance device_tun : TunKernel (list Z) := {|
  sys_open _ _ k := (3, 0, k);
  sys_ioctl _ _ req k := if decide (take 7 (ifr_name req) = tun144 ++ [Byte.x00]) then (0, 0, k) else (-1, 1, k)
|}.

Example device_opens :
  construct tun144 true (mk_state [] []) = (Ok 0%nat, mk_state [] [mk_cell (mk_wrapper 3 false false 0 0) 1]) /\
  construct [Byte.x61] true (mk_state [] [])
    = (throw "ioctl: Input/output error", mk_state [3] [mk_cell (mk_wrapper 3 false false 0 0) 0]).
Proof. by vm_compute. Qed.

End TunTap.
