(* ===== verification/Webget.v ===== *)
(** * The webget program (apps/webget.cc)

    The HTTP client: [get_URL] over [TCPSocket] and [Address], and [main].  Standard output and
    standard error are the texts printed so far, and accept everything; a destructor reports on
    the same standard error as the program.  The program does not ignore SIGPIPE: a write that
    nobody is left to read kills it. *)

From S2P Require Import Prelude Buffer Parser FileDescriptor Address Socket.

Module Webget.

Import FileDescriptor.

(** The state of the process. *)
Record process (K : Type) : Type := mk_process { io : state K; cout : bytes; cerr : bytes }.
Arguments mk_process {K} io cout cerr.
Arguments io {K} _.
Arguments cout {K} _.
Arguments cerr {K} _.

(** ** What the library's calls act on *)

(** The kernel, the standard error of the process, and whether SIGPIPE was delivered to it. *)
Record sys (K : Type) : Type := mk_sys { base : K; errout : bytes; sigpipe : bool }.
Arguments mk_sys {K} base errout sigpipe.
Arguments base {K} _.
Arguments errout {K} _.
Arguments sigpipe {K} _.

Definition EPIPE : Z := 32.

(** A call that the kernel answers. *)
Definition pass {K X} (f : K -> X * K) (q : sys K) : X * sys K :=
  let '(x, k) := f (base q) in (x, mk_sys k (errout q) (sigpipe q)).
(** A call that writes: the answer EPIPE comes with the signal SIGPIPE. *)
Definition pass_write {K} (f : K -> Z * Z * K) (q : sys K) : Z * Z * sys K :=
  let '(r, e, k) := f (base q) in (r, e, mk_sys k (errout q) (sigpipe q || bool_decide (r = -1 /\ e = EPIPE))).

#[export] Instance sys_kernel {K} `{Kernel K} : Kernel (sys K) := {|
  sys_read fd n := pass (sys_read fd n);
  sys_writev fd iov := pass_write (sys_writev fd iov);
  sys_close fd := pass (sys_close fd);
  sys_fcntl fd cmd arg := pass (sys_fcntl fd cmd arg);
  strerror := strerror (K := K);
  put_error what q := mk_sys (base q) (errout q ++ String.list_byte_of_string what) (sigpipe q)
|}.
#[export] Instance sys_sockets {K} `{SocketKernel K} : SocketKernel (sys K) := {|
  sys_socket domain type protocol := pass (sys_socket domain type protocol);
  sys_getsockopt fd level option len := pass (sys_getsockopt fd level option len);
  sys_setsockopt fd level option value len := pass (sys_setsockopt fd level option value len);
  sys_getsockname fd len := pass (sys_getsockname fd len);
  sys_getpeername fd len := pass (sys_getpeername fd len);
  sys_bind fd a len := pass (sys_bind fd a len);
  sys_connect fd a len := pass (sys_connect fd a len);
  sys_shutdown fd how := pass (sys_shutdown fd how);
  sys_listen fd n := pass (sys_listen fd n);
  sys_accept fd := pass (sys_accept fd);
  sys_recvfrom fd n flags len := pass (sys_recvfrom fd n flags len);
  sys_sendmsg fd dest len iov := pass_write (sys_sendmsg fd dest len iov)
|}.

(** ** Computations of the process *)

(** A computation ends with a value or an exception, or the process is killed in it. *)
Inductive outcome (A : Type) : Type := Result (r : res A) | Killed.
Arguments Result {A} r.
Arguments Killed {A}.

Definition P (K A : Type) : Type := process K -> outcome A * process K.
#[global] Instance P_ret {K} : MRet (P K) := fun A a s => (Result (Ok a), s).
#[global] Instance P_bind {K} : MBind (P K) := fun A B k m s =>
  match m s with
  | (Result (Ok a), s') => k a s'
  | (Result (Err f), s') => (Result (Err f), s')
  | (Killed, s') => (Killed, s')
  end.

(** An operation of the library; the signal arrives before its exception is thrown. *)
Definition lifted {K} (s : process K) : state (sys K) :=
  mk_state (mk_sys (kernel (io s)) (cerr s) false) (heap (io s)).
Definition on_fd {K A} (m : M (sys K) A) : P K A := fun s =>
  let '(r, st) := m (lifted s) in
  (if sigpipe (kernel st) then Killed else Result r,
   mk_process (mk_state (base (kernel st)) (heap st)) (cout s) (errout (kernel st))).
Definition pure {K A} (r : res A) : P K A := fun s => (Result r, s).
Definition print {K} (text : bytes) : P K () := fun s => (Result (Ok ()), mk_process (io s) (cout s ++ text) (cerr s)).
Definition say {K} (text : bytes) (s : process K) : process K := mk_process (io s) (cout s) (cerr s ++ text).
Definition print_error {K} (text : bytes) : P K () := fun s => (Result (Ok ()), say text s).

(** The bytes of a string, and of a line end. *)
Definition text (s : string) : bytes := String.list_byte_of_string s.
Definition crlf : bytes := [Byte.x0d; Byte.x0a].
Definition newline : bytes := [Byte.x0a].

Section Program.
Context {K : Type} `{Kernel K} `{SocketKernel K} `{Resolver}.

(** A local object is destroyed when its scope is left, normally or by an exception. *)
Definition scoped {A} (p : nat) (body : P K A) : P K A := fun s =>
  match body s with
  | (Result (Ok a), s') => (_ ← on_fd (destroy p); mret a) s'
  | (Result (Err (Exception what)), s') => (_ ← on_fd (destroy p); pure (throw what)) s'
  | r => r
  end.

(** [while (!sock.eof()) { auto recv_msg = sock.read(); cout << recv_msg; }] *)
Fixpoint read_all (fuel : nat) (sock : nat) : P K () :=
  match fuel with
  | O => pure (Err OutOfFuel)
  | S fuel' =>
      at_eof ← on_fd (eof sock);
      if at_eof : bool then mret () else
      recv_msg ← on_fd (read_string sock no_limit);
      _ ← print recv_msg;
      read_all fuel' sock
  end.

(** [void get_URL(const string &host, const string &path)] *)
Definition get_URL (fuel : nat) (host path : string) : P K () :=
  sock ← on_fd Socket.tcp_socket;
  scoped sock (
    addr ← pure (Address.of_hostname host "http");
    _ ← on_fd (Socket.connect sock addr);
    _ ← on_fd (write_string sock (text "GET " ++ text path ++ text " HTTP/1.1" ++ crlf) true);
    _ ← on_fd (write_string sock (text "Host: " ++ text host ++ crlf) true);
    _ ← on_fd (write_cstr sock (text "Connection: close" ++ crlf) true);
    _ ← on_fd (write_cstr sock crlf true);
    _ ← on_fd (Socket.shutdown sock Socket.SHUT_WR);
    _ ← read_all fuel sock;
    _ ← on_fd (close sock);
    _ ← print_error (text "Function called: get_URL(" ++ text host ++ text ", " ++ text path ++ text ")." ++ newline);
    print_error (text "Warning: get_URL() has not been implemented yet." ++ newline)).

(** How the process ends. *)
Inductive ending : Set := Returned (code : Z) | Aborted | KilledBySIGPIPE.
Definition EXIT_SUCCESS : Z := 0.
Definition EXIT_FAILURE : Z := 1.

(** [int main(int argc, char *argv[])]; [argc] is the length of [argv]. *)
Definition main (fuel : nat) (argv : list string) (s : process K) : res ending * process K :=
  match argv with
  | [] => (Ok Aborted, s)
  | [_; host; path] =>
      match get_URL fuel host path s with
      | (Result (Ok _), s') => (Ok (Returned EXIT_SUCCESS), s')
      | (Result (Err (Exception what)), s') => (Ok (Returned EXIT_FAILURE), say (text what ++ newline) s')
      | (Result (Err f), s') => (Err f, s')
      | (Killed, s') => (Ok KilledBySIGPIPE, s')
      end
  | program :: _ =>
      (Ok (Returned EXIT_FAILURE),
       say (Byte.x09 :: text "Example: " ++ text program ++ text " stanford.edu /class/cs144" ++ newline)
         (say (text "Usage: " ++ text program ++ text " HOST PATH" ++ newline) s))
  end.
End Program.

(** ** The other side *)

(** What the program relies on, for a server at [address] that answers the request it
    receives with [respond]: socket(2) gives the descriptor [fd]; connect(2) reaches the
    server; writev(2) blocks until it can take data; after the client shuts down its
    side, read(2) hands out the answer in pieces of its choice, and nothing at its end. *)
Record WebServer {K} `{Kernel K} `{SocketKernel K} (fd : Z) (address : Address.Address)
    (idle unconnected asking answering : K -> Prop) (request remaining : K -> bytes)
    (respond : bytes -> bytes) : Prop := {
  ws_fd : fd >= 0;
  ws_socket : forall k, idle k ->
    exists e k', sys_socket Address.AF_INET Socket.SOCK_STREAM 0 k = (fd, e, k') /\ unconnected k';
  ws_connect : forall k, unconnected k ->
    exists e k', sys_connect fd (Address._address address) (Address.size address) k = (0, e, k') /\
      asking k' /\ request k' = [];
  ws_write : BlockingWrites fd asking request;
  ws_shutdown : forall k, asking k ->
    exists e k', sys_shutdown fd Socket.SHUT_WR k = (0, e, k') /\ answering k' /\
      request k' = request k /\ remaining k' = respond (request k);
  ws_read : forall n k, answering k -> 0 < n ->
    exists data k', sys_read fd n k = (inr data, k') /\ answering k' /\ request k' = request k /\
      zlen data <= n /\ (remaining k <> [] -> data <> []) /\ remaining k = data ++ remaining k';
  ws_close : forall k, answering k -> exists e k', sys_close fd k = (0, e, k') /\ request k' = request k
}.

(** ** Lemmas *)

Lemma P_bind_Ok {K A B} (m : P K A) (k : A -> P K B) s a s' : m s = (Result (Ok a), s') -> (m ≫= k) s = k a s'.
Proof. intros E. unfold mbind, P_bind. by rewrite E. Qed.

Lemma on_fd_Ok {K A} (m : M (sys K) A) (s : process K) a k err h :
  m (lifted s) = (Ok a, mk_state (mk_sys k err false) h) ->
  on_fd m s = (Result (Ok a), mk_process (mk_state k h) (cout s) err).
Proof. intros E. unfold on_fd. by rewrite E. Qed.

Section Steps.
Context {K : Type} `{Kernel K} `{SocketKernel K} {fd : Z} {address : Address.Address}.
Context {idle unconnected asking answering : K -> Prop} {request remaining : K -> bytes} {respond : bytes -> bytes}.
Context (server : WebServer fd address idle unconnected asking answering request remaining respond).
Implicit Types (h : list cell) (k : K) (c : cell).

(** The socket is the last object of the heap. *)
Definition at_socket h k c : state K := mk_state k (h ++ [c]).
Definition open_cell (at_eof : bool) c : Prop :=
  _fd (wrapper c) = fd /\ use_count c = 1 /\ _closed (wrapper c) = false /\ _eof (wrapper c) = at_eof.

Lemma socket_lookup h k c : heap (at_socket h k c) !! length h = Some c.
Proof. simpl. by rewrite lookup_app_r, Nat.sub_diag by lia. Qed.

Lemma socket_insert h c c' : <[length h := c']> (h ++ [c]) = h ++ [c'].
Proof. rewrite insert_app_r_alt, Nat.sub_diag by lia. done. Qed.

Lemma socket_step h k : idle k ->
  exists k', Socket.tcp_socket (mk_state k h) =
    (Ok (length h), at_socket h k' (mk_cell (mk_wrapper fd false false 0 0) 1)) /\ unconnected k'.
Proof.
  intros Hk. destruct (ws_socket _ _ _ _ _ _ _ _ _ server k Hk) as (e & k' & E & Hu). exists k'. split; [|done].
  unfold Socket.tcp_socket, Socket.construct. rewrite (M_bind_Ok _ _ _ _ _ (call_Ok _ (mk_state k h) _ _ E)).
  pose proof (ws_fd _ _ _ _ _ _ _ _ _ server) as Hfd.
  rewrite (M_bind_Ok _ _ _ _ _ (SystemCall_Ok "socket" fd e (mk_state k' h) Hfd)).
  unfold FileDescriptor.construct. by rewrite decide_False by lia.
Qed.

Lemma connect_step h k c : unconnected k -> open_cell false c ->
  exists k', Socket.connect (length h) address (at_socket h k c) = (Ok (), at_socket h k' c) /\
    asking k' /\ request k' = [].
Proof.
  intros Hk (Hfd & Hu & _). destruct (ws_connect _ _ _ _ _ _ _ _ _ server k Hk) as (e & k' & E & Ha & Hr).
  exists k'. split; [|done]. unfold Socket.connect.
  rewrite (M_bind_Ok _ _ _ _ _ (fd_num_Ok _ _ _ (socket_lookup h k c) ltac:(lia))), Hfd.
  rewrite (M_bind_Ok _ _ _ _ _ (call_Ok _ (at_socket h k c) _ _ E)).
  by rewrite (M_bind_Ok _ _ _ _ _ (SystemCall_Ok "connect" 0 e (mk_state k' (h ++ [c])) ltac:(lia))).
Qed.

Lemma write_step h k c buffer : asking k -> open_cell false c -> zlen (contents buffer) < 2 ^ 31 ->
  exists n k' c', write (length h) buffer true (at_socket h k c) = (Ok n, at_socket h k' c') /\
    open_cell false c' /\ asking k' /\ request k' = request k ++ contents buffer.
Proof.
  intros Hk (Hfd & Hu & Hcl & He) Hsize.
  destruct (write_all_spec fd asking request (ws_write _ _ _ _ _ _ _ _ _ server) (length h) buffer (at_socket h k c) c)
    as (k' & n & E & Ha & _ & Hr); [apply socket_lookup|lia|done..|].
  exists (zlen (contents buffer)), k', (written n c). split_and!; try done.
  rewrite E. simpl. by rewrite socket_insert.
Qed.

Lemma shutdown_step h k c : asking k -> open_cell false c ->
  exists k' c', Socket.shutdown (length h) Socket.SHUT_WR (at_socket h k c) = (Ok (), at_socket h k' c') /\
    open_cell false c' /\ answering k' /\ request k' = request k /\ remaining k' = respond (request k).
Proof.
  intros Hk (Hfd & Hu & Hcl & He). destruct (ws_shutdown _ _ _ _ _ _ _ _ _ server k Hk) as (e & k' & E & Ha & Hr & Hm).
  exists k', (written 1 c). split; [|done]. rewrite <- Hfd in E.
  destruct (Socket.shutdown_counts (length h) Socket.SHUT_WR (at_socket h k c) c 0 e k') as [_ Hs];
    [apply socket_lookup|lia|done|]. destruct (Hs ltac:(lia)) as (_ & Hw & _). rewrite (Hw eq_refl).
  simpl. by rewrite socket_insert.
Qed.

Lemma close_step h k c : answering k -> open_cell true c ->
  exists k', close (length h) (at_socket h k c) =
    (Ok (), at_socket h k' (mk_cell (mk_wrapper fd true true (_read_count (wrapper c)) (_write_count (wrapper c))) 1)) /\
    request k' = request k /\ k' = (sys_close fd k).2.
Proof.
  intros Hk (Hfd & Hu & Hcl & He). destruct (ws_close _ _ _ _ _ _ _ _ _ server k Hk) as (e & k' & E & Hr).
  exists k'. split; [|by rewrite E]. unfold close. rewrite (M_bind_Ok _ _ _ _ _ (deref_Ok _ _ _ (socket_lookup h k c) ltac:(lia))).
  rewrite Hfd. rewrite (M_bind_Ok _ _ _ _ _ (call_Ok _ (at_socket h k c) _ _ E)). change (to_i32 0) with 0.
  rewrite (M_bind_Ok _ _ _ _ _ (SystemCall_Ok "close" 0 e (mk_state k' (h ++ [c])) ltac:(lia))).
  rewrite (store_Ok _ _ (mk_state k' (h ++ [c])) c (socket_lookup h k' c)). simpl. by rewrite socket_insert, Hu.
Qed.

End Steps.

(** The same server as the process sees it, with its standard error untouched and without a
    signal. *)
Definition seen {K} (err : bytes) (Q : K -> Prop) (q : sys K) : Prop :=
  Q (base q) /\ errout q = err /\ sigpipe q = false.

Lemma seen_base {K} err (Q : K -> Prop) q : seen err Q q -> Q (base q) /\ q = mk_sys (base q) err false.
Proof. destruct q. intros (HQ & E1 & E2). simpl in *. by subst. Qed.

Lemma lifted_server {K} `{Kernel K} `{SocketKernel K} {fd address idle unconnected asking answering request remaining respond} err :
  WebServer (K := K) fd address idle unconnected asking answering request remaining respond ->
  WebServer (K := sys K) fd address (seen err idle) (seen err unconnected) (seen err asking) (seen err answering)
    (fun q => request (base q)) (fun q => remaining (base q)) respond.
Proof.
  intros [Hfd Hs Hc Hw Hsh Hr Hcl]. split; [done| | | | | |]; simpl.
  - intros q [Hq ->]%seen_base. destruct (Hs _ Hq) as (e & k' & E & Hk'). unfold pass. simpl. rewrite E. by do 2 eexists.
  - intros q [Hq ->]%seen_base. destruct (Hc _ Hq) as (e & k' & E & Hk' & R). unfold pass. simpl. rewrite E. by do 2 eexists.
  - split. intros iov q [Hq ->]%seen_base Hsize. destruct Hw as [Hw]. destruct (Hw iov _ Hq Hsize) as (n & e & k' & E & Hk' & Hn & R).
    simpl. unfold pass_write. simpl. rewrite E. rewrite bool_decide_false by lia. by do 3 eexists.
  - intros q [Hq ->]%seen_base. destruct (Hsh _ Hq) as (e & k' & E & Hk' & R). unfold pass. simpl. rewrite E. by do 2 eexists.
  - intros n q [Hq ->]%seen_base Hn. destruct (Hr n _ Hq Hn) as (data & k' & E & Hk' & R). unfold pass. simpl. rewrite E. by do 2 eexists.
  - intros q [Hq ->]%seen_base. destruct (Hcl _ Hq) as (e & k' & E & R). unfold pass. simpl. rewrite E. by do 2 eexists.
Qed.

(** The loop prints what is left of the answer and stops at its end. *)
Lemma read_all_spec {K} `{Kernel K} `{SocketKernel K} {fd address idle unconnected asking answering request remaining respond}
    (server : WebServer (K := K) fd address idle unconnected asking answering request remaining respond) fuel h :
  forall k c out err,
  answering k -> open_cell (fd := fd) false c -> (S (length (remaining k)) < fuel)%nat ->
  exists k' c', read_all fuel (length h) (mk_process (at_socket h k c) out err)
      = (Result (Ok ()), mk_process (at_socket h k' c') (out ++ remaining k) err) /\
    answering k' /\ request k' = request k /\ open_cell (fd := fd) true c'.
Proof.
  induction fuel as [|fuel IH]; intros k c out err Hk (Hfd & Hu & Hcl & He) Hf; [lia|]. cbn [read_all].
  assert (Eeof : forall (k : K) c out, use_count c = 1 -> on_fd (eof (length h)) (mk_process (at_socket h k c) out err)
    = (Result (Ok (_eof (wrapper c))), mk_process (at_socket h k c) out err)).
  { intros k0 c0 out0 Hu0. erewrite on_fd_Ok; [reflexivity|]. unfold eof.
    by erewrite (M_bind_Ok _ _ _ _ _ (deref_Ok _ _ _ (socket_lookup h (mk_sys k0 err false) c0) ltac:(lia))). }
  rewrite (P_bind_Ok _ _ _ _ _ (Eeof k c out Hu)), He.
  assert (Hb : 0 < Z.min BUFFER_SIZE no_limit) by done.
  destruct (ws_read _ _ _ _ _ _ _ _ _ (lifted_server err server) _ (mk_sys k err false) (conj Hk (conj eq_refl eq_refl)) Hb)
    as (data & [k' err' sig] & E & (Ha & Herr & Hsig) & Hr & Hle & Hne & Hsplit).
  cbn [base errout sigpipe] in *. subst err' sig.
  rewrite <- Hfd in E.
  pose proof (read_data (length h) no_limit (at_socket h (mk_sys k err false) c) c data _ (socket_lookup h _ c) ltac:(lia) ltac:(done) E Hle) as Ed.
  simpl heap in Ed. rewrite socket_insert in Ed.
  assert (Es : on_fd (read_string (length h) no_limit) (mk_process (at_socket h k c) out err)
    = (Result (Ok data), mk_process (at_socket h k' (was_read no_limit data c)) out err)).
  { erewrite on_fd_Ok; [reflexivity|]. unfold read_string. by rewrite (M_bind_Ok _ _ _ _ _ Ed). }
  rewrite (P_bind_Ok _ _ _ _ _ Es).
  rewrite (P_bind_Ok _ _ _ () (mk_process (at_socket h k' (was_read no_limit data c)) (out ++ data) err)) by done.
  destruct (decide (data = [])) as [->|Hd].
  - destruct (decide (remaining k = [])) as [Hrem|Hrem]; [|by destruct (Hne Hrem)].
    destruct fuel as [|fuel]; [lia|]. cbn [read_all]. set (c' := was_read no_limit [] c).
    rewrite (P_bind_Ok _ _ _ _ _ (Eeof k' c' (out ++ []) Hu)).
    unfold c' at 1. simpl. rewrite He. simpl. exists k', c'. rewrite Hrem.
    split_and!; try done. unfold open_cell, c'. simpl. by rewrite He.
  - destruct (IH k' (was_read no_limit data c) (out ++ data) err) as (k2 & c2 & -> & Ha2 & Hr2 & Ho2).
    + done.
    + split_and!; try done. simpl. rewrite He. rewrite bool_decide_false by (by intros [_ ?]). done.
    + rewrite Hsplit, length_app in Hf. destruct data; [done|]. simpl in Hf. lia.
    + exists k2, c2. rewrite Hsplit, app_assoc. split_and!; try done. congruence.
Qed.

(** Runs the next operation of the program on the socket. *)
Ltac p_step E := erewrite P_bind_Ok; [|apply on_fd_Ok; exact E]; cbn [io cout cerr].
(** The process sees the state [q] of the kernel. *)
Ltac unseen q Hq :=
  let err := fresh "err" in let sig := fresh "sig" in let E1 := fresh in let E2 := fresh in
  destruct q as [q err sig]; destruct Hq as (Hq & E1 & E2); cbn [base errout sigpipe] in *; subst err sig.

Lemma scoped_Ok {K A} `{Kernel K} p (body : P K A) s a st c out err :
  body s = (Result (Ok a), mk_process st out err) -> heap st !! p = Some c -> _closed (wrapper c) = true ->
  scoped p body s = (Result (Ok a), mk_process (mk_state (kernel st)
    (<[p := mk_cell (wrapper c) (use_count c - 1)]> (heap st))) out err).
Proof.
  intros E Hc Hcl. unfold scoped. rewrite E. unfold mbind, P_bind, on_fd, destroy. simpl. rewrite Hc, Hcl.
  by case_decide.
Qed.

(** The whole request. *)
Definition http_request (host path : string) : bytes :=
  text "GET " ++ text path ++ text " HTTP/1.1" ++ crlf ++
  text "Host: " ++ text host ++ crlf ++ text "Connection: close" ++ crlf ++ crlf.

(** What the program says on its standard error after a request that went through. *)
Definition farewell (host path : string) : bytes :=
  (text "Function called: get_URL(" ++ text host ++ text ", " ++ text path ++ text ")." ++ newline) ++
  (text "Warning: get_URL() has not been implemented yet." ++ newline).

Lemma strlen_literals :
  contents (BufferViewList.of_cstr (text "Connection: close" ++ crlf)) = text "Connection: close" ++ crlf /\
  contents (BufferViewList.of_cstr crlf) = crlf.
Proof. by vm_compute. Qed.

Lemma get_URL_spec {K} `{Kernel K} `{SocketKernel K} `{Resolver} fd address idle unconnected asking answering
    request remaining respond fuel host path (s : process K) :
  WebServer fd address idle unconnected asking answering request remaining respond ->
  Address.of_hostname host "http" = Ok address -> idle (kernel (io s)) ->
  zlen (http_request host path) < 2 ^ 31 -> (S (length (respond (http_request host path))) < fuel)%nat ->
  exists k' w', get_URL fuel host path s
      = (Result (Ok ()), mk_process (mk_state k' (heap (io s) ++ [mk_cell w' 0])) (cout s ++ respond (http_request host path))
           (cerr s ++ farewell host path)) /\
    request k' = http_request host path /\ _fd w' = fd /\ _closed w' = true.
Proof.
  intros server Haddr Hidle Hsize Hfuel. destruct s as [[k h] out err]. cbn [io kernel heap cout] in *.
  set (c0 := mk_cell (mk_wrapper fd false false 0 0) 1).
  pose proof (lifted_server err server) as server'.
  destruct (socket_step server' h (mk_sys k err false)) as (k1 & E1 & Hk1); [done|]. fold c0 in E1.
  assert (Ho : open_cell (fd := fd) false c0) by done.
  destruct (connect_step server' h k1 c0 Hk1 Ho) as (k2 & E2 & Hk2 & R2).
  set (l1 := text "GET " ++ text path ++ text " HTTP/1.1" ++ crlf). set (l2 := text "Host: " ++ text host ++ crlf).
  set (l3 := text "Connection: close" ++ crlf).
  assert (Hreq : http_request host path = l1 ++ l2 ++ l3 ++ crlf)
    by (unfold http_request, l1, l2, l3; by rewrite <- !app_assoc).
  assert (Hl : zlen l1 < 2 ^ 31 /\ zlen l2 < 2 ^ 31)
    by (rewrite Hreq, !zlen_app in Hsize; pose proof (zlen_nonneg l1); pose proof (zlen_nonneg l2);
        pose proof (zlen_nonneg l3); pose proof (zlen_nonneg crlf); lia).
  destruct Hl as [Hl1 Hl2]. destruct strlen_literals as [Hc3 Hc4]. fold l3 in Hc3.
  assert (Hcat : forall v : bytes, contents (BufferViewList.of_string v) = v) by (intros v; apply app_nil_r).
  destruct (write_step server' h k2 c0 (BufferViewList.of_string l1) Hk2 Ho) as (n3 & k3 & c3 & E3 & Ho3 & Hk3 & R3);
    [by rewrite Hcat|].
  destruct (write_step server' h k3 c3 (BufferViewList.of_string l2) Hk3 Ho3) as (n4 & k4 & c4 & E4 & Ho4 & Hk4 & R4);
    [by rewrite Hcat|].
  destruct (write_step server' h k4 c4 (BufferViewList.of_cstr l3) Hk4 Ho4) as (n5 & k5 & c5 & E5 & Ho5 & Hk5 & R5);
    [by rewrite Hc3|].
  destruct (write_step server' h k5 c5 (BufferViewList.of_cstr crlf) Hk5 Ho5) as (n6 & k6 & c6 & E6 & Ho6 & Hk6 & R6);
    [by rewrite Hc4|].
  destruct (shutdown_step server' h k6 c6 Hk6 Ho6) as (k7 & c7 & E7 & Ho7 & Hk7 & R7 & A7).
  assert (Hr6 : request (base k6) = http_request host path)
    by (rewrite R6, R5, R4, R3, R2, Hc3, Hc4, !Hcat, Hreq; by rewrite <- !app_assoc).
  rewrite Hr6 in *. unseen k1 Hk1. unseen k2 Hk2. unseen k3 Hk3. unseen k4 Hk4. unseen k5 Hk5. unseen k6 Hk6. unseen k7 Hk7.
  destruct (read_all_spec server fuel h k7 c7 out err Hk7 Ho7) as (k8 & c8 & E8 & Hk8 & R8 & Ho8); [by rewrite A7|].
  destruct (close_step server' h (mk_sys k8 err false) c8) as (k9 & E9 & R9 & Hk9); [done|done|].
  cbn [sys_close sys_kernel] in Hk9. unfold pass in Hk9. cbn [base errout sigpipe] in Hk9.
  destruct (sys_close fd k8) as [x9 k9'] eqn:Hclose. simpl in Hk9. subst k9. cbn [base] in R9.
  do 2 eexists. split.
  - unfold get_URL. p_step E1. erewrite scoped_Ok; [| |apply socket_lookup|].
    2: { erewrite P_bind_Ok; [|unfold pure; by rewrite Haddr]. p_step E2. p_step E3. p_step E4. p_step E5. p_step E6.
         p_step E7. erewrite P_bind_Ok; [|exact E8]. p_step E9. rewrite A7. reflexivity. }
    + simpl. rewrite socket_insert. do 2 f_equal. symmetry. apply (app_assoc err).
    + done.
  - simpl. split_and!; [congruence|done..].
Qed.

(** ** Properties *)

(** C18: against a server, however it splits its answer and however the kernel splits the
    writes, the program terminates with success, has sent exactly the request
    [GET path HTTP/1.1] with its two headers and the empty line, prints on its standard
    output exactly the server's whole answer, and has closed and released its socket; on its
    standard error it says that it has not been implemented.  With another number of
    arguments it prints the usage, touches nothing else and fails. *)
Theorem webget_prints_answer {K} `{Kernel K} `{SocketKernel K} `{Resolver} fd address idle unconnected asking answering
    request remaining respond fuel program host path (s : process K) :
  WebServer fd address idle unconnected asking answering request remaining respond ->
  Address.of_hostname host "http" = Ok address -> idle (kernel (io s)) ->
  zlen (http_request host path) < 2 ^ 31 -> (S (length (respond (http_request host path))) < fuel)%nat ->
  (exists k' w', main fuel [program; host; path] s
      = (Ok (Returned EXIT_SUCCESS), mk_process (mk_state k' (heap (io s) ++ [mk_cell w' 0]))
           (cout s ++ respond (http_request host path)) (cerr s ++ farewell host path)) /\
    request k' = http_request host path /\ _fd w' = fd /\ _closed w' = true) /\
  (forall argv, length argv <> 3%nat -> argv <> [] ->
     exists err', main fuel argv s = (Ok (Returned EXIT_FAILURE), mk_process (io s) (cout s) err')).
Proof.
  intros server Haddr Hidle Hsize Hfuel. split.
  - destruct (get_URL_spec fd address idle unconnected asking answering request remaining respond fuel host path s)
      as (k' & w' & E & Hr & Hw); [done..|]. exists k', w'. unfold main. by rewrite E.
  - intros [|a [|b [|c [|d argv]]]] Hlen Hne; try done; by eexists.
Qed.

(** ** A concrete server *)

(** An echo server at one address: what it received and what is left of its answer.  It takes
    three bytes and hands out five bytes at a time. *)
Record echo : Set := mk_echo { received : bytes; pending : bytes }.
#[local] Instance echo_kernel : Kernel echo := {|
  sys_read _ n k := let m := Z.to_nat (Z.min n 5) in (inr (take m (pending k)), mk_echo (received k) (drop m (pending k)));
  sys_writev _ iov k := (Z.min 3 (zlen (iov_bytes iov)), 0, mk_echo (received k ++ take 3 (iov_bytes iov)) (pending k));
  sys_close _ k := (0, 0, k);
  sys_fcntl _ _ _ k := (0, 0, k);
  strerror _ := "Input/output error";
  put_error _ k := k
|}.
#[local] Instance echo_sockets : SocketKernel echo := {|
  sys_socket _ _ _ k := (3, 0, k);
  sys_getsockopt _ _ _ _ k := (-1, 22, (None, 4), k);
  sys_setsockopt _ _ _ _ _ k := (0, 0, k);
  sys_getsockname _ _ k := (-1, 22, ([], 128), k);
  sys_getpeername _ _ k := (-1, 22, ([], 128), k);
  sys_bind _ _ _ k := (0, 0, k);
  sys_connect _ _ _ k := (0, 0, mk_echo [] []);
  sys_shutdown _ _ k := (0, 0, mk_echo (received k) (received k));
  sys_listen _ _ k := (-1, 95, k);
  sys_accept _ k := (-1, 95, k);
  sys_recvfrom _ _ _ _ k := (-1, 95, ([], ([], 128)), k);
  sys_sendmsg _ _ _ _ k := (-1, 95, k)
|}.
#[local] Instance one_host : Resolver := {|
  getaddrinfo node _ _ :=
    if decide (node = "cs144") then (0, Some (Address.sockaddr_in Address.AF_INET 80 2130706433, 16)) else (-2, None);
  getnameinfo _ _ := (0, "127.0.0.1", "80");
  gai_strerror _ := "Name or service not known"
|}.
Definition cs144 : Address.Address := Socket.stored_address (Address.sockaddr_in Address.AF_INET 80 2130706433).

Lemma echo_server :
  WebServer 3 cs144 (fun _ : echo => True) (fun _ => True) (fun _ => True) (fun _ => True) received pending (fun r => r).
Proof.
  split; try done.
  - intros k _. by eexists _, _.
  - intros k _. by eexists _, _.
  - split. intros iov k _ _. pose proof (zlen_nonneg (iov_bytes iov)).
    eexists _, _, _. split; [reflexivity|]. split_and!; [done|lia|lia| |].
    + destruct (iov_bytes iov); [done|]. autorewrite with zlen in *. pose proof (zlen_nonneg l). lia.
    + simpl. f_equal. destruct (decide (zlen (iov_bytes iov) <= 3)) as [Hle|Hgt].
      * rewrite Z.min_r by lia. rewrite !take_ge; [done|unfold zlen in *; lia..].
      * by rewrite Z.min_l by lia.
  - intros k _. by eexists _, _.
  - intros n k _ Hn. eexists _, _. split; [reflexivity|]. split_and!; try done.
    + rewrite zlen_take by lia. lia.
    + destruct (pending k); [done|]. intros _. destruct (Z.to_nat (Z.min n 5)) eqn:E; [lia|done].
    + simpl. by rewrite take_drop.
  - intros k _. by eexists _, _.
Qed.

Lemma webget_prints_answer_witness :
  exists s', main 80 ["webget"; "cs144"; "/hello"] (mk_process (mk_state (mk_echo [] []) []) [] [])
      = (Ok (Returned EXIT_SUCCESS), s') /\
    cout s' = text "GET /hello HTTP/1.1" ++ crlf ++ text "Host: cs144" ++ crlf ++ text "Connection: close" ++ crlf ++ crlf.
Proof.
  destruct (webget_prints_answer 3 cs144 _ _ _ _ received pending (fun r => r) 80 "webget" "cs144" "/hello"
    (mk_process (mk_state (mk_echo [] []) []) [] []) echo_server) as [(k' & w' & E & _) _];
    [by vm_compute|done|by vm_compute|vm_compute; lia|].
  eexists. split; [exact E|]. by vm_compute.
Defined.

End Webget.
