(* ===== verification/WebgetFailures.v ===== *)
(** * The webget program on a kernel that fails (apps/webget.cc)

    [Webget] follows a request that goes through.  Here the kernel and the resolver may answer
    anything at every call, except that a descriptor does not deliver data for ever: the
    program still ends, with a message for the failure, and gives its socket back, unless a
    broken connection kills it while it sends its request. *)

From S2P Require Import Prelude Errors Buffer FileDescriptor Address Socket Webget.

Module WebgetFailures.

Import FileDescriptor Webget.

(** read(2) stores at most what was asked for, and at most [bound] bytes arrive. *)
Record FiniteReads {K} `{Kernel K} (left : K -> nat) (bound : nat) : Prop := {
  fr_bound : forall k, (left k <= bound)%nat;
  fr_read : forall fd n k data k', 0 <= n -> sys_read fd n k = (inr data, k') ->
    zlen data <= n /\ (data <> [] -> (left k' < left k)%nat)
}.

Lemma lifted_reads {K} `{Kernel K} left bound :
  FiniteReads (K := K) left bound -> FiniteReads (K := sys K) (fun q => left (base q)) bound.
Proof.
  intros [Hb Hr]. split; [done|]. intros fd n q data q' Hn. simpl. unfold pass.
  destruct (sys_read fd n (base q)) as [x k'] eqn:E. intros [= -> <-]. by eapply Hr.
Qed.

(** ** What an operation does to the standard error and to the signal *)

Section Consoles.
Context {K : Type} `{Kernel K} `{SocketKernel K}.

(** The kernel says that nobody is left to read what is written. *)
Definition broken_pipe : Prop := exists fd iov (k : K) k', sys_writev fd iov k = (-1, EPIPE, k').

(** Nothing is said and no signal arrives, or only one for a broken pipe. *)
Definition hushed (q q' : sys K) : Prop := errout q' = errout q /\ sigpipe q' = sigpipe q.
Definition piped (q q' : sys K) : Prop :=
  errout q' = errout q /\ (sigpipe q' = true -> sigpipe q = true \/ broken_pipe).

#[global] Instance hushed_preorder : PreOrder hushed.
Proof. split; [by intros q|]. intros a b c [E1 E2] [E3 E4]. split; congruence. Qed.
#[global] Instance piped_preorder : PreOrder piped.
Proof. split; [split; [done|by left]|]. intros a b c [E1 E2] [E3 E4]. split; [congruence|]. intros Hc. destruct (E4 Hc); auto. Qed.

Lemma hushed_piped q q' : hushed q q' -> piped q q'.
Proof. intros [E1 E2]. split; [done|]. rewrite E2. by left. Qed.

(** Computations that keep to such a relation. *)
Definition keeps {A} (R : sys K -> sys K -> Prop) (m : M (sys K) A) : Prop :=
  forall st, R (kernel st) (kernel (m st).2).

Section Keeps.
Context (R : sys K -> sys K -> Prop) `{!PreOrder R}.

Lemma keeps_bind {A B} (m : M (sys K) A) (k : A -> M (sys K) B) : keeps R m -> (forall a, keeps R (k a)) -> keeps R (m ≫= k).
Proof.
  intros Hm Hk st. unfold mbind, M_bind. specialize (Hm st). destruct (m st) as [[a|f] st1]; [|done].
  etrans; [exact Hm|apply Hk].
Qed.
Lemma keeps_lift {A} (r : res A) : keeps R (lift r).
Proof. by intros st. Qed.
Lemma keeps_ret {A} (a : A) : keeps R (mret a).
Proof. by intros st. Qed.
Lemma keeps_throw {A} what : keeps R (M_throw (A := A) what).
Proof. by intros st. Qed.
Lemma keeps_deref p : keeps R (deref p).
Proof. intros st. unfold deref. destruct (heap st !! p); [|done]. by case_decide. Qed.
Lemma keeps_store p w : keeps R (store p w).
Proof. intros st. unfold store. by destruct (heap st !! p). Qed.
Lemma keeps_SystemCall what r errno mask : keeps R (SystemCall what r errno mask).
Proof. intros st. unfold SystemCall. by case_decide. Qed.
Lemma keeps_construct fd : keeps R (construct fd).
Proof. intros st. unfold construct. by case_decide. Qed.
Lemma keeps_call {A} (f : sys K -> A * sys K) : (forall q, R q (f q).2) -> keeps R (call f).
Proof. intros Hf st. unfold call. specialize (Hf (kernel st)). by destruct (f (kernel st)). Qed.
Lemma keeps_if {A} (Q : Prop) `{Decision Q} (m m' : M (sys K) A) : keeps R m -> keeps R m' -> keeps R (if decide Q then m else m').
Proof. by case_decide. Qed.
End Keeps.

Lemma pass_hushed {A} (f : K -> A * K) q : hushed q (pass f q).2.
Proof. unfold pass. by destruct (f (base q)). Qed.

Lemma keeps_pass {A} (f : K -> A * K) : keeps hushed (call (pass f)).
Proof. apply keeps_call, pass_hushed. Qed.

Lemma writev_piped fd iov : keeps piped (call (sys_writev (K := sys K) fd iov)).
Proof.
  apply keeps_call. intros q. simpl. unfold pass_write. destruct (sys_writev fd iov (base q)) as [[r e] k'] eqn:E.
  split; [done|]. simpl. rewrite orb_true_iff, bool_decide_eq_true. intros [?|[-> ->]]; [by left|right]. by repeat eexists.
Qed.

Create HintDb keeps.
#[local] Hint Resolve keeps_lift keeps_ret keeps_throw keeps_deref keeps_store keeps_SystemCall keeps_construct writev_piped : keeps.
#[local] Hint Extern 1 (keeps hushed (call _)) => refine (keeps_pass _) : keeps.
Ltac keep := cbv zeta; repeat first
  [ solve [eauto with keeps typeclass_instances] | apply keeps_bind; [apply _| |intros ?] | apply keeps_if | progress case_match ].

Lemma keeps_weaken {A} (m : M (sys K) A) : keeps hushed m -> keeps piped m.
Proof. intros Hm st. apply hushed_piped, Hm. Qed.

Lemma socket_hushed : keeps hushed Socket.tcp_socket.
Proof. unfold Socket.tcp_socket, Socket.construct. keep. Qed.
Lemma connect_hushed p addr : keeps hushed (Socket.connect p addr).
Proof. unfold Socket.connect, fd_num. keep. Qed.
Lemma shutdown_hushed p how : keeps hushed (Socket.shutdown p how).
Proof. unfold Socket.shutdown, fd_num, register_read, register_write. keep. Qed.
Lemma eof_hushed p : keeps hushed (eof p).
Proof. unfold eof. keep. Qed.
Lemma close_hushed p : keeps hushed (close p).
Proof. unfold close. keep. Qed.
Lemma read_hushed p limit : keeps hushed (read_string p limit).
Proof. unfold read_string, read, register_read. keep. Qed.

Lemma write_piped p buffer write_all : keeps piped (write p buffer write_all).
Proof.
  unfold write. generalize (S (Z.to_nat (BufferViewList.size buffer))) as fuel. intros fuel. generalize 0 as total.
  revert buffer. induction fuel as [|fuel IH]; intros buffer total; cbn [write_loop]; [apply keeps_lift, _|].
  apply keeps_bind; [apply _| |intros [n b]; keep]. unfold write_once, fd_num, register_write. keep.
Qed.
End Consoles.
Arguments broken_pipe K {_}.

(** ** Computations of the program that need the socket [p] *)

(** The handles of the process. *)
Definition counts {K} (s : process K) : list Z := handles (io s).

(** What a destructor may say: nothing, or that close(2) failed. *)
Definition close_report {K} `{Kernel K} (fd : Z) (k : K) : bytes :=
  let '(r, errno, _) := sys_close fd k in
  if decide (to_i32 r >= 0 \/ errno = 0) then []
  else text (destructing (TaggedError.what (unix_error K "close" errno))).
Definition destructor_report K `{Kernel K} (said : bytes) : Prop :=
  said = [] \/ exists errno, errno <> 0 /\ said = text (destructing (TaggedError.what (unix_error K "close" errno))).

Section Contained.
Context {K : Type} `{Kernel K} `{SocketKernel K} `{Resolver} (p : nat).

(** From [s], [m] ends or throws, keeps the handles, prints on the standard output at most more,
    and says exactly [said] on the standard error when it ends, nothing when it throws.  If
    [kills], a broken pipe may also kill the process, before anything is printed. *)
Definition contained {A} (kills : bool) (said : bytes) (m : P K A) (s : process K) : Prop :=
  alive p (io s) ->
  let '(r, s') := m s in
  match r with
  | Result (Ok _) => cerr s' = cerr s ++ said
  | Result (Err (Exception _)) => cerr s' = cerr s
  | Result (Err _) => False
  | Killed => kills = true /\ cerr s' = cerr s /\ cout s' = cout s /\ broken_pipe K
  end /\ counts s' = counts s /\ cout s `prefix_of` cout s'.

(** The same for a step that prints nothing. *)
Definition asks {A} (m : P K A) (s : process K) : Prop := contained true [] m s /\ cout (m s).2 = cout s.

Lemma alive_counts (s s' : process K) : counts s' = counts s -> alive p (io s) -> alive p (io s').
Proof.
  intros Hc. apply alive_preserved. intros q. unfold counts in Hc. by rewrite <- !handles_lookup, Hc.
Qed.

Lemma contained_seq {A B} kills said (m : P K A) (k : A -> P K B) s :
  contained kills [] m s -> (kills = true -> cout (m s).2 = cout s) ->
  (forall a s', m s = (Result (Ok a), s') -> alive p (io s') -> contained kills said (k a) s') ->
  contained kills said (m ≫= k) s.
Proof.
  intros Hm Ho Hk Hs. specialize (Hm Hs). unfold mbind, P_bind. destruct (m s) as [[[a|f]|] s1] eqn:E; [|done..].
  destruct Hm as (He & Hc & Hp). pose proof (alive_counts _ _ Hc Hs) as Hs1.
  specialize (Hk a s1 eq_refl Hs1 Hs1). destruct (k a s1) as [r s2].
  rewrite app_nil_r in He. rewrite <- He, <- Hc. destruct Hk as (Hr & Hc2 & Ho2).
  split_and!; [|done|by etrans]. destruct r as [|]; [done|]. destruct Hr as (Hkill & He2 & Hout & Hb).
  split_and!; [done|done| |done]. rewrite Hout. by apply Ho.
Qed.

Lemma contained_bind {A B} said (m : P K A) (k : A -> P K B) s :
  contained false [] m s ->
  (forall a s', m s = (Result (Ok a), s') -> alive p (io s') -> contained false said (k a) s') ->
  contained false said (m ≫= k) s.
Proof. intros Hm. by apply contained_seq. Qed.

Lemma asks_bind {A B} said (m : P K A) (k : A -> P K B) s :
  asks m s -> (forall a s', m s = (Result (Ok a), s') -> alive p (io s') -> contained true said (k a) s') ->
  contained true said (m ≫= k) s.
Proof. intros [Hm Ho]. by apply contained_seq. Qed.

Lemma contained_kills {A} said (m : P K A) s : contained false said m s -> contained true said m s.
Proof. intros Hm Hs. specialize (Hm Hs). destruct (m s) as [[|] s']; [done|]. by destruct Hm as [[? _] _]. Qed.

Lemma on_fd_counts {A} (m : M (sys K) A) s : tame p m -> alive p (io s) ->
  counts (on_fd m s).2 = counts s /\ match (m (lifted s)).1 with Err Undefined | Err OutOfFuel => False | _ => True end.
Proof.
  intros Hm Hs. specialize (Hm (lifted s) Hs). unfold on_fd. destruct (m (lifted s)) as [r st]. destruct Hm as [Hr Hq].
  split; [|by destruct r as [|[]]]. apply list_eq. intros q. unfold counts. rewrite !handles_lookup. apply Hq.
Qed.

Lemma contained_fd {A} (m : M (sys K) A) s : tame p m -> keeps hushed m -> contained false [] (on_fd m) s.
Proof.
  intros Ht Hk Hs. destruct (on_fd_counts m s Ht Hs) as [Hc Hr]. specialize (Hk (lifted s)). revert Hc Hr Hk. unfold on_fd.
  destruct (m (lifted s)) as [r st]. simpl. intros Hc Hr [He Hsig]. rewrite Hsig.
  split_and!; [|done|done]. destruct r as [|[]]; simpl; rewrite ?app_nil_r; done.
Qed.

Lemma asks_fd {A} (m : M (sys K) A) s : tame p m -> keeps piped m -> asks (on_fd m) s.
Proof.
  intros Ht Hk. split; [|unfold on_fd; by destruct (m (lifted s))].
  intros Hs. destruct (on_fd_counts m s Ht Hs) as [Hc Hr]. specialize (Hk (lifted s)). revert Hc Hr Hk. unfold on_fd.
  destruct (m (lifted s)) as [r st]. simpl. intros Hc Hr [He Hsig].
  split_and!; [|done|done]. destruct (sigpipe (kernel st)).
  - split_and!; [done|done|done|]. by destruct Hsig.
  - destruct r as [|[]]; simpl; rewrite ?app_nil_r; done.
Qed.

Lemma asks_pure {A} (r : res A) s : defined r -> asks (pure r) s.
Proof. intros Hr. split; [|done]. intros Hs. simpl. split_and!; [destruct r as [|[]]; rewrite ?app_nil_r; done|done|done]. Qed.

Lemma contained_print text s : contained false [] (print text) s.
Proof. intros Hs. simpl. split_and!; [by rewrite app_nil_r|done|by apply prefix_app_r]. Qed.

Lemma contained_ret {A} (a : A) s : contained false [] (mret a) s.
Proof. intros Hs. simpl. split_and!; [by rewrite app_nil_r|done|done]. Qed.

(** ** The loop *)

Context (left : K -> nat) (bound : nat) (reads : FiniteReads left bound).

(** A read that ends has either met the end of the stream or taken data. *)
Lemma read_progress st data st' :
  alive p st -> read_string p no_limit st = (Ok data, st') ->
  eof p st' = (Ok true, st') \/ (left (base (kernel st')) < left (base (kernel st)))%nat.
Proof.
  intros (c & Hc & Hu). assert (Hlt : (p < length (heap st))%nat) by (by eapply lookup_lt_Some).
  destruct (sys_read (_fd (wrapper c)) (Z.min BUFFER_SIZE no_limit) (kernel st)) as [[e|d] k'] eqn:E.
  - destruct (read_error p no_limit st c e k' Hc Hu ltac:(done) E) as (what & st2 & Er).
    unfold read_string. by rewrite (M_bind_Err _ _ _ _ _ Er).
  - destruct (fr_read _ _ (lifted_reads _ _ reads) _ (Z.min BUFFER_SIZE no_limit) _ _ _ ltac:(done) E) as [Hle Hl].
    unfold read_string. rewrite (M_bind_Ok _ _ _ _ _ (read_data p no_limit st c d k' Hc Hu ltac:(done) E Hle)).
    intros [= <- <-]. destruct (decide (d = [])) as [->|Hd]; [left|right; by apply Hl].
    set (c' := was_read no_limit [] c). set (st' := mk_state k' _).
    assert (Hc' : heap st' !! p = Some c') by (by apply list_lookup_insert_eq).
    unfold eof. rewrite (M_bind_Ok _ _ _ _ _ (deref_Ok _ _ _ Hc' Hu)). unfold c', was_read. simpl. by rewrite orb_true_r.
Qed.

(** The socket is at its end. *)
Definition at_end (s : process K) : Prop := exists c, heap (io s) !! p = Some c /\ _eof (wrapper c) = true.

Lemma at_end_eof (st : state (sys K)) : eof p st = (Ok true, st) -> exists c, heap st !! p = Some c /\ _eof (wrapper c) = true.
Proof.
  unfold eof, mbind, M_bind, deref. destruct (heap st !! p) as [c|]; [|done]. case_decide; [|done].
  intros [= E]. by exists c.
Qed.

Lemma eof_step s at_eof s1 :
  on_fd (eof p) s = (Result (Ok at_eof), s1) -> s1 = s /\ (at_eof = false -> ~ at_end s).
Proof.
  unfold on_fd, eof, mbind, M_bind, deref, at_end. simpl. destruct (heap (io s) !! p) as [c|]; [|done].
  case_decide; [|done]. cbn [mret M_ret kernel sigpipe base errout lifted]. intros [= <- <-].
  split; [by destruct s as [[] ? ?]|]. intros He (c' & [= <-] & He'). congruence.
Qed.

Lemma read_all_contained fuel : forall s,
  (0 < fuel)%nat -> at_end s \/ (S (left (kernel (io s))) < fuel)%nat -> contained false [] (read_all fuel p) s.
Proof.
  induction fuel as [|fuel IH]; intros s Hf Hs; [lia|]. cbn [read_all].
  apply contained_bind; [apply contained_fd; [unfold eof; apply tame_bind; [apply tame_deref|intros; apply tame_ret]|apply eof_hushed]|].
  intros at_eof s1 E1 Ha. apply eof_step in E1 as [-> Hend]. destruct at_eof; [apply contained_ret|].
  destruct Hs as [?|Hl]; [by destruct (Hend eq_refl)|].
  apply contained_bind.
  { apply contained_fd; [unfold read_string; apply tame_bind; [apply read_tame|intros; apply tame_ret]|apply read_hushed]. }
  intros data s2 E2 Ha2. apply contained_bind; [apply contained_print|]. intros [] s3 [= <-] _.
  unfold on_fd in E2. destruct (read_string p no_limit (lifted s)) as [r st] eqn:E.
  destruct (sigpipe (kernel st)); [done|]. injection E2 as -> <-.
  apply IH; cbn [io]; [lia|]. destruct (read_progress (lifted s) _ _ Ha E) as [He|Hlt].
  - left. destruct (at_end_eof _ He) as (c & Hc & Hec). by exists c.
  - right. simpl in Hlt |- *. lia.
Qed.

Lemma farewell_contained host path s :
  contained false (farewell host path)
    (_ ← print_error (text "Function called: get_URL(" ++ text host ++ text ", " ++ text path ++ text ")." ++ newline);
     print_error (text "Warning: get_URL() has not been implemented yet." ++ newline)) s.
Proof. intros Hs. split_and!; [symmetry; apply (app_assoc (cerr s))|done|done]. Qed.

(** ** Leaving the scope *)

(** When [m] ends, the socket is closed. *)
Definition ends_closed {A} (m : P K A) : Prop := forall s a s' c,
  m s = (Result (Ok a), s') -> heap (io s') !! p = Some c -> _closed (wrapper c) = true.

Lemma ends_closed_bind {A B} (m : P K A) (k : A -> P K B) : (forall a, ends_closed (k a)) -> ends_closed (m ≫= k).
Proof.
  intros Hk s b s' c. unfold mbind, P_bind. destruct (m s) as [[[a|]|] s1]; try done. apply Hk.
Qed.

Lemma ends_closed_close {A} (k : () -> P K A) :
  (forall u s, io (k u s).2 = io s) -> ends_closed (_ ← on_fd (close p); k ()).
Proof.
  intros Hk s a s' c. unfold mbind, P_bind, on_fd. destruct (close p (lifted s)) as [r st] eqn:E.
  destruct (sigpipe (kernel st)); [done|]. destruct r as [[]|]; [|done].
  match goal with |- k () ?s1 = _ -> _ => pose proof (Hk () s1) as Hio; destruct (k () s1) end.
  intros [= _ ->]. simpl in Hio. rewrite Hio. simpl. revert E. unfold close, mbind, M_bind, deref.
  destruct (heap (lifted s) !! p) as [c0|]; [|done]. case_decide; [|done]. unfold call.
  destruct (sys_close _ _) as [[x e] q]. unfold SystemCall. case_decide; [|done]. cbn [mret M_ret]. unfold store. simpl.
  destruct (heap (io s) !! p) eqn:Hc; [|done]. intros [= <-]. simpl.
  rewrite list_lookup_insert_eq by (by eapply lookup_lt_Some). by intros [= <-].
Qed.

Lemma after_close_sys fd (k : K) err sig :
  after_close fd (mk_sys k err sig) = mk_sys (sys_close fd k).2 (err ++ close_report fd k) sig.
Proof.
  unfold after_close, close_report. simpl. unfold pass. simpl. destruct (sys_close fd k) as [[r e] k'].
  case_decide; simpl; [by rewrite app_nil_r|done].
Qed.

Lemma close_report_destructor fd (k : K) : destructor_report K (close_report fd k).
Proof.
  unfold close_report. destruct (sys_close fd k) as [[r e] k']. case_decide as Hd; [by left|right]. exists e. split; [|done].
  intros ->. apply Hd. by right.
Qed.

(** The destructor of the only handle. *)
Lemma leave_scope s h :
  counts s = h ++ [1] -> p = length h ->
  exists c s', heap (io s) !! p = Some c /\ on_fd (destroy p) s = (Result (Ok ()), s') /\
    counts s' = h ++ [0] /\ cout s' = cout s /\
    if _closed (wrapper c) then cerr s' = cerr s
    else kernel (io s') = (sys_close (_fd (wrapper c)) (kernel (io s))).2 /\
         cerr s' = cerr s ++ close_report (_fd (wrapper c)) (kernel (io s)).
Proof.
  intros Hh Hp. destruct (only_handle h [] p (lifted s) Hh Hp) as (c & Hc & Hu).
  destruct (destroy_handles h 0 p (lifted s) Hh Hp) as (st & Ed & Hst).
  assert (Hk : kernel st = if _closed (wrapper c) then kernel (lifted s) else after_close (_fd (wrapper c)) (kernel (lifted s))).
  { destruct (_closed (wrapper c)) eqn:Hcl.
    - revert Ed. unfold destroy. rewrite Hc, Hcl. case_decide; by intros [= <-].
    - destruct (destroy_last p (lifted s) c Hc Hu Hcl) as (st' & Ed' & Hk & _). rewrite Ed in Ed'. by injection Ed' as <-. }
  exists c. unfold on_fd. rewrite Ed, Hk. unfold lifted. cbn [kernel]. rewrite after_close_sys.
  destruct (_closed (wrapper c)); eexists; (split; [done|split; [reflexivity|by split_and!]]).
Qed.

(** Leaving the scope of the only handle of the last object releases it; if the process is
    killed, the scope is not left. *)
Lemma scoped_releases {A} said (body : P K A) s h :
  counts s = h ++ [1] -> p = length h -> contained true said body s -> ends_closed body ->
  let '(r, s') := scoped p body s in
  match r with
  | Result (Ok _) => cerr s' = cerr s ++ said /\ counts s' = h ++ [0]
  | Result (Err (Exception _)) => (exists report, destructor_report K report /\ cerr s' = cerr s ++ report) /\ counts s' = h ++ [0]
  | Result (Err _) => False
  | Killed => cerr s' = cerr s /\ cout s' = cout s /\ broken_pipe K /\ counts s' = h ++ [1]
  end /\ cout s `prefix_of` cout s'.
Proof.
  intros Hh Hp Hbody Hend. destruct (only_handle h [] p (io s) Hh Hp) as (c & Hc & Hu).
  specialize (Hbody ltac:(exists c; split; [done|lia])). specialize (Hend s).
  unfold scoped. destruct (body s) as [r s1]. destruct Hbody as (Hr & Hc1 & Ho). rewrite Hh in Hc1.
  destruct (leave_scope s1 h Hc1 Hp) as (c1 & s2 & Hl & El & Hc2 & Ho2 & Hs2).
  destruct r as [[a|[|what|]]|]; try done.
  - rewrite (P_bind_Ok _ _ _ _ _ El). rewrite (Hend a s1 c1 eq_refl Hl) in Hs2. simpl. by rewrite Hs2, Ho2.
  - rewrite (P_bind_Ok _ _ _ _ _ El). simpl. rewrite Ho2. split; [|done]. split; [|done].
    destruct (_closed (wrapper c1)).
    + exists []. rewrite app_nil_r. split; [by left|congruence].
    + destruct Hs2 as [_ Hs2]. rewrite Hs2, Hr. eexists. split; [apply close_report_destructor|done].
  - by destruct Hr as (_ & ? & ? & ?).
Qed.

(** When the body throws with the descriptor open, the descriptor is closed. *)
Lemma scoped_throws {A} (body : P K A) s s1 h what c :
  body s = (Result (throw what), s1) -> counts s1 = h ++ [1] -> p = length h ->
  heap (io s1) !! p = Some c -> _closed (wrapper c) = false ->
  let fd := _fd (wrapper c) in
  exists s', scoped p body s = (Result (throw what), s') /\ kernel (io s') = (sys_close fd (kernel (io s1))).2 /\
    counts s' = h ++ [0] /\ cout s' = cout s1 /\ cerr s' = cerr s1 ++ close_report fd (kernel (io s1)).
Proof.
  intros E Hs1 Hp Hc Hcl. destruct (leave_scope s1 h Hs1 Hp) as (c1 & s2 & Hl & El & Hc2 & Ho2 & Hs2).
  rewrite Hc in Hl. injection Hl as <-. rewrite Hcl in Hs2. destruct Hs2 as [Hk He].
  exists s2. unfold scoped. rewrite E. unfold throw at 1. by rewrite (P_bind_Ok _ _ _ _ _ El).
Qed.
End Contained.

(** ** The whole program *)

Section Program.
Context {K : Type} `{Kernel K} `{SocketKernel K} `{Resolver}.
Context (left : K -> nat) (bound : nat) (reads : FiniteReads left bound).

(** Making the socket. *)
Lemma tcp_socket_outcome (s : process K) :
  (exists what k, on_fd Socket.tcp_socket s = (Result (throw what), mk_process (mk_state k (heap (io s))) (cout s) (cerr s))) \/
  (exists fd k, on_fd Socket.tcp_socket s = (Result (Ok (length (heap (io s)))),
     mk_process (mk_state k (heap (io s) ++ [mk_cell (mk_wrapper fd false false 0 0) 1])) (cout s) (cerr s))).
Proof.
  unfold on_fd, Socket.tcp_socket, Socket.construct, call, mbind, M_bind. simpl. unfold pass. simpl.
  destruct (sys_socket _ _ _ _) as [[r e] k]. unfold SystemCall. case_decide; [|left; by do 2 eexists]. cbn [mret M_ret].
  unfold FileDescriptor.construct. case_decide; [left|right]; by do 2 eexists.
Qed.

Lemma write_asks p buffer (s : process K) :
  zlen (contents buffer) < 2 ^ 63 -> asks p (on_fd (write p buffer true)) s.
Proof. intros Hb. apply asks_fd; [by apply write_tame|apply write_piped]. Qed.

Lemma get_URL_contained fuel host path s :
  Address.honest_resolver -> zlen (text host) < 2 ^ 62 -> zlen (text path) < 2 ^ 62 -> (S bound < fuel)%nat ->
  let '(r, s') := get_URL fuel host path s in
  match r with
  | Result (Ok _) => cerr s' = cerr s ++ farewell host path /\ counts s' = counts s ++ [0]
  | Result (Err (Exception _)) => (exists report, destructor_report K report /\ cerr s' = cerr s ++ report) /\
      (counts s' = counts s \/ counts s' = counts s ++ [0])
  | Result (Err _) => False
  | Killed => cerr s' = cerr s /\ cout s' = cout s /\ broken_pipe K /\ counts s' = counts s ++ [1]
  end /\ cout s `prefix_of` cout s'.
Proof.
  intros Hresolver Hhost Hpath Hfuel. unfold get_URL, mbind at 1, P_bind at 1.
  destruct (tcp_socket_outcome s) as [(what & k & ->)|(fd & k & ->)].
  { simpl. unfold counts. simpl. split; [|done]. split; [|by left]. exists []. rewrite app_nil_r. split; [by left|done]. }
  set (s1 := mk_process _ (cout s) (cerr s)). set (p := length (heap (io s))).
  assert (Hs1 : counts s1 = counts s ++ [1]) by (unfold counts, handles, s1; simpl; by rewrite fmap_app).
  assert (Hp : p = length (counts s)) by (unfold counts, handles; by rewrite length_fmap).
  assert (Hw : forall b (s : process K), zlen b < 2 ^ 63 -> asks p (on_fd (write_string p b true)) s).
  { intros b s0 Hb. apply write_asks. simpl. by rewrite app_nil_r. }
  assert (Hcw : forall b (s : process K), zlen b < 2 ^ 63 -> asks p (on_fd (write_cstr p b true)) s).
  { intros b s0 Hb. apply write_asks. simpl. rewrite app_nil_r. unfold zlen in *. rewrite length_take. lia. }
  cbn [io] in p. match goal with |- context [scoped p ?b s1] =>
    assert (Hbody : contained p true (farewell host path) b s1); [|assert (Hend : ends_closed p b)] end.
  { apply asks_bind; [by apply asks_pure, Address.resolve_defined|intros addr s2 _ _].
    apply asks_bind; [apply asks_fd; [apply Socket.connect_tame|apply keeps_weaken, connect_hushed]|intros [] s3 _ _].
    apply asks_bind; [apply Hw; rewrite !zlen_app; change (zlen (text "GET ")) with 4; change (zlen (text " HTTP/1.1")) with 9;
      change (zlen crlf) with 2; lia|intros n4 s4 _ _].
    apply asks_bind; [apply Hw; rewrite !zlen_app; change (zlen (text "Host: ")) with 6;
      change (zlen crlf) with 2; lia|intros n5 s5 _ _].
    apply asks_bind; [by apply Hcw|intros n6 s6 _ _].
    apply asks_bind; [by apply Hcw|intros n7 s7 _ _].
    apply contained_kills.
    apply contained_bind; [apply contained_fd; [apply Socket.shutdown_tame|apply shutdown_hushed]|intros [] s8 _ _].
    apply contained_bind; [apply (read_all_contained p left bound reads); [lia|right]|intros [] s9 _ _].
    { pose proof (fr_bound _ _ reads (kernel (io s8))). lia. }
    apply contained_bind; [apply contained_fd; [apply close_tame|apply close_hushed]|intros [] s10 _ _].
    apply farewell_contained. }
  { do 8 (apply ends_closed_bind; intros ?). by apply (ends_closed_close p (fun _ => _)). }
  pose proof (scoped_releases p (farewell host path) _ s1 (counts s) Hs1 Hp Hbody Hend) as Hrel.
  destruct (scoped _ _ s1) as [r s2]. destruct Hrel as (Hr & Ho).
  destruct r as [[|[]]|]; try done. destruct Hr as [? ?]. split; [split; [done|by right]|done].
Qed.

(** The socket was made: what follows is in its scope, and starts with the address and the
    connection. *)
Lemma get_URL_scope fuel host path (s s1 : process K) p :
  on_fd Socket.tcp_socket s = (Result (Ok p), s1) ->
  exists body, get_URL fuel host path s = scoped p body s1 /\
    (forall what, Address.of_hostname host "http" = throw what -> body s1 = (Result (throw what), s1)) /\
    (forall addr what s2, Address.of_hostname host "http" = Ok addr -> on_fd (Socket.connect p addr) s1 = (Result (throw what), s2) ->
       body s1 = (Result (throw what), s2)).
Proof.
  intros E. eexists. split; [unfold get_URL; rewrite (P_bind_Ok _ _ _ _ _ E); reflexivity|]. split.
  - intros what Ea. unfold mbind, P_bind, pure. by rewrite Ea.
  - intros addr what st Ea Ec. rewrite (P_bind_Ok _ _ s1 addr s1) by (unfold pure; by rewrite Ea).
    unfold mbind, P_bind. by rewrite Ec.
Qed.

Lemma resolve_fails host service ret res :
  ret <> 0 -> getaddrinfo (TaggedError.c_str host) (TaggedError.c_str service)
    (Address.make_hints Address.AI_ALL Address.AF_INET) = (ret, res) ->
  Address.of_hostname host service = throw (Address.gai_error ("getaddrinfo(" +:+ host +:+ ", " +:+ service +:+ ")") ret).
Proof. intros Hr E. unfold Address.of_hostname, Address.resolve. by rewrite E, decide_True. Qed.

Lemma pass_Ok {A} (f : K -> A * K) (s : process K) a k :
  f (kernel (io s)) = (a, k) -> call (pass f) (lifted s) = (Ok a, mk_state (mk_sys k (cerr s) false) (heap (io s))).
Proof. intros E. unfold call, pass. simpl. by rewrite E. Qed.

Lemma connect_fails p (s : process K) c addr r e k :
  heap (io s) !! p = Some c -> use_count c > 0 ->
  sys_connect (_fd (wrapper c)) (Address._address addr) (Address.size addr) (kernel (io s)) = (r, e, k) -> r < 0 -> e <> 0 ->
  on_fd (Socket.connect p addr) s
  = (Result (throw (TaggedError.what (unix_error K "connect" e))), mk_process (mk_state k (heap (io s))) (cout s) (cerr s)).
Proof.
  intros Hc Hu E Hr He. unfold on_fd, Socket.connect. rewrite (M_bind_Ok _ _ (lifted s) _ _ (fd_num_Ok _ (lifted s) _ Hc Hu)).
  rewrite (M_bind_Ok _ _ (lifted s) (r, e) (mk_state (mk_sys k (cerr s) false) (heap (io s))))
    by exact (pass_Ok _ s _ _ E).
  by rewrite (M_bind_Err _ _ _ _ _ (SystemCall_Err _ _ _ _ Hr He)).
Qed.

(** socket(2) answered. *)
Lemma tcp_socket_answer (s : process K) r e k :
  sys_socket Address.AF_INET Socket.SOCK_STREAM 0 (kernel (io s)) = (r, e, k) ->
  (r >= 0 -> on_fd Socket.tcp_socket s = (Result (Ok (length (heap (io s)))),
     mk_process (mk_state k (heap (io s) ++ [mk_cell (mk_wrapper r false false 0 0) 1])) (cout s) (cerr s))) /\
  (r < 0 -> e <> 0 -> on_fd Socket.tcp_socket s
     = (Result (throw (TaggedError.what (unix_error K "socket" e))), mk_process (mk_state k (heap (io s))) (cout s) (cerr s))).
Proof.
  intros E. unfold on_fd, Socket.tcp_socket, Socket.construct.
  rewrite (M_bind_Ok _ _ (lifted s) (r, e) (mk_state (mk_sys k (cerr s) false) (heap (io s))))
    by exact (pass_Ok _ s _ _ E).
  split.
  - intros Hr. rewrite (M_bind_Ok _ _ _ _ _ (SystemCall_Ok "socket" r e _ Hr)). unfold FileDescriptor.construct.
    by rewrite decide_False by lia.
  - intros Hr He. by rewrite (M_bind_Err _ _ _ _ _ (SystemCall_Err _ _ _ _ Hr He)).
Qed.
End Program.

(** ** Properties *)


(** C20: the three ways in which a request cannot start are reported and end the program with
    failure before anything is sent or printed: no socket (nothing else is touched), a host
    name that does not resolve, and a connection that is refused; in the last two the socket is
    closed and released, and if close(2) fails the destructor's line comes before the
    program's on the standard error. *)
Theorem webget_reports_failures {K} `{Kernel K} `{SocketKernel K} `{Resolver} fuel program host path (s : process K) r e k1 :
  sys_socket Address.AF_INET Socket.SOCK_STREAM 0 (kernel (io s)) = (r, e, k1) ->
  let fails_with said what k heap_counts :=
    exists s', main fuel [program; host; path] s = (Ok (Returned EXIT_FAILURE), s') /\
      kernel (io s') = k /\ counts s' = heap_counts /\ cout s' = cout s /\ cerr s' = cerr s ++ said ++ text what ++ newline in
  (r < 0 -> e <> 0 -> fails_with [] (TaggedError.what (unix_error K "socket" e)) k1 (counts s)) /\
  (forall ret res, r >= 0 -> ret <> 0 ->
     getaddrinfo (TaggedError.c_str host) "http" (Address.make_hints Address.AI_ALL Address.AF_INET) = (ret, res) ->
     fails_with (close_report r k1) (Address.gai_error ("getaddrinfo(" +:+ host +:+ ", http)") ret)
       (sys_close r k1).2 (counts s ++ [0])) /\
  (forall addr c e' k2, r >= 0 -> Address.of_hostname host "http" = Ok addr ->
     sys_connect r (Address._address addr) (Address.size addr) k1 = (c, e', k2) -> c < 0 -> e' <> 0 ->
     fails_with (close_report r k2) (TaggedError.what (unix_error K "connect" e')) (sys_close r k2).2 (counts s ++ [0])).
Proof.
  intros E fails_with. destruct (tcp_socket_answer s r e k1 E) as [Hmade Hfailed].
  assert (Hfail : forall said what s1, get_URL fuel host path s = (Result (throw what), s1) -> cerr s1 = cerr s ++ said -> cout s1 = cout s ->
    fails_with said what (kernel (io s1)) (counts s1)).
  { intros said what s1 Eg He Ho. unfold fails_with, main. rewrite Eg. eexists. split; [reflexivity|]. simpl.
    by rewrite He, <- app_assoc. }
  set (p := length (heap (io s))) in *. set (c0 := mk_cell (mk_wrapper r false false 0 0) 1) in *.
  set (s1 := fun k : K => mk_process (mk_state k (heap (io s) ++ [c0])) (cout s) (cerr s)).
  assert (Hc0 : forall k : K, heap (io (s1 k)) !! p = Some c0)
    by (intros k; simpl; unfold p; by rewrite lookup_app_r, Nat.sub_diag by lia).
  assert (Hscope : forall what k2 body, get_URL fuel host path s = scoped p body (s1 k1) ->
    body (s1 k1) = (Result (throw what), s1 k2) ->
    fails_with (close_report r k2) what (sys_close r k2).2 (counts s ++ [0])).
  { intros what k2 body Eg Eb. destruct (scoped_throws p body (s1 k1) _ (counts s) what c0 Eb) as (s2 & E2 & Hk & Hn & Ho & He2);
      [unfold counts, handles; simpl; by rewrite fmap_app|unfold counts, handles; by rewrite length_fmap|apply (Hc0 k2)|done|].
    simpl in Hk. rewrite <- Hk, <- Hn. apply Hfail; [by rewrite Eg|done..]. }
  split_and!.
  - intros Hr He. apply (Hfail _ _ (mk_process (mk_state k1 (heap (io s))) (cout s) (cerr s))); [|simpl; by rewrite app_nil_r|done].
    unfold get_URL, mbind, P_bind. by rewrite (Hfailed Hr He).
  - intros ret res Hr Hret Ea. destruct (get_URL_scope fuel host path s (s1 k1) p (Hmade Hr)) as (body & Eg & Hb & _).
    eapply Hscope; [exact Eg|]. by rewrite (Hb _ (resolve_fails host "http" ret res Hret Ea)).
  - intros addr c e' k2 Hr Ea Ec Hc He. destruct (get_URL_scope fuel host path s (s1 k1) p (Hmade Hr)) as (body & Eg & _ & Hb).
    eapply Hscope; [exact Eg|]. apply (Hb addr _ _ Ea). apply (connect_fails p (s1 k1) c0 addr c e' k2 (Hc0 k1)); done.
Qed.

(** ** A concrete kernel *)

(** One byte can be read, then the peer resets the connection, and close(2) fails too. *)
#[local] Instance reset_kernel : Kernel bool := {|
  sys_read _ n (k : bool) := if k then (inr (take (Z.to_nat n) [Byte.x61]), false) else (inl 104, false);
  sys_writev _ iov k := (zlen (iov_bytes iov), 0, k);
  sys_close _ k := (-1, 5, k);
  sys_fcntl _ _ _ k := (0, 0, k);
  strerror e := if decide (e = 104) then "Connection reset by peer" else "Input/output error";
  put_error _ k := k
|}.
#[local] Instance reset_sockets : SocketKernel bool := {|
  sys_socket _ _ _ k := (3, 0, k);
  sys_getsockopt _ _ _ _ k := (-1, 22, (None, 4), k);
  sys_setsockopt _ _ _ _ _ k := (0, 0, k);
  sys_getsockname _ _ k := (-1, 22, ([], 128), k);
  sys_getpeername _ _ k := (-1, 22, ([], 128), k);
  sys_bind _ _ _ k := (0, 0, k);
  sys_connect _ _ _ k := (0, 0, k);
  sys_shutdown _ _ k := (0, 0, k);
  sys_listen _ _ k := (-1, 95, k);
  sys_accept _ k := (-1, 95, k);
  sys_recvfrom _ _ _ _ k := (-1, 95, ([], ([], 128)), k);
  sys_sendmsg _ _ _ _ k := (-1, 95, k)
|}.
#[local] Instance hosts_file : Resolver := {|
  getaddrinfo node _ _ :=
    if decide (node = "cs144") then (0, Some (Address.sockaddr_in Address.AF_INET 80 2130706433, 16)) else (-2, None);
  getnameinfo _ _ := (0, "127.0.0.1", "80");
  gai_strerror _ := "Name or service not known"
|}.
Definition started : process bool := mk_process (mk_state true []) [] [].

Lemma reset_reads : FiniteReads (fun k : bool => if k then 1 else 0)%nat 1.
Proof.
  split; [intros []; lia|]. intros fd n [] data k' Hn; intros [= <- <-].
  split; [|intros _; lia]. unfold zlen. rewrite length_take. lia.
Qed.


(** A peer that has gone away: the first write kills the program, which reports nothing. *)
Definition gone_kernel : Kernel bool := {|
  sys_read := sys_read;
  sys_writev _ _ k := (-1, EPIPE, k);
  sys_close := sys_close;
  sys_fcntl := sys_fcntl;
  strerror := strerror (K := bool);
  put_error := put_error
|}.
Example broken_pipe_kills :
  main (H := gone_kernel) 3 ["webget"; "cs144"; "/"] started
  = (Ok KilledBySIGPIPE, mk_process (mk_state true [mk_cell (mk_wrapper 3 false false 0 0) 1]) [] []).
Proof. by vm_compute. Qed.

Lemma webget_reports_failures_witness :
  exists s', main 0 ["webget"; "nowhere"; "/"] started = (Ok (Returned EXIT_FAILURE), s') /\ counts s' = [0] /\
    cerr s' = (text "Exception destructing FDWrapper: close: Input/output error" ++ newline) ++
              (text "getaddrinfo(nowhere, http): Name or service not known" ++ newline).
Proof.
  destruct (webget_reports_failures 0 "webget" "nowhere" "/" started 3 0 true) as (_ & Hresolve & _); [reflexivity|].
  destruct (Hresolve (-2) None ltac:(lia) ltac:(lia) ltac:(reflexivity)) as (s' & E & _ & Hc & _ & He).
  exists s'. split; [exact E|]. split; [exact Hc|]. rewrite He. by vm_compute.
Defined.

End WebgetFailures.
