(* ===== verification/Environment.v ===== *)
(** * Clock and adapter configuration (timestamp_ms of libsponge/util/util.cc, FdAdapterConfig of
    libsponge/tcp_helpers/tcp_config.hh)

    The steady clock is a parameter (class [SteadyClock]); [timestamp_ms] keeps the moment of
    its first call in a static variable. *)

From S2P Require Import Prelude Address.

Module FdAdapterConfig.

(** [class FdAdapterConfig] *)
Record FdAdapterConfig : Set := mk {
  source : Address.Address;
  destination : Address.Address;
  loss_rate_dn : Z;
  loss_rate_up : Z
}.

(** The default member initializers; both addresses are resolved, which can throw. *)
Definition default_config `{Resolver} : res FdAdapterConfig :=
  source ← Address.of_ip_port "0" 0;
  destination ← Address.of_ip_port "0" 0;
  Ok (mk source destination 0 0).

End FdAdapterConfig.

(** Nanoseconds of [std::chrono::steady_clock::now()]. *)
Class SteadyClock (K : Type) := { now : K -> Z * K }.

Module Clock.

(** The static variable [program_start] and the clock. *)
Record state (K : Type) : Type := mk { program_start : option Z; clock : K }.
Arguments mk {K} program_start clock.
Arguments program_start {K} _.
Arguments clock {K} _.

Section Operations.
Context {K : Type} `{SteadyClock K}.

(** [uint64_t timestamp_ms()] *)
Definition timestamp_ms (s : state K) : Z * state K :=
  let '(start, k) := match program_start s with Some t => (t, clock s) | None => now (clock s) end in
  let '(t, k) := now k in
  (to_u64 (Z.quot (t - start) 1000000), mk (Some start) k).

(** The clock never goes back. *)
Definition steady (time : K -> Z) : Prop := forall k, time k <= (now k).1 <= time (now k).2.

Lemma elapsed_ms a b : 0 <= a <= b -> b < 2 ^ 63 * 1000000 -> to_u64 (Z.quot b 1000000) = b / 1000000 /\
  a / 1000000 <= b / 1000000.
Proof.
  intros Ha Hb. rewrite Z.quot_div_nonneg by lia. split; [|apply Z.div_le_mono; lia].
  apply to_u64_small. unfold is_u64. pose proof (Z.div_pos b 1000000 ltac:(lia) ltac:(lia)).
  assert (b / 1000000 < 2 ^ 63) by (apply Z.div_lt_upper_bound; lia). lia.
Qed.

(** From the second call on, and for 2^63 milliseconds, the result is the whole milliseconds
    since the first call, and results never decrease: the difference of two of them, which the owner of a sender passes
    to [tick], is not negative. *)
Lemma timestamp_monotone time start k :
  steady time -> start <= time k -> (now (now k).2).1 - start < 2 ^ 63 * 1000000 ->
  let '(t1, s1) := timestamp_ms (mk (Some start) k) in let '(t2, s2) := timestamp_ms s1 in
  t1 = ((now k).1 - start) / 1000000 /\ t1 <= t2 /\ program_start s2 = Some start /\
  start <= time (clock s2).
Proof.
  intros Hs Hk R. unfold timestamp_ms. simpl.
  pose proof (Hs k) as H1. destruct (now k) as [n1 k1]. simpl in *.
  pose proof (Hs k1) as H2. destruct (now k1) as [n2 k2]. simpl in *.
  destruct (elapsed_ms (n1 - start) (n2 - start)) as [E2 Hle]; [lia..|].
  destruct (elapsed_ms 0 (n1 - start)) as [E1 _]; [lia..|]. rewrite E1, E2. split_and!; try done. lia.
Qed.
End Operations.

(** A clock that advances half a millisecond each time it is read. *)
#[local] Instance metronome : SteadyClock Z := {| now k := (k, k + 500000) |}.

Lemma metronome_steady : steady (fun k : Z => k).
Proof. intros k. simpl. lia. Qed.

Example four_stamps :
  let '(t1, s1) := timestamp_ms (mk None 7) in let '(t2, s2) := timestamp_ms s1 in
  let '(t3, s3) := timestamp_ms s2 in let '(t4, _) := timestamp_ms s3 in
  (t1, t2, t3, t4) = (0, 1, 1, 2).
Proof. by vm_compute. Qed.

End Clock.
