(* ===== verification/Random.v ===== *)
(** * The seeded random generator (get_random_generator of libsponge/util/util.cc)

    [get_random_generator] fills the whole state of the standard library's [std::mt19937] from
    [std::random_device] through [std::seed_seq].  The two library classes are translated from
    the C++ standard; the random device is a parameter. *)

From S2P Require Import Prelude.

(** [std::random_device::operator()]: a 32-bit number. *)
Class RandomDevice (K : Type) := { draw : K -> Z * K }.

(** The words of a table, indexed modulo its length. *)
Definition word_at (l : list Z) (i : Z) : Z := default 0 (l !! Z.to_nat (i mod zlen l)).
Definition set_word (l : list Z) (i v : Z) : list Z := <[Z.to_nat (i mod zlen l) := v]> l.

Module seed_seq.

Definition T (x : Z) : Z := Z.lxor x (Z.shiftr x 27).

(** The parameters [t], [p], [q] for a table of [n] words. *)
Definition lag (n : Z) : Z :=
  if decide (n >= 623) then 11 else if decide (n >= 68) then 7 else if decide (n >= 39) then 5
  else if decide (n >= 7) then 3 else (n - 1) / 2.

(** One round of the first and of the second pass over the table [b], for the seeds [v]. *)
Definition mix (v : list Z) (b : list Z) (k : Z) : list Z :=
  let n := zlen b in let s := zlen v in
  let p := (n - lag n) / 2 in let q := p + lag n in
  let r1 := to_u32 (1664525 * T (Z.lxor (Z.lxor (word_at b k) (word_at b (k + p))) (word_at b (k - 1)))) in
  let r2 := to_u32 (r1 + (if decide (k = 0) then s else if decide (k <= s) then k mod n + default 0 (v !! Z.to_nat (k - 1))
                          else k mod n)) in
  let b := set_word b (k + p) (to_u32 (word_at b (k + p) + r1)) in
  let b := set_word b (k + q) (to_u32 (word_at b (k + q) + r2)) in
  set_word b k r2.

Definition temper (b : list Z) (k : Z) : list Z :=
  let n := zlen b in
  let p := (n - lag n) / 2 in let q := p + lag n in
  let r3 := to_u32 (1566083941 * T (to_u32 (word_at b k + word_at b (k + p) + word_at b (k - 1)))) in
  let r4 := to_u32 (r3 - k mod n) in
  let b := set_word b (k + p) (Z.lxor (word_at b (k + p)) r3) in
  let b := set_word b (k + q) (Z.lxor (word_at b (k + q)) r4) in
  set_word b k r4.

(** [seed_seq::generate] into a table of [n] words. *)
Definition generate (v : list Z) (n : nat) : list Z :=
  let m := Z.max (zlen v + 1) (Z.of_nat n) in
  let b := foldl (mix v) (replicate n 2341178251) (seqZ 0 m) in
  foldl temper b (seqZ m (Z.of_nat n)).

End seed_seq.

Module mt19937.

Definition state_size : nat := 624.

(** The engine: its words and the position of the next one. *)
Record engine : Set := mk { words : list Z; pos : nat }.

(** [explicit mt19937(seed_seq &)]: a state whose significant bits are all zero is replaced. *)
Definition construct (v : list Z) : engine :=
  let x := seed_seq.generate v state_size in
  let zero := bool_decide (Z.shiftr (word_at x 0) 31 = 0 /\ Forall (fun w => w = 0) (tail x)) in
  mk (if zero then <[0%nat := 2 ^ 31]> x else x) state_size.

(** The recurrence for the word at [k], and a whole new table. *)
Definition twist (x : list Z) (k : Z) : list Z :=
  let y := Z.lor (Z.land (word_at x k) (2 ^ 31)) (Z.land (word_at x (k + 1)) (2 ^ 31 - 1)) in
  let mag := if decide (Z.land y 1 = 1) then 2567483615 else 0 in
  set_word x k (Z.lxor (Z.lxor (word_at x (k + 397)) (Z.shiftr y 1)) mag).
Definition refill (x : list Z) : list Z := foldl twist x (seqZ 0 (Z.of_nat state_size)).

(** [result_type operator()()] *)
Definition next (g : engine) : Z * engine :=
  let '(x, i) := if decide (state_size <= pos g)%nat then (refill (words g), 0%nat) else (words g, pos g) in
  let z := default 0 (x !! i) in
  let z := Z.lxor z (Z.shiftr z 11) in
  let z := Z.lxor z (Z.land (to_u32 (Z.shiftl z 7)) 2636928640) in
  let z := Z.lxor z (Z.land (to_u32 (Z.shiftl z 15)) 4022730752) in
  (Z.lxor z (Z.shiftr z 18), mk x (S i)).

End mt19937.

Section Generator.
Context {K : Type} `{RandomDevice K}.

(** [generate(seed_data.begin(), seed_data.end(), ...)]: one call of the device per word. *)
Fixpoint draws (n : nat) (k : K) : list Z * K :=
  match n with O => ([], k) | S n' => let '(x, k) := draw k in let '(l, k) := draws n' k in (x :: l, k) end.

(** [mt19937 get_random_generator()] *)
Definition get_random_generator (k : K) : mt19937.engine * K :=
  let '(seed_data, k) := draws mt19937.state_size k in (mt19937.construct seed_data, k).

End Generator.

(** ** Words stay within 32 bits *)

Lemma u32_lxor a b : is_u32 a -> is_u32 b -> is_u32 (Z.lxor a b).
Proof.
  intros Ha Hb. assert (E : Z.land (Z.lxor a b) (Z.ones 32) = Z.lxor a b).
  { rewrite <- (Z.mod_small a (2 ^ 32)), <- (Z.mod_small b (2 ^ 32)) by done. rewrite <- !Z.land_ones by lia.
    apply Z.bits_inj'. intros n Hn. rewrite !Z.land_spec, !Z.lxor_spec, !Z.land_spec.
    by destruct (Z.testbit a n), (Z.testbit b n), (Z.testbit (Z.ones 32) n). }
  rewrite <- E, Z.land_ones by lia. apply Z.mod_pos_bound. lia.
Qed.

Lemma u32_land a b : 0 <= a -> is_u32 b -> is_u32 (Z.land a b).
Proof.
  intros Ha Hb. rewrite <- (Z.mod_small b (2 ^ 32)) by done. rewrite <- Z.land_ones by lia.
  rewrite Z.land_assoc, Z.land_ones by lia. apply Z.mod_pos_bound. lia.
Qed.

Lemma u32_lor a b : is_u32 a -> is_u32 b -> is_u32 (Z.lor a b).
Proof.
  intros Ha Hb. rewrite <- (Z.mod_small a (2 ^ 32)), <- (Z.mod_small b (2 ^ 32)) by done.
  rewrite <- !Z.land_ones, <- Z.land_lor_distr_l, Z.land_ones by lia. apply Z.mod_pos_bound. lia.
Qed.

Lemma u32_shiftr a n : 0 <= n -> is_u32 a -> is_u32 (Z.shiftr a n).
Proof.
  intros Hn [H0 H1]. rewrite Z.shiftr_div_pow2 by done. assert (0 < 2 ^ n) by (apply Z.pow_pos_nonneg; lia).
  split; [apply Z.div_pos; lia|]. apply Z.div_lt_upper_bound; nia.
Qed.

Lemma u32_word l i : Forall is_u32 l -> is_u32 (word_at l i).
Proof.
  intros Hl. unfold word_at. destruct (l !! _) as [x|] eqn:E; [|by split]. by eapply Forall_lookup_1.
Qed.

Lemma u32_set l i v : Forall is_u32 l -> is_u32 v -> Forall is_u32 (set_word l i v).
Proof. intros. by apply Forall_insert. Qed.

Lemma length_set_word l i v : length (set_word l i v) = length l.
Proof. apply length_insert. Qed.

(** A table of words. *)
Definition table (n : nat) (l : list Z) : Prop := length l = n /\ Forall is_u32 l.

Lemma foldl_table {A} n (f : list Z -> A -> list Z) (l : list A) b :
  (forall b a, table n b -> table n (f b a)) -> table n b -> table n (foldl f b l).
Proof. intros Hf. revert b. induction l as [|a l IH]; intros b Hb; [done|]. apply IH. by apply Hf. Qed.

Lemma temper_table n b k : table n b -> table n (seed_seq.temper b k).
Proof.
  intros [Hl Hb]. unfold seed_seq.temper. split; [by rewrite !length_set_word|]. cbv zeta.
  apply u32_set; [|apply is_u32_to_u32].
  assert (Hs : forall b' i z, Forall is_u32 b' -> Forall is_u32 (set_word b' i (Z.lxor (word_at b' i) (to_u32 z)))).
  { intros b' i z Hb'. apply u32_set; [done|]. apply u32_lxor; [by apply u32_word|apply is_u32_to_u32]. }
  apply Hs. by apply Hs.
Qed.

Lemma mix_table v n b k : table n b -> table n (seed_seq.mix v b k).
Proof.
  intros [Hl Hb]. unfold seed_seq.mix. split; [by rewrite !length_set_word|]. cbv zeta.
  repeat (apply u32_set; [|apply is_u32_to_u32]). done.
Qed.

Lemma generate_table v n : table n (seed_seq.generate v n).
Proof.
  unfold seed_seq.generate. apply foldl_table; [intros; by apply temper_table|].
  apply foldl_table; [intros; by apply mix_table|]. split; [apply length_replicate|]. apply Forall_replicate. by split.
Qed.

Lemma refill_table x : table mt19937.state_size x -> table mt19937.state_size (mt19937.refill x).
Proof.
  apply foldl_table. intros b k [Hl Hb]. unfold mt19937.twist. split; [by rewrite length_set_word|].
  assert (forall c : bool, is_u32 (if c then 2567483615 else 0)) by (by intros []).
  assert (Hy : is_u32 (Z.lor (Z.land (word_at b k) (2 ^ 31)) (Z.land (word_at b (k + 1)) (2 ^ 31 - 1)))).
  { apply u32_lor; apply u32_land; try (by split); apply (u32_word b _ Hb). }
  apply u32_set; [done|]. apply u32_lxor; [|by case_decide]. apply u32_lxor; [by apply u32_word|]. by apply u32_shiftr.
Qed.

(** The invariant of an engine. *)
Definition engine_ok (g : mt19937.engine) : Prop :=
  table mt19937.state_size (mt19937.words g) /\ (mt19937.pos g <= mt19937.state_size)%nat.

Lemma engine_next_ok g : engine_ok g -> is_u32 (mt19937.next g).1 /\ engine_ok (mt19937.next g).2.
Proof.
  intros [Ht Hp]. unfold mt19937.next.
  assert (Hx : exists x i, (if decide (mt19937.state_size <= mt19937.pos g)%nat then (mt19937.refill (mt19937.words g), 0%nat)
    else (mt19937.words g, mt19937.pos g)) = (x, i) /\ table mt19937.state_size x /\ (i < mt19937.state_size)%nat).
  { case_decide; do 2 eexists; (split; [done|]); split; [by apply refill_table|unfold mt19937.state_size; lia|done|lia]. }
  destruct Hx as (x & i & -> & [Hlen Hx] & Hi). cbv zeta. cbn [fst snd]. split; [|split; [done|simpl; lia]].
  assert (Hstep : forall z m, is_u32 z -> is_u32 m -> forall n, is_u32 (Z.lxor z (Z.land (to_u32 (Z.shiftl z n)) m))).
  { intros z m Hz Hm n. apply u32_lxor; [done|]. apply u32_land; [apply is_u32_to_u32|done]. }
  assert (Hz : is_u32 (default 0 (x !! i))).
  { destruct (x !! i) as [z|] eqn:E; [|by split]. by eapply Forall_lookup_1. }
  set (z := default 0 _) in *. clearbody z. pose proof (u32_shiftr z 11 ltac:(lia) Hz) as H11.
  pose proof (u32_lxor _ _ Hz H11) as H1. set (z1 := Z.lxor _ _) in *. clearbody z1.
  pose proof (Hstep z1 2636928640 H1 ltac:(by split) 7) as H2. set (z2 := Z.lxor _ (Z.land _ 2636928640)) in *. clearbody z2.
  pose proof (Hstep z2 4022730752 H2 ltac:(by split) 15) as H3. set (z3 := Z.lxor _ (Z.land _ 4022730752)) in *. clearbody z3.
  apply u32_lxor; [done|]. by apply u32_shiftr.
Qed.

Lemma draws_length {K} `{RandomDevice K} n k : length (draws n k).1 = n.
Proof.
  revert k. induction n as [|n IH]; intros k; simpl; [done|]. destruct (draw k) as [x k']. specialize (IH k').
  destruct (draws n k') as [l k2]. simpl in *. by f_equal.
Qed.

(** The generator starts with 624 words of 32 bits that are not all insignificant, and all its
    numbers have 32 bits. *)
Lemma generator_ok {K} `{RandomDevice K} k :
  let g := (get_random_generator k).1 in
  engine_ok g /\ ~ (Z.shiftr (word_at (mt19937.words g) 0) 31 = 0 /\ Forall (fun w => w = 0) (tail (mt19937.words g))).
Proof.
  unfold get_random_generator. destruct (draws mt19937.state_size k) as [v k']. cbn [fst].
  unfold mt19937.construct. pose proof (generate_table v mt19937.state_size) as [Hlen Hx].
  set (x := seed_seq.generate v mt19937.state_size) in *. clearbody x. destruct x as [|a x]; [done|].
  case_bool_decide as Hz; unfold engine_ok, table; cbn [mt19937.words mt19937.pos].
  - inversion Hx as [|? ? _ Hx']. split; [split_and!; [done|by constructor|done]|].
    intros [Hs _]. unfold word_at in Hs. by rewrite Zmod_0_l in Hs.
  - by split_and!.
Qed.

(** A device that counts in steps of the golden ratio. *)
#[local] Instance counting : RandomDevice Z := {| draw k := (to_u32 (k * 2654435761), k + 1) |}.

(** The numbers that libstdc++ draws from the same seeds. *)
Example first_numbers :
  let '(g, k) := get_random_generator 0 in
  let '(a, g) := mt19937.next g in let '(b, g) := mt19937.next g in (a, b, k) = (719116409, 2918616152, 624).
Proof. by vm_compute. Qed.
