(* ===== verification/Doctests.v ===== *)
(** * The documentation's programs (doctests/)

    Three small programs, included in the documentation of the library, use its parsers, its
    addresses and its sockets and check the result.  They are translated over the models of
    the library and run on a small host: an executable kernel with datagram sockets, stream
    connections and a table of host names. *)

From stdpp Require Import gmap pretty.
From S2P Require Import Prelude Errors Buffer Parser FileDescriptor Address Socket Random Webget.

Module Doctests.

Import FileDescriptor.

Definition EXIT_SUCCESS : Z := Webget.EXIT_SUCCESS.
Definition EXIT_FAILURE : Z := Webget.EXIT_FAILURE.
Abbreviation text := Webget.text.

(** ** parser_dt *)

(** [parser_example.cc] *)
Definition val1 : Z := 0xdeadbeef.
Definition val2 : Z := 0xc0c0.
Definition val3 : Z := 0xff.
Definition val4 : Z := 0x0c05fefe.
Definition parser_example : res () :=
  let buffer := push_back [] (byte_of 0x32) in
  buffer ← NetUnparser.u32 buffer val1;
  buffer ← NetUnparser.u16 buffer val2;
  buffer ← NetUnparser.u8 buffer val3;
  buffer ← NetUnparser.u32 buffer val4;
  let p := NetParser.construct (Buffer.of_string buffer) in
  '(out0, p) ← NetParser.u8 p;
  '(out1, p) ← NetParser.u32 p;
  '(out2, p) ← NetParser.u16 p;
  '(out3, p) ← NetParser.u8 p;
  '(out4, p) ← NetParser.u32 p;
  if decide (out0 <> 0x32 \/ out1 <> val1 \/ out2 <> val2 \/ out3 <> val3 \/ out4 <> val4)
  then throw "bad parse" else Ok ().

(** [int main()] of [parser_dt.cc] *)
Definition parser_dt_main : res Z :=
  match parser_example with
  | Ok _ => Ok EXIT_SUCCESS
  | Err (Exception _) => Ok EXIT_FAILURE
  | Err f => Err f
  end.

Example parser_doctest_succeeds : parser_dt_main = Ok EXIT_SUCCESS.
Proof. by vm_compute. Qed.

(** ** address_dt *)

Section AddressDoctest.
Context `{Resolver}.

(** [address_example_1.cc], [address_example_2.cc], [address_example_3.cc] *)
Definition google_webserver : res Address.Address := Address.of_hostname "www.google.com" "https".
Definition a_dns_server : res Address.Address := Address.of_ip_port "18.71.0.151" 53.
Definition a_dns_server_numeric (server : Address.Address) : res Z := Address.ipv4_numeric server.

Definition address_examples : res () :=
  google ← google_webserver;
  dns ← a_dns_server;
  numeric ← a_dns_server_numeric dns;
  port ← Address.port google;
  if decide (port <> 443 \/ numeric <> 0x12470097) then throw "unexpected value" else Ok ().

(** [int main()] of [address_dt.cc], with what it prints on the standard error *)
Definition address_dt_main : res Z * bytes :=
  match address_examples with
  | Ok _ => (Ok EXIT_SUCCESS, [])
  | Err (Exception what) =>
      (Ok EXIT_FAILURE,
       (text "This test requires Internet access and working DNS." ++ Webget.newline) ++
       (text "Error: " ++ text what ++ Webget.newline))
  | Err f => (Err f, [])
  end.
End AddressDoctest.

(** ** socket_dt *)

(** [socketpair(2)]: the returned value, [errno] and the two descriptors it stored. *)
Class PairKernel (K : Type) := { sys_socketpair : Z -> Z -> Z -> K -> Z * Z * (Z * Z) * K }.

Section SocketDoctest.
Context {K : Type} `{Kernel K} `{SocketKernel K} `{PairKernel K} `{RandomDevice K} `{Resolver}.

(** A local object is destroyed when its scope is left, normally or by an exception. *)
Definition scoped_fd {A} (p : nat) (body : M K A) : M K A := fun st =>
  match body st with
  | (Ok a, st') => (_ ← destroy p; mret a) st'
  | (Err (Exception what), st') => (_ ← destroy p; M_throw what) st'
  | r => r
  end.

Definition hi_there : bytes := text "hi there".
Definition hi_yourself : bytes := text "hi yourself".
Definition localhost (portnum : Z) : M K Address.Address := lift (Address.of_ip_port "127.0.0.1" portnum).
Definition portnum : M K Z := r ← call draw; mret (to_u16 (to_u32 (r mod 50000 + 1025))).
Definition mtu : Z := 65536.
Definition compare (recvd recvd2 : bytes) : M K () :=
  if decide (recvd <> hi_there \/ recvd2 <> hi_yourself) then M_throw "wrong data received" else mret ().

(** [socket_example_1.cc]: datagrams *)
Definition socket_example_1 : M K () :=
  portnum ← portnum;
  sock1 ← Socket.udp_socket;
  scoped_fd sock1 (
    address ← localhost portnum;
    _ ← Socket.bind sock1 address;
    sock2 ← Socket.udp_socket;
    scoped_fd sock2 (
      destination ← localhost portnum;
      _ ← Socket.sendto sock2 destination (BufferViewList.of_cstr hi_there);
      recvd ← Socket.recv sock1 mtu;
      _ ← Socket.connect sock1 (Socket.source_address recvd);
      _ ← Socket.send sock1 (BufferViewList.of_cstr hi_yourself);
      recvd2 ← Socket.recv sock2 mtu;
      compare (Socket.payload recvd) (Socket.payload recvd2))).

(** [socket_example_2.cc]: a connection *)
Definition socket_example_2 : M K () :=
  portnum ← portnum;
  sock1 ← Socket.tcp_socket;
  scoped_fd sock1 (
    address ← localhost portnum;
    _ ← Socket.bind sock1 address;
    _ ← Socket.listen sock1 1;
    sock2 ← Socket.tcp_socket;
    scoped_fd sock2 (
      server ← localhost portnum;
      _ ← Socket.connect sock2 server;
      sock3 ← Socket.accept sock1;
      scoped_fd sock3 (
        _ ← write_cstr sock3 hi_there true;
        recvd ← read_string sock2 no_limit;
        _ ← write_cstr sock2 hi_yourself true;
        recvd2 ← read_string sock3 no_limit;
        _ ← close sock1;
        _ ← close sock2;
        _ ← Socket.shutdown sock3 Socket.SHUT_RDWR;
        compare recvd recvd2))).

(** [socket_example_3.cc]: a pair of local sockets *)
Definition socket_example_3 : M K () :=
  '(r, errno, fds) ← call (sys_socketpair Socket.AF_UNIX Socket.SOCK_STREAM 0);
  _ ← SystemCall "socketpair" r errno 0;
  fd1 ← FileDescriptor.construct fds.1;
  pipe1 ← Socket.local_stream_of_fd fd1;
  scoped_fd pipe1 (
    fd2 ← FileDescriptor.construct fds.2;
    pipe2 ← Socket.local_stream_of_fd fd2;
    scoped_fd pipe2 (
      _ ← write_cstr pipe1 hi_there true;
      recvd ← read_string pipe2 no_limit;
      _ ← write_cstr pipe2 hi_yourself true;
      recvd2 ← read_string pipe1 no_limit;
      compare recvd recvd2)).

(** [int main()] of [socket_dt.cc] *)
Definition socket_dt_main : M K Z := fun st =>
  match (_ ← socket_example_1; _ ← socket_example_2; socket_example_3) st with
  | (Ok _, st') => (Ok EXIT_SUCCESS, st')
  | (Err (Exception _), st') => (Ok EXIT_FAILURE, st')
  | (Err f, st') => (Err f, st')
  end.
End SocketDoctest.

(** ** A host *)

(** A socket of the host: its domain and type, the address it is bound to, the address it is
    connected to, the descriptor at the other end of a stream, what it received (with the
    sender's address), and the connections it has not accepted. *)
Record endpoint : Set := mk_endpoint {
  domain : Z; type : Z; addr : bytes; remote : option bytes; other : option Z;
  inbox : list (bytes * bytes); backlog : list Z
}.
Record host : Set := mk_host { endpoints : gmap Z endpoint; next_fd : Z; entropy : Z }.

Definition on_port (port : Z) : bytes := Address.sockaddr_in Address.AF_INET port 2130706433.
Definition fresh (dom ty fd : Z) : endpoint := mk_endpoint dom ty (on_port (51100 + fd)) None None [] [].
Definition update (fd : Z) (f : endpoint -> endpoint) (h : host) : host :=
  mk_host (alter f fd (endpoints h)) (next_fd h) (entropy h).
Definition receive (from data : bytes) (e : endpoint) : endpoint :=
  mk_endpoint (domain e) (type e) (addr e) (remote e) (other e) (inbox e ++ [(from, data)]) (backlog e).
Definition keep (left : list (bytes * bytes)) (e : endpoint) : endpoint :=
  mk_endpoint (domain e) (type e) (addr e) (remote e) (other e) left (backlog e).
Definition bind_to (a : bytes) (e : endpoint) : endpoint :=
  mk_endpoint (domain e) (type e) a (remote e) (other e) (inbox e) (backlog e).
Definition link (a : option bytes) (fd : option Z) (e : endpoint) : endpoint :=
  mk_endpoint (domain e) (type e) (addr e) a fd (inbox e) (backlog e).
Definition queue (l : list Z) (e : endpoint) : endpoint :=
  mk_endpoint (domain e) (type e) (addr e) (remote e) (other e) (inbox e) l.
Definition open (e : Z -> endpoint) (h : host) : Z * host :=
  let fd := next_fd h in (fd, mk_host (<[fd := e fd]> (endpoints h)) (fd + 1) (entropy h)).
Definition at_address (ty : Z) (a : bytes) (h : host) : option (Z * endpoint) :=
  head (filter (fun '(_, e) => type e = ty /\ addr e = a) (map_to_list (endpoints h))).

Definition EBADF : Z := 9.
Definition ECONNREFUSED : Z := 111.

#[local] Instance host_kernel : Kernel host := {|
  sys_read fd n h :=
    match endpoints h !! fd with
    | Some e =>
        let data := concat (inbox e).*2 in
        (inr (take (Z.to_nat n) data), update fd (keep [([], drop (Z.to_nat n) data)]) h)
    | None => (inl EBADF, h)
    end;
  sys_writev fd iov h :=
    match endpoints h !! fd ≫= other with
    | Some peer => (zlen (iov_bytes iov), 0, update peer (receive [] (iov_bytes iov)) h)
    | None => (-1, EBADF, h)
    end;
  sys_close fd h := (0, 0, mk_host (delete fd (endpoints h)) (next_fd h) (entropy h));
  sys_fcntl _ _ _ h := (0, 0, h);
  strerror _ := "Bad file descriptor";
  put_error _ h := h
|}.
#[local] Instance host_sockets : SocketKernel host := {|
  sys_socket dom ty _ h := let '(fd, h) := open (fresh dom ty) h in (fd, 0, h);
  sys_getsockopt fd _ option _ h :=
    match endpoints h !! fd with
    | Some e => (0, 0, (Some (if decide (option = Socket.SO_DOMAIN) then domain e else type e), 4), h)
    | None => (-1, EBADF, (None, 4), h)
    end;
  sys_setsockopt _ _ _ _ _ h := (0, 0, h);
  sys_getsockname fd _ h :=
    match endpoints h !! fd with Some e => (0, 0, (addr e, zlen (addr e)), h) | None => (-1, EBADF, ([], 128), h) end;
  sys_getpeername fd _ h :=
    match endpoints h !! fd ≫= remote with Some a => (0, 0, (a, zlen a), h) | None => (-1, EBADF, ([], 128), h) end;
  sys_bind fd a len h := (0, 0, update fd (bind_to (take (Z.to_nat len) a)) h);
  sys_connect fd a len h :=
    let a := take (Z.to_nat len) a in
    match endpoints h !! fd with
    | None => (-1, EBADF, h)
    | Some e =>
        if decide (type e = Socket.SOCK_DGRAM) then (0, 0, update fd (link (Some a) None) h) else
        match at_address Socket.SOCK_STREAM a h with
        | None => (-1, ECONNREFUSED, h)
        | Some (server, l) =>
            let '(n, h) := open (fun n => link (Some (addr e)) (Some fd) (fresh (domain e) (type e) n)) h in
            (0, 0, update server (queue (backlog l ++ [n])) (update fd (link (Some a) (Some n)) h))
        end
    end;
  sys_shutdown _ _ h := (0, 0, h);
  sys_listen _ _ h := (0, 0, h);
  sys_accept fd h :=
    match endpoints h !! fd with
    | Some e => match backlog e with n :: l => (n, 0, update fd (queue l) h) | [] => (-1, 11, h) end
    | None => (-1, EBADF, h)
    end;
  sys_recvfrom fd n _ _ h :=
    match endpoints h !! fd with
    | Some e =>
        match inbox e with
        | (from, data) :: rest =>
            (zlen data, 0, (take (Z.to_nat n) data, (from, zlen from)), update fd (keep rest) h)
        | [] => (-1, 11, ([], ([], 128)), h)
        end
    | None => (-1, EBADF, ([], ([], 128)), h)
    end;
  sys_sendmsg fd dest len iov h :=
    match endpoints h !! fd with
    | Some e =>
        let to := match dest with Some a => Some (take (Z.to_nat len) a) | None => remote e end in
        match to ≫= fun a => at_address Socket.SOCK_DGRAM a h with
        | Some (peer, _) => (zlen (iov_bytes iov), 0, update peer (receive (addr e) (iov_bytes iov)) h)
        | None => (-1, ECONNREFUSED, h)
        end
    | None => (-1, EBADF, h)
    end
|}.
#[local] Instance host_pairs : PairKernel host := {|
  sys_socketpair dom ty _ h :=
    let '(a, h) := open (fun n => link None (Some (n + 1)) (fresh dom ty n)) h in
    let '(b, h) := open (fun n => link None (Some a) (fresh dom ty n)) h in
    (0, 0, (a, b), h)
|}.
#[local] Instance host_random : RandomDevice host := {|
  draw h := (entropy h, mk_host (endpoints h) (next_fd h) (to_u32 (entropy h * 69069 + 1)))
|}.

(** The table of host names; a numeric port is read as such. *)
#[local] Instance host_names : Resolver := {|
  getaddrinfo node service _ :=
    let port := match Address.stoi service with Ok p => p | Err _ => 443 end in
    if decide (node = "127.0.0.1") then (0, Some (on_port port, 16))
    else if decide (node = "18.71.0.151") then (0, Some (Address.sockaddr_in Address.AF_INET port 0x12470097, 16))
    else if decide (node = "www.google.com") then (0, Some (Address.sockaddr_in Address.AF_INET port 0x8efa0000, 16))
    else (-2, None);
  getnameinfo storage _ := (0, "142.250.0.0", pretty (BigEndian.be_val (take 2 (drop 2 storage))));
  gai_strerror _ := "Name or service not known"
|}.

Example address_doctest_succeeds : address_dt_main = (Ok EXIT_SUCCESS, []).
Proof. by vm_compute. Qed.

Definition booted : state host := mk_state (mk_host ∅ 3 123456789) [].

(** The three examples succeed, leave no handle and no open socket. *)
Example socket_doctest_succeeds :
  let '(r, st) := socket_dt_main booted in
  r = Ok EXIT_SUCCESS /\ use_count <$> heap st = [0; 0; 0; 0; 0; 0; 0] /\ map_to_list (endpoints (kernel st)) = [].
Proof. by vm_compute. Qed.

End Doctests.
