(* ===== verification/Handles.v ===== *)
(** * Sockets and scopes (libsponge/util/socket.cc, doctests/socket_dt.cc)

    Every operation of the library on a socket that is alive ends or throws and keeps the
    number of handles of all objects, whatever the kernel answers; an object made in a scope
    loses its last handle when the scope is left.  The sockets' example program is an instance.
    A descriptor that was never wrapped in an object is not covered: the third example loses
    one when adopting the other fails. *)

From S2P Require Import Prelude Errors Buffer Parser FileDescriptor Address Socket Random Webget Doctests.

Module Handles.

Import FileDescriptor Doctests.

(** ** Operations on one socket *)

Section Operations.
Context {K : Type} `{Kernel K} `{SocketKernel K} `{Resolver} (p : nat).

Lemma bind_tame address : tame p (Socket.bind p address).
Proof.
  unfold Socket.bind. apply tame_bind; [apply fd_num_tame|intros fd]. apply tame_bind; [apply tame_call|intros [r errno]].
  eauto with tame.
Qed.

Lemma listen_tame backlog : tame p (Socket.listen p backlog).
Proof.
  unfold Socket.listen. apply tame_bind; [apply fd_num_tame|intros fd]. apply tame_bind; [apply tame_call|intros [r errno]].
  eauto with tame.
Qed.

Lemma sendmsg_tame fd dest len payload : tame p (Socket.sendmsg_helper fd dest len payload).
Proof.
  unfold Socket.sendmsg_helper. apply tame_bind; [apply tame_call|intros [r errno]]. eauto with tame.
Qed.

Lemma sendto_tame dest payload : tame p (Socket.sendto p dest payload).
Proof. unfold Socket.sendto. apply tame_bind; [apply fd_num_tame|intros fd]. apply tame_bind; [apply sendmsg_tame|]. eauto with tame. Qed.

Lemma send_tame payload : tame p (Socket.send p payload).
Proof. unfold Socket.send. apply tame_bind; [apply fd_num_tame|intros fd]. apply tame_bind; [apply sendmsg_tame|]. eauto with tame. Qed.

Lemma lift_tame {A} (r : res A) : defined r -> tame p (lift (K := K) r).
Proof. intros Hr st Hst. by destruct r as [|[]]. Qed.

(** The bytes of an address that the kernel stored always fit. *)
Lemma stored_defined data n : defined (Address.of_sockaddr (Socket.filled (Address.zeros Address.sizeof_storage) data) n).
Proof.
  apply Address.of_sockaddr_defined. right. unfold Socket.filled, zlen. rewrite length_take, length_app, length_drop.
  change (length (Address.zeros Address.sizeof_storage)) with 128%nat. unfold Address.sizeof_storage. lia.
Qed.

Lemma recv_tame mtu : tame p (Socket.recv p mtu).
Proof.
  unfold Socket.recv. apply tame_bind; [by apply lift_tame|intros nowhere]. unfold Socket.recv_into.
  apply tame_bind; [apply fd_num_tame|intros fd].
  apply tame_bind; [apply tame_call|intros [[r errno] [data [from fromlen]]]].
  apply tame_bind; [apply tame_SystemCall|intros recv_len]. apply tame_if; [apply tame_throw|].
  apply tame_bind; [apply register_read_tame|intros _]. apply tame_bind; [apply lift_tame, stored_defined|]. eauto with tame.
Qed.

(** getsockopt(2) stores the option when it succeeds and sets [errno] when it fails. *)
Definition options_stored : Prop := forall fd level option len k r e v n k',
  sys_getsockopt fd level option len k = (r, e, (v, n), k') -> (r >= 0 -> v <> None) /\ (r < 0 -> e <> 0).

Lemma verify_option_tame actual option expected what :
  options_stored -> tame p (Socket.verify_option p actual option expected what).
Proof.
  intros Hopt st Hst. destruct Hst as (c & Hc & Hu). unfold Socket.verify_option.
  rewrite (M_bind_Ok _ _ _ _ _ (fd_num_Ok _ _ _ Hc Hu)).
  destruct (sys_getsockopt (_fd (wrapper c)) Socket.SOL_SOCKET option Socket.sizeof_int (kernel st))
    as [[[r e] [v n]] k] eqn:E.
  rewrite (M_bind_Ok _ _ _ _ _ (call_Ok _ _ _ _ E)). destruct (Hopt _ _ _ _ _ _ _ _ _ _ E) as [Hv He].
  destruct (decide (r >= 0)) as [Hr|Hr].
  - rewrite (M_bind_Ok _ _ _ _ _ (SystemCall_Ok "getsockopt" r e _ Hr)). destruct v as [v|]; [|by destruct (Hv Hr)].
    case_decide; [done|]. by case_decide.
  - rewrite (M_bind_Err _ _ _ _ _ (SystemCall_Err "getsockopt" r e (mk_state k (heap st)) ltac:(lia) (He ltac:(lia)))). done.
Qed.
End Operations.
Arguments options_stored K {_}.

(** No write meets a broken pipe. *)
Definition no_broken_pipe K `{Kernel K} : Prop := forall fd iov (k : K),
  (sys_writev fd iov k).1 <> (-1, Webget.EPIPE).

(** ** Objects that come and go *)

Section Safe.
Context {K : Type} `{Kernel K}.

(** The objects of [st] kept their handles, and those made since have none left. *)
Definition released (st st' : state K) : Prop := exists n, handles st' = handles st ++ replicate n 0.
Definition held (ps : list nat) (st : state K) : Prop := Forall (fun p => alive p st) ps.

Definition safe {A} (ps : list nat) (m : M K A) : Prop :=
  forall st, held ps st -> let '(r, st') := m st in defined r /\ released st st'.

(** [m] makes one object, or throws and leaves none. *)
Definition makes (ps : list nat) (m : M K nat) : Prop :=
  forall st, held ps st -> match m st with
    | (Ok p, st') => p = length (heap st) /\ handles st' = handles st ++ [1]
    | (Err (Exception _), st') => released st st'
    | (Err _, _) => False
    end.

#[global] Instance released_preorder : PreOrder released.
Proof.
  split; [intros st; exists 0%nat; by rewrite app_nil_r|].
  intros a b c [n Hn] [m Hm]. exists (n + m)%nat. by rewrite Hm, Hn, <- app_assoc, replicate_add.
Qed.

Lemma held_prefix ps (st st' : state K) l : handles st' = handles st ++ l -> held ps st -> held ps st'.
Proof.
  intros Hh Hst. eapply Forall_impl; [exact Hst|]. intros p (c & Hc & Hu).
  assert (Hl : handles st' !! p = Some (use_count c)).
  { rewrite Hh. apply lookup_app_l_Some. by rewrite handles_lookup, Hc. }
  rewrite handles_lookup in Hl. apply fmap_Some in Hl as (c' & Hc' & E). exists c'. split; [done|lia].
Qed.

Lemma safe_tame {A} ps p (m : M K A) : p ∈ ps -> tame p m -> safe ps m.
Proof.
  intros Hp Hm st Hst. unfold held in Hst. rewrite Forall_forall in Hst. specialize (Hm st (Hst p Hp)).
  destruct (m st) as [r st']. destruct Hm as [Hr Hq]. split; [by destruct r as [|[]]|]. exists 0%nat. rewrite app_nil_r.
  apply list_eq. intros q. by rewrite !handles_lookup.
Qed.

Lemma safe_seq {A B} ps (m : M K A) (k : A -> M K B) : safe ps m -> (forall a, safe ps (k a)) -> safe ps (m ≫= k).
Proof.
  intros Hm Hk st Hst. unfold mbind, M_bind. specialize (Hm st Hst). destruct (m st) as [[a|f] st1].
  - destruct Hm as [_ [n Hn]]. specialize (Hk a st1 (held_prefix _ _ _ _ Hn Hst)). destruct (k a st1) as [r st2].
    destruct Hk as [Hr Hr2]. split; [done|]. etrans; [by exists n|done].
  - destruct Hm as [Hf Hn]. split; [by destruct f|done].
Qed.

Lemma safe_call {A} ps (f : K -> A * K) : safe ps (call f).
Proof. intros st Hst. unfold call. destruct (f (kernel st)). split; [done|]. exists 0%nat. by rewrite app_nil_r. Qed.

Lemma safe_lift {A} ps (r : res A) : defined r -> safe ps (lift (K := K) r).
Proof. intros Hr st Hst. split; [done|reflexivity]. Qed.

Lemma safe_SystemCall ps attempt r errno : safe ps (SystemCall (K := K) attempt r errno 0).
Proof. intros st Hst. unfold SystemCall. case_decide; (split; [done|reflexivity]). Qed.

Lemma safe_ext {A} ps (m m' : M K A) : (forall st, m st = m' st) -> safe ps m' -> safe ps m.
Proof. intros E Hm st Hst. rewrite E. by apply Hm. Qed.

Lemma M_bind_assoc {A B C} (m : M K A) (f : A -> M K B) (g : B -> M K C) st :
  (m ≫= fun a => f a ≫= g) st = ((m ≫= f) ≫= g) st.
Proof. unfold mbind, M_bind. by destruct (m st) as [[] ?]. Qed.

(** A scope: the object is alive in the body and released afterwards. *)
Lemma safe_scope {A} ps (m : M K nat) (body : nat -> M K A) :
  makes ps m -> (forall p, safe (p :: ps) (body p)) -> safe ps (p ← m; scoped_fd p (body p)).
Proof.
  intros Hm Hb st Hst. unfold mbind, M_bind. specialize (Hm st Hst). destruct (m st) as [[p|[]] st1]; try done.
  destruct Hm as [Hp Hh]. assert (Hlen : length (handles st) = length (heap st)) by apply length_fmap.
  assert (Hheld : held (p :: ps) st1).
  { constructor; [|by eapply held_prefix]. destruct (only_handle _ [] p st1 Hh ltac:(lia)) as (c & Hc & Hu).
    exists c. split; [done|lia]. }
  specialize (Hb p st1 Hheld). unfold scoped_fd. destruct (body p st1) as [r st2]. destruct Hb as [Hr [n Hn]].
  rewrite Hh, <- app_assoc in Hn. destruct (destroy_handles (handles st) n p st2 Hn ltac:(lia)) as (st3 & E & H3).
  destruct r as [a|[]]; try done; unfold mbind, M_bind; rewrite E; (split; [done|by exists (S n)]).
Qed.

(** Making an object, with what may fail before. *)
Lemma makes_construct ps fd : makes ps (construct fd).
Proof.
  intros st Hst. unfold construct. case_decide; [|split; [done|unfold handles; simpl; by rewrite fmap_app]].
  exists 0%nat. by rewrite app_nil_r.
Qed.

Lemma makes_bind {A} ps (m : M K A) (k : A -> M K nat) :
  (exists p, p ∈ ps /\ tame p m) \/ (forall st, handles (m st).2 = handles st /\ defined (m st).1) ->
  (forall a, makes ps (k a)) -> makes ps (m ≫= k).
Proof.
  intros Hm Hk st Hst. unfold mbind, M_bind.
  assert (Hs : handles (m st).2 = handles st /\ defined (m st).1).
  { destruct Hm as [(p & Hp & Ht)|Hs]; [|done]. unfold held in Hst. rewrite Forall_forall in Hst.
    specialize (Ht st (Hst p Hp)). destruct (m st) as [r st']. destruct Ht as [Hr Hq]. split; [|by destruct r as [|[]]].
    apply list_eq. intros q. by rewrite !handles_lookup. }
  destruct (m st) as [[a|f] st1]; destruct Hs as [Hh Hf]; simpl in Hh, Hf.
  - assert (Hst1 : held ps st1) by (apply (held_prefix ps st st1 []); [by rewrite app_nil_r|done]).
    specialize (Hk a st1 Hst1). assert (Hlen : length (heap st1) = length (heap st))
      by (rewrite <- !(length_fmap use_count); unfold handles in Hh; by rewrite Hh).
    destruct (k a st1) as [[p|[]] st2]; try done; unfold released in *; rewrite Hh in Hk; [|done]. by rewrite <- Hlen.
  - destruct f; try done. exists 0%nat. by rewrite app_nil_r.
Qed.

End Safe.

Section Sockets.
Context {K : Type} `{Kernel K} `{SocketKernel K}.

Lemma makes_socket ps domain type : makes ps (Socket.construct (K := K) domain type).
Proof.
  unfold Socket.construct. apply makes_bind; [right; intros st; unfold call; by destruct (sys_socket _ _ _ _)|intros [r e]].
  apply makes_bind; [right; intros st; unfold SystemCall; by case_decide|]. apply makes_construct.
Qed.

(** Adopting a descriptor: a mismatch closes it. *)
Lemma makes_adopted ps fd domain type :
  options_stored K -> makes ps (q ← FileDescriptor.construct fd; Socket.of_fd q domain type).
Proof.
  intros Hopt st Hst. pose proof (makes_construct ps fd st Hst) as Hc. unfold mbind, M_bind.
  destruct (FileDescriptor.construct fd st) as [[p|[]] st1]; try done. destruct Hc as [Hp Hh].
  assert (Hlen : length (handles st) = length (heap st)) by apply length_fmap.
  assert (Ha : alive p st1).
  { destruct (only_handle _ [] p st1 Hh ltac:(lia)) as (c & Hc & Hu). exists c. split; [done|lia]. }
  unfold Socket.of_fd, or_destroy.
  match goal with |- context [match ?b st1 with _ => _ end] => assert (Ht : tame_to p (fun q => q = p) b) end.
  { eapply tame_to_bind; [by apply verify_option_tame|intros v _]. eapply tame_to_bind; [by apply verify_option_tame|intros w _].
    by apply tame_to_ret. }
  specialize (Ht st1 Ha).
  match type of Ht with context [match ?b with _ => _ end] => destruct b as [r st2] end. destruct Ht as [Hr Hq].
  assert (H2 : handles st2 = handles st1) by (apply list_eq; intros q; by rewrite !handles_lookup).
  destruct r as [q|[]]; try done.
  - rewrite H2, Hr. done.
  - destruct (destroy_handles (handles st) 0 p st2) as (st3 & -> & H3); [by rewrite H2, Hh|lia|]. by exists 1%nat.
Qed.

Lemma makes_accepted ps p : options_stored K -> p ∈ ps -> makes ps (Socket.accept (K := K) p).
Proof.
  intros Hopt Hp. unfold Socket.accept. apply makes_bind; [left; exists p; split; [done|apply register_read_tame]|intros _].
  apply makes_bind; [left; exists p; split; [done|apply fd_num_tame]|intros fd].
  apply makes_bind; [right; intros st; unfold call; by destruct (sys_accept _ _)|intros [r e]].
  apply makes_bind; [right; intros st; unfold SystemCall; by case_decide|intros n]. by apply makes_adopted.
Qed.
End Sockets.

(** ** The example program *)

Section Examples.
Context {K : Type} `{Kernel K} `{SocketKernel K} `{PairKernel K} `{RandomDevice K} `{Resolver}.
Context (resolver : Address.honest_resolver) (options : options_stored K).

Lemma localhost_safe ps port : safe ps (localhost (K := K) port).
Proof. by apply safe_lift, Address.resolve_defined. Qed.

Lemma portnum_safe ps : safe ps (portnum (K := K)).
Proof. unfold portnum. apply safe_seq; [apply safe_call|]. intros r st Hst. split; [done|reflexivity]. Qed.

Lemma compare_safe ps a b : safe ps (compare (K := K) a b).
Proof. intros st Hst. unfold compare. case_decide; (split; [done|reflexivity]). Qed.

(** The operations of the examples on an object in scope. *)
Lemma hi_tame p s : s = hi_there \/ s = hi_yourself -> tame p (write_cstr (K := K) p s true).
Proof. intros [->| ->]; by apply write_tame. Qed.

Lemma read_string_tame p limit : tame p (read_string (K := K) p limit).
Proof. apply tame_bind; [apply read_tame|intros; apply tame_ret]. Qed.

Ltac member := repeat first [apply list_elem_of_here|apply list_elem_of_further].
Ltac operation := first
  [ apply localhost_safe | apply portnum_safe | apply compare_safe | apply safe_call | apply safe_SystemCall
  | eapply safe_tame; [|first [apply bind_tame|apply listen_tame|apply sendto_tame|apply send_tame|apply recv_tame
      |apply Socket.connect_tame|apply Socket.shutdown_tame|apply close_tame|apply read_string_tame
      |apply hi_tame; by auto]]; member ].
Ltac scope := apply safe_scope; [first [apply makes_socket|apply makes_accepted; [done|member]]|intros ?].

Lemma example_1_safe : safe [] (socket_example_1 (K := K)).
Proof.
  unfold socket_example_1. apply safe_seq; [operation|intros port]. scope.
  apply safe_seq; [operation|intros address]. apply safe_seq; [operation|intros _]. scope.
  repeat (apply safe_seq; [operation|intros ?]). operation.
Qed.

Lemma example_2_safe : safe [] (socket_example_2 (K := K)).
Proof.
  unfold socket_example_2. apply safe_seq; [operation|intros port]. scope.
  do 3 (apply safe_seq; [operation|intros ?]). scope. do 2 (apply safe_seq; [operation|intros ?]). scope.
  repeat (apply safe_seq; [operation|intros ?]). operation.
Qed.

(** Adopting the descriptor is one step with its making. *)
Lemma adopted_scope {A} ps fd domain type (body : nat -> M K A) :
  (forall p, safe (p :: ps) (body p)) ->
  safe ps (q ← FileDescriptor.construct fd; p ← Socket.of_fd q domain type; scoped_fd p (body p)).
Proof. intros Hb. eapply safe_ext; [intros st; apply M_bind_assoc|]. apply safe_scope; [by apply makes_adopted|done]. Qed.

Lemma example_3_safe : safe [] (socket_example_3 (K := K)).
Proof.
  unfold socket_example_3. apply safe_seq; [operation|intros [[r errno] fds]]. apply safe_seq; [operation|intros _].
  apply adopted_scope. intros pipe1. apply adopted_scope. intros pipe2.
  repeat (apply safe_seq; [operation|intros ?]). operation.
Qed.
End Examples.

(** ** Properties *)

(** C33: on any kernel, the sockets' example program ends, with success or with failure, and
    never uses an object that is gone; every object of the library that it made (each wraps one
    descriptor) has lost its last handle at the end, and the handles that existed before keep
    their owners.  The kernel may fail or answer anything at each call, as long as
    getsockopt(2) stores the option when it succeeds, getaddrinfo gives as many bytes as it says,
    and no write meets a broken pipe, which would kill the program by SIGPIPE.  Nothing is said of
    a descriptor that no object wraps. *)
Theorem socket_examples_release {K} `{Kernel K} `{SocketKernel K} `{PairKernel K} `{RandomDevice K} `{Resolver} (st : state K) :
  Address.honest_resolver -> options_stored K -> no_broken_pipe K ->
  exists code st' n, socket_dt_main st = (Ok code, st') /\ (code = EXIT_SUCCESS \/ code = EXIT_FAILURE) /\
    handles st' = handles st ++ replicate n 0.
Proof.
  intros Hr Ho _. assert (Hs : safe [] (_ ← socket_example_1; _ ← socket_example_2; socket_example_3)).
  { apply safe_seq; [by apply example_1_safe|intros _]. apply safe_seq; [by apply example_2_safe|intros _].
    by apply example_3_safe. }
  specialize (Hs st (List.Forall_nil _)). unfold socket_dt_main.
  destruct ((_ ← socket_example_1; _ ← socket_example_2; socket_example_3) st) as [[[]|[|what|]] st'];
    destruct Hs as [Hd [n Hn]]; try done; do 2 eexists; exists n; (split; [reflexivity|]); (split; [by auto|done]).
Qed.

#[local] Existing Instances host_kernel host_sockets host_pairs host_random host_names.

Lemma host_names_honest : Address.honest_resolver.
Proof.
  intros node service hints ret addr len. simpl. unfold on_port.
  repeat case_decide; intros [= <- <- <-]; unfold zlen; rewrite Address.length_sockaddr_in; done.
Qed.

Lemma host_options_stored : options_stored host.
Proof.
  intros fd level option len k r e v n k'. simpl. destruct (endpoints k !! fd); intros [= <- <- <- <- <-]; by split.
Qed.

Lemma host_no_broken_pipe : no_broken_pipe host.
Proof. intros fd iov k. simpl. by destruct (endpoints k !! fd ≫= other). Qed.

Lemma socket_examples_release_witness :
  exists st' n, socket_dt_main booted = (Ok EXIT_SUCCESS, st') /\ handles st' = replicate n 0.
Proof.
  destruct (socket_examples_release booted host_names_honest host_options_stored host_no_broken_pipe) as (code & st' & n & E & Hc & Hn).
  exists st', n. split; [|exact Hn]. rewrite E. destruct Hc as [->| ->]; [done|]. by vm_compute in E.
Defined.

(** The same host, where no option can be read. *)
Definition blind_sockets : SocketKernel host := {|
  sys_socket := sys_socket;
  sys_getsockopt _ _ _ _ h := (-1, EBADF, (None, 4), h);
  sys_setsockopt := sys_setsockopt;
  sys_getsockname := sys_getsockname;
  sys_getpeername := sys_getpeername;
  sys_bind := sys_bind;
  sys_connect := sys_connect;
  sys_shutdown := sys_shutdown;
  sys_listen := sys_listen;
  sys_accept := sys_accept;
  sys_recvfrom := sys_recvfrom;
  sys_sendmsg := sys_sendmsg
|}.

(** There [pipe1] of the third example cannot be made: its object releases and closes the
    first descriptor, 3, and the second, 4, which nothing wraps yet, stays open. *)
Example socket_example_3_leaks :
  let '(r, st) := socket_example_3 (H0 := blind_sockets) booted in
  r = throw "getsockopt: Bad file descriptor" /\ handles st = [0] /\
  domain <$> endpoints (kernel st) !! 3 = None /\ domain <$> endpoints (kernel st) !! 4 = Some Socket.AF_UNIX.
Proof. by vm_compute. Qed.

End Handles.
