(* ===== verification/Printing.v ===== *)
(** * Printed output (hexdump of util/util.cc, to_string and summary of tcp_header.cc, operator<<
    of wrapping_integers.cc)

    An output stream is the text written so far and its formatting state.  The flags that
    the library never sets (adjustment, sign, base prefix, upper case) have their defaults:
    padding goes to the left. *)

From S2P Require Import Prelude WrappingIntegers Buffer Parser TCPHeader.
From Stdlib Require Import ZifyNat.

(** ** Output streams *)

Module OStream.

Inductive base : Set := dec | hex.
Record ostream : Set := mk {
  written_text : bytes;
  basefield : base;
  boolalpha : bool;
  fill : byte;
  width : Z
}.

Definition text (s : string) : bytes := String.list_byte_of_string s.
Definition newline : byte := Byte.x0a.
Definition blank : byte := Byte.x20.
Definition digit0 : byte := Byte.x30.

Definition radix (b : base) : Z := match b with dec => 10 | hex => 16 end.

(** The digit [d], in lower case. *)
Definition digit_char (d : Z) : byte := byte_of (if decide (d < 10) then 48 + d else 87 + d).

(** The digits of a number, at least one. *)
Fixpoint digits_rec (fuel : nat) (r n : Z) (acc : bytes) : bytes :=
  let acc := digit_char (n mod r) :: acc in
  match fuel with
  | O => acc
  | S fuel' => if decide (n < r) then acc else digits_rec fuel' r (n / r) acc
  end.
Definition digits (r n : Z) : bytes := digits_rec (Z.to_nat (Z.log2 n)) r n [].

(** Appends [s], padded with the fill character to the field width, which it resets. *)
Definition put (s : bytes) (os : ostream) : ostream :=
  mk (written_text os ++ replicate (Z.to_nat (width os - zlen s)) (fill os) ++ s)
     (basefield os) (boolalpha os) (fill os) 0.
Definition put_char (c : byte) (os : ostream) : ostream := put [c] os.
Definition put_uint (n : Z) (os : ostream) : ostream := put (digits (radix (basefield os)) n) os.
Definition put_bool (b : bool) (os : ostream) : ostream :=
  if boolalpha os then put (text (if b then "true" else "false")) os else put_uint (if b then 1 else 0) os.

(** Manipulators. *)
Definition set_base (b : base) (os : ostream) : ostream :=
  mk (written_text os) b (boolalpha os) (fill os) (width os).
Definition set_boolalpha (b : bool) (os : ostream) : ostream :=
  mk (written_text os) (basefield os) b (fill os) (width os).
Definition setfill (c : byte) (os : ostream) : ostream :=
  mk (written_text os) (basefield os) (boolalpha os) c (width os).
Definition setw (n : Z) (os : ostream) : ostream :=
  mk (written_text os) (basefield os) (boolalpha os) (fill os) n.

(** A new stream. *)
Definition fresh : ostream := mk [] dec false blank 0.

(** [std::ostream &operator<<(std::ostream &os, WrappingInt32 n)] *)
Definition put_wrapping (n : WrappingInt32.WrappingInt32) (os : ostream) : ostream :=
  put_uint (WrappingInt32.raw_value n) os.

(** ** Lemmas *)

Lemma put_plain s t b ba f : put s (mk t b ba f 0) = mk (t ++ s) b ba f 0.
Proof.
  unfold put. simpl. pose proof (zlen_nonneg s). replace (Z.to_nat (0 - zlen s)) with 0%nat by lia. done.
Qed.

Lemma put_uint_plain n t b ba f : put_uint n (mk t b ba f 0) = mk (t ++ digits (radix b) n) b ba f 0.
Proof. apply put_plain. Qed.

Definition bool_text (b : bool) : bytes := text (if b then "true" else "false").

Lemma put_bool_plain x t b f : put_bool x (mk t b true f 0) = mk (t ++ bool_text x) b true f 0.
Proof. apply put_plain. Qed.

(** A number in a field of [k] columns filled with zeros. *)
Definition padded (k : nat) (n : Z) : bytes := replicate (k - length (digits 16 n)) digit0 ++ digits 16 n.

Lemma put_padded k n t ba w :
  put_uint n (setw (Z.of_nat k) (mk t hex ba digit0 w)) = mk (t ++ padded k n) hex ba digit0 0.
Proof. unfold put_uint, put, padded. simpl. do 3 f_equal. f_equal. unfold zlen. lia. Qed.

(** The value of a string of digits. *)
Definition digit_val (c : byte) : Z := if decide (byte_val c < 58) then byte_val c - 48 else byte_val c - 87.
Definition value (r : Z) (l : bytes) : Z := foldl (fun a c => a * r + digit_val c) 0 l.

Lemma digit_val_char d : 0 <= d < 16 -> digit_val (digit_char d) = d.
Proof.
  intros Hd. unfold digit_val, digit_char. rewrite byte_val_of. destruct (decide (d < 10)) as [Hlt|Hlt].
  - rewrite to_u8_small by width_lia. rewrite decide_True by lia. lia.
  - rewrite to_u8_small by width_lia. rewrite decide_False by lia. lia.
Qed.

Lemma value_cons r c l : value r (c :: l) = digit_val c * r ^ zlen l + value r l.
Proof.
  unfold value. simpl. generalize (digit_val c) as a. induction l as [|c' l IH] using rev_ind; intros a.
  - simpl. rewrite (@zlen_nil byte). lia.
  - rewrite !foldl_app. simpl. rewrite IH. autorewrite with zlen. rewrite Z.add_0_r.
    rewrite Z.pow_add_r by (pose proof (zlen_nonneg l); lia). lia.
Qed.

Lemma digits_rec_value fuel r n acc :
  2 <= r <= 16 -> 0 <= n < 2 ^ (Z.of_nat fuel + 1) -> value r (digits_rec fuel r n acc) = n * r ^ zlen acc + value r acc.
Proof.
  intros Hr. revert n acc. induction fuel as [|fuel IH]; intros n acc Hn.
  - cbn [digits_rec]. rewrite value_cons, digit_val_char by (pose proof (Z.mod_pos_bound n r); lia).
    change (2 ^ (Z.of_nat 0 + 1)) with 2 in Hn. rewrite Z.mod_small by lia. done.
  - cbn [digits_rec]. pose proof (Z.mod_pos_bound n r ltac:(lia)). case_decide as Hlt.
    + rewrite value_cons, digit_val_char, Z.mod_small by lia. done.
    + rewrite IH.
      * rewrite value_cons, digit_val_char by lia. autorewrite with zlen. rewrite Z.pow_add_r by (pose proof (zlen_nonneg acc); lia).
        rewrite Z.pow_1_r. rewrite (Z.div_mod n r) at 3 by lia. ring.
      * split; [apply Z.div_pos; lia|]. apply Z.div_lt_upper_bound; [lia|].
        replace (Z.of_nat (S fuel) + 1) with (1 + (Z.of_nat fuel + 1)) in Hn by lia.
        rewrite Z.pow_add_r in Hn by lia. change (2 ^ 1) with 2 in Hn. nia.
Qed.

(** Printed numbers read back. *)
Lemma value_digits r n : 2 <= r <= 16 -> 0 <= n -> value r (digits r n) = n.
Proof.
  intros Hr Hn. unfold digits. rewrite digits_rec_value; [|done|].
  - rewrite (@zlen_nil byte). change (value r []) with 0. lia.
  - split; [done|]. destruct (decide (n = 0)) as [->|Hnz]; [done|].
    rewrite Z2Nat.id by apply Z.log2_nonneg. pose proof (Z.log2_spec n). lia.
Qed.

Lemma digits_rec_alnum fuel r n acc :
  2 <= r <= 16 -> Forall (fun c => 48 <= byte_val c) acc -> Forall (fun c => 48 <= byte_val c) (digits_rec fuel r n acc).
Proof.
  intros Hr. revert n acc. induction fuel as [|fuel IH]; intros n acc Hacc; cbn [digits_rec];
    assert (Hc : 48 <= byte_val (digit_char (n mod r)));
    try (unfold digit_char; rewrite byte_val_of; pose proof (Z.mod_pos_bound n r); case_decide; width_lia).
  - by constructor.
  - case_decide; [by constructor|]. apply IH. by constructor.
Qed.

End OStream.

(** ** Headers *)

Module HeaderText.

Import OStream TCPHeader.

(** [std::string TCPHeader::to_string() const] *)
Definition to_string (h : TCPHeader) : bytes :=
  let ss := set_boolalpha true (set_base hex fresh) in
  let ss := put_char newline (put_uint (sport h) (put (text "TCP source port: ") ss)) in
  let ss := put_char newline (put_uint (dport h) (put (text "TCP dest port: ") ss)) in
  let ss := put_char newline (put_wrapping (seqno h) (put (text "TCP seqno: ") ss)) in
  let ss := put_char newline (put_wrapping (ackno h) (put (text "TCP ackno: ") ss)) in
  let ss := put_char newline (put_uint (doff h) (put (text "TCP doff: ") ss)) in
  let ss := put_bool (urg h) (put (text "Flags: urg: ") ss) in
  let ss := put_bool (ack h) (put (text " ack: ") ss) in
  let ss := put_bool (psh h) (put (text " psh: ") ss) in
  let ss := put_bool (rst h) (put (text " rst: ") ss) in
  let ss := put_bool (syn h) (put (text " syn: ") ss) in
  let ss := put_char newline (put_bool (fin h) (put (text " fin: ") ss)) in
  let ss := put_char newline (put_uint (win h) (put (text "TCP winsize: ") ss)) in
  let ss := put_char newline (put_uint (cksum h) (put (text "TCP cksum: ") ss)) in
  let ss := put_char newline (put_uint (uptr h) (put (text "TCP uptr: ") ss)) in
  written_text ss.

(** [std::string TCPHeader::summary() const] *)
Definition summary (h : TCPHeader) : bytes :=
  let flag (b : bool) (s : string) := put (text (if b then s else "")) in
  let ss := put (text "Header(flags=") fresh in
  let ss := flag (fin h) "F" (flag (rst h) "R" (flag (ack h) "A" (flag (syn h) "S" ss))) in
  let ss := put_wrapping (seqno h) (put (text ",seqno=") ss) in
  let ss := put_wrapping (ackno h) (put (text ",ack=") ss) in
  let ss := put_uint (win h) (put (text ",win=") ss) in
  written_text (put (text ")") ss).

(** ** Lemmas *)

(** A line: a label, its contents and a line end. *)
Lemma line_inj (label a b x y : bytes) :
  Forall (fun c => 48 <= byte_val c) a -> Forall (fun c => 48 <= byte_val c) b ->
  label ++ a ++ newline :: x = label ++ b ++ newline :: y -> a = b /\ x = y.
Proof.
  intros Ha Hb E. apply app_inv_head in E. revert b Hb E. induction Ha as [|c a Hc Ha IH]; intros b Hb E.
  - destruct Hb as [|c' b Hc' _]; injection E as E; [by subst|]. subst c'. by vm_compute in Hc'.
  - destruct Hb as [|c' b Hc' Hb]; injection E as E1 E2; [subst c; by vm_compute in Hc|].
    destruct (IH b Hb E2) as [-> ->]. by subst.
Qed.

Lemma number_line_inj label r n m x y :
  2 <= r <= 16 -> 0 <= n -> 0 <= m ->
  label ++ digits r n ++ newline :: x = label ++ digits r m ++ newline :: y -> n = m /\ x = y.
Proof.
  intros Hr Hn Hm E. apply line_inj in E as [E ->]; [|by apply digits_rec_alnum..].
  split; [|done]. rewrite <- (value_digits r n), <- (value_digits r m) by done. by rewrite E.
Qed.

Lemma flag_inj label (a b : bool) x y : label ++ bool_text a ++ x = label ++ bool_text b ++ y -> a = b /\ x = y.
Proof. intros E. apply app_inv_head in E. destruct a, b; injection E as E; done. Qed.

(** The printed form, line by line. *)
Lemma to_string_eq h :
  to_string h =
    text "TCP source port: " ++ digits 16 (sport h) ++ newline ::
    (text "TCP dest port: " ++ digits 16 (dport h) ++ newline ::
    (text "TCP seqno: " ++ digits 16 (WrappingInt32.raw_value (seqno h)) ++ newline ::
    (text "TCP ackno: " ++ digits 16 (WrappingInt32.raw_value (ackno h)) ++ newline ::
    (text "TCP doff: " ++ digits 16 (doff h) ++ newline ::
    (text "Flags: urg: " ++ bool_text (urg h) ++ (text " ack: " ++ bool_text (ack h) ++ (text " psh: " ++ bool_text (psh h) ++
    (text " rst: " ++ bool_text (rst h) ++ (text " syn: " ++ bool_text (syn h) ++ (text " fin: " ++ bool_text (fin h) ++
    ([newline] ++ (text "TCP winsize: " ++ digits 16 (win h) ++ newline ::
    (text "TCP cksum: " ++ digits 16 (cksum h) ++ newline ::
    (text "TCP uptr: " ++ digits 16 (uptr h) ++ [newline])))))))))))))).
Proof.
  unfold to_string, put_char, put_wrapping, set_boolalpha, set_base, fresh.
  cbn [basefield boolalpha written_text fill width]. cbv zeta.
  repeat first [rewrite put_plain|rewrite put_uint_plain|rewrite put_bool_plain]. cbn [radix written_text].
  rewrite <- !app_assoc. reflexivity.
Qed.

(** ** Properties *)

(** C36: the printed form of a header determines it: two headers with fields in range whose
    [to_string] agree are equal in every field. *)
Theorem header_text_faithful h h' : wf h -> wf h' -> to_string h = to_string h' -> h = h'.
Proof.
  intros Hh Hh'. rewrite !to_string_eq. intros E. destruct Hh, Hh'. unfold WrappingInt32.wf in *. unfold_width.
  apply number_line_inj in E as [E1 E]; [|lia..]. apply number_line_inj in E as [E2 E]; [|lia..].
  apply number_line_inj in E as [E3 E]; [|lia..]. apply number_line_inj in E as [E4 E]; [|lia..].
  apply number_line_inj in E as [E5 E]; [|lia..]. apply flag_inj in E as [E6 E]. apply flag_inj in E as [E7 E].
  apply flag_inj in E as [E8 E]. apply flag_inj in E as [E9 E]. apply flag_inj in E as [E10 E].
  apply flag_inj in E as [E11 E]. apply app_inv_head in E. apply number_line_inj in E as [E12 E]; [|lia..].
  apply number_line_inj in E as [E13 E]; [|lia..]. apply number_line_inj in E as [E14 _]; [|lia..].
  destruct h as [? ? [] []], h' as [? ? [] []]. simpl in *. congruence.
Qed.

Definition sample : TCPHeader :=
  mk 80 40000 (WrappingInt32.mk 4294967295) (WrappingInt32.mk 7) 5 false true false false true false 64000 48879 0.

Example sample_text :
  to_string sample = concat (map (fun l => text l ++ [newline])
    ["TCP source port: 50"; "TCP dest port: 9c40"; "TCP seqno: ffffffff"; "TCP ackno: 7"; "TCP doff: 5";
     "Flags: urg: false ack: true psh: false rst: false syn: true fin: false"; "TCP winsize: fa00";
     "TCP cksum: beef"; "TCP uptr: 0"]) /\
  summary sample = text "Header(flags=SA,seqno=4294967295,ack=7,win=64000)".
Proof. by vm_compute. Qed.

Definition sample' : TCPHeader :=
  mk 80 (2 ^ 15 + 7232) (WrappingInt32.mk (2 ^ 32 - 1)) (WrappingInt32.mk 7) 5 false true false false true false 64000 48879 0.

Lemma header_text_faithful_witness : sample = sample'.
Proof.
  apply (header_text_faithful sample sample'); [split; by vm_compute|split; by vm_compute|by vm_compute].
Defined.

End HeaderText.

(** ** Hexdump *)

Module Hexdump.

Import OStream.

(** A string stream opened for reading and writing: its buffer and the position of the next
    write, which starts at the beginning also when the buffer is not empty. *)
Record stringstream : Set := mk_ss { buf : bytes; pos : nat }.
Definition ss_reset (s : bytes) : stringstream := mk_ss s 0.
Definition ss_put (c : byte) (ss : stringstream) : stringstream :=
  mk_ss (take (pos ss) (buf ss) ++ [c] ++ drop (S (pos ss)) (buf ss)) (S (pos ss)).

(** [isprint] in the C locale. *)
Definition isprint (b : byte) : bool := bool_decide (32 <= byte_val b <= 126).
Definition shown (b : byte) : byte := if isprint b then b else Byte.x2e.

(** The variables of the loop. *)
Record dump : Set := mk_dump { cout : ostream; pchars : stringstream; printed : Z; index : Z }.

(** The body of the loop: an [int] that overflows is undefined, the [unsigned] index wraps. *)
Definition dump_body (data indent_string : bytes) (d : dump) : res dump :=
  let '(out, chars) :=
    if decide (Z.land (printed d) 15 = 0) then
      let '(out, chars) :=
        if decide (printed d <> 0)
        then (put [newline] (put (buf (pchars d)) (put (text "    ") (cout d))), ss_reset [blank])
        else (cout d, pchars d) in
      (put (text ":    ") (put_uint (printed d) (setw 8 (put indent_string out))), chars)
    else if decide (Z.land (printed d) 1 = 0) then (put_char blank (cout d), pchars d)
    else (cout d, pchars d) in
  b ← at_ data (index d);
  let out := put_uint (byte_val b) (setw 2 out) in
  let chars := ss_put (shown b) chars in
  if decide (printed d + 1 < 2 ^ 31)
  then Ok (mk_dump out chars (printed d + 1) (to_u32 (index d + 1)))
  else Err Undefined.

(** [void hexdump(const uint8_t *data, const size_t len, const size_t indent)] on [std::cout] *)
Definition hexdump (data : bytes) (len indent : Z) (out : ostream) : res ostream :=
  let indent_string := replicate (Z.to_nat indent) blank in
  let start := mk_dump (setfill digit0 (set_base hex out)) (ss_reset [blank]) 0 0 in
  d ← while_loop (S (Z.to_nat len)) (fun d => Ok (bool_decide (index d < len))) (dump_body data indent_string) start;
  let print_rem := (16 - Z.land (printed d) 15) mod 16 in
  let final := put (buf (pchars d)) (put (replicate (Z.to_nat (2 * print_rem + print_rem / 2 + 4)) blank) (cout d)) in
  let final := put_char newline (put_char newline final) in
  Ok (set_boolalpha (boolalpha out) (set_base (basefield out) final)).

(** [void hexdump(const char *data, const size_t len, const size_t indent)] *)
Definition hexdump_char (data : bytes) (len indent : Z) (out : ostream) : res ostream := hexdump data len indent out.

(** ** The layout *)

(** The bytes of a row in hexadecimal, in pairs, at column [j]. *)
Fixpoint pairs (j : nat) (row : bytes) : bytes :=
  match row with
  | [] => []
  | b :: row' =>
      (if Nat.even j && negb (Nat.eqb j 0) then [blank] else []) ++ padded 2 (byte_val b) ++ pairs (S j) row'
  end.

(** One row: the offset in eight digits, the bytes padded to 39 columns, the characters. *)
Definition line (indent : nat) (offset : Z) (row : bytes) : bytes :=
  replicate indent blank ++ padded 8 offset ++ text ":    " ++
  pairs 0 row ++ replicate (39 - length (pairs 0 row)) blank ++ text "    " ++ map shown row.

(** The rows of sixteen bytes from [offset] on, separated by line ends. *)
Fixpoint lines (n : nat) (indent : nat) (offset : Z) (data : bytes) : bytes :=
  match n with
  | O => []
  | S n' =>
      line indent offset (take 16 data) ++
      match drop 16 data with [] => [] | rest => newline :: lines n' indent (offset + 16) rest end
  end.

Definition layout (indent : nat) (data : bytes) : bytes :=
  (if decide (data = []) then text "     " else lines (length data) indent 0 data) ++ [newline; newline].

(** ** Lemmas *)

(** The loop as a fold: the text, the characters and the offset. *)
Definition row_break (ind : bytes) (chars : stringstream) (p : Z) : bytes :=
  (if decide (p <> 0) then text "    " ++ buf chars ++ [newline] else []) ++ ind ++ padded 8 p ++ text ":    ".
Definition dump_step (ind : bytes) (s : bytes * stringstream * Z) (b : byte) : bytes * stringstream * Z :=
  let '(t, chars, p) := s in
  let '(lead, chars) :=
    if decide (p mod 16 = 0) then (row_break ind chars p, if decide (p <> 0) then ss_reset [blank] else chars)
    else ((if decide (p mod 2 = 0) then [blank] else []), chars) in
  (t ++ lead ++ padded 2 (byte_val b), ss_put (shown b) chars, p + 1).

Definition to_dump (ba : bool) (s : bytes * stringstream * Z) : dump :=
  let '(t, chars, p) := s in mk_dump (mk t hex ba digit0 0) chars p p.

Lemma dump_body_step data ind ba t chars p b :
  0 <= p < 2 ^ 31 - 1 -> data !! Z.to_nat p = Some b ->
  dump_body data ind (to_dump ba (t, chars, p)) = Ok (to_dump ba (dump_step ind (t, chars, p) b)).
Proof.
  intros Hp Hb. unfold dump_body, dump_step, to_dump, row_break. cbn [printed cout pchars index].
  assert (H16 : Z.land p 15 = p mod 16) by (apply (Z.land_ones p 4); lia).
  assert (H2 : Z.land p 1 = p mod 2) by (apply (Z.land_ones p 1); lia). rewrite H16, H2.
  rewrite (at_lookup data p b) by (done || lia). rewrite to_u32_small by width_lia. unfold put_char.
  destruct (decide (p mod 16 = 0)).
  - destruct (decide (p <> 0)); rewrite !put_plain, (put_padded 8), !put_plain; cbn [mbind res_bind];
      rewrite decide_True by lia; rewrite (put_padded 2); by rewrite <- ?app_assoc.
  - destruct (decide (p mod 2 = 0)); rewrite ?put_plain; cbn [mbind res_bind];
      rewrite decide_True by lia; rewrite (put_padded 2);
      by rewrite <- ?app_assoc.
Qed.

(** The loop runs the fold over the rest of the data. *)
Lemma dump_loop data ind ba fuel : forall t chars p rest,
  0 <= p -> drop (Z.to_nat p) data = rest -> p <= zlen data < 2 ^ 31 -> (length rest < fuel)%nat ->
  while_loop fuel (fun d => Ok (bool_decide (index d < zlen data))) (dump_body data ind) (to_dump ba (t, chars, p))
  = Ok (to_dump ba (foldl (dump_step ind) (t, chars, p) rest)).
Proof.
  induction fuel as [|fuel IH]; intros t chars p rest Hp Hrest Hlen Hf; [lia|]. cbn [while_loop]. res_simpl.
  unfold to_dump at 1. cbn [index]. destruct rest as [|b rest].
  - rewrite bool_decide_false; [done|]. apply (f_equal zlen) in Hrest. rewrite zlen_drop in Hrest by done.
    rewrite (@zlen_nil byte) in Hrest. lia.
  - assert (Hb : data !! Z.to_nat p = Some b) by (by rewrite <- (Nat.add_0_r (Z.to_nat p)), <- lookup_drop, Hrest).
    assert (Hlt := lookup_lt_Some _ _ _ Hb). rewrite bool_decide_true by (unfold zlen; lia).
    rewrite dump_body_step with (b := b) by (try done; unfold zlen in *; lia). res_simpl. cbn [foldl].
    destruct (dump_step ind (t, chars, p) b) as [[t' chars'] p'] eqn:E.
    assert (p' = p + 1) as -> by (unfold dump_step in E; case_match; by injection E).
    apply IH; [lia| |unfold zlen in *; lia|simpl in Hf; lia].
    replace (Z.to_nat (p + 1)) with (Z.to_nat p + 1)%nat by lia. by rewrite <- drop_drop, Hrest.
Qed.

Lemma ss_put_end c s : ss_put c (mk_ss s (length s)) = mk_ss (s ++ [c]) (length (s ++ [c])).
Proof.
  unfold ss_put. cbn [pos buf]. rewrite take_ge, drop_ge by lia. rewrite length_app. simpl. f_equal. lia.
Qed.

(** Inside a row. *)
Lemma dump_row_tail ind row : forall t s p j,
  p mod 16 = Z.of_nat j -> (0 < j)%nat -> (j + length row <= 16)%nat ->
  foldl (dump_step ind) (t, mk_ss s (length s), p) row
  = (t ++ pairs j row, mk_ss (s ++ map shown row) (length (s ++ map shown row)), p + zlen row).
Proof.
  induction row as [|b row IH]; intros t s p j Hp Hj Hlen.
  - simpl. rewrite !app_nil_r, (@zlen_nil byte), Z.add_0_r. done.
  - simpl in Hlen. cbn [foldl dump_step]. rewrite decide_False by lia. rewrite ss_put_end.
    assert (Hpar : (if decide (p mod 2 = 0) then [blank] else []) = (if Nat.even j && negb (j =? 0)%nat then [blank] else [])).
    { replace (negb (j =? 0)%nat) with true by (destruct j; [lia|done]). rewrite andb_true_r.
      assert (Hpj : p mod 2 = Z.of_nat j mod 2) by (rewrite <- Hp; Z.div_mod_to_equations; lia). rewrite Hpj.
      destruct (Nat.even j) eqn:Hev.
      - apply Nat.even_spec in Hev as [m ->]. rewrite decide_True; [done|]. Z.div_mod_to_equations; lia.
      - rewrite decide_False; [done|]. assert (Hodd : Nat.odd j = true) by (unfold Nat.odd; by rewrite Hev).
        apply Nat.odd_spec in Hodd as [m ->]. Z.div_mod_to_equations; lia. }
    rewrite Hpar. destruct row as [|b' row].
    + cbn [foldl pairs map]. rewrite !app_nil_r. autorewrite with zlen. by rewrite Z.add_0_r.
    + simpl in Hlen. rewrite (IH _ _ _ (S j)); [|Z.div_mod_to_equations; lia|lia|simpl; lia].
      rewrite (zlen_cons b), Z.add_assoc. cbn [pairs map]. by rewrite <- !app_assoc.
Qed.

(** A row from its start. *)
Lemma dump_row ind row t chars p :
  0 <= p -> p mod 16 = 0 -> row <> [] -> (length row <= 16)%nat -> (p = 0 -> chars = ss_reset [blank]) ->
  foldl (dump_step ind) (t, chars, p) row
  = (t ++ row_break ind chars p ++ pairs 0 row, mk_ss (map shown row) (length (map shown row)), p + zlen row).
Proof.
  intros Hp0 Hp Hne Hlen Hstart. destruct row as [|b row]; [done|]. cbn [foldl dump_step].
  rewrite decide_True by done.
  assert (Hchars : ss_put (shown b) (if decide (p <> 0) then ss_reset [blank] else chars) = mk_ss [shown b] (length [shown b])).
  { case_decide as Hz; [done|]. rewrite Hstart by lia. done. }
  rewrite Hchars. simpl in Hlen. rewrite (dump_row_tail ind row _ _ _ 1%nat); [|Z.div_mod_to_equations; lia|lia|lia].
  rewrite (zlen_cons b), Z.add_assoc. cbn [pairs map]. by rewrite <- !app_assoc.
Qed.

Lemma length_padded2 b : length (padded 2 (byte_val b)) = 2%nat.
Proof. by destruct b. Qed.

Lemma length_pairs row : forall j,
  (length (pairs j row) + (j + 1) / 2 + (if decide (j = 0 /\ row <> []) then 1 else 0)
   = 2 * length row + (j + length row + 1) / 2)%nat.
Proof.
  induction row as [|b row IH]; intros j.
  - cbn [pairs length]. rewrite decide_False by (by intros [_ ?]). replace (j + 0 + 1)%nat with (j + 1)%nat by lia. lia.
  - cbn [pairs]. rewrite !length_app, length_padded2. specialize (IH (S j)). rewrite decide_False in IH by lia.
    cbn [length]. destruct (Nat.even j) eqn:Hev.
    + apply Nat.even_spec in Hev as [m ->]. destruct m as [|m].
      * rewrite decide_True by done. simpl length at 1. zify; Z.div_mod_to_equations; lia.
      * rewrite decide_False by lia. replace (negb (2 * S m =? 0)%nat) with true by done.
        simpl length at 1. zify; Z.div_mod_to_equations; lia.
    + assert (Hodd : Nat.odd j = true) by (unfold Nat.odd; by rewrite Hev). apply Nat.odd_spec in Hodd as [m ->].
      rewrite decide_False by lia. simpl length at 1. zify; Z.div_mod_to_equations; lia.
Qed.

(** The spaces printed at the end pad the last row to 39 columns and four more. *)
Lemma final_spaces p row :
  p mod 16 = 0 -> 0 <= p -> row <> [] -> (length row <= 16)%nat ->
  let print_rem := (16 - Z.land (p + zlen row) 15) mod 16 in
  Z.to_nat (2 * print_rem + print_rem / 2 + 4) = (39 - length (pairs 0 row) + 4)%nat.
Proof.
  intros Hp Hp0 Hne Hlen print_rem. pose proof (length_pairs row 0) as Hl. rewrite decide_True in Hl by done.
  assert (H0 : (0 < length row)%nat) by (destruct row; [done|simpl; lia]).
  assert (Hrem : print_rem = 16 - zlen row).
  { unfold print_rem. change 15 with (Z.ones 4). rewrite Z.land_ones by lia. unfold zlen. Z.div_mod_to_equations. lia. }
  rewrite Hrem. unfold zlen. zify; Z.div_mod_to_equations; lia.
Qed.

(** All rows: the text of the fold and the ending is the reference layout. *)
Lemma dump_lines n indent : forall data t chars p,
  0 <= p -> p mod 16 = 0 -> data <> [] -> (length data <= n)%nat -> (p = 0 -> chars = ss_reset [blank]) ->
  let '(t', chars', p') := foldl (dump_step (replicate indent blank)) (t, chars, p) data in
  let print_rem := (16 - Z.land p' 15) mod 16 in
  t' ++ replicate (Z.to_nat (2 * print_rem + print_rem / 2 + 4)) blank ++ buf chars'
  = t ++ (if decide (p <> 0) then text "    " ++ buf chars ++ [newline] else []) ++ lines n indent p data.
Proof.
  induction n as [|n IH]; intros data t chars p Hp0 Hp Hne Hn Hstart; [destruct data; [done|simpl in Hn; lia]|]. cbn [lines].
  assert (Hrow : take 16 data <> []) by (by destruct data).
  assert (Hlen : (length (take 16 data) <= 16)%nat) by (rewrite length_take; lia).
  pose proof (foldl_app (dump_step (replicate indent blank)) (take 16 data) (drop 16 data) (t, chars, p)) as Hf.
  rewrite take_drop, (dump_row _ _ _ _ _ Hp0 Hp Hrow Hlen Hstart) in Hf. rewrite Hf. clear Hf.
  unfold line, row_break. destruct (drop 16 data) as [|b rest] eqn:Hrest.
  - cbn [foldl]. rewrite final_spaces by done. rewrite replicate_add. cbn [buf]. rewrite app_nil_r.
    by rewrite <- !app_assoc.
  - assert (H16 : length (take 16 data) = 16%nat).
    { rewrite length_take. apply (f_equal length) in Hrest. rewrite length_drop in Hrest. simpl in Hrest. lia. }
    assert (Hz : zlen (take 16 data) = 16) by (unfold zlen; lia). rewrite Hz.
    specialize (IH (b :: rest) (t ++ ((if decide (p <> 0) then text "    " ++ buf chars ++ [newline] else []) ++
      replicate indent blank ++ padded 8 p ++ text ":    ") ++ pairs 0 (take 16 data))
      (mk_ss (map shown (take 16 data)) (length (map shown (take 16 data)))) (p + 16)).
    destruct (foldl _ _ (b :: rest)) as [[t' chars'] p']. cbv zeta in *. rewrite IH; clear IH; try done; try lia.
    + rewrite (decide_True (P := p + 16 <> 0)) by lia. cbn [buf].
      pose proof (length_pairs (take 16 data) 0) as Hl. rewrite H16, decide_True in Hl by done.
      replace (39 - length (pairs 0 (take 16 data)))%nat with 0%nat by (change ((0 + 1) / 2)%nat with 0%nat in Hl;
        change ((0 + 16 + 1) / 2)%nat with 8%nat in Hl; lia).
      by rewrite <- !app_assoc.
    + apply (f_equal length) in Hrest. rewrite length_drop in Hrest. lia.
Qed.

(** ** Properties *)

(** C35: [hexdump] prints its reference layout: rows of sixteen bytes, each with its offset in
    eight hexadecimal digits, the bytes in hexadecimal in pairs padded to the same 39
    columns, and the printable characters; it terminates, reads only inside the data,
    restores the number base of the stream, and leaves its fill character changed to a zero. *)
Theorem hexdump_layout data indent out :
  zlen data < 2 ^ 31 -> width out = 0 -> 0 <= indent ->
  hexdump data (zlen data) indent out
  = Ok (mk (written_text out ++ layout (Z.to_nat indent) data) (basefield out) (boolalpha out) digit0 0).
Proof.
  intros Hlen Hw Hi. destruct out as [t b ba f w]. cbn [width] in Hw. subst w. unfold hexdump, setfill, set_base, set_boolalpha.
  cbn [written_text basefield boolalpha fill width].
  rewrite (dump_loop data _ ba _ t (ss_reset [blank]) 0 data); try done; [|pose proof (zlen_nonneg data); lia|unfold zlen; lia].
  cbn [mbind res_bind]. unfold layout. case_decide as Hd.
  - subst data. cbn [foldl to_dump printed pchars cout buf ss_reset]. unfold put_char. by rewrite !put_plain, <- !app_assoc.
  - pose proof (dump_lines (length data) (Z.to_nat indent) data t (ss_reset [blank]) 0) as Hl.
    destruct (foldl _ _ data) as [[t' chars'] p']. cbv zeta in Hl. cbn [to_dump printed pchars cout].
    unfold put_char. rewrite !put_plain. cbn [written_text basefield boolalpha fill width]. rewrite <- !app_assoc.
    rewrite (app_assoc (replicate _ _)), (app_assoc t'), Hl by (done || lia). by rewrite <- !app_assoc.
Qed.

Lemma hexdump_layout_witness :
  hexdump (text "Hello, world! 12") 16 2 fresh
  = Ok (mk (text "  00000000:    4865 6c6c 6f2c 2077 6f72 6c64 2120 3132    Hello, world! 12" ++ [newline; newline])
          dec false digit0 0).
Proof. apply (hexdump_layout (text "Hello, world! 12") 2 fresh); by vm_compute. Defined.

End Hexdump.
