(* ===== verification/TestSupport.v ===== *)
(** * What the tests share (tests/)

    The tests of the repository are programs that drive one component and report a failed
    expectation by an exception, which [main] turns into a message and an exit status.  This
    file has what they use of the standard library: the random generator of [Random] drawn from
    in a loop, [std::shuffle] and [std::uniform_int_distribution] as parameters with the laws
    that the C++ standard gives them, copies of a range of a string, and [test_should_be]. *)

From stdpp Require Import pretty.
From S2P Require Import Prelude WrappingIntegers Random Webget.

Abbreviation text := Webget.text.
Abbreviation EXIT_SUCCESS := Webget.EXIT_SUCCESS.
Abbreviation EXIT_FAILURE := Webget.EXIT_FAILURE.

(** The characters that the messages use. *)
Definition new_line : string := String (Ascii.ascii_of_nat 10) EmptyString.
Definition tab : string := String (Ascii.ascii_of_nat 9) EmptyString.

(** ** Programs that print on the standard error *)

(** The outcome of a computation and what it printed. *)
Definition printed (A : Type) : Type := res A * bytes.

#[export] Instance printed_ret : MRet printed := fun A a => (Ok a, []).
#[export] Instance printed_bind : MBind printed := fun A B k m =>
  match m with
  | (Ok a, out) => let '(r, out') := k a in (r, out ++ out')
  | (Err f, out) => (Err f, out)
  end.

Definition quiet {A} (m : res A) : printed A := (m, []).

(** [int main()] whose body is in a [try] block that catches every [std::exception]. *)
Definition run_main (failed : Z) (report : string -> string) (body : printed ()) : printed Z :=
  match body with
  | (Ok _, out) => (Ok EXIT_SUCCESS, out)
  | (Err (Exception what), out) => (Ok failed, out ++ text (report what) ++ Webget.newline)
  | (Err f, out) => (Err f, out)
  end.

(** The way most of the programs report it. *)
Definition test_main (body : printed ()) : printed Z := run_main EXIT_FAILURE (fun what => "Exception: " +:+ what) body.

(** [for (unsigned i = 0; i < n; i++) body], in a program that prints. *)
Fixpoint for_printed_from {S} (n : nat) (i : Z) (body : Z -> S -> printed S) (s : S) : printed S :=
  match n with
  | O => mret s
  | Datatypes.S n' => s' ← body i s; for_printed_from n' (i + 1) body s'
  end.
Definition for_printed {S} (n : Z) (body : Z -> S -> printed S) (s : S) : printed S := for_printed_from (Z.to_nat n) 0 body s.

(** ** Algorithms of the standard library *)

Abbreviation engine := mt19937.engine.

(** [std::generate] over [n] characters, each the low byte of [f] of one number drawn. *)
Fixpoint generate_string (n : nat) (f : Z -> Z) (g : engine) : bytes * engine :=
  match n with
  | O => ([], g)
  | S n' => let '(r, g) := mt19937.next g in let '(d, g) := generate_string n' f g in (byte_of (f r) :: d, g)
  end.

(** [std::shuffle]: some permutation of the range, with numbers from the generator. *)
Class Shuffle := {
  shuffle {A : Type} : list A -> engine -> list A * engine;
  shuffle_permutes {A} (l : list A) g : Permutation (shuffle l g).1 l
}.

(** [std::uniform_int_distribution{a, b}]: some number of the closed interval. *)
Class UniformInt := {
  uniform_int : Z -> Z -> engine -> Z * engine;
  uniform_int_range a b g : a <= b -> a <= (uniform_int a b g).1 <= b
}.

(** [string(d.cbegin() + first, d.cbegin() + last)] *)
Definition copy_range (d : bytes) (first last : Z) : res bytes :=
  if decide (0 <= first <= last /\ last <= zlen d)
  then Ok (take (Z.to_nat (last - first)) (drop (Z.to_nat first) d)) else Err Undefined.

(** [std::equal(a.cbegin(), a.cend(), b.cbegin())]: as many characters of [b] are read. *)
Definition equal_range (a b : bytes) : res bool :=
  if decide (zlen a <= zlen b) then Ok (bool_decide (a = take (length a) b)) else Err Undefined.

(** [for (auto x : l) body] *)
Fixpoint for_each {A S} (body : A -> S -> res S) (l : list A) (s : S) : res S :=
  match l with [] => mret s | x :: l' => s ← body x s; for_each body l' s end.

(** ** test_should_be.hh *)

(** What [_test_should_be] needs of a type: [==], [to_string] and the printed difference. *)
Class TestValue (T : Type) := {
  same : T -> T -> bool;
  shown : T -> string;
  difference : T -> T -> string
}.

#[export] Instance u64_value : TestValue Z :=
  {| same a b := bool_decide (a = b); shown a := pretty a; difference a b := pretty (to_u64 (a - b)) |}.
#[export] Instance bool_value : TestValue bool :=
  {| same := Bool.eqb; shown a := pretty (Z.b2z a); difference a b := pretty (Z.b2z a - Z.b2z b) |}.
#[export] Instance seqno_value : TestValue WrappingInt32.WrappingInt32 :=
  {| same := WrappingInt32.eqb; shown a := pretty (WrappingInt32.raw_value a);
     difference a b := pretty (WrappingInt32.minus a b) |}.

(** [_test_should_be(actual, expected, actual_s, expected_s, lineno)] *)
Definition test_should_be {T} `{TestValue T} (actual expected : T) (actual_s expected_s : string) (lineno : Z) : res () :=
  if same actual expected then Ok () else
  throw ("`" +:+ actual_s +:+ "` should have been `" +:+ expected_s +:+ "`, but the former is" +:+ new_line +:+ tab
    +:+ shown actual +:+ new_line +:+ "and the latter is" +:+ new_line +:+ tab +:+ shown expected
    +:+ " (difference of " +:+ difference expected actual +:+ ")" +:+ new_line
    +:+ " (at line " +:+ pretty lineno +:+ ")" +:+ new_line).

(** ** Harnesses

    A harness holds the component under test and the descriptions of the steps that were
    executed; a step acts on the component or states an expectation. *)

(** How a step ends: with the component, with a violated expectation or with a fault of the component. *)
Inductive verdict (T : Type) : Type :=
  | Passed (t : T)
  | Violation (what : string)
  | Faulted (f : fault).
Arguments Passed {T} t.
Arguments Violation {T} what.
Arguments Faulted {T} f.

(** An action whose result is not examined. *)
Definition acted {T} (m : res T) : verdict T := match m with Ok t => Passed t | Err f => Faulted f end.

(** [if (violated) throw ...ExpectationViolation(what)] *)
Definition expect {T} (met : bool) (what : () -> string) (t : T) : verdict T := if met then Passed t else Violation (what ()).

Class TestStep (T Step : Type) := {
  execute_step : Step -> T -> verdict T;
  step_string : Step -> string
}.

Record harness (T : Type) := mk_harness { subject : T; steps_executed : list string }.
Arguments mk_harness {T} subject steps_executed.
Arguments subject {T} h.
Arguments steps_executed {T} h.

(** What a harness prints about a failed step. *)
Definition failure_report (label step what : string) (executed : list string) : bytes :=
  text ("Test Failure on expectation:" +:+ new_line +:+ tab +:+ step) ++
  text (new_line +:+ new_line +:+ label +:+ new_line +:+ tab +:+ what) ++
  text (new_line +:+ new_line +:+ "List of steps that executed successfully:") ++
  concat (map (fun s => text (new_line +:+ tab +:+ s)) executed) ++ Webget.newline ++ Webget.newline.

(** The catch blocks of [execute]: the label and the exception thrown on, for a violated
    expectation ([e.what()] given) and for any other exception; [None] where none is caught. *)
Record handlers := mk_handlers {
  on_violation : string -> string;
  on_exception : option (string * string)
}.

(** [void execute(const TestStep &step)] of the harnesses *)
Definition execute {T Step} `{TestStep T Step} (hs : handlers) (step : Step) (h : harness T) : printed (harness T) :=
  match execute_step step (subject h) with
  | Passed t => (Ok (mk_harness t (push_back (steps_executed h) (step_string step))), [])
  | Violation what =>
      (throw (on_violation hs what), failure_report "Failure message:" (step_string step) what (steps_executed h))
  | Faulted (Exception what) =>
      match on_exception hs with
      | Some (label, thrown) => (throw thrown, failure_report label (step_string step) what (steps_executed h))
      | None => (throw what, [])
      end
  | Faulted f => (Err f, [])
  end.

(** The calls of [execute] in one block, one after the other. *)
Fixpoint execute_all {T Step} `{TestStep T Step} (hs : handlers) (steps : list Step) (h : harness T) : printed (harness T) :=
  match steps with
  | [] => mret h
  | step :: steps' => h ← execute hs step h; execute_all hs steps' h
  end.

(** A block that makes a harness and executes its steps. *)
Definition block {T Step} `{TestStep T Step} (hs : handlers) (h : harness T) (steps : list Step) : printed () :=
  _ ← execute_all hs steps h; mret ().

Definition quoted (s : string) : string := String (Ascii.ascii_of_nat 34) (s +:+ String (Ascii.ascii_of_nat 34) EmptyString).
Definition string_of (d : bytes) : string := String.string_of_list_byte d.

(** ** Facts *)

Lemma length_generate_string n f g : length (generate_string n f g).1 = n.
Proof.
  revert g. induction n as [|n IH]; intros g; [done|]. cbn [generate_string]. destruct (mt19937.next g) as [r g1].
  specialize (IH g1). destruct (generate_string n f g1). simpl in *. by f_equal.
Qed.

Lemma printed_bind_Ok {A B} (m : printed A) (k : A -> printed B) a : m = (Ok a, []) -> (m ≫= k) = k a.
Proof. intros ->. unfold mbind, printed_bind. by destruct (k a). Qed.

Lemma test_main_bind {A} (m : printed A) (k : A -> printed ()) a r :
  m = (Ok a, []) -> test_main (k a) = r -> test_main (m ≫= k) = r.
Proof. intros E <-. f_equal. by apply printed_bind_Ok. Qed.

Lemma for_printed_from_inv {S} (I : Z -> S -> Prop) body n i s :
  I i s ->
  (forall j s, i <= j < i + Z.of_nat n -> I j s -> exists s', body j s = (Ok s', []) /\ I (j + 1) s') ->
  exists s', for_printed_from n i body s = (Ok s', []) /\ I (i + Z.of_nat n) s'.
Proof.
  revert i s. induction n as [|n IH]; intros i s Hi Hb; cbn [for_printed_from]; [exists s; by rewrite Z.add_0_r|].
  destruct (Hb i s) as (s1 & E1 & H1); [lia|done|]. rewrite (printed_bind_Ok _ _ _ E1).
  destruct (IH (i + 1) s1 H1) as (s2 & E2 & H2); [intros j s' Hj; apply Hb; lia|].
  exists s2. split; [done|]. by replace (i + Z.of_nat (Datatypes.S n)) with (i + 1 + Z.of_nat n) by lia.
Qed.

(** The invariant rule for a loop that prints nothing. *)
Lemma for_printed_inv {S} (I : Z -> S -> Prop) body n s :
  0 <= n -> I 0 s ->
  (forall j s, 0 <= j < n -> I j s -> exists s', body j s = (Ok s', []) /\ I (j + 1) s') ->
  exists s', for_printed n body s = (Ok s', []) /\ I n s'.
Proof.
  intros Hn H0 Hb. destruct (for_printed_from_inv I body (Z.to_nat n) 0 s H0) as (s' & E & H).
  - intros j s1 Hj. apply Hb. lia.
  - exists s'. split; [done|]. by replace n with (0 + Z.of_nat (Z.to_nat n)) by lia.
Qed.

(** The component after several steps. *)
Fixpoint run_steps {T Step} `{TestStep T Step} (steps : list Step) (t : T) : verdict T :=
  match steps with
  | [] => Passed t
  | step :: steps' =>
      match execute_step step t with Passed t1 => run_steps steps' t1 | v => v end
  end.

(** Steps that only look at the component. *)
Lemma run_steps_same {T Step} `{TestStep T Step} (steps : list Step) t :
  Forall (fun step => execute_step step t = Passed t) steps -> run_steps steps t = Passed t.
Proof. induction 1 as [|step steps E _ IH]; [done|]. cbn [run_steps]. by rewrite E. Qed.

Lemma execute_all_passes {T Step} `{TestStep T Step} hs (steps : list Step) h t' :
  run_steps steps (subject h) = Passed t' -> exists log, execute_all hs steps h = (Ok (mk_harness t' log), []).
Proof.
  revert h. induction steps as [|step steps IH]; intros [t log]; cbn [run_steps execute_all subject].
  - intros [= ->]. by exists log.
  - destruct (execute_step step t) as [t1| |] eqn:E; [|done..]. intros Hp. destruct (IH (mk_harness t1 (push_back log (step_string step))) Hp) as [log' E'].
    exists log'. rewrite (printed_bind_Ok _ _ (mk_harness t1 (push_back log (step_string step)))); [done|].
    unfold execute. cbn [subject]. by rewrite E.
Qed.

(** A loop over a range whose body never fails. *)
Lemma for_each_inv {A S} (I : list A -> S -> Prop) (body : A -> S -> res S) l : forall done s,
  I done s ->
  (forall x done s, x ∈ l -> I done s -> exists s', body x s = Ok s' /\ I (done ++ [x]) s') ->
  exists s', for_each body l s = Ok s' /\ I (done ++ l) s'.
Proof.
  induction l as [|x l IH]; intros done s Hi Hb; cbn [for_each].
  - exists s. by rewrite app_nil_r.
  - destruct (Hb x done s) as (s1 & E1 & H1); [left|done|]. rewrite E1. cbn [mbind res_bind].
    destruct (IH (done ++ [x]) s1 H1) as (s2 & E2 & H2); [intros; apply Hb; [by right|done]|].
    exists s2. split; [done|]. by rewrite <- app_assoc in H2.
Qed.

(** ** Executable parameters *)

Module Sample.

(** Random insertion. *)
Fixpoint shuffled {A} (l : list A) (g : engine) : list A * engine :=
  match l with
  | [] => ([], g)
  | x :: l' =>
      let '(l1, g) := shuffled l' g in let '(r, g) := mt19937.next g in
      let i := Z.to_nat (r mod (zlen l1 + 1)) in (take i l1 ++ x :: drop i l1, g)
  end.

Lemma shuffled_permutes {A} (l : list A) g : Permutation (shuffled l g).1 l.
Proof.
  induction l as [|x l IH]; [done|]. cbn [shuffled]. destruct (shuffled l g) as [l1 g1]. simpl in IH.
  destruct (mt19937.next g1) as [r g2]. simpl. rewrite <- Permutation_middle, take_drop. by constructor.
Qed.

Definition shuffle : Shuffle := {| shuffle := @shuffled; shuffle_permutes := @shuffled_permutes |}.

(** Three numbers of the generator, reduced to the interval. *)
Definition uniform (a b : Z) (g : engine) : Z * engine :=
  let '(r1, g) := mt19937.next g in let '(r2, g) := mt19937.next g in let '(r3, g) := mt19937.next g in
  (a + (r1 + 2 ^ 32 * (r2 + 2 ^ 32 * r3)) mod (b - a + 1), g).

Lemma uniform_range a b g : a <= b -> a <= (uniform a b g).1 <= b.
Proof.
  intros H. unfold uniform. destruct (mt19937.next g) as [r1 g1], (mt19937.next g1) as [r2 g2], (mt19937.next g2) as [r3 g3].
  cbn [fst]. pose proof (Z.mod_pos_bound (r1 + 2 ^ 32 * (r2 + 2 ^ 32 * r3)) (b - a + 1)). lia.
Qed.

Definition uniform_int : UniformInt := {| uniform_int := uniform; uniform_int_range := uniform_range |}.

End Sample.
