(* ===== verification/WrappingTests.v ===== *)
(** * The tests of the sequence numbers (tests/wrapping_integers_*.cc)

    The four programs, over the model of [WrappingInt32].  Two are fixed lists of checks and run
    here.  Two draw random numbers: [wrapping_integers_cmp] passes whatever is drawn;
    [wrapping_integers_roundtrip] draws checkpoints at which its own expectation cannot be met,
    and passes exactly when it draws none of them. *)

From stdpp Require Import pretty.
From S2P Require Import Prelude WrappingIntegers Random Webget TestSupport.

Module WrappingTests.

Import WrappingInt32.

Definition UINT32_MAX : Z := 2 ^ 32 - 1.
Definition INT32_MAX : Z := 2 ^ 31 - 1.
Abbreviation plain := (fun what : string => what).

(** ** wrapping_integers_wrap.cc *)

Definition wrap_main : printed Z := run_main 1 plain (quiet (
  _ ← test_should_be (wrap (3 * Z.shiftl 1 32) (mk 0)) (mk 0) "wrap(3 * (1ll << 32), WrappingInt32(0))" "WrappingInt32(0)" 15;
  _ ← test_should_be (wrap (3 * Z.shiftl 1 32 + 17) (mk 15)) (mk 32) "wrap(3 * (1ll << 32) + 17, WrappingInt32(15))" "WrappingInt32(32)" 16;
  test_should_be (wrap (7 * Z.shiftl 1 32 - 2) (mk 15)) (mk 13) "wrap(7 * (1ll << 32) - 2, WrappingInt32(15))" "WrappingInt32(13)" 17)).

Example wrap_test_passes : wrap_main = (Ok EXIT_SUCCESS, []).
Proof. by vm_compute. Qed.

(** ** wrapping_integers_unwrap.cc *)

Definition unwrap_main : printed Z := run_main 1 plain (quiet (
  _ ← test_should_be (unwrap (mk 1) (mk 0) 0) 1 "unwrap(WrappingInt32(1), WrappingInt32(0), 0)" "1ul" 15;
  _ ← test_should_be (unwrap (mk 1) (mk 0) UINT32_MAX) (Z.shiftl 1 32 + 1) "unwrap(WrappingInt32(1), WrappingInt32(0), UINT32_MAX)" "(1ul << 32) + 1" 17;
  _ ← test_should_be (unwrap (mk (UINT32_MAX - 1)) (mk 0) (3 * Z.shiftl 1 32)) (3 * Z.shiftl 1 32 - 2)
        "unwrap(WrappingInt32(UINT32_MAX - 1), WrappingInt32(0), 3 * (1ul << 32))" "3 * (1ul << 32) - 2" 19;
  _ ← test_should_be (unwrap (mk (UINT32_MAX - 10)) (mk 0) (3 * Z.shiftl 1 32)) (3 * Z.shiftl 1 32 - 11)
        "unwrap(WrappingInt32(UINT32_MAX - 10), WrappingInt32(0), 3 * (1ul << 32))" "3 * (1ul << 32) - 11" 21;
  _ ← test_should_be (unwrap (mk UINT32_MAX) (mk 10) (3 * Z.shiftl 1 32)) (3 * Z.shiftl 1 32 - 11)
        "unwrap(WrappingInt32(UINT32_MAX), WrappingInt32(10), 3 * (1ul << 32))" "3 * (1ul << 32) - 11" 23;
  _ ← test_should_be (unwrap (mk UINT32_MAX) (mk 0) 0) UINT32_MAX
        "unwrap(WrappingInt32(UINT32_MAX), WrappingInt32(0), 0)" "static_cast<uint64_t>(UINT32_MAX)" 25;
  _ ← test_should_be (unwrap (mk 16) (mk 16) 0) 0 "unwrap(WrappingInt32(16), WrappingInt32(16), 0)" "0ul" 27;
  _ ← test_should_be (unwrap (mk 15) (mk 16) 0) UINT32_MAX
        "unwrap(WrappingInt32(15), WrappingInt32(16), 0)" "static_cast<uint64_t>(UINT32_MAX)" 30;
  _ ← test_should_be (unwrap (mk 0) (mk INT32_MAX) 0) (INT32_MAX + 2)
        "unwrap(WrappingInt32(0), WrappingInt32(INT32_MAX), 0)" "static_cast<uint64_t>(INT32_MAX) + 2" 32;
  _ ← test_should_be (unwrap (mk UINT32_MAX) (mk INT32_MAX) 0) (Z.shiftl 1 31)
        "unwrap(WrappingInt32(UINT32_MAX), WrappingInt32(INT32_MAX), 0)" "static_cast<uint64_t>(1) << 31" 34;
  test_should_be (unwrap (mk UINT32_MAX) (mk (Z.shiftl 1 31)) 0) (Z.shiftr UINT32_MAX 1)
        "unwrap(WrappingInt32(UINT32_MAX), WrappingInt32(1ul << 31), 0)" "static_cast<uint64_t>(UINT32_MAX) >> 1" 36)).

Example unwrap_test_passes : unwrap_main = (Ok EXIT_SUCCESS, []).
Proof. by vm_compute. Qed.

Section Randomized.
Context {K : Type} `{RandomDevice K}.

(** ** wrapping_integers_cmp.cc *)

Definition cmp_N_REPS : Z := 4096.

Definition cmp_iteration (i : Z) (g : engine) : res engine :=
  let '(r, g) := mt19937.next g in
  let n := to_u32 r in
  let '(r, g) := mt19937.next g in
  let diff := to_u8 r in
  let m := to_u32 (n + diff) in
  _ ← test_should_be (eqb (mk n) (mk m)) (bool_decide (n = m)) "WrappingInt32(n) == WrappingInt32(m)" "n == m" 27;
  _ ← test_should_be (neqb (mk n) (mk m)) (bool_decide (n <> m)) "WrappingInt32(n) != WrappingInt32(m)" "n != m" 28;
  Ok g.

Definition cmp_main (k : K) : printed Z := run_main 1 plain (quiet (
  _ ← test_should_be (neqb (mk 3) (mk 1)) true "WrappingInt32(3) != WrappingInt32(1)" "true" 16;
  _ ← test_should_be (eqb (mk 3) (mk 1)) false "WrappingInt32(3) == WrappingInt32(1)" "false" 17;
  let '(rd, _) := get_random_generator k in
  _ ← for_loop cmp_N_REPS cmp_iteration rd; Ok ())).

(** Whatever is drawn, the comparisons are right. *)
Lemma cmp_test_passes k : cmp_main k = (Ok EXIT_SUCCESS, []).
Proof.
  unfold cmp_main. cbn -[get_random_generator for_loop]. destruct (get_random_generator k) as [rd k'].
  destruct (for_loop_inv (fun _ _ => True) cmp_iteration cmp_N_REPS rd) as (g & -> & _); [done|done| |done].
  intros j g _ _. unfold cmp_iteration. destruct (mt19937.next g) as [r1 g1], (mt19937.next g1) as [r2 g2].
  exists g2. split; [|done]. unfold neqb, eqb, test_should_be, same. cbn [raw_value bool_value].
  rewrite Bool.eqb_reflx. cbn [mbind res_bind]. rewrite bool_decide_not. by rewrite Bool.eqb_reflx.
Qed.

(** ** wrapping_integers_roundtrip.cc *)

Definition check_roundtrip (isn : WrappingInt32) (value checkpoint : Z) : res () :=
  if decide (unwrap (wrap value isn) isn checkpoint <> value)
  then throw ("Expected unwrap(wrap()) to recover same value, and it didn't!" +:+ new_line
    +:+ "  unwrap(wrap(value, isn), isn, checkpoint) did not equal value" +:+ new_line
    +:+ "  where value = " +:+ pretty value +:+ ", isn = " +:+ pretty (raw_value isn)
    +:+ ", and checkpoint = " +:+ pretty checkpoint +:+ new_line
    +:+ "  (Difference between value and checkpoint is " +:+ pretty (to_u64 (value - checkpoint)) +:+ ".)" +:+ new_line)
  else Ok ().

Context `{UniformInt}.

Definition dist31minus1 (g : engine) : Z * engine := uniform_int 0 (Z.shiftl 1 31 - 1) g.
Definition dist32 (g : engine) : Z * engine := uniform_int 0 UINT32_MAX g.
Definition dist63 (g : engine) : Z * engine := uniform_int 0 (Z.shiftl 1 63) g.

Definition big_offset : Z := Z.shiftl 1 31 - 1.
Definition roundtrip_iterations : Z := 1000000.

Definition roundtrip_iteration (i : Z) (g : engine) : res engine :=
  let '(isn, g) := dist32 g in
  let isn := mk isn in
  let '(val, g) := dist63 g in
  let '(offset, g) := dist31minus1 g in
  _ ← check_roundtrip isn val val;
  _ ← check_roundtrip isn (to_u64 (val + 1)) val;
  _ ← check_roundtrip isn (to_u64 (val - 1)) val;
  _ ← check_roundtrip isn (to_u64 (val + offset)) val;
  _ ← check_roundtrip isn (to_u64 (val - offset)) val;
  _ ← check_roundtrip isn (to_u64 (val + big_offset)) val;
  _ ← check_roundtrip isn (to_u64 (val - big_offset)) val;
  Ok g.

Definition roundtrip_main (k : K) : printed Z := run_main 1 plain (quiet (
  let '(rd, _) := get_random_generator k in
  _ ← for_loop roundtrip_iterations roundtrip_iteration rd; Ok ())).

(** ** When the round trip succeeds *)

(** The checkpoints around which every position that the test asks for is one [unwrap] can return. *)
Definition good_checkpoint (val : Z) : Prop := 2 ^ 31 - 1 <= val <= 2 ^ 63 - 2 ^ 31.

(** The checkpoints that [n] iterations draw, if none of them fails. *)
Fixpoint checkpoints (n : nat) (g : engine) : list Z :=
  match n with
  | O => []
  | S n' =>
      let '(_, g) := dist32 g in let '(val, g) := dist63 g in let '(_, g) := dist31minus1 g in
      val :: checkpoints n' g
  end.

(** Below zero and from 2^63 on, the position comes back as another one. *)
Lemma unwrap_displaced isn cp x :
  0 <= cp <= 2 ^ 63 -> - 2 ^ 31 < x - cp < 2 ^ 31 -> (unwrap (wrap (to_u64 x) isn) isn cp = to_u64 x <-> 0 <= x < 2 ^ 63).
Proof.
  intros Hcp Hd. unfold unwrap. rewrite offset_wrap. change (Z.shiftl 1 32) with (2 ^ 32).
  replace (to_i32 (to_u64 x - cp)) with (x - cp) by width_lia. cbv zeta.
  replace (to_u64 (cp + to_u64 (x - cp))) with (to_u64 x) by width_lia. case_decide; width_lia.
Qed.

Lemma check_roundtrip_passes isn cp x :
  0 <= cp <= 2 ^ 63 -> - 2 ^ 31 < x - cp < 2 ^ 31 ->
  if decide (0 <= x < 2 ^ 63) then check_roundtrip isn (to_u64 x) cp = Ok ()
  else exists what, check_roundtrip isn (to_u64 x) cp = throw what.
Proof.
  intros Hcp Hd. pose proof (unwrap_displaced isn cp x Hcp Hd) as Hu. unfold check_roundtrip.
  destruct (decide (0 <= x < 2 ^ 63)) as [Hx|Hx]; case_decide; try done; [tauto|by eexists|tauto].
Qed.

(** One iteration passes exactly for the good checkpoints. *)
Lemma iteration_passes i g :
  let '(_, g1) := dist32 g in let '(val, g2) := dist63 g1 in let '(_, g3) := dist31minus1 g2 in
  (good_checkpoint val /\ roundtrip_iteration i g = Ok g3) \/
  (~ good_checkpoint val /\ exists what, roundtrip_iteration i g = throw what).
Proof.
  unfold roundtrip_iteration. destruct (dist32 g) as [isn g1].
  pose proof (uniform_int_range 0 (Z.shiftl 1 63) g1 ltac:(done)) as Hval. unfold dist63. destruct (uniform_int 0 (Z.shiftl 1 63) g1) as [val g2].
  pose proof (uniform_int_range 0 (Z.shiftl 1 31 - 1) g2 ltac:(done)) as Hoff. unfold dist31minus1.
  destruct (uniform_int 0 (Z.shiftl 1 31 - 1) g2) as [offset g3]. cbn [fst] in *. unfold big_offset.
  change (Z.shiftl 1 63) with (2 ^ 63) in *. change (Z.shiftl 1 31 - 1) with (2 ^ 31 - 1) in *.
  assert (Hv : check_roundtrip (mk isn) val val = check_roundtrip (mk isn) (to_u64 val) val).
  { rewrite to_u64_small; [done|]. clear - Hval. width_lia. }
  rewrite Hv. clear Hv. unfold good_checkpoint.
  repeat match goal with
  | |- context [check_roundtrip (mk isn) (to_u64 ?x) val] =>
      pose proof (check_roundtrip_passes (mk isn) val x Hval ltac:(lia)) as Hc;
      destruct (decide (0 <= x < 2 ^ 63)); [rewrite Hc; clear Hc|
        destruct Hc as [what Hc]; rewrite Hc; right; split; [lia|by exists what]]; cbn [mbind res_bind]
  end.
  left. split; [lia|done].
Qed.

Lemma iterations_pass n i g :
  (Forall good_checkpoint (checkpoints n g) /\ exists g', for_from n i roundtrip_iteration g = Ok g') \/
  (~ Forall good_checkpoint (checkpoints n g) /\ exists what, for_from n i roundtrip_iteration g = throw what).
Proof.
  revert i g. induction n as [|n IH]; intros i g; cbn [checkpoints for_from]; [left; split; [constructor|by exists g]|].
  pose proof (iteration_passes i g) as Hi. destruct (dist32 g) as [x g1], (dist63 g1) as [val g2], (dist31minus1 g2) as [y g3].
  destruct Hi as [[Hg ->]|[Hg [what ->]]]; cbn [mbind res_bind].
  - destruct (IH (i + 1) g3) as [[Hs [g' E]]|[Hs [what E]]]; rewrite E; [left|right].
    + split; [by constructor|by exists g'].
    + split; [by intros [_ ?]%Forall_cons|by exists what].
  - right. split; [by intros [? _]%Forall_cons|by exists what].
Qed.
End Randomized.

(** [wrapping_integers_roundtrip] never faults, and it passes exactly when each of the
    million checkpoints it draws from [0, 2^63] is at least 2^31 - 1 and at most 2^63 - 2^31.
    Otherwise it reports a failure: below, the position [val - big_offset] that it asks for is
    negative and wraps, and no [unwrap] that returns the closest position can give it back. *)
Lemma roundtrip_test_verdict {K} `{RandomDevice K} `{UniformInt} (k : K) :
  let drawn := checkpoints (Z.to_nat roundtrip_iterations) (get_random_generator k).1 in
  (Forall good_checkpoint drawn /\ roundtrip_main k = (Ok EXIT_SUCCESS, [])) \/
  (~ Forall good_checkpoint drawn /\ exists message, roundtrip_main k = (Ok 1, message)).
Proof.
  unfold roundtrip_main. destruct (get_random_generator k) as [rd k']. cbn [fst]. unfold for_loop.
  destruct (iterations_pass (Z.to_nat roundtrip_iterations) 0 rd) as [[Hg [g ->]]|[Hg [what ->]]]; [left|right].
  - by split.
  - split; [done|]. by eexists.
Qed.

(** A distribution that returns the lower bound: the first checkpoint is zero. *)
Lemma lowest_range a b (g : engine) : a <= b -> a <= (a, g).1 <= b.
Proof. simpl. lia. Qed.
Definition lowest : UniformInt := {| uniform_int a _ g := (a, g); uniform_int_range := lowest_range |}.

Lemma lowest_fails n g : ~ Forall good_checkpoint (@checkpoints lowest (S n) g).
Proof. intros [[Hv _] _]%Forall_cons. simpl in Hv. lia. Qed.

Lemma roundtrip_iterations_succ : exists n, Z.to_nat roundtrip_iterations = S n.
Proof. exists (Z.to_nat (Z.pred roundtrip_iterations)). rewrite <- Z2Nat.inj_succ by done. by rewrite Z.succ_pred. Qed.

(** So the program can fail. *)
Lemma roundtrip_test_fails : exists message, @roundtrip_main Z counting lowest 0 = (Ok 1, message).
Proof.
  destruct (@roundtrip_test_verdict Z counting lowest 0) as [[Hg _]|[_ Hm]]; [|exact Hm].
  destruct roundtrip_iterations_succ as [n En]. rewrite En in Hg. exfalso. exact (lowest_fails n _ Hg).
Qed.

End WrappingTests.
