(* ===== verification/ByteStreamTests.v ===== *)
(** * The tests of the byte stream (tests/byte_stream_*.cc)

    The harness of byte_stream_test_harness.hh/.cc with its steps, and the five programs.  Three
    are fixed sequences of steps and run here; [capacity_main] ends with a long loop and
    [many_writes_main] draws what it writes, so these are proved to pass. *)

From stdpp Require Import pretty.
From S2P Require Import Prelude ByteStream Random Webget TestSupport.

Module ByteStreamTests.

(** ** byte_stream_test_harness.cc *)

Inductive ByteStreamTestStep : Set :=
  | EndInput
  | Write (_data : bytes) (_bytes_written : option Z)
  | Pop (_len : Z)
  | InputEnded (_input_ended : bool)
  | BufferEmpty (_buffer_empty : bool)
  | Eof (_eof : bool)
  | BufferSize (_buffer_size : Z)
  | RemainingCapacity (_remaining_capacity : Z)
  | BytesWritten (_bytes_written : Z)
  | BytesRead (_bytes_read : Z)
  | Peek (_output : bytes).

(** [ByteStreamExpectationViolation::property] *)
Definition property (property_name expected actual : string) : string :=
  "The ByteStream should have had " +:+ property_name +:+ " equal to " +:+ expected +:+ " but instead it was " +:+ actual.

Definition expect_bool (name : string) (expected actual : bool) (bs : ByteStream.ByteStream) : verdict ByteStream.ByteStream :=
  expect (Bool.eqb actual expected) (fun _ => property name (pretty (Z.b2z expected)) (pretty (Z.b2z actual))) bs.
Definition expect_size (name : string) (expected actual : Z) (bs : ByteStream.ByteStream) : verdict ByteStream.ByteStream :=
  expect (bool_decide (actual = expected)) (fun _ => property name (pretty expected) (pretty actual)) bs.

(** [virtual void execute(ByteStream &) const] of the steps *)
Definition execute_bytestream (step : ByteStreamTestStep) (bs : ByteStream.ByteStream) : verdict ByteStream.ByteStream :=
  match step with
  | EndInput => Passed (ByteStream.end_input bs)
  | Write data expected =>
      match ByteStream.write data bs with
      | Err f => Faulted f
      | Ok (bytes_written, bs) =>
          match expected with
          | Some n => expect_size "bytes_written" n bytes_written bs
          | None => Passed bs
          end
      end
  | Pop len => acted (ByteStream.pop_output len bs)
  | InputEnded b => expect_bool "input_ended" b (ByteStream.input_ended bs) bs
  | BufferEmpty b => expect_bool "buffer_empty" b (ByteStream.buffer_empty bs) bs
  | Eof b => expect_bool "eof" b (ByteStream.eof bs) bs
  | BufferSize n => expect_size "buffer_size" n (ByteStream.buffer_size bs) bs
  | RemainingCapacity n => expect_size "remaining_capacity" n (ByteStream.remaining_capacity bs) bs
  | BytesWritten n => expect_size "bytes_written" n (ByteStream.bytes_written bs) bs
  | BytesRead n => expect_size "bytes_read" n (ByteStream.bytes_read bs) bs
  | Peek output =>
      match ByteStream.peek_output (zlen output) bs with
      | Err f => Faulted f
      | Ok found =>
          expect (bool_decide (found = output))
            (fun _ => "Expected " +:+ quoted (string_of output) +:+ " at the front of the stream, but found " +:+ quoted (string_of found)) bs
      end
  end.

(** [operator std::string() const] of the steps, with their descriptions *)
Definition bytestream_step_string (step : ByteStreamTestStep) : string :=
  match step with
  | EndInput => "     Action: end input"
  | Write data _ => "     Action: write " +:+ quoted (string_of data) +:+ " to the stream"
  | Pop len => "     Action: pop " +:+ pretty len
  | InputEnded b => "Expectation: input_ended: " +:+ pretty (Z.b2z b)
  | BufferEmpty b => "Expectation: buffer_empty: " +:+ pretty (Z.b2z b)
  | Eof b => "Expectation: eof: " +:+ pretty (Z.b2z b)
  | BufferSize n => "Expectation: buffer_size: " +:+ pretty n
  | RemainingCapacity n => "Expectation: remaining_capacity: " +:+ pretty n
  | BytesWritten n => "Expectation: bytes_written: " +:+ pretty n
  | BytesRead n => "Expectation: bytes_read: " +:+ pretty n
  | Peek output => "Expectation: " +:+ quoted (string_of output) +:+ " at the front of the stream"
  end.

#[export] Instance bytestream_steps : TestStep ByteStream.ByteStream ByteStreamTestStep :=
  {| execute_step := execute_bytestream; step_string := bytestream_step_string |}.

(** [ByteStreamTestHarness(const std::string &test_name, const size_t capacity)] *)
Definition ByteStreamTestHarness (capacity : Z) : harness ByteStream.ByteStream :=
  mk_harness (ByteStream.construct capacity) ["Initialized with (capacity=" +:+ pretty capacity +:+ ")"].

(** The catch blocks of [ByteStreamTestHarness::execute] *)
Definition bytestream_handlers (test_name : string) : handlers :=
  mk_handlers (fun _ => "The test " +:+ quoted test_name +:+ " failed")
    (Some ("Exception:", "The test " +:+ quoted test_name +:+ " caused your implementation to throw an exception!")).

Abbreviation test name capacity steps := (block (bytestream_handlers name) (ByteStreamTestHarness capacity) steps).

(** ** byte_stream_construction.cc *)

Definition construction_main : printed Z := test_main (
  _ ← test "construction" 15 [
    InputEnded false; BufferEmpty true; Eof false; BytesRead 0; BytesWritten 0; RemainingCapacity 15; BufferSize 0];
  test "construction-end" 15 [
    EndInput; InputEnded true; BufferEmpty true; Eof true; BytesRead 0; BytesWritten 0; RemainingCapacity 15;
    BufferSize 0]).

Example construction_passes : construction_main = (Ok EXIT_SUCCESS, []).
Proof. by vm_compute. Qed.

(** ** byte_stream_one_write.cc *)

Definition one_write_main : printed Z := test_main (
  _ ← test "write-end-pop" 15 [
    Write (text "cat") None; InputEnded false; BufferEmpty false; Eof false; BytesRead 0; BytesWritten 3;
    RemainingCapacity 12; BufferSize 3; Peek (text "cat"); EndInput; InputEnded true; BufferEmpty false; Eof false;
    BytesRead 0; BytesWritten 3; RemainingCapacity 12; BufferSize 3; Peek (text "cat"); Pop 3; InputEnded true;
    BufferEmpty true; Eof true; BytesRead 3; BytesWritten 3; RemainingCapacity 15; BufferSize 0];
  _ ← test "write-pop-end" 15 [
    Write (text "cat") None; InputEnded false; BufferEmpty false; Eof false; BytesRead 0; BytesWritten 3;
    RemainingCapacity 12; BufferSize 3; Peek (text "cat"); Pop 3; InputEnded false; BufferEmpty true; Eof false;
    BytesRead 3; BytesWritten 3; RemainingCapacity 15; BufferSize 0; EndInput; InputEnded true; BufferEmpty true;
    Eof true; BytesRead 3; BytesWritten 3; RemainingCapacity 15; BufferSize 0];
  test "write-pop2-end" 15 [
    Write (text "cat") None; InputEnded false; BufferEmpty false; Eof false; BytesRead 0; BytesWritten 3;
    RemainingCapacity 12; BufferSize 3; Peek (text "cat"); Pop 1; InputEnded false; BufferEmpty false; Eof false;
    BytesRead 1; BytesWritten 3; RemainingCapacity 13; BufferSize 2; Peek (text "at"); Pop 2; InputEnded false;
    BufferEmpty true; Eof false; BytesRead 3; BytesWritten 3; RemainingCapacity 15; BufferSize 0; EndInput;
    InputEnded true; BufferEmpty true; Eof true; BytesRead 3; BytesWritten 3; RemainingCapacity 15; BufferSize 0]).

Example one_write_passes : one_write_main = (Ok EXIT_SUCCESS, []).
Proof. by vm_compute. Qed.

(** ** byte_stream_two_writes.cc *)

Definition two_writes_main : printed Z := test_main (
  _ ← test "write-write-end-pop-pop" 15 [
    Write (text "cat") None; InputEnded false; BufferEmpty false; Eof false; BytesRead 0; BytesWritten 3;
    RemainingCapacity 12; BufferSize 3; Peek (text "cat"); Write (text "tac") None; InputEnded false;
    BufferEmpty false; Eof false; BytesRead 0; BytesWritten 6; RemainingCapacity 9; BufferSize 6;
    Peek (text "cattac"); EndInput; InputEnded true; BufferEmpty false; Eof false; BytesRead 0; BytesWritten 6;
    RemainingCapacity 9; BufferSize 6; Peek (text "cattac"); Pop 2; InputEnded true; BufferEmpty false; Eof false;
    BytesRead 2; BytesWritten 6; RemainingCapacity 11; BufferSize 4; Peek (text "ttac"); Pop 4; InputEnded true;
    BufferEmpty true; Eof true; BytesRead 6; BytesWritten 6; RemainingCapacity 15; BufferSize 0];
  test "write-pop-write-end-pop" 15 [
    Write (text "cat") None; InputEnded false; BufferEmpty false; Eof false; BytesRead 0; BytesWritten 3;
    RemainingCapacity 12; BufferSize 3; Peek (text "cat"); Pop 2; InputEnded false; BufferEmpty false; Eof false;
    BytesRead 2; BytesWritten 3; RemainingCapacity 14; BufferSize 1; Peek (text "t"); Write (text "tac") None;
    InputEnded false; BufferEmpty false; Eof false; BytesRead 2; BytesWritten 6; RemainingCapacity 11; BufferSize 4;
    Peek (text "ttac"); EndInput; InputEnded true; BufferEmpty false; Eof false; BytesRead 2; BytesWritten 6;
    RemainingCapacity 11; BufferSize 4; Peek (text "ttac"); Pop 4; InputEnded true; BufferEmpty true; Eof true;
    BytesRead 6; BytesWritten 6; RemainingCapacity 15; BufferSize 0]).

Example two_writes_passes : two_writes_main = (Ok EXIT_SUCCESS, []).
Proof. by vm_compute. Qed.

(** ** byte_stream_capacity.cc *)

(** The body of the loop of the last block. *)
Definition long_stream_steps : list ByteStreamTestStep := [
    RemainingCapacity 1; BufferSize 2; Write (text "abc") (Some 1); RemainingCapacity 0; Peek (text "bca"); Pop 1;
    RemainingCapacity 1; BufferSize 2; Write (text "bca") (Some 1); RemainingCapacity 0; Peek (text "cab"); Pop 1;
    RemainingCapacity 1; BufferSize 2; Write (text "cab") (Some 1); RemainingCapacity 0; Peek (text "abc"); Pop 1].

Definition long_stream : printed () :=
  let hs := bytestream_handlers "long-stream" in
  h ← execute_all hs [Write (text "abcdef") (Some 3); Peek (text "abc"); Pop 1] (ByteStreamTestHarness 3);
  h ← for_printed 99997 (fun _ h => execute_all hs long_stream_steps h) h;
  _ ← execute_all hs [EndInput; Peek (text "bc"); Pop 2; Eof true] h;
  mret ().

Definition capacity_main : printed Z := test_main (
  _ ← test "overwrite" 2 [
    Write (text "cat") (Some 2); InputEnded false; BufferEmpty false; Eof false; BytesRead 0; BytesWritten 2;
    RemainingCapacity 0; BufferSize 2; Peek (text "ca"); Write (text "t") (Some 0); InputEnded false;
    BufferEmpty false; Eof false; BytesRead 0; BytesWritten 2; RemainingCapacity 0; BufferSize 2; Peek (text "ca")];
  _ ← test "overwrite-clear-overwrite" 2 [
    Write (text "cat") (Some 2); Pop 2; Write (text "tac") (Some 2); InputEnded false; BufferEmpty false; Eof false;
    BytesRead 2; BytesWritten 4; RemainingCapacity 0; BufferSize 2; Peek (text "ta")];
  _ ← test "overwrite-pop-overwrite" 2 [
    Write (text "cat") (Some 2); Pop 1; Write (text "tac") (Some 1); InputEnded false; BufferEmpty false; Eof false;
    BytesRead 1; BytesWritten 3; RemainingCapacity 0; BufferSize 2; Peek (text "at")];
  long_stream).

(** ** byte_stream_many_writes.cc *)

Definition NREPS : Z := 1000.
Definition MIN_WRITE : Z := 10.
Definition MAX_WRITE : Z := 200.
Definition CAPACITY : Z := MAX_WRITE * NREPS.

(** One iteration: the harness, the accumulated size and the generator. *)
Definition many_writes_iteration (i : Z) (s : harness ByteStream.ByteStream * Z * engine) :
    printed (harness ByteStream.ByteStream * Z * engine) :=
  let '(h, acc, g) := s in
  let '(r, g) := mt19937.next g in
  let size := MIN_WRITE + r mod (MAX_WRITE - MIN_WRITE) in
  let '(d, g) := generate_string (Z.to_nat size) (fun r => 97 + r mod 26) g in
  let hs := bytestream_handlers "many writes" in
  h ← execute hs (Write d (Some size)) h;
  let acc := to_u64 (acc + size) in
  h ← execute_all hs [InputEnded false; BufferEmpty false; Eof false; BytesRead 0; BytesWritten acc;
        RemainingCapacity (to_u64 (CAPACITY - acc)); BufferSize acc] h;
  mret (h, acc, g).

Definition many_writes_main {K} `{RandomDevice K} (k : K) : printed Z := test_main (
  let '(rd, _) := get_random_generator k in
  _ ← for_printed NREPS many_writes_iteration (ByteStreamTestHarness CAPACITY, 0, rd);
  mret ()).

(** ** The loops pass *)

(** The stream at the head of the long loop. *)
Definition holds_bc (bs : ByteStream.ByteStream) : Prop :=
  exists w r, bs = ByteStream.mk (text "bc") 3 false false w r false.

(** Steps that lead from one content of the stream to another, whatever its counters are. *)
Definition leads (steps : list ByteStreamTestStep) (buf buf' : bytes) : Prop :=
  forall w r, exists w' r', run_steps steps (ByteStream.mk buf 3 false false w r false)
                            = Passed (ByteStream.mk buf' 3 false false w' r' false).

Lemma leads_cons step steps buf buf1 buf2 : leads [step] buf buf1 -> leads steps buf1 buf2 -> leads (step :: steps) buf buf2.
Proof.
  intros H1 H2 w r. destruct (H1 w r) as (w1 & r1 & E1). destruct (H2 w1 r1) as (w2 & r2 & E2). exists w2, r2.
  cbn [run_steps] in *. destruct (execute_step step _) as [t| |]; [|done..]. injection E1 as ->. done.
Qed.

Lemma leads_write data n buf :
  n = Z.min (to_u64 (3 - zlen buf)) (zlen data) -> leads [Write data (Some n)] buf (buf ++ take (Z.to_nat n) data).
Proof.
  intros -> w r. do 2 eexists. cbn [run_steps execute_step bytestream_steps execute_bytestream]. unfold ByteStream.write.
  cbn [ByteStream.buffer ByteStream.capacity]. pose proof (is_u64_to_u64 (3 - zlen buf)) as Hu. pose proof (zlen_nonneg data).
  rewrite ByteStream.copy_loop_eq by (unfold is_u64 in Hu; lia). cbn [mbind res_bind]. unfold expect_size, expect.
  by rewrite bool_decide_true.
Qed.

Lemma leads_pop n buf : 0 <= n <= zlen buf -> leads [Pop n] buf (drop (Z.to_nat n) buf).
Proof.
  intros Hn w r. do 2 eexists. cbn [run_steps execute_step bytestream_steps execute_bytestream]. unfold ByteStream.pop_output.
  cbn [ByteStream.buffer]. rewrite decide_False by lia. by rewrite ByteStream.pop_loop_eq by done.
Qed.

Lemma long_stream_leads : leads long_stream_steps (text "bc") (text "bc").
Proof.
  unfold long_stream_steps.
  repeat (eapply leads_cons; [first [apply leads_write; reflexivity|apply leads_pop; vm_compute; split; congruence
    |intros w r; exists w, r; vm_compute; reflexivity]|]).
  intros w r. by exists w, r.
Qed.

Lemma long_stream_step bs : holds_bc bs -> exists bs', run_steps long_stream_steps bs = Passed bs' /\ holds_bc bs'.
Proof.
  intros (w & r & ->). destruct (long_stream_leads w r) as (w' & r' & E). eexists. split; [exact E|]. by do 2 eexists.
Qed.

Lemma long_stream_end w r :
  run_steps [EndInput; Peek (text "bc"); Pop 2; Eof true] (ByteStream.mk (text "bc") 3 false false w r false)
  = Passed (ByteStream.mk [] 3 true false w (to_u64 (r + 2)) false).
Proof.
  cbn [run_steps execute_step bytestream_steps execute_bytestream]. rewrite ByteStream.peek_eq by done.
  unfold expect at 1. rewrite bool_decide_true by done. unfold ByteStream.pop_output. rewrite decide_False by done.
  by rewrite ByteStream.pop_loop_eq by done.
Qed.

#[local] Opaque for_printed.

Lemma long_stream_passes : long_stream = (Ok (), []).
Proof.
  unfold long_stream. set (hs := bytestream_handlers _). set (pre := [Write _ _; _; _]). set (post := [EndInput; _; _; _]).
  destruct (execute_all_passes hs pre (ByteStreamTestHarness 3) (ByteStream.mk (text "bc") 3 false false 3 1 false)) as [log E].
  { by vm_compute. }
  rewrite (printed_bind_Ok _ _ _ E).
  destruct (for_printed_inv (fun _ h => holds_bc (subject h)) (fun _ h => execute_all hs long_stream_steps h) 99997
    (mk_harness (ByteStream.mk (text "bc") 3 false false 3 1 false) log)) as (h & E1 & w & r & Hh); [lia|by do 2 eexists| |].
  { intros j [t l] _ Ht. destruct (long_stream_step t Ht) as (t' & Hp & Ht').
    destruct (execute_all_passes hs long_stream_steps (mk_harness t l) t' Hp) as [l' E']. by exists (mk_harness t' l'). }
  etrans; [exact (printed_bind_Ok _ _ _ E1)|].
  destruct (execute_all_passes hs post h (ByteStream.mk [] 3 true false w (to_u64 (r + 2)) false)) as [log' E2].
  { rewrite Hh. apply long_stream_end. }
  by rewrite (printed_bind_Ok _ _ _ E2).
Qed.

Lemma capacity_passes : capacity_main = (Ok EXIT_SUCCESS, []).
Proof. unfold capacity_main. rewrite long_stream_passes. by vm_compute. Qed.

(** The stream after writes of [acc] bytes. *)
Definition has_written (acc : Z) (bs : ByteStream.ByteStream) : Prop :=
  ByteStream.ok bs /\ ByteStream.capacity bs = CAPACITY /\ zlen (ByteStream.buffer bs) = acc /\
  ByteStream.written_bytes bs = acc /\ ByteStream.read_bytes bs = 0 /\ ByteStream.end_write bs = false.

Lemma many_writes_step j s :
  0 <= j < NREPS -> has_written s.1.2 (subject s.1.1) /\ 0 <= s.1.2 <= 199 * j ->
  exists s', many_writes_iteration j s = (Ok s', []) /\ has_written s'.1.2 (subject s'.1.1) /\ 0 <= s'.1.2 <= 199 * (j + 1).
Proof.
  unfold NREPS. destruct s as [[[bs log] acc] g]. cbn [fst snd subject]. intros Hj [(Hok & Hcap & Hlen & Hw & Hr & He) Hacc].
  unfold many_writes_iteration. destruct (mt19937.next g) as [r g1].
  pose proof (Z.mod_pos_bound r (MAX_WRITE - MIN_WRITE)) as Hsz. unfold MAX_WRITE, MIN_WRITE in *.
  set (size := 10 + r mod (200 - 10)) in *. assert (10 <= size <= 199) by lia.
  pose proof (length_generate_string (Z.to_nat size) (fun r => 97 + r mod 26) g1) as Hd.
  destruct (generate_string (Z.to_nat size) (fun r => 97 + r mod 26) g1) as [d g2]. cbn [fst] in Hd.
  assert (Hzd : zlen d = size) by (unfold zlen; lia). clearbody size. set (hs := bytestream_handlers _).
  assert (Hroom : ByteStream.room bs = CAPACITY - acc) by (unfold ByteStream.room; lia).
  assert (Hto : to_u64 (acc + size) = acc + size) by (apply to_u64_small; width_lia).
  set (bs1 := ByteStream.mk (ByteStream.buffer bs ++ d) CAPACITY false (ByteStream.end_read bs) (acc + size) 0 (ByteStream._error bs)).
  assert (Ew : ByteStream.write d bs = Ok (size, bs1)).
  { rewrite ByteStream.write_eq by done. rewrite Hroom, Hzd, Hcap, Hw, Hr, He.
    change CAPACITY with 200000 in *. rewrite Z.min_r by lia. rewrite Hto. unfold bs1. by rewrite take_ge by lia. }
  pose proof (ByteStream.write_ok d bs size bs1 Hok Ew) as Hok1.
  assert (Hlen1 : zlen (ByteStream.buffer bs1) = acc + size) by (simpl; size_lia).
  rewrite (printed_bind_Ok _ _ (mk_harness bs1 (push_back log (step_string (Write d (Some size)))))).
  2:{ unfold execute. cbn [subject execute_step bytestream_steps execute_bytestream]. rewrite Ew. unfold expect_size, expect.
      by rewrite bool_decide_true. }
  cbv zeta. rewrite Hto. set (steps := [InputEnded false; _; _; _; _; _; _]).
  destruct (execute_all_passes hs steps (mk_harness bs1 (push_back log (step_string (Write d (Some size))))) bs1) as [log' E].
  { assert (Hne : bool_decide (ByteStream.buffer bs1 = []) = false).
    { apply bool_decide_false. intros H0. rewrite H0, zlen_nil in Hlen1. lia. }
    assert (Hrem : ByteStream.remaining_capacity bs1 = to_u64 (CAPACITY - (acc + size))).
    { unfold ByteStream.remaining_capacity. by rewrite Hlen1. }
    assert (He1 : ByteStream.end_write bs1 = false) by done.
    assert (Hw1 : ByteStream.written_bytes bs1 = acc + size) by done.
    assert (Hr1 : ByteStream.read_bytes bs1 = 0) by done. clearbody bs1.
    apply run_steps_same. unfold steps. cbn [execute_step bytestream_steps subject].
    repeat (constructor; [cbn [execute_bytestream]|]); unfold expect_bool, expect_size, expect, ByteStream.eof, ByteStream.buffer_empty, ByteStream.buffer_size,
      ByteStream.input_ended, ByteStream.bytes_read, ByteStream.bytes_written;
      rewrite ?Hne, ?Hrem, ?Hlen1, ?He1, ?Hw1, ?Hr1; cbn [andb Bool.eqb]; rewrite ?bool_decide_true by done; done. }
  rewrite (printed_bind_Ok _ _ _ E). eexists. split; [reflexivity|]. cbn [fst snd subject].
  split; [|lia]. by split_and!.
Qed.

(** Whatever is drawn, everything written fits and is accounted for. *)
Lemma many_writes_passes {K} `{RandomDevice K} (k : K) : many_writes_main k = (Ok EXIT_SUCCESS, []).
Proof.
  unfold many_writes_main. destruct (get_random_generator k) as [rd k'].
  destruct (for_printed_inv (fun j s => has_written s.1.2 (subject s.1.1) /\ 0 <= s.1.2 <= 199 * j)
    many_writes_iteration NREPS (ByteStreamTestHarness CAPACITY, 0, rd)) as (s & E & _); [done| |exact many_writes_step|].
  - by split; [split_and!|]; try done; apply ByteStream.construct_ok.
  - by rewrite (printed_bind_Ok _ _ _ E).
Qed.

End ByteStreamTests.
