(* ===== verification/ReassemblerTests.v ===== *)
(** * The tests of the reassembler (tests/fsm_stream_reassembler_*.cc)

    The harness of fsm_stream_reassembler_harness.hh with its steps, and the eight programs.
    [ReassemblerTestsPass] proves that they pass. *)

From stdpp Require Import pretty.
From S2P Require Import Prelude ByteStream StreamReassembler Random Webget TestSupport.

Module ReassemblerTests.

Import StreamReassembler.

(** ** fsm_stream_reassembler_harness.hh *)

Inductive ReassemblerTestStep : Set :=
  | BytesAvailable (_bytes : bytes)
  | BytesAssembled (_bytes : Z)
  | UnassembledBytes (_bytes : Z)
  | AtEof
  | NotAtEof
  | SubmitSegment (_data : bytes) (_index : Z) (_eof : bool).

(** [virtual void execute(StreamReassembler &) const] of the steps *)
Definition execute_reassembler (step : ReassemblerTestStep) (r : StreamReassembler) : verdict StreamReassembler :=
  match step with
  | BytesAvailable expected =>
      let size := ByteStream.buffer_size (stream_out r) in
      if decide (size <> zlen expected)
      then Violation ("The reassembler was expected to have `" +:+ pretty (zlen expected) +:+ "` bytes available, but there were `"
             +:+ pretty size +:+ "`")
      else match ByteStream.read (zlen expected) (stream_out r) with
      | Err f => Faulted f
      | Ok (data, out) =>
          expect (bool_decide (data = expected))
            (fun _ => "The reassembler was expected to have  bytes " +:+ quoted (string_of expected) +:+ ", but there were "
                        +:+ quoted (string_of data)) (set_output out r)
      end
  | BytesAssembled n =>
      let written := ByteStream.bytes_written (stream_out r) in
      expect (bool_decide (written = n))
        (fun _ => "The reassembler was expected to have `" +:+ pretty n +:+ "` total bytes assembled, but there were `"
                    +:+ pretty written +:+ "`") r
  | UnassembledBytes n =>
      let held := unassembled_bytes r in
      expect (bool_decide (held = n))
        (fun _ => "The reassembler was expected to have `" +:+ pretty n +:+ "` bytes not assembled, but there were `"
                    +:+ pretty held +:+ "`") r
  | AtEof => expect (ByteStream.eof (stream_out r)) (fun _ => "The reassembler was expected to be at EOF, but was not") r
  | NotAtEof =>
      expect (negb (ByteStream.eof (stream_out r))) (fun _ => "The reassembler was expected to **not** be at EOF, but was") r
  | SubmitSegment data index eof => acted (push_substring data index eof r)
  end.

(** [std::string to_string() const] of the steps, with their descriptions *)
Definition reassembler_step_string (step : ReassemblerTestStep) : string :=
  match step with
  | BytesAvailable d =>
      "Expectation: stream_out().buffer_size() returned " +:+ pretty (zlen d) +:+ ", and stream_out().read(" +:+ pretty (zlen d)
      +:+ ") returned the string " +:+ quoted (string_of d)
  | BytesAssembled n => "Expectation: net bytes assembled = " +:+ pretty n
  | UnassembledBytes n => "Expectation: bytes not assembled = " +:+ pretty n
  | AtEof => "Expectation: at EOF"
  | NotAtEof => "Expectation: not at EOF"
  | SubmitSegment d index eof =>
      "Action:      substring submitted with data " +:+ quoted (string_of d) +:+ ", index `" +:+ pretty index +:+ "`, eof `"
      +:+ pretty (Z.b2z eof) +:+ "`"
  end.

#[export] Instance reassembler_steps : TestStep StreamReassembler ReassemblerTestStep :=
  {| execute_step := execute_reassembler; step_string := reassembler_step_string |}.

(** [ReassemblerTestHarness(const size_t capacity)] *)
Definition ReassemblerTestHarness (capacity : Z) : harness StreamReassembler :=
  mk_harness (construct capacity) ["Initialized (capacity = " +:+ pretty capacity +:+ ")"].

(** The catch blocks of [ReassemblerTestHarness::execute] *)
Definition reassembler_handlers : handlers :=
  mk_handlers (fun what => what)
    (Some ("Failure message:", "The test caused your implementation to throw an exception!")).

Abbreviation test capacity steps := (block reassembler_handlers (ReassemblerTestHarness capacity) steps).

(** ** fsm_stream_reassembler_single.cc *)

Definition single_main : printed Z := test_main (
  _ ← test 65000 [
    BytesAssembled 0; BytesAvailable (text ""); NotAtEof];
  _ ← test 65000 [
    SubmitSegment (text "a") 0 false; BytesAssembled 1; BytesAvailable (text "a"); NotAtEof];
  _ ← test 65000 [
    SubmitSegment (text "a") 0 true; BytesAssembled 1; BytesAvailable (text "a"); AtEof];
  _ ← test 65000 [
    SubmitSegment (text "") 0 true; BytesAssembled 0; BytesAvailable (text ""); AtEof];
  _ ← test 65000 [
    SubmitSegment (text "b") 0 true; BytesAssembled 1; BytesAvailable (text "b"); AtEof];
  _ ← test 65000 [
    SubmitSegment (text "") 0 false; BytesAssembled 0; BytesAvailable (text ""); NotAtEof];
  _ ← test 8 [
    SubmitSegment (text "abcdefgh") 0 false; BytesAssembled 8; BytesAvailable (text "abcdefgh"); NotAtEof];
  _ ← test 8 [
    SubmitSegment (text "abcdefgh") 0 true; BytesAssembled 8; BytesAvailable (text "abcdefgh"); AtEof];
  _ ← test 8 [
    SubmitSegment (text "abc") 0 false; BytesAssembled 3; SubmitSegment (text "bcdefgh") 1 true; BytesAssembled 8;
    BytesAvailable (text "abcdefgh"); AtEof];
  _ ← test 8 [
    SubmitSegment (text "abc") 0 false; BytesAssembled 3; NotAtEof; SubmitSegment (text "ghX") 6 true;
    BytesAssembled 3; NotAtEof; SubmitSegment (text "cdefg") 2 false; BytesAssembled 8;
    BytesAvailable (text "abcdefgh"); NotAtEof];
  test 8 [
    SubmitSegment (text "abc") 0 false; BytesAssembled 3; NotAtEof; SubmitSegment (text "") 6 false;
    BytesAssembled 3; NotAtEof; SubmitSegment (text "de") 3 true; BytesAssembled 5; BytesAvailable (text "abcde");
    AtEof]).

(** ** fsm_stream_reassembler_holes.cc *)

Definition holes_main : printed Z := test_main (
  _ ← test 65000 [
    SubmitSegment (text "b") 1 false; BytesAssembled 0; BytesAvailable (text ""); NotAtEof];
  _ ← test 65000 [
    SubmitSegment (text "b") 1 false; SubmitSegment (text "a") 0 false; BytesAssembled 2; BytesAvailable (text "ab");
    NotAtEof];
  _ ← test 65000 [
    SubmitSegment (text "b") 1 true; BytesAssembled 0; BytesAvailable (text ""); NotAtEof;
    SubmitSegment (text "a") 0 false; BytesAssembled 2; BytesAvailable (text "ab"); AtEof];
  _ ← test 65000 [
    SubmitSegment (text "b") 1 false; SubmitSegment (text "ab") 0 false; BytesAssembled 2;
    BytesAvailable (text "ab"); NotAtEof];
  _ ← test 65000 [
    SubmitSegment (text "b") 1 false; BytesAssembled 0; BytesAvailable (text ""); NotAtEof;
    SubmitSegment (text "d") 3 false; BytesAssembled 0; BytesAvailable (text ""); NotAtEof;
    SubmitSegment (text "c") 2 false; BytesAssembled 0; BytesAvailable (text ""); NotAtEof;
    SubmitSegment (text "a") 0 false; BytesAssembled 4; BytesAvailable (text "abcd"); NotAtEof];
  _ ← test 65000 [
    SubmitSegment (text "b") 1 false; BytesAssembled 0; BytesAvailable (text ""); NotAtEof;
    SubmitSegment (text "d") 3 false; BytesAssembled 0; BytesAvailable (text ""); NotAtEof;
    SubmitSegment (text "abc") 0 false; BytesAssembled 4; BytesAvailable (text "abcd"); NotAtEof];
  test 65000 [
    SubmitSegment (text "b") 1 false; BytesAssembled 0; BytesAvailable (text ""); NotAtEof;
    SubmitSegment (text "d") 3 false; BytesAssembled 0; BytesAvailable (text ""); NotAtEof;
    SubmitSegment (text "a") 0 false; BytesAssembled 2; BytesAvailable (text "ab"); NotAtEof;
    SubmitSegment (text "c") 2 false; BytesAssembled 4; BytesAvailable (text "cd"); NotAtEof;
    SubmitSegment (text "") 4 true; BytesAssembled 4; BytesAvailable (text ""); AtEof]).

(** ** fsm_stream_reassembler_overlapping.cc *)

Definition overlapping_main : printed Z := test_main (
  _ ← test 1000 [
    SubmitSegment (text "a") 0 false; SubmitSegment (text "ab") 0 false; BytesAssembled 2; BytesAvailable (text "ab")];
  _ ← test 1000 [
    SubmitSegment (text "a") 0 false; BytesAvailable (text "a"); SubmitSegment (text "ab") 0 false;
    BytesAvailable (text "b"); BytesAssembled 2];
  _ ← test 1000 [
    SubmitSegment (text "b") 1 false; BytesAvailable (text ""); SubmitSegment (text "ab") 0 false;
    BytesAvailable (text "ab"); UnassembledBytes 0; BytesAssembled 2];
  _ ← test 1000 [
    SubmitSegment (text "b") 1 false; BytesAvailable (text ""); SubmitSegment (text "bc") 1 false;
    BytesAvailable (text ""); UnassembledBytes 2; BytesAssembled 0];
  _ ← test 1000 [
    SubmitSegment (text "c") 2 false; BytesAvailable (text ""); SubmitSegment (text "bcd") 1 false;
    BytesAvailable (text ""); UnassembledBytes 3; BytesAssembled 0];
  _ ← test 1000 [
    SubmitSegment (text "b") 1 false; SubmitSegment (text "d") 3 false; BytesAvailable (text "");
    SubmitSegment (text "bcde") 1 false; BytesAvailable (text ""); BytesAssembled 0; UnassembledBytes 4];
  _ ← test 1000 [
    SubmitSegment (text "c") 2 false; SubmitSegment (text "bcd") 1 false; BytesAvailable (text ""); BytesAssembled 0;
    UnassembledBytes 3; SubmitSegment (text "a") 0 false; BytesAvailable (text "abcd"); BytesAssembled 4;
    UnassembledBytes 0];
  test 1000 [
    SubmitSegment (text "bcd") 1 false; SubmitSegment (text "c") 2 false; BytesAvailable (text ""); BytesAssembled 0;
    UnassembledBytes 3; SubmitSegment (text "a") 0 false; BytesAvailable (text "abcd"); BytesAssembled 4;
    UnassembledBytes 0]).

(** ** fsm_stream_reassembler_seq.cc *)

(** The iterations of the third and the fourth block. *)
Definition seq_iteration (rest : list ReassemblerTestStep) (i : Z) (h : harness StreamReassembler) : printed (harness StreamReassembler) :=
  execute_all reassembler_handlers ([BytesAssembled (4 * i); SubmitSegment (text "abcd") (4 * i) false; NotAtEof] ++ rest) h.

Definition seq_main : printed Z := test_main (
  _ ← test 65000 [
    SubmitSegment (text "abcd") 0 false; BytesAssembled 4; BytesAvailable (text "abcd"); NotAtEof;
    SubmitSegment (text "efgh") 4 false; BytesAssembled 8; BytesAvailable (text "efgh"); NotAtEof];
  _ ← test 65000 [
    SubmitSegment (text "abcd") 0 false; BytesAssembled 4; NotAtEof; SubmitSegment (text "efgh") 4 false;
    BytesAssembled 8; BytesAvailable (text "abcdefgh"); NotAtEof];
  h ← for_printed 100 (seq_iteration []) (ReassemblerTestHarness 65000);
  let ss := concat (replicate 100 (text "abcd")) in
  _ ← execute_all reassembler_handlers [BytesAvailable ss; NotAtEof] h;
  _ ← for_printed 100 (seq_iteration [BytesAvailable (text "abcd")]) (ReassemblerTestHarness 65000);
  mret ()).

(** ** fsm_stream_reassembler_cap.cc *)

(** [const string segment = {char(i), char(i + 1), ...}] *)
Definition cap_segment (i : Z) : bytes := [byte_of i; byte_of (i + 1); byte_of (i + 2); byte_of (i + 13); byte_of (i + 47); byte_of (i + 9)].

(** The iteration of the last block for [i = 3 * j]; the loop runs while [i < 99997]. *)
Definition cap_iteration (j : Z) (h : harness StreamReassembler) : printed (harness StreamReassembler) :=
  let i := 3 * j in
  execute_all reassembler_handlers
    [SubmitSegment (cap_segment i) i false; BytesAssembled (i + 3); BytesAvailable (take 3 (cap_segment i))] h.
Definition cap_iterations : Z := 33333.

Definition cap_main : printed Z := test_main (
  _ ← test 2 [
    SubmitSegment (text "ab") 0 false; BytesAssembled 2; BytesAvailable (text "ab");
    SubmitSegment (text "cd") 2 false; BytesAssembled 4; BytesAvailable (text "cd");
    SubmitSegment (text "ef") 4 false; BytesAssembled 6; BytesAvailable (text "ef")];
  _ ← test 2 [
    SubmitSegment (text "ab") 0 false; BytesAssembled 2; SubmitSegment (text "cd") 2 false; BytesAssembled 2;
    BytesAvailable (text "ab"); BytesAssembled 2; SubmitSegment (text "cd") 2 false; BytesAssembled 4;
    BytesAvailable (text "cd")];
  _ ← test 2 [
    SubmitSegment (text "bX") 1 false; BytesAssembled 0; SubmitSegment (text "a") 0 false; BytesAssembled 2;
    BytesAvailable (text "ab")];
  _ ← test 1 [
    SubmitSegment (text "ab") 0 false; BytesAssembled 1; SubmitSegment (text "ab") 0 false; BytesAssembled 1;
    BytesAvailable (text "a"); BytesAssembled 1; SubmitSegment (text "abc") 0 false; BytesAssembled 2;
    BytesAvailable (text "b"); BytesAssembled 2];
  _ ← test 8 [
    SubmitSegment (text "a") 0 false; BytesAssembled 1; BytesAvailable (text "a"); NotAtEof;
    SubmitSegment (text "bc") 1 false; BytesAssembled 3; NotAtEof; SubmitSegment (text "ghi") 6 true;
    BytesAssembled 3; NotAtEof; SubmitSegment (text "cdefg") 2 false; BytesAssembled 9;
    BytesAvailable (text "bcdefghi"); AtEof];
  _ ← for_printed cap_iterations cap_iteration (ReassemblerTestHarness 3);
  mret ()).

(** ** fsm_stream_reassembler_dup.cc *)

Section Drawn.
Context {K : Type} `{RandomDevice K} `{UniformInt} `{Shuffle}.

Definition dup_iteration (i : Z) (s : harness StreamReassembler * engine) : printed (harness StreamReassembler * engine) :=
  let '(h, rd) := s in
  let '(start_i, rd) := uniform_int 0 8 rd in
  let '(end_i, rd) := uniform_int start_i 8 rd in
  data ← quiet (copy_range (text "abcdefgh") start_i end_i);
  h ← execute_all reassembler_handlers
        [SubmitSegment data start_i false; BytesAssembled 8; BytesAvailable []; NotAtEof] h;
  mret (h, rd).

Definition dup_main (k : K) : printed Z := test_main (
  let '(rd, _) := get_random_generator k in
  _ ← test 65000 [
    SubmitSegment (text "abcd") 0 false; BytesAssembled 4; BytesAvailable (text "abcd"); NotAtEof;
    SubmitSegment (text "abcd") 0 false; BytesAssembled 4; BytesAvailable (text ""); NotAtEof];
  _ ← test 65000 [
    SubmitSegment (text "abcd") 0 false; BytesAssembled 4; BytesAvailable (text "abcd"); NotAtEof;
    SubmitSegment (text "abcd") 4 false; BytesAssembled 8; BytesAvailable (text "abcd"); NotAtEof;
    SubmitSegment (text "abcd") 0 false; BytesAssembled 8; BytesAvailable (text ""); NotAtEof;
    SubmitSegment (text "abcd") 4 false; BytesAssembled 8; BytesAvailable (text ""); NotAtEof];
  h ← execute_all reassembler_handlers [
    SubmitSegment (text "abcdefgh") 0 false; BytesAssembled 8; BytesAvailable (text "abcdefgh"); NotAtEof] (ReassemblerTestHarness 65000);
  _ ← for_printed 1000 dup_iteration (h, rd);
  test 65000 [
    SubmitSegment (text "abcd") 0 false; BytesAssembled 4; BytesAvailable (text "abcd"); NotAtEof;
    SubmitSegment (text "abcdef") 0 false; BytesAssembled 6; BytesAvailable (text "ef"); NotAtEof]).

(** ** fsm_stream_reassembler_win.cc *)

Definition NREPS : Z := 32.
Definition NSEGS : Z := 128.
Definition MAX_SEG_LEN : Z := 2048.

(** [string read(StreamReassembler &reassembler)] *)
Definition read (r : StreamReassembler) : res (bytes * StreamReassembler) :=
  '(d, out) ← ByteStream.read (ByteStream.buffer_size (stream_out r)) (stream_out r);
  Ok (d, set_output out r).

(** One segment of the plan: where it starts and how long it is, overlapping the ones before. *)
Definition win_plan (i : Z) (s : list (Z * Z) * Z * engine) : res (list (Z * Z) * Z * engine) :=
  let '(seq_size, offset, rd) := s in
  let '(r1, rd) := mt19937.next rd in
  let size := 1 + r1 mod (MAX_SEG_LEN - 1) in
  let '(r2, rd) := mt19937.next rd in
  let offs := Z.min offset (1 + r2 mod 1023) in
  Ok (push_back seq_size (to_u64 (offset - offs), to_u64 (size + offs)), to_u64 (offset + size), rd).

(** [for (auto [off, sz] : seq_size) { string dd(...); buf.push_substring(move(dd), off, off + sz == offset); }] *)
Definition push_piece (d : bytes) (offset : Z) (piece : Z * Z) (buf : StreamReassembler) : res StreamReassembler :=
  let '(off, sz) := piece in
  dd ← copy_range d off (off + sz);
  push_substring dd off (bool_decide (to_u64 (off + sz) = offset)) buf.

(** [d.substr(pos)] *)
Definition substr (d : bytes) (pos : Z) : res bytes :=
  if decide (pos > zlen d) then throw "basic_string::substr" else Ok (drop (Z.to_nat pos) d).

(** The checks after a read: how much was written and what was read. *)
Definition check_read (d : bytes) (expected : Z) (number content : string) (result : bytes) (buf : StreamReassembler) : res () :=
  if decide (ByteStream.bytes_written (stream_out buf) <> expected) then throw number else
  same ← equal_range result d;
  if negb same then throw content else Ok ().

Definition win_repetition (rep_no : Z) (rd : engine) : res engine :=
  let buf := construct (NSEGS * MAX_SEG_LEN) in
  '(seq_size, offset, rd) ← for_loop NSEGS win_plan ([], 0, rd);
  let '(seq_size, rd) := shuffle seq_size rd in
  let '(d, rd) := generate_string (Z.to_nat offset) (fun r => r) rd in
  buf ← for_each (push_piece d offset) seq_size buf;
  '(result, buf) ← read buf;
  _ ← check_read d offset "test 2 - number of RX bytes is incorrect" "test 2 - content of RX bytes is incorrect" result buf;
  Ok rd.

Definition win_main (k : K) : printed Z := test_main (quiet (
  let '(rd, _) := get_random_generator k in
  _ ← for_loop NREPS win_repetition rd; Ok ())).

(** ** fsm_stream_reassembler_many.cc *)

Definition many_plan (i : Z) (s : list (Z * Z) * Z * engine) : res (list (Z * Z) * Z * engine) :=
  let '(seq_size, offset, rd) := s in
  let '(r1, rd) := mt19937.next rd in
  let size := 1 + r1 mod (MAX_SEG_LEN - 1) in
  Ok (push_back seq_size (offset, size), to_u64 (offset + size), rd).

Definition many_fill (rep_no : Z) (rd : engine) : res engine :=
  let buf := construct (MAX_SEG_LEN * NSEGS) in
  '(seq_size, offset, rd) ← for_loop NSEGS many_plan ([], 0, rd);
  let '(seq_size, rd) := shuffle seq_size rd in
  let '(d, rd) := generate_string (Z.to_nat offset) (fun r => r) rd in
  buf ← for_each (push_piece d offset) seq_size buf;
  '(result, buf) ← read buf;
  _ ← check_read d offset "test 1 - number of bytes RX is incorrect" "test 1 - content of RX bytes is incorrect" result buf;
  Ok rd.

(** The beginning of the second and of the third loop: the whole of [d], and, after a gap of ten
    bytes, the rest of it once more. *)
Definition many_size : Z := 1024.
Definition many_gap (d : bytes) (number content : string) : res StreamReassembler :=
  let buf := construct 65000 in
  buf ← push_substring d 0 false buf;
  dd ← substr d 10;
  buf ← push_substring dd (many_size + 10) false buf;
  '(res1, buf) ← read buf;
  _ ← check_read d many_size number content res1 buf;
  Ok buf.

Definition many_hole (rep_no : Z) (rd : engine) : res engine :=
  let '(d, rd) := generate_string (Z.to_nat many_size) (fun r => r) rd in
  buf ← many_gap d "test 3 - number of RX bytes is incorrect" "test 3 - content of RX bytes is incorrect";
  dd ← copy_range d 0 7;
  buf ← push_substring dd many_size false buf;
  dd ← copy_range d 7 8;
  buf ← push_substring dd (many_size + 7) true buf;
  '(res2, buf) ← read buf;
  _ ← check_read d (many_size + 8) "test 3 - number of RX bytes is incorrect after 2nd read"
        "test 3 - content of RX bytes is incorrect after 2nd read" res2 buf;
  Ok rd.

Definition many_over (rep_no : Z) (rd : engine) : res engine :=
  let '(d, rd) := generate_string (Z.to_nat many_size) (fun r => r) rd in
  buf ← many_gap d "test 4 - number of RX bytes is incorrect" "test 4 - content of RX bytes is incorrect";
  dd ← copy_range d 0 15;
  buf ← push_substring dd many_size true buf;
  '(res2, buf) ← read buf;
  let written := ByteStream.bytes_written (stream_out buf) in
  if decide (written <> 2 * many_size /\ written <> many_size + 15)
  then throw "test 4 - number of RX bytes is incorrect after 2nd read" else
  same ← equal_range res2 d;
  if negb same then throw "test 4 - content of RX bytes is incorrect after 2nd read" else Ok rd.

Definition many_main (k : K) : printed Z := test_main (quiet (
  let '(rd, _) := get_random_generator k in
  rd ← for_loop NREPS many_fill rd;
  rd ← for_loop NREPS many_hole rd;
  _ ← for_loop NREPS many_over rd; Ok ())).
End Drawn.

End ReassemblerTests.
