(* ===== verification/ReassemblerTestsPass.v ===== *)
(** * The tests of the reassembler pass

    The programs of [ReassemblerTests] exit with success.  Fixed sequences of steps run on the
    abstract reassembler ([Spec]), which the implementation refines; only the program that asks
    for [unassembled_bytes] runs on the implementation.  The programs that draw what they push,
    shuffle it and compare what comes out pass whatever is drawn and however it is shuffled. *)

From stdpp Require Import gmap pretty.
From S2P Require Import Prelude ByteStream StreamReassembler ReassemblerSpec Random Webget TestSupport ReassemblerTests.

Module ReassemblerTestsPass.

Import StreamReassembler ReassemblerTests.

(** ** Running the steps on the abstract reassembler *)

Definition spec_buffer (st : Spec.state) : bytes := drop (Z.to_nat (Spec.consumed st)) (Spec.assembled st).

(** A step on the contract of the reassembler; [None] where it says nothing or the step fails. *)
Definition spec_step (step : ReassemblerTestStep) (st : Spec.state) : option Spec.state :=
  match step with
  | BytesAvailable d => if decide (spec_buffer st = d) then Some (Spec.consume (zlen d) st) else None
  | BytesAssembled n => if decide (Spec.next st = n) then Some st else None
  | UnassembledBytes _ => None
  | AtEof => if bool_decide (spec_buffer st = []) && Spec.ended st then Some st else None
  | NotAtEof => if bool_decide (spec_buffer st = []) && Spec.ended st then None else Some st
  | SubmitSegment d index eof =>
      if decide ((0 <= index < 2 ^ 64) /\ Spec.consumed st + Spec.cap st + zlen d < 2 ^ 64)
      then Some (Spec.push d index eof st) else None
  end.

Fixpoint spec_steps (steps : list ReassemblerTestStep) (st : Spec.state) : option Spec.state :=
  match steps with [] => Some st | step :: steps' => st ← spec_step step st; spec_steps steps' st end.

Lemma eof_refines r st :
  Reassembly.refines r st -> ByteStream.eof (stream_out r) = bool_decide (spec_buffer st = []) && Spec.ended st.
Proof.
  intros R. unfold ByteStream.eof, stream_out. rewrite (Reassembly.ref_buffer _ _ R), (Reassembly.ref_ended _ _ R). done.
Qed.

Lemma spec_step_refines step r st st' :
  Reassembly.refines r st -> spec_step step st = Some st' ->
  exists r', execute_step step r = Passed r' /\ Reassembly.refines r' st'.
Proof.
  intros R. pose proof (Reassembly.ref_buffer _ _ R) as Hb. fold (spec_buffer st) in Hb.
  destruct step as [d|n|n| | |d index eof]; cbn [spec_step execute_step reassembler_steps execute_reassembler].
  - case_decide as Hd; [|done]. intros [= <-]. pose proof (Reassembly.available r st R) as [Hav Hlt].
    assert (Hsz : ByteStream.buffer_size (stream_out r) = zlen d).
    { unfold ByteStream.buffer_size, stream_out. by rewrite Hb, Hd. }
    rewrite Hsz, decide_False by lia.
    assert (Hz : zlen d = Spec.next st - Spec.consumed st) by (rewrite <- Hav, Hb; by rewrite Hd).
    destruct (Reassembly.read_step r st (zlen d) R) as (r' & E & R').
    { pose proof (zlen_nonneg d). pose proof (Reassembly.ref_bound _ _ R). unfold is_u64. lia. }
    unfold Reassembly.read_out, Reassembly.Spec_read in *. rewrite decide_True in * by lia. cbn [fst snd] in *.
    destruct (ByteStream.read (zlen d) (stream_out r)) as [[data out]|]; [|done]. injection E as Hdata <-.
    fold (spec_buffer st) in Hdata. rewrite Hd, take_ge in Hdata by (unfold zlen; lia). subst data.
    eexists. split; [|exact R']. unfold expect. by rewrite bool_decide_true.
  - case_decide as Hn; [|done]. intros [= <-]. exists r. split; [|done]. unfold expect, stream_out.
    rewrite <- (Reassembly.ref_next _ _ R). by rewrite bool_decide_true.
  - done.
  - intros E. exists r. rewrite (eof_refines r st R). destruct (_ && _); [|done]. injection E as <-. by split.
  - intros E. exists r. rewrite (eof_refines r st R). destruct (_ && _); [done|]. injection E as <-. by split.
  - case_decide as Hf; [|done]. intros [= <-]. destruct (Reassembly.push_step r st d index eof R) as (r' & E & R').
    + unfold Reassembly.fits. rewrite <- (Reassembly.ref_consumed _ _ R), <- (Reassembly.ref_cap _ _ R). exact Hf.
    + exists r'. by rewrite E.
Qed.

Lemma spec_steps_refine steps r st st' :
  Reassembly.refines r st -> spec_steps steps st = Some st' ->
  exists r', run_steps steps r = Passed r' /\ Reassembly.refines r' st'.
Proof.
  revert r st. induction steps as [|step steps IH]; intros r st R; cbn [spec_steps run_steps].
  - intros [= <-]. by exists r.
  - destruct (spec_step step st) as [st1|] eqn:E; [|done]. cbn [mbind option_bind]. intros Hs.
    destruct (spec_step_refines step r st st1 R E) as (r1 & -> & R1). by apply (IH r1 st1).
Qed.

Lemma execute_all_refines hs steps h st st' :
  Reassembly.refines (subject h) st -> spec_steps steps st = Some st' ->
  exists h', execute_all hs steps h = (Ok h', []) /\ Reassembly.refines (subject h') st'.
Proof.
  intros R E. destruct (spec_steps_refine steps (subject h) st st' R E) as (r' & Er & R').
  destruct (execute_all_passes hs steps h r' Er) as [log El]. by exists (mk_harness r' log).
Qed.

(** A block of fixed steps passes when it passes on the contract. *)
Definition spec_passes (capacity : Z) (steps : list ReassemblerTestStep) : bool :=
  match spec_steps steps (Spec.init capacity) with Some _ => true | None => false end.

Lemma test_passes capacity steps :
  is_u64 capacity -> spec_passes capacity steps = true -> test capacity steps = (Ok (), []).
Proof.
  intros Hc Hs. unfold spec_passes in Hs. destruct (spec_steps steps (Spec.init capacity)) as [st'|] eqn:E; [|done].
  destruct (execute_all_refines reassembler_handlers steps (ReassemblerTestHarness capacity) (Spec.init capacity) st')
    as (h' & E' & _); [by apply Reassembly.init_refines|done|].
  unfold block. by rewrite (printed_bind_Ok _ _ _ E').
Qed.

Lemma test_passes_then {B} capacity steps (k : () -> printed B) :
  is_u64 capacity -> spec_passes capacity steps = true -> (test capacity steps ≫= k) = k ().
Proof. intros Hc Hs. apply printed_bind_Ok. by apply test_passes. Qed.

(** Peels a block of a program off, evaluated on the contract. *)
Ltac spec_block := first [rewrite test_passes_then|rewrite test_passes]; [cbv beta|concrete|vm_compute; reflexivity].

Example overlapping_passes : overlapping_main = (Ok EXIT_SUCCESS, []).
Proof. by vm_compute. Qed.

Lemma single_passes : single_main = (Ok EXIT_SUCCESS, []).
Proof. unfold single_main. by repeat spec_block. Qed.

Lemma holes_passes : holes_main = (Ok EXIT_SUCCESS, []).
Proof. unfold holes_main. by repeat spec_block. Qed.

(** ** Reading everything *)

Lemma read_all r st :
  Reassembly.refines r st ->
  exists r', read r = Ok (spec_buffer st, r') /\ Reassembly.refines r' (Spec.consume (zlen (spec_buffer st)) st).
Proof.
  intros R. destruct (Reassembly.available r st R) as [Hav Hlt]. pose proof (Reassembly.ref_bound _ _ R) as Hb.
  pose proof (Reassembly.ref_buffer _ _ R) as Hbuf. fold (spec_buffer st) in Hbuf. rewrite Hbuf in Hav.
  destruct (Reassembly.read_step r st (zlen (spec_buffer st)) R) as (r' & E & R'); [unfold is_u64; lia|].
  unfold Reassembly.read_out, Reassembly.Spec_read in *. rewrite decide_True in * by lia. cbn [fst snd] in *.
  fold (spec_buffer st) in E. rewrite take_ge in E by (unfold zlen; lia). exists r'. split; [|done].
  unfold read, ByteStream.buffer_size, stream_out in *. by rewrite Hbuf.
Qed.

Lemma next_consume n st : Spec.next (Spec.consume n st) = Spec.next st.
Proof. reflexivity. Qed.

Lemma check_read_passes d expected number content k r st :
  Reassembly.refines r st -> Spec.next st = expected -> check_read d expected number content (take k d) r = Ok ().
Proof.
  intros R Hn. unfold check_read. rewrite decide_False.
  - unfold equal_range. rewrite decide_True by (unfold zlen; rewrite length_take; lia).
    rewrite bool_decide_true; [done|]. by rewrite length_take, <- take_take, (take_ge d (length d)).
  - unfold stream_out. rewrite <- (Reassembly.ref_next _ _ R). lia.
Qed.

(** ** Segments that cover a string *)

Definition tiles (pieces : list (Z * Z)) (n : Z) : Prop :=
  Forall (fun p => 0 <= p.1 /\ 0 <= p.2 /\ p.1 + p.2 <= n) pieces /\
  forall i, 0 <= i < n -> Exists (fun p => p.1 <= i < p.1 + p.2) pieces.

Lemma tiles_nil : tiles [] 0.
Proof. split; [constructor|lia]. Qed.

Lemma tiles_snoc l n o s : tiles l n -> 0 <= o <= n -> n <= o + s -> tiles (l ++ [(o, s)]) (o + s).
Proof.
  intros [Hf Hc] Ho Hs. split.
  - apply Forall_app. split; [|by repeat constructor; simpl; lia].
    eapply Forall_impl; [exact Hf|]. simpl. lia.
  - intros i Hi. apply Exists_app. destruct (decide (i < n)); [left; apply Hc; lia|right; left; simpl; lia].
Qed.

Lemma tiles_permutation l l' n : Permutation l l' -> tiles l n -> tiles l' n.
Proof. intros HP [Hf Hc]. split; [by rewrite <- HP|]. intros i Hi. rewrite <- HP. by apply Hc. Qed.

(** The push of a piece of [d]. *)
Definition piece_op (d : bytes) (offset : Z) (p : Z * Z) : Reassembly.Op :=
  Reassembly.OpPush (take (Z.to_nat p.2) (drop (Z.to_nat p.1) d)) p.1 (bool_decide (to_u64 (p.1 + p.2) = offset)).

Lemma zlen_piece (d : bytes) o s : 0 <= o -> 0 <= s -> o + s <= zlen d -> zlen (take (Z.to_nat s) (drop (Z.to_nat o) d)) = s.
Proof. intros. rewrite zlen_take, zlen_drop by lia. lia. Qed.

Lemma excerpt_piece (S : bytes) o s eof :
  0 <= o -> 0 <= s -> o + s <= zlen S -> (eof = true -> o + s = zlen S) ->
  Spec.excerpt S (take (Z.to_nat s) (drop (Z.to_nat o) S)) o eof.
Proof.
  intros Ho Hs Hle He. unfold Spec.excerpt. rewrite zlen_piece by done. split_and!; try done.
  rewrite length_take, length_drop. unfold zlen in Hle. f_equal. lia.
Qed.

(** What the loop over the pieces keeps. *)
Definition filling (d : bytes) (capacity : Z) (done : list (Z * Z)) (r : StreamReassembler) : Prop :=
  exists st, Reassembly.refines r st /\ Reassembly.tracks d (map (piece_op d (zlen d)) done) st /\
    Spec.consumed st = 0 /\ Spec.cap st = capacity.

Lemma push_piece_fills d capacity p done r :
  2 * zlen d + capacity < 2 ^ 64 -> 0 <= p.1 /\ 0 <= p.2 /\ p.1 + p.2 <= zlen d -> filling d capacity done r ->
  exists r', push_piece d (zlen d) p r = Ok r' /\ filling d capacity (done ++ [p]) r'.
Proof.
  intros Hsize Hp (st & R & T & Hc & Hcap). destruct p as [o s]. cbn [fst snd] in Hp. unfold push_piece, copy_range.
  rewrite decide_True by lia. cbn [mbind res_bind]. replace (o + s - o) with s by lia.
  pose proof (Reassembly.sizes_cap r st R) as Hcap64. assert (Hz := zlen_piece d o s ltac:(lia) ltac:(lia) ltac:(lia)).
  destruct (Reassembly.push_step r st (take (Z.to_nat s) (drop (Z.to_nat o) d)) o (bool_decide (to_u64 (o + s) = zlen d)) R)
    as (r' & E & R').
  { unfold Reassembly.fits. rewrite <- (Reassembly.ref_consumed _ _ R), <- (Reassembly.ref_cap _ _ R). unfold is_u64. lia. }
  exists r'. split; [done|]. eexists. split; [exact R'|]. split; [|by split].
  rewrite map_app. apply Reassembly.tracks_push; [lia|done|]. cbn [fst snd].
  apply excerpt_piece; [lia..|]. intros He%bool_decide_eq_true. rewrite to_u64_small in He; [done|]. unfold is_u64. lia.
Qed.

Lemma covered_pieces d pieces i :
  tiles pieces (zlen d) -> 0 <= i < zlen d -> Reassembly.covered (map (piece_op d (zlen d)) pieces) i.
Proof.
  intros [Hf Hc] Hi. destruct (proj1 (Exists_exists _ _) (Hc i Hi)) as ([o s] & Hin & Hos). cbn [fst snd] in Hos.
  apply Exists_exists. exists (piece_op d (zlen d) (o, s)). split; [by apply list_elem_of_fmap_2|].
  pose proof (proj1 (Forall_forall _ _) Hf (o, s) Hin) as Hb. cbn [fst snd] in Hb. cbn [piece_op Reassembly.covers fst snd].
  rewrite zlen_piece by lia. lia.
Qed.

(** The pieces of [d] in any order: all of it is assembled. *)
Lemma pieces_assemble d capacity pieces :
  tiles pieces (zlen d) -> zlen d <= capacity -> 2 * zlen d + capacity < 2 ^ 64 ->
  exists r st, for_each (push_piece d (zlen d)) pieces (construct capacity) = Ok r /\ Reassembly.refines r st /\
    Spec.next st = zlen d /\ spec_buffer st = d.
Proof.
  intros Ht Hle Hsize. pose proof (zlen_nonneg d).
  destruct (for_each_inv (filling d capacity) (push_piece d (zlen d)) pieces [] (construct capacity))
    as (r & E & st & R & T & Hc & Hcap).
  - exists (Spec.init capacity). split_and!; [apply Reassembly.init_refines; unfold is_u64; lia|apply Reassembly.init_tracks|done..].
  - intros p done r Hin Hr. apply push_piece_fills; [done| |done].
    by apply (proj1 (Forall_forall _ _) (proj1 Ht)).
  - exists r, st. assert (Hn : Spec.next st = zlen d).
    { apply Z.le_antisymm; [by apply Spec.sound_next, (Reassembly.tracks_sound _ _ _ T)|].
      eapply (Reassembly.written_covered d _ r st); [done|exact T|lia|]. intros i Hi. by apply covered_pieces. }
    split_and!; [done|done|done|]. unfold spec_buffer. rewrite Hc. change (Z.to_nat 0) with 0%nat. rewrite drop_0.
    rewrite (Reassembly.assembled_take d _ r st R T), <- (Reassembly.ref_next _ _ R), Hn. rewrite take_ge; [done|].
    unfold zlen. lia.
Qed.

(** The common end of the filling loops. *)
Lemma filled_and_read d capacity pieces number content :
  tiles pieces (zlen d) -> zlen d <= capacity -> 2 * zlen d + capacity < 2 ^ 64 ->
  exists r r', for_each (push_piece d (zlen d)) pieces (construct capacity) = Ok r /\ read r = Ok (d, r') /\
    check_read d (zlen d) number content d r' = Ok ().
Proof.
  intros Ht Hle Hsize. destruct (pieces_assemble d capacity pieces Ht Hle Hsize) as (r & st & E & R & Hn & Hb).
  destruct (read_all r st R) as (r' & Er & R'). rewrite Hb in *. exists r, r'. split_and!; [done|done|].
  pose proof (check_read_passes d (zlen d) number content (length d) r' _ R') as Hc.
  rewrite take_ge in Hc by done. apply Hc. by rewrite next_consume.
Qed.

Definition planned (j : Z) (s : list (Z * Z) * Z * engine) : Prop := tiles s.1.1 s.1.2 /\ 0 <= s.1.2 <= 2047 * j.

Lemma win_plan_step j s : 0 <= j < NSEGS -> planned j s -> exists s', win_plan j s = Ok s' /\ planned (j + 1) s'.
Proof.
  unfold NSEGS. destruct s as [[l offset] rd]. intros Hj [Ht Ho]. cbn [fst snd] in *. unfold win_plan.
  destruct (mt19937.next rd) as [r1 g1], (mt19937.next g1) as [r2 g2]. unfold MAX_SEG_LEN.
  pose proof (Z.mod_pos_bound r1 (2048 - 1) ltac:(lia)) as H1. pose proof (Z.mod_pos_bound r2 1023 ltac:(lia)) as H2.
  set (size := 1 + r1 mod (2048 - 1)) in *. set (offs := Z.min offset (1 + r2 mod 1023)) in *.
  rewrite !to_u64_small by (unfold is_u64; lia). eexists. split; [done|]. split; cbn [fst snd]; [|lia].
  replace (offset + size) with (offset - offs + (size + offs)) by lia. apply (tiles_snoc l offset); [done|lia..].
Qed.

Lemma many_plan_step j s : 0 <= j < NSEGS -> planned j s -> exists s', many_plan j s = Ok s' /\ planned (j + 1) s'.
Proof.
  unfold NSEGS. destruct s as [[l offset] rd]. intros Hj [Ht Ho]. cbn [fst snd] in *. unfold many_plan.
  destruct (mt19937.next rd) as [r1 g1]. unfold MAX_SEG_LEN. pose proof (Z.mod_pos_bound r1 (2048 - 1) ltac:(lia)) as H1.
  set (size := 1 + r1 mod (2048 - 1)) in *.
  rewrite !to_u64_small by (unfold is_u64; lia). eexists. split; [done|]. split; cbn [fst snd]; [|lia].
  apply (tiles_snoc l offset); [done|lia..].
Qed.

Lemma planned_nil rd : planned 0 ([], 0, rd).
Proof. split; [apply tiles_nil|done]. Qed.

#[local] Opaque for_loop construct.

(** Planned, shuffled, generated, pushed and read: the body that the two filling loops share. *)
Lemma filling_passes `{Shuffle} plan number content capacity rd :
  (forall j s, 0 <= j < NSEGS -> planned j s -> exists s', plan j s = Ok s' /\ planned (j + 1) s') -> capacity = 262144 ->
  exists rd', ('(seq_size, offset, rd) ← for_loop NSEGS plan ([], 0, rd);
     let '(seq_size, rd) := shuffle seq_size rd in
     let '(d, rd) := generate_string (Z.to_nat offset) (fun r => r) rd in
     buf ← for_each (push_piece d offset) seq_size (construct capacity);
     '(result, buf) ← read buf;
     _ ← check_read d offset number content result buf;
     Ok rd) = Ok rd'.
Proof.
  intros Hplan Hcap. destruct (for_loop_inv planned plan NSEGS ([], 0, rd)) as ([[l offset] g] & -> & Ht & Ho);
    [done|apply planned_nil|done|]. cbn [mbind res_bind fst snd] in *. unfold NSEGS in Ho.
  pose proof (shuffle_permutes l g) as HP. destruct (shuffle l g) as [l' g1]. cbn [fst] in HP.
  pose proof (length_generate_string (Z.to_nat offset) (fun r => r) g1) as Hd.
  destruct (generate_string (Z.to_nat offset) (fun r => r) g1) as [d g2]. cbn [fst] in Hd.
  assert (Hz : zlen d = offset) by (unfold zlen; lia). subst offset.
  destruct (filled_and_read d capacity l' number content) as (r & r' & -> & Er & Ec);
    [by apply (tiles_permutation l)|lia|lia|]. cbn [mbind res_bind]. rewrite Er. cbn [mbind res_bind]. rewrite Ec.
  cbn [mbind res_bind]. by exists g2.
Qed.

Lemma win_repetition_passes `{Shuffle} j rd : exists rd', win_repetition j rd = Ok rd'.
Proof. unfold win_repetition. apply filling_passes; [exact win_plan_step|done]. Qed.

Lemma many_fill_passes `{Shuffle} j rd : exists rd', many_fill j rd = Ok rd'.
Proof. unfold many_fill. apply filling_passes; [exact many_plan_step|done]. Qed.

(** ** An end mark in a gap and over held bytes *)

Section Gap.
Context (d : bytes) (Hd : zlen d = many_size).

(** The stream that the pushes are parts of: the string twice. *)
Definition twice : bytes := d ++ d.

Lemma zlen_twice : zlen twice = 2048.
Proof. unfold twice. rewrite zlen_app, Hd. done. Qed.

Lemma twice_second o s : 0 <= o -> 0 <= s -> o + s <= 1024 ->
  take (Z.to_nat s) (drop (Z.to_nat o) d) = take (Z.to_nat s) (drop (Z.to_nat (1024 + o)) twice).
Proof.
  intros Ho Hs Hle. unfold twice. assert (Hl : length d = 1024%nat) by (unfold zlen, many_size in Hd; lia).
  rewrite (drop_app_ge d d (Z.to_nat (1024 + o))) by lia. do 2 f_equal. lia.
Qed.

(** The reassembler after some of the pushes and reads. *)
Definition follows_twice (ops : list Reassembly.Op) (r : StreamReassembler) (st : Spec.state) : Prop :=
  Reassembly.refines r st /\ Reassembly.tracks twice ops st /\ Spec.cap st = 65000.

Lemma push_twice ops r st o s eof :
  follows_twice ops r st -> 0 <= o -> 0 <= s -> o + s <= 2048 ->
  let data := take (Z.to_nat s) (drop (Z.to_nat o) twice) in
  exists r', push_substring data o eof r = Ok r' /\ Reassembly.refines r' (Spec.push data o eof st) /\
    Reassembly.tracks twice (ops ++ [Reassembly.OpPush data o false]) (Spec.push data o false st) /\
    Spec.cap (Spec.push data o false st) = 65000.
Proof.
  intros (R & T & Hcap) Ho Hs Hle data. pose proof zlen_twice as Hz.
  assert (Hdata : zlen data = s) by (apply zlen_piece; lia).
  pose proof (Spec.sound_next _ _ (Reassembly.tracks_sound _ _ _ T)) as Hn. pose proof (Reassembly.ref_bound _ _ R) as Hb.
  destruct (Reassembly.push_step r st data o eof R) as (r' & E & R').
  { unfold Reassembly.fits. rewrite <- (Reassembly.ref_consumed _ _ R), <- (Reassembly.ref_cap _ _ R). unfold is_u64. lia. }
  exists r'. split_and!; [done|done| |done]. apply Reassembly.tracks_push; [lia|done|]. apply excerpt_piece; [lia..|done].
Qed.

(** The output is as long as the covered prefix. *)
Lemma twice_assembled ops r st n :
  follows_twice ops r st -> 0 <= n <= 2048 -> (forall i, 0 <= i < n -> Reassembly.covered ops i) ->
  (n < 2048 -> ~ Reassembly.covered ops n) -> Spec.next st = n /\ Spec.assembled st = take (Z.to_nat n) twice.
Proof.
  intros (R & T & Hcap) Hn Hc Hu. pose proof (Spec.sound_next _ _ (Reassembly.tracks_sound _ _ _ T)) as Hs. rewrite zlen_twice in Hs.
  assert (Hle : n <= Spec.next st) by (apply (Reassembly.written_covered twice ops r st n R T); [lia|done]).
  assert (E : Spec.next st = n).
  { destruct (decide (n < 2048)) as [Hlt|]; [|lia].
    pose proof (Reassembly.written_uncovered twice ops st n T ltac:(lia) (Hu Hlt)). lia. }
  split; [done|]. by rewrite (Reassembly.assembled_take _ _ _ _ R T), <- (Reassembly.ref_next _ _ R), E.
Qed.

Definition gap_ops : list Reassembly.Op :=
  [Reassembly.OpPush (take (Z.to_nat 1024) (drop (Z.to_nat 0) twice)) 0 false;
   Reassembly.OpPush (take (Z.to_nat 1014) (drop (Z.to_nat 1034) twice)) 1034 false; Reassembly.OpRead 1024].

Lemma first_copy : d = take (Z.to_nat 1024) (drop (Z.to_nat 0) twice).
Proof. unfold twice. change (Z.to_nat 0) with 0%nat. rewrite drop_0. rewrite take_app_length'; [done|]. unfold zlen, many_size in Hd. lia. Qed.

Lemma second_rest : drop 10 d = take (Z.to_nat 1014) (drop (Z.to_nat 1034) twice).
Proof.
  change 1034 with (1024 + 10). rewrite <- (twice_second 10 1014) by lia. rewrite take_ge; [done|]. rewrite length_drop. unfold zlen, many_size in Hd. lia.
Qed.

Lemma many_gap_passes number content :
  exists r st, many_gap d number content = Ok r /\ follows_twice gap_ops r st /\ Spec.consumed st = 1024.
Proof.
  pose proof zlen_twice as Hz. unfold many_gap.
  assert (H0 : follows_twice [] (construct 65000) (Spec.init 65000)).
  { split_and!; [by apply Reassembly.init_refines|apply Reassembly.init_tracks|done]. }
  destruct (push_twice [] _ _ 0 1024 false H0) as (r1 & E1 & R1 & T1 & C1); [lia..|]. rewrite <- first_copy in E1.
  rewrite E1. cbn [mbind res_bind]. unfold substr. rewrite decide_False by (rewrite Hd; done). cbn [mbind res_bind].
  destruct (push_twice _ r1 _ 1034 1014 false (conj R1 (conj T1 C1))) as (r2 & E2 & R2 & T2 & C2); [lia..|].
  rewrite <- second_rest in E2. change (Z.to_nat 10) with 10%nat. change (many_size + 10) with 1034. rewrite E2. cbn [mbind res_bind].
  set (st2 := Spec.push _ 1034 false _) in *. assert (Hc2 : Spec.consumed st2 = 0) by reflexivity. clearbody st2. set (ops2 := ([] ++ [_]) ++ [_]) in *.
  destruct (twice_assembled ops2 r2 st2 1024) as [Hn Ha]; [done|lia| | |].
  { intros i Hi. left. cbn [Reassembly.covers]. rewrite zlen_piece by lia. lia. }
  { intros _ Hc. unfold ops2, Reassembly.covered in Hc. simpl app in Hc. rewrite !Exists_cons, Exists_nil in Hc.
    cbn [Reassembly.covers] in Hc. rewrite !zlen_piece in Hc by lia. lia. }
  assert (Hb : spec_buffer st2 = take (Z.to_nat 1024) d).
  { unfold spec_buffer. rewrite Ha. rewrite Hc2. change (Z.to_nat 0) with 0%nat. rewrite drop_0.
    unfold twice. rewrite take_app_le; [done|]. unfold zlen, many_size in Hd. lia. }
  destruct (read_all r2 st2 R2) as (r3 & E3 & R3). rewrite E3, Hb in *. cbn [mbind res_bind].
  rewrite (check_read_passes d many_size number content (Z.to_nat 1024) r3 _ R3) by (by rewrite next_consume).
  cbn [mbind res_bind].
  assert (Hl : zlen (take (Z.to_nat 1024) d) = 1024) by (unfold zlen; rewrite length_take; unfold zlen, many_size in Hd; lia).
  exists r3, (Spec.consume 1024 st2). split; [done|]. rewrite Hl in R3. split; [|cbn [Spec.consume Spec.consumed]; lia]. split_and!; [exact R3| |done].
  pose proof (Reassembly.tracks_read twice ops2 st2 1024 ltac:(lia) T2) as T3. unfold Reassembly.Spec_read in T3.
  rewrite decide_True in T3 by lia. exact T3.
Qed.

(** A copy of a part of the string, as a part of its second occurrence. *)
Lemma copy_second o s : 0 <= o -> 0 <= s -> o + s <= 1024 ->
  copy_range d o (o + s) = Ok (take (Z.to_nat s) (drop (Z.to_nat (1024 + o)) twice)).
Proof.
  intros Ho Hs Hle. unfold copy_range. rewrite decide_True by (rewrite Hd; unfold many_size; lia).
  replace (o + s - o) with s by lia. by rewrite (twice_second o s).
Qed.

(** What is read after the string has been read once and [n - 1024] bytes more are assembled. *)
Lemma second_read st n :
  Spec.consumed st = 1024 -> 1024 <= n <= 2048 -> Spec.assembled st = take (Z.to_nat n) twice ->
  spec_buffer st = take (Z.to_nat (n - 1024)) d.
Proof.
  intros Hc Hn Ha. unfold spec_buffer. rewrite Ha, Hc. assert (Hl : length d = 1024%nat) by (unfold zlen, many_size in Hd; lia).
  unfold twice. rewrite take_app_ge by lia. rewrite drop_app_ge by lia. rewrite Hl.
  replace (Z.to_nat 1024 - 1024)%nat with 0%nat by lia. rewrite drop_0. f_equal. lia.
Qed.

(** What the pushes cover, as arithmetic. *)
Ltac covering := unfold Reassembly.covered, gap_ops; rewrite ?Exists_app, ?Exists_cons, ?Exists_nil;
  cbn [Reassembly.covers]; rewrite ?zlen_piece by (rewrite ?zlen_twice; lia); lia.

Lemma gap_then_hole r st :
  follows_twice gap_ops r st -> Spec.consumed st = 1024 ->
  exists r1 r2 r3 st3,
    push_substring (take (Z.to_nat 7) (drop (Z.to_nat (1024 + 0)) twice)) 1024 false r = Ok r1 /\
    push_substring (take (Z.to_nat 1) (drop (Z.to_nat (1024 + 7)) twice)) 1031 true r1 = Ok r2 /\
    read r2 = Ok (take (Z.to_nat 8) d, r3) /\ Reassembly.refines r3 st3 /\ Spec.next st3 = 1032.
Proof.
  intros F Hc. pose proof zlen_twice as Hz. destruct (push_twice _ _ _ 1024 7 false F) as (r1 & E1 & R1 & T1 & C1); [lia..|].
  destruct (push_twice _ _ _ 1031 1 true (conj R1 (conj T1 C1))) as (r2 & E2 & R2 & T2 & C2); [lia..|].
  set (st1 := Spec.push _ 1024 false st) in *. set (data := take _ (drop (Z.to_nat 1031) _)) in *.
  assert (Hn : Spec.next (Spec.push data 1031 true st1) = 1032 /\
               Spec.assembled (Spec.push data 1031 true st1) = take (Z.to_nat 1032) twice).
  { destruct (push_twice _ _ _ 1031 1 false (conj R1 (conj T1 C1))) as (r2' & _ & R2' & _ & _); [lia..|].
    unfold Spec.next. rewrite Spec.assembled_push_eof. fold (Spec.next (Spec.push data 1031 false st1)).
    eapply (twice_assembled _ r2'); [split_and!; [exact R2'|exact T2|exact C2]|lia| |].
    - intros i Hi. unfold data. covering.
    - intros _. unfold data. covering. }
  destruct Hn as [Hn Ha]. destruct (read_all r2 _ R2) as (r3 & E3 & R3).
  rewrite (second_read _ 1032) in E3 by (done || lia). by eexists r1, r2, r3, _.
Qed.

Lemma gap_then_over r st :
  follows_twice gap_ops r st -> Spec.consumed st = 1024 ->
  exists r1 r2 st2, push_substring (take (Z.to_nat 15) (drop (Z.to_nat (1024 + 0)) twice)) 1024 true r = Ok r1 /\
    read r1 = Ok (take (Z.to_nat 1024) d, r2) /\ Reassembly.refines r2 st2 /\ Spec.next st2 = 2048.
Proof.
  intros F Hc. pose proof zlen_twice as Hz. destruct (push_twice _ _ _ 1024 15 true F) as (r1 & E1 & R1 & T1 & C1); [lia..|].
  set (data := take _ (drop (Z.to_nat 1024) _)) in *.
  assert (Hn : Spec.next (Spec.push data 1024 true st) = 2048 /\
               Spec.assembled (Spec.push data 1024 true st) = take (Z.to_nat 2048) twice).
  { destruct (push_twice _ _ _ 1024 15 false F) as (r1' & _ & R1' & _ & _); [lia..|].
    unfold Spec.next. rewrite Spec.assembled_push_eof. fold (Spec.next (Spec.push data 1024 false st)).
    eapply (twice_assembled _ r1'); [split_and!; [exact R1'|exact T1|exact C1]|lia| |lia].
    intros i Hi. unfold data. covering. }
  destruct Hn as [Hn Ha]. destruct (read_all r1 _ R1) as (r2 & E2 & R2).
  rewrite (second_read _ 2048) in E2 by (done || lia). by eexists r1, r2, _.
Qed.
End Gap.

Lemma many_hole_passes j rd : exists rd', many_hole j rd = Ok rd'.
Proof.
  unfold many_hole. pose proof (length_generate_string (Z.to_nat many_size) (fun r => r) rd) as Hl.
  destruct (generate_string _ _ rd) as [d g]. cbn [fst] in Hl.
  assert (Hd : zlen d = many_size) by (unfold zlen; rewrite Hl; done).
  set (number := "test 3 - number of RX bytes is incorrect"). set (content := "test 3 - content of RX bytes is incorrect").
  destruct (many_gap_passes d Hd number content) as (r & st & -> & F & Hc). cbn [mbind res_bind].
  change (copy_range d 0 7) with (copy_range d 0 (0 + 7)). rewrite (copy_second d Hd 0 7) by lia. cbn [mbind res_bind].
  destruct (gap_then_hole d Hd r st F Hc) as (r1 & r2 & r3 & st3 & E1 & E2 & E3 & R3 & Hn).
  change many_size with 1024. rewrite E1. cbn [mbind res_bind]. change (copy_range d 7 8) with (copy_range d 7 (7 + 1)). rewrite (copy_second d Hd 7 1) by lia.
  cbn [mbind res_bind]. change (1024 + 7) with 1031 in *. rewrite E2. cbn [mbind res_bind]. rewrite E3. cbn [mbind res_bind].
  change (1024 + 8) with 1032. rewrite (check_read_passes _ _ _ _ _ _ _ R3 Hn). by exists g.
Qed.

Lemma many_over_passes j rd : exists rd', many_over j rd = Ok rd'.
Proof.
  unfold many_over. pose proof (length_generate_string (Z.to_nat many_size) (fun r => r) rd) as Hl.
  destruct (generate_string _ _ rd) as [d g]. cbn [fst] in Hl.
  assert (Hd : zlen d = many_size) by (unfold zlen; rewrite Hl; done).
  set (number := "test 4 - number of RX bytes is incorrect"). set (content := "test 4 - content of RX bytes is incorrect").
  destruct (many_gap_passes d Hd number content) as (r & st & -> & F & Hc). cbn [mbind res_bind].
  change (copy_range d 0 15) with (copy_range d 0 (0 + 15)). rewrite (copy_second d Hd 0 15) by lia. cbn [mbind res_bind].
  destruct (gap_then_over d Hd r st F Hc) as (r1 & r2 & st2 & E1 & E2 & R2 & Hn).
  change many_size with 1024. rewrite E1. cbn [mbind res_bind]. rewrite E2. cbn [mbind res_bind].
  unfold stream_out. rewrite <- (Reassembly.ref_next _ _ R2), Hn. rewrite decide_False by lia.
  assert (Hfull : take (Z.to_nat 1024) d = d) by (apply take_ge; by rewrite Hl). rewrite Hfull. unfold equal_range. rewrite decide_True by done.
  rewrite bool_decide_true by (by rewrite take_ge). by exists g.
Qed.

(** ** Loops over numbers *)

Fixpoint spec_loop (n : nat) (i : Z) (steps : Z -> list ReassemblerTestStep) (st : Spec.state) : option Spec.state :=
  match n with O => Some st | S n' => st ← spec_steps (steps i) st; spec_loop n' (i + 1) steps st end.

Lemma spec_loop_refines n i steps h st st' :
  Reassembly.refines (subject h) st -> spec_loop n i steps st = Some st' ->
  exists h', for_printed_from n i (fun i => execute_all reassembler_handlers (steps i)) h = (Ok h', []) /\
    Reassembly.refines (subject h') st'.
Proof.
  revert i h st. induction n as [|n IH]; intros i h st R; cbn [spec_loop for_printed_from]; [intros [= <-]; by exists h|].
  destruct (spec_steps (steps i) st) as [st1|] eqn:E; [|done]. cbn [mbind option_bind]. intros Hl.
  destruct (execute_all_refines reassembler_handlers (steps i) h st st1 R E) as (h1 & E1 & R1).
  destruct (IH (i + 1) h1 st1 R1 Hl) as (h2 & E2 & R2). exists h2. split; [|done]. by rewrite (printed_bind_Ok _ _ _ E1).
Qed.

Definition seq_steps (rest : list ReassemblerTestStep) (i : Z) : list ReassemblerTestStep :=
  [BytesAssembled (4 * i); SubmitSegment (text "abcd") (4 * i) false; NotAtEof] ++ rest.

Lemma seq_loop_passes rest (P : Spec.state -> bool) :
  match spec_loop 100 0 (seq_steps rest) (Spec.init 65000) with Some st => P st | None => false end = true ->
  exists h st, for_printed 100 (seq_iteration rest) (ReassemblerTestHarness 65000) = (Ok h, []) /\
    Reassembly.refines (subject h) st /\ P st = true.
Proof.
  destruct (spec_loop 100 0 (seq_steps rest) (Spec.init 65000)) as [st|] eqn:E; [|done]. intros HP.
  destruct (spec_loop_refines 100 0 (seq_steps rest) (ReassemblerTestHarness 65000) (Spec.init 65000) st) as (h & Eh & R);
    [by apply Reassembly.init_refines|exact E|].
  exists h, st. split; [exact Eh|]. split; [exact R|exact HP].
Qed.

#[local] Opaque for_printed execute_all seq_iteration.

Lemma seq_passes : seq_main = (Ok EXIT_SUCCESS, []).
Proof.
  unfold seq_main. do 2 spec_block. set (ss := concat _). cbv zeta. set (steps := [BytesAvailable ss; NotAtEof]).
  destruct (seq_loop_passes [] (fun st => match spec_steps steps st with Some _ => true | None => false end))
    as (h & st & E & R & HP); [by vm_compute|].
  cbv beta in HP. destruct (spec_steps steps st) as [st1|] eqn:Es; [|discriminate HP]. clear HP.
  destruct (execute_all_refines reassembler_handlers steps h st st1 R Es) as (h1 & E1 & _).
  destruct (seq_loop_passes [BytesAvailable (text "abcd")] (fun _ => true)) as (h2 & _ & E2 & _); [by vm_compute|].
  eapply test_main_bind; [exact E|]. eapply test_main_bind; [exact E1|]. eapply test_main_bind; [exact E2|]. reflexivity.
Qed.

(** The reassembler after [i] bytes of the narrow window, all read. *)
Definition drained (i : Z) (st : Spec.state) : Prop :=
  Spec.next st = i /\ Spec.consumed st = i /\ Spec.pending st = ∅ /\ Spec.cap st = 3.

Lemma drained_push (seg : bytes) i st :
  zlen seg = 6 -> 0 <= i -> drained i st ->
  let st' := Spec.push seg i false st in
  Spec.assembled st' = Spec.assembled st ++ take 3 seg /\ Spec.pending st' = ∅.
Proof.
  intros Hseg Hi (Hn & Hc & Hp & Hcap) st'. assert (Hl : length seg = 6%nat) by (unfold zlen in Hseg; lia).
  assert (Hacc : forall k, Spec.accept seg i st !! k = if decide (i <= k < i + 3) then seg !! Z.to_nat (k - i) else None).
  { intros k. rewrite Spec.lookup_accept, Hp, lookup_empty. unfold Spec.limit. rewrite Hn, Hc, Hcap.
    repeat case_decide; done || lia. }
  assert (Hrun : Spec.run_from (Z.to_nat (Spec.cap st)) (Spec.next st) (Spec.accept seg i st) = take 3 seg).
  { apply Spec.run_from_spec; rewrite ?Hcap, ?Hn.
    - rewrite length_take. lia.
    - intros k Hk. rewrite length_take in Hk. rewrite Hacc, decide_True by lia. rewrite lookup_take_lt by lia. f_equal. lia.
    - rewrite Hacc, decide_False; [done|]. unfold zlen. rewrite length_take. lia. }
  assert (Ha : Spec.assembled st' = Spec.assembled st ++ take 3 seg) by (unfold st'; cbn [Spec.push Spec.assembled]; by rewrite Hrun).
  split; [done|]. apply map_eq. intros k. unfold st'. rewrite Spec.lookup_held_push, lookup_empty, Hacc. fold st'.
  assert (Hn' : Spec.next st' = i + 3).
  { unfold Spec.next in *. rewrite Ha, zlen_app, Hn. unfold zlen. rewrite length_take. lia. }
  rewrite Hn'. repeat case_decide; done || lia.
Qed.

Lemma drained_step (seg : bytes) i st :
  zlen seg = 6 -> 0 <= i <= 2 ^ 20 -> drained i st ->
  exists st', spec_steps [SubmitSegment seg i false; BytesAssembled (i + 3); BytesAvailable (take 3 seg)] st = Some st' /\
    drained (i + 3) st'.
Proof.
  intros Hseg Hi Hst. destruct (drained_push seg i st Hseg ltac:(lia) Hst) as [Ha Hp]. destruct Hst as (Hn & Hc & _ & Hcap).
  assert (Hl : zlen (take 3 seg) = 3) by (unfold zlen in *; rewrite length_take; lia).
  set (st1 := Spec.push seg i false st) in *. assert (Hn1 : Spec.next st1 = i + 3) by (unfold Spec.next in *; rewrite Ha, zlen_app; lia).
  assert (Hb : spec_buffer st1 = take 3 seg).
  { unfold spec_buffer. change (Spec.consumed st1) with (Spec.consumed st). rewrite Ha, Hc. unfold Spec.next, zlen in Hn.
    rewrite drop_app_length'; [done|]. lia. }
  exists (Spec.consume 3 st1). cbn [spec_steps spec_step]. rewrite decide_True by (rewrite Hc, Hcap, Hseg; lia).
  cbn [mbind option_bind]. fold st1. rewrite decide_True by done. cbn [mbind option_bind]. rewrite decide_True by done.
  cbn [mbind option_bind]. rewrite Hl. split; [done|]. split_and!; [by rewrite next_consume| |done|done].
  cbn [Spec.consume Spec.consumed]. change (Spec.consumed st1) with (Spec.consumed st). lia.
Qed.

Lemma cap_loop_passes : exists h, for_printed cap_iterations cap_iteration (ReassemblerTestHarness 3) = (Ok h, []).
Proof.
  destruct (for_printed_inv (fun j h => exists st, Reassembly.refines (subject h) st /\ drained (3 * j) st)
    cap_iteration cap_iterations (ReassemblerTestHarness 3)) as (h & E & _); [done| | |by exists h].
  - exists (Spec.init 3). split; [by apply Reassembly.init_refines|done].
  - intros j h Hj (st & R & Hd). unfold cap_iterations in Hj.
    destruct (drained_step (cap_segment (3 * j)) (3 * j) st ltac:(done) ltac:(lia) Hd) as (st' & Es & Hd').
    destruct (execute_all_refines reassembler_handlers _ h st st' R Es) as (h' & Eh & R').
    exists h'. split; [exact Eh|]. exists st'. split; [done|]. by replace (3 * (j + 1)) with (3 * j + 3) by lia.
Qed.

Lemma cap_passes : cap_main = (Ok EXIT_SUCCESS, []).
Proof.
  unfold cap_main. repeat spec_block. destruct cap_loop_passes as [h E].
  eapply test_main_bind; [exact E|]. reflexivity.
Qed.

(** Substrings of what was read already change nothing. *)
Lemma push_past data index st :
  Spec.pending st = ∅ -> index + zlen data <= Spec.next st -> Spec.eof_at st = None -> Spec.ended st = false ->
  Spec.push data index false st = st.
Proof.
  intros Hp Hle Heof He. assert (Hacc : Spec.accept data index st = ∅).
  { apply map_eq. intros k. rewrite Spec.lookup_accept, Hp, lookup_empty. case_decide; [|done].
    apply lookup_ge_None_2. unfold zlen in Hle. lia. }
  unfold Spec.push. rewrite Hacc, Heof, He.
  assert (Hrun : Spec.run_from (Z.to_nat (Spec.cap st)) (Spec.next st) ∅ = []).
  { apply Spec.run_from_spec; simpl; [lia|lia|done]. }
  rewrite Hrun, app_nil_r, map_filter_empty. destruct st. simpl in *. by subst.
Qed.

Definition dup_state : Spec.state := Spec.mk (text "abcdefgh") ∅ 8 None false 65000.

Lemma dup_steps data start :
  0 <= start -> start + zlen data <= 8 ->
  spec_steps [SubmitSegment data start false; BytesAssembled 8; BytesAvailable []; NotAtEof] dup_state = Some dup_state.
Proof.
  intros Hs Hle. pose proof (zlen_nonneg data). cbn [spec_steps spec_step].
  rewrite decide_True by (change (Spec.consumed dup_state) with 8; change (Spec.cap dup_state) with 65000; lia).
  cbn [mbind option_bind]. rewrite push_past by done. reflexivity.
Qed.

Section DrawnPasses.
Context {K : Type} `{RandomDevice K} `{UniformInt} `{Shuffle}.

Lemma dup_iteration_passes j s :
  Reassembly.refines (subject s.1) dup_state ->
  exists s', dup_iteration j s = (Ok s', []) /\ Reassembly.refines (subject s'.1) dup_state.
Proof.
  destruct s as [h rd]. cbn [fst]. intros R. unfold dup_iteration.
  pose proof (uniform_int_range 0 8 rd ltac:(lia)) as Hu1. destruct (uniform_int 0 8 rd) as [start g1]. cbn [fst] in Hu1.
  pose proof (uniform_int_range start 8 g1 ltac:(lia)) as Hu2. destruct (uniform_int start 8 g1) as [end_i g2]. cbn [fst] in Hu2.
  unfold copy_range. rewrite decide_True by (change (zlen (text "abcdefgh")) with 8; lia).
  set (data := take _ (drop _ (text "abcdefgh"))).
  assert (Hz : zlen data = end_i - start) by (unfold data; rewrite zlen_take, zlen_drop by lia; change (zlen (text "abcdefgh")) with 8; lia).
  clearbody data. rewrite (printed_bind_Ok (quiet (Ok data)) _ data) by done.
  destruct (execute_all_refines reassembler_handlers _ h dup_state dup_state R (dup_steps data start ltac:(lia) ltac:(lia)))
    as (h' & E & R'). rewrite (printed_bind_Ok _ _ _ E). by exists (h', g2).
Qed.

Lemma dup_passes (k : K) : dup_main k = (Ok EXIT_SUCCESS, []).
Proof.
  unfold dup_main. destruct (get_random_generator k) as [rd k']. do 2 spec_block.
  set (first := [SubmitSegment (text "abcdefgh") 0 false; BytesAssembled 8; BytesAvailable (text "abcdefgh"); NotAtEof]).
  destruct (execute_all_refines reassembler_handlers first (ReassemblerTestHarness 65000) (Spec.init 65000) dup_state)
    as (h & E & R); [by apply Reassembly.init_refines|vm_compute; reflexivity|].
  destruct (for_printed_inv (fun _ s => Reassembly.refines (subject s.1) dup_state) dup_iteration 1000 (h, rd))
    as (s & E1 & _); [lia|done|intros j s _ Hs; by apply dup_iteration_passes|].
  eapply test_main_bind; [exact E|]. eapply test_main_bind; [exact E1|]. by spec_block.
Qed.

Lemma loop_passes (body : Z -> engine -> res engine) rd :
  (forall j g, exists g', body j g = Ok g') -> exists g, for_loop NREPS body rd = Ok g.
Proof.
  intros Hb. destruct (for_loop_inv (fun _ _ => True) body NREPS rd) as (g & E & _); [done|done| |by exists g].
  intros j g _ _. destruct (Hb j g) as [g' E]. by exists g'.
Qed.

Lemma win_passes (k : K) : win_main k = (Ok EXIT_SUCCESS, []).
Proof.
  unfold win_main. destruct (get_random_generator k) as [rd k'].
  by destruct (loop_passes win_repetition rd win_repetition_passes) as [g ->].
Qed.

Lemma many_passes (k : K) : many_main k = (Ok EXIT_SUCCESS, []).
Proof.
  unfold many_main. destruct (get_random_generator k) as [rd k'].
  destruct (loop_passes many_fill rd many_fill_passes) as [g1 ->]. cbn [mbind res_bind].
  destruct (loop_passes many_hole g1 many_hole_passes) as [g2 ->]. cbn [mbind res_bind].
  by destruct (loop_passes many_over g2 many_over_passes) as [g3 ->].
Qed.
End DrawnPasses.

(** C34: the randomized tests of the reassembler pass.  Whatever the random device delivers,
    whatever numbers of its interval the uniform distribution returns and however [std::shuffle]
    permutes the segments, the programs fsm_stream_reassembler_win (overlapping segments that
    cover a random string), fsm_stream_reassembler_many (disjoint segments; an end mark in a gap
    and over bytes held back) and fsm_stream_reassembler_dup (repeated segments) never fault,
    print nothing and exit with success: everything that was cut up comes out, in order. *)
Theorem reassembler_tests_pass {K} `{RandomDevice K} `{UniformInt} `{Shuffle} (k : K) :
  win_main k = (Ok EXIT_SUCCESS, []) /\ many_main k = (Ok EXIT_SUCCESS, []) /\ dup_main k = (Ok EXIT_SUCCESS, []).
Proof. split_and!; [apply win_passes|apply many_passes|apply dup_passes]. Qed.

Lemma reassembler_tests_pass_witness :
  @win_main Z counting Sample.shuffle 0 = (Ok EXIT_SUCCESS, []) /\
  @dup_main Z counting Sample.uniform_int 0 = (Ok EXIT_SUCCESS, []).
Proof. destruct (@reassembler_tests_pass Z counting Sample.uniform_int Sample.shuffle 0) as (H1 & _ & H3). exact (conj H1 H3). Defined.

End ReassemblerTestsPass.
