(* ===== verification/ReceiverTests.v ===== *)
(** * The tests of the receiver (tests/recv_*.cc)

    The harness of receiver_harness.hh with its steps, and five of the programs: the SYN, the
    FIN, segments out of order, special segments and the window.  Those that draw the initial
    sequence number are run here on one draw. *)

From stdpp Require Import pretty.
From S2P Require Import Prelude ByteStream WrappingIntegers Buffer TCPHeader TCPSegment TCPReceiver TCPState.
From S2P Require Import Random Webget Printing TestSupport.

Module ReceiverTests.

Import WrappingInt32.

(** ** receiver_harness.hh *)

(** [enum class Result] *)
Inductive Result : Set := NOT_SYN | OK.

#[export] Instance Result_eq_dec : EqDecision Result.
Proof. solve_decision. Defined.

Definition result_name (r : Result) : string :=
  match r with NOT_SYN => "(no SYN received, so no ackno available)" | OK => "(SYN received, so ackno available)" end.

(** The members of [struct SegmentArrives] *)
Record arrival := mk_arrival {
  ack : bool;
  rst : bool;
  syn : bool;
  fin : bool;
  seqno : WrappingInt32;
  ackno : WrappingInt32;
  win : Z;
  data : bytes;
  result : option Result
}.

Definition segment : arrival := mk_arrival false false false false (mk 0) (mk 0) 0 [] None.
Definition with_ack (n : Z) (a : arrival) : arrival :=
  mk_arrival true (rst a) (syn a) (fin a) (seqno a) (mk n) (win a) (data a) (result a).
Definition with_syn (a : arrival) : arrival :=
  mk_arrival (ack a) (rst a) true (fin a) (seqno a) (ackno a) (win a) (data a) (result a).
Definition with_fin (a : arrival) : arrival :=
  mk_arrival (ack a) (rst a) (syn a) true (seqno a) (ackno a) (win a) (data a) (result a).
Definition with_seqno (n : Z) (a : arrival) : arrival :=
  mk_arrival (ack a) (rst a) (syn a) (fin a) (mk (to_u32 n)) (ackno a) (win a) (data a) (result a).
Definition with_data (d : bytes) (a : arrival) : arrival :=
  mk_arrival (ack a) (rst a) (syn a) (fin a) (seqno a) (ackno a) (win a) d (result a).
Definition with_result (r : Result) (a : arrival) : arrival :=
  mk_arrival (ack a) (rst a) (syn a) (fin a) (seqno a) (ackno a) (win a) (data a) (Some r).

Declare Scope arrival_scope.
Notation "e ▹ f" := (f e) (at level 62, left associativity, only parsing) : arrival_scope.
#[local] Open Scope arrival_scope.

(** [TCPSegment build_segment() const] *)
Definition build_segment (a : arrival) : TCPSegment.TCPSegment :=
  let h := TCPHeader.default_header in
  TCPSegment.mk (TCPHeader.mk (TCPHeader.sport h) (TCPHeader.dport h) (seqno a) (ackno a) (TCPHeader.doff h) (TCPHeader.urg h)
    (ack a) (TCPHeader.psh h) (rst a) (syn a) (fin a) (win a) (TCPHeader.cksum h) (TCPHeader.uptr h)) (Buffer.of_string (data a)).

Inductive ReceiverTestStep : Set :=
  | ExpectState (_state : string)
  | ExpectAckno (_ackno : option WrappingInt32)
  | ExpectWindow (_window : Z)
  | ExpectUnassembledBytes (_n_bytes : Z)
  | ExpectTotalAssembledBytes (_n_bytes : Z)
  | ExpectEof
  | ExpectInputNotEnded
  | ExpectBytes (_bytes : bytes)
  | SegmentArrives (_segment : arrival).

Abbreviation receiver := TCPReceiver.TCPReceiver.

Definition ackno_string (none : string) (o : option WrappingInt32) : string :=
  match o with Some n => pretty (raw_value n) | None => none end.

Definition arrival_string (a : arrival) : string :=
  string_of (HeaderText.summary (TCPSegment.header (build_segment a))) +:+
  (if decide (zlen (data a) > 0) then " with data " +:+ quoted (string_of (data a)) else "").

(** [virtual void execute(TCPReceiver &) const] of the steps *)
Definition execute_receiver (step : ReceiverTestStep) (r : receiver) : verdict receiver :=
  let stream := TCPReceiver.stream_out r in
  match step with
  | ExpectState state =>
      let actual := TCPState.receiver_state_summary r in
      expect (bool_decide (actual = state))
        (fun _ => "The TCPReceiver was in state `" +:+ actual +:+ "`, but it was expected to be in state `" +:+ state +:+ "`") r
  | ExpectAckno n =>
      expect (bool_decide (TCPReceiver.ackno r = n))
        (fun _ => "The TCPReceiver reported ackno `" +:+ ackno_string "none" (TCPReceiver.ackno r)
           +:+ "`, but it was expected to be `" +:+ ackno_string "none" n +:+ "`") r
  | ExpectWindow n =>
      expect (bool_decide (TCPReceiver.window_size r = n))
        (fun _ => "The TCPReceiver reported window `" +:+ pretty (TCPReceiver.window_size r)
           +:+ "`, but it was expected to be `" +:+ pretty n +:+ "`") r
  | ExpectUnassembledBytes n =>
      expect (bool_decide (TCPReceiver.unassembled_bytes r = n))
        (fun _ => "The TCPReceiver reported `" +:+ pretty (TCPReceiver.unassembled_bytes r)
           +:+ "` unassembled bytes, but there was expected to be `" +:+ pretty n +:+ "` unassembled bytes") r
  | ExpectTotalAssembledBytes n =>
      expect (bool_decide (ByteStream.bytes_written stream = n))
        (fun _ => "The TCPReceiver stream reported `" +:+ pretty (ByteStream.bytes_written stream)
           +:+ "` bytes written, but there was expected to be `" +:+ pretty n +:+ "` bytes written (in total)") r
  | ExpectEof =>
      expect (ByteStream.eof stream) (fun _ => "The TCPReceiver stream reported eof() == false, but was expected to be true") r
  | ExpectInputNotEnded =>
      expect (negb (ByteStream.input_ended stream))
        (fun _ => "The TCPReceiver stream reported input_ended() == true, but was expected to be false") r
  | ExpectBytes d =>
      if decide (ByteStream.buffer_size stream <> zlen d)
      then Violation ("The TCPReceiver reported `" +:+ pretty (ByteStream.buffer_size stream)
             +:+ "` bytes available, but there were expected to be `" +:+ pretty (zlen d) +:+ "` bytes available")
      else match TCPReceiver.read_out (zlen d) r with
      | Err f => Faulted f
      | Ok (found, r) =>
          expect (bool_decide (found = d))
            (fun _ => "the TCPReceiver assembled " +:+ quoted (string_of found) +:+ ", but was expected to assemble "
               +:+ quoted (string_of d) +:+ ".") r
      end
  | SegmentArrives a =>
      match TCPReceiver.segment_received (build_segment a) r with
      | Err f => Faulted f
      | Ok r =>
          let res := if decide (TCPReceiver.ackno r = None) then NOT_SYN else OK in
          match result a with
          | None => Passed r
          | Some want =>
              expect (bool_decide (want = res))
                (fun _ => "TCPReceiver::segment_received() reported `" +:+ result_name res +:+ "` in response to `"
                   +:+ arrival_string a +:+ "`, but it was expected to report `" +:+ result_name want +:+ "`") r
          end
      end
  end.

(** [std::string to_string() const] of the steps, with their descriptions *)
Definition receiver_step_string (step : ReceiverTestStep) : string :=
  match step with
  | ExpectState state => "Expectation: in state `" +:+ state +:+ "`"
  | ExpectAckno (Some n) => "Expectation: ackno " +:+ pretty (raw_value n)
  | ExpectAckno None => "Expectation: no ackno available"
  | ExpectWindow n => "Expectation: window " +:+ pretty n
  | ExpectUnassembledBytes n => "Expectation: " +:+ pretty n +:+ " unassembled bytes"
  | ExpectTotalAssembledBytes n => "Expectation: " +:+ pretty n +:+ " assembled bytes, in total"
  | ExpectEof => "Expectation: receiver.stream_out().eof() == true"
  | ExpectInputNotEnded => "Expectation: receiver.stream_out().input_ended() == false"
  | ExpectBytes d => "Expectation: bytes available: " +:+ quoted (string_of d)
  | SegmentArrives a => "Action:      segment arrives " +:+ arrival_string a
  end.

#[export] Instance receiver_steps : TestStep receiver ReceiverTestStep :=
  {| execute_step := execute_receiver; step_string := receiver_step_string |}.

(** [TCPReceiverTestHarness(size_t capacity)] *)
Definition TCPReceiverTestHarness (capacity : Z) : harness receiver :=
  mk_harness (TCPReceiver.construct capacity) ["Initialized with (capacity=" +:+ pretty capacity +:+ ")"].

(** [TCPReceiverTestHarness::execute] passes a violated expectation on and catches nothing else. *)
Definition receiver_handlers : handlers := mk_handlers (fun what => what) None.

(** ** The programs *)

Definition test (capacity : Z) (steps : list ReceiverTestStep) : printed () :=
  block receiver_handlers (TCPReceiverTestHarness capacity) steps.

Abbreviation plain := (fun what : string => what).

Definition seqno_at (n : Z) : option WrappingInt32 := Some (mk (to_u32 n)).

(** ** recv_connect.cc *)

Definition recv_connect_tests : printed () :=
  _ ← test 4000 [
    ExpectWindow 4000; ExpectAckno None; ExpectUnassembledBytes 0; ExpectTotalAssembledBytes 0;
    SegmentArrives (segment ▹ with_syn ▹ with_seqno 0 ▹ with_result OK); ExpectAckno (seqno_at 1);
    ExpectUnassembledBytes 0; ExpectTotalAssembledBytes 0];
  _ ← test 5435 [
    ExpectAckno None; ExpectUnassembledBytes 0; ExpectTotalAssembledBytes 0;
    SegmentArrives (segment ▹ with_syn ▹ with_seqno 89347598 ▹ with_result OK); ExpectAckno (seqno_at 89347599);
    ExpectUnassembledBytes 0; ExpectTotalAssembledBytes 0];
  _ ← test 5435 [
    ExpectAckno None; ExpectUnassembledBytes 0; ExpectTotalAssembledBytes 0;
    SegmentArrives (segment ▹ with_seqno 893475 ▹ with_result NOT_SYN); ExpectAckno None; ExpectUnassembledBytes 0;
    ExpectTotalAssembledBytes 0];
  _ ← test 5435 [
    ExpectAckno None; ExpectUnassembledBytes 0; ExpectTotalAssembledBytes 0;
    SegmentArrives (segment ▹ with_ack 0 ▹ with_fin ▹ with_seqno 893475 ▹ with_result NOT_SYN); ExpectAckno None;
    ExpectUnassembledBytes 0; ExpectTotalAssembledBytes 0];
  _ ← test 5435 [
    ExpectAckno None; ExpectUnassembledBytes 0; ExpectTotalAssembledBytes 0;
    SegmentArrives (segment ▹ with_ack 0 ▹ with_fin ▹ with_seqno 893475 ▹ with_result NOT_SYN); ExpectAckno None;
    ExpectUnassembledBytes 0; ExpectTotalAssembledBytes 0;
    SegmentArrives (segment ▹ with_syn ▹ with_seqno 89347598 ▹ with_result OK); ExpectAckno (seqno_at 89347599);
    ExpectUnassembledBytes 0; ExpectTotalAssembledBytes 0];
  _ ← test 4000 [
    SegmentArrives (segment ▹ with_syn ▹ with_seqno 5 ▹ with_fin ▹ with_result OK);
    ExpectState TCPReceiverStateSummary.FIN_RECV; ExpectAckno (seqno_at 7); ExpectUnassembledBytes 0;
    ExpectTotalAssembledBytes 0];
  let cap := 65535 + 5 in
  test cap [
    ExpectWindow cap].
Definition recv_connect_main : printed Z := run_main 1 plain recv_connect_tests.

(** ** recv_window.cc *)

Definition recv_window_tests : printed () :=
  let isn := 23452 in
  let cap := 4000 in
  _ ← test cap [
    SegmentArrives (segment ▹ with_syn ▹ with_seqno isn ▹ with_result OK); ExpectAckno (seqno_at (isn + 1));
    ExpectWindow cap; SegmentArrives (segment ▹ with_seqno (isn + 1) ▹ with_data (text "abcd") ▹ with_result OK);
    ExpectAckno (seqno_at (isn + 5)); ExpectWindow (cap - 4);
    SegmentArrives (segment ▹ with_seqno (isn + 9) ▹ with_data (text "ijkl") ▹ with_result OK);
    ExpectAckno (seqno_at (isn + 5)); ExpectWindow (cap - 4);
    SegmentArrives (segment ▹ with_seqno (isn + 5) ▹ with_data (text "efgh") ▹ with_result OK);
    ExpectAckno (seqno_at (isn + 13)); ExpectWindow (cap - 12)];
  let isn := 23452 in
  let cap := 4000 in
  _ ← test cap [
    SegmentArrives (segment ▹ with_syn ▹ with_seqno isn ▹ with_result OK); ExpectAckno (seqno_at (isn + 1));
    ExpectWindow cap; SegmentArrives (segment ▹ with_seqno (isn + 1) ▹ with_data (text "abcd") ▹ with_result OK);
    ExpectAckno (seqno_at (isn + 5)); ExpectWindow (cap - 4); ExpectBytes (text "abcd");
    ExpectAckno (seqno_at (isn + 5)); ExpectWindow cap];
  let isn := 23452 in
  let cap := 2 in
  _ ← test cap [
    SegmentArrives (segment ▹ with_syn ▹ with_seqno isn ▹ with_result OK);
    SegmentArrives (segment ▹ with_seqno (isn + 2) ▹ with_data (text "bc") ▹ with_result OK);
    ExpectTotalAssembledBytes 0;
    SegmentArrives (segment ▹ with_seqno (isn + 1) ▹ with_data (text "a") ▹ with_result OK);
    ExpectAckno (seqno_at (isn + 3)); ExpectWindow 0; ExpectTotalAssembledBytes 2; ExpectBytes (text "ab");
    ExpectWindow 2];
  let isn := 294058 in
  let cap := 4 in
  _ ← test cap [
    SegmentArrives (segment ▹ with_syn ▹ with_seqno isn ▹ with_result OK);
    SegmentArrives (segment ▹ with_data (text "ab") ▹ with_seqno (isn + 1) ▹ with_result OK);
    ExpectTotalAssembledBytes 2; ExpectWindow (cap - 2);
    SegmentArrives (segment ▹ with_data (text "abc") ▹ with_seqno (isn + 1) ▹ with_result OK);
    ExpectTotalAssembledBytes 3; ExpectWindow (cap - 3)];
  let isn := 23452 in
  let cap := 4 in
  _ ← test cap [
    SegmentArrives (segment ▹ with_syn ▹ with_seqno isn ▹ with_result OK);
    SegmentArrives (segment ▹ with_seqno (isn + 1) ▹ with_data (text "ab") ▹ with_result OK);
    SegmentArrives (segment ▹ with_seqno (isn + 3) ▹ with_data (text "cdef") ▹ with_result OK)];
  let isn := 23452 in
  let cap := 4 in
  _ ← test cap [
    SegmentArrives (segment ▹ with_syn ▹ with_seqno isn ▹ with_result OK);
    SegmentArrives (segment ▹ with_seqno (isn + 1) ▹ with_data (text "ab") ▹ with_result OK);
    SegmentArrives (segment ▹ with_seqno (isn + 3) ▹ with_data (text "cd") ▹ with_result OK)];
  let isn := 23452 in
  let cap := 4 in
  test cap [
    SegmentArrives (segment ▹ with_syn ▹ with_seqno isn ▹ with_result OK);
    SegmentArrives (segment ▹ with_seqno isn ▹ with_data (text "a") ▹ with_result OK); ExpectTotalAssembledBytes 0].
Definition recv_window_main : printed Z := run_main 1 plain recv_window_tests.

Section Programs.
Context {K : Type} `{RandomDevice K} `{UniformInt}.

(** ** recv_close.cc *)

Definition recv_close_tests (rd : engine) : printed () :=
  let '(isn, rd) := uniform_int 0 (2 ^ 32 - 1) rd in
  _ ← test 4000 [
    ExpectState TCPReceiverStateSummary.LISTEN;
    SegmentArrives (segment ▹ with_syn ▹ with_seqno (isn + 0) ▹ with_result OK);
    ExpectState TCPReceiverStateSummary.SYN_RECV;
    SegmentArrives (segment ▹ with_fin ▹ with_seqno (isn + 1) ▹ with_result OK); ExpectAckno (seqno_at (isn + 2));
    ExpectUnassembledBytes 0; ExpectBytes (text ""); ExpectTotalAssembledBytes 0;
    ExpectState TCPReceiverStateSummary.FIN_RECV];
  let '(isn, rd) := uniform_int 0 (2 ^ 32 - 1) rd in
  test 4000 [
    ExpectState TCPReceiverStateSummary.LISTEN;
    SegmentArrives (segment ▹ with_syn ▹ with_seqno (isn + 0) ▹ with_result OK);
    ExpectState TCPReceiverStateSummary.SYN_RECV;
    SegmentArrives (segment ▹ with_fin ▹ with_seqno (isn + 1) ▹ with_data (text "a") ▹ with_result OK);
    ExpectState TCPReceiverStateSummary.FIN_RECV; ExpectAckno (seqno_at (isn + 3)); ExpectUnassembledBytes 0;
    ExpectBytes (text "a"); ExpectTotalAssembledBytes 1; ExpectState TCPReceiverStateSummary.FIN_RECV].
Definition recv_close_main (k : K) : printed Z := run_main 1 plain (
  let '(rd, _) := get_random_generator k in recv_close_tests rd).

(** ** recv_reorder.cc *)

Definition recv_reorder_tests (rd : engine) : printed () :=
  let '(isn, rd) := uniform_int 0 (2 ^ 32 - 1) rd in
  _ ← test 2358 [
    SegmentArrives (segment ▹ with_syn ▹ with_seqno isn ▹ with_result OK); ExpectAckno (seqno_at (isn + 1));
    SegmentArrives (segment ▹ with_seqno (isn + 10) ▹ with_data (text "abcd") ▹ with_result OK);
    ExpectAckno (seqno_at (isn + 1)); ExpectBytes (text ""); ExpectUnassembledBytes 4; ExpectTotalAssembledBytes 0];
  let '(isn, rd) := uniform_int 0 (2 ^ 32 - 1) rd in
  _ ← test 2358 [
    SegmentArrives (segment ▹ with_syn ▹ with_seqno isn ▹ with_result OK); ExpectAckno (seqno_at (isn + 1));
    SegmentArrives (segment ▹ with_seqno (isn + 5) ▹ with_data (text "efgh") ▹ with_result OK);
    ExpectAckno (seqno_at (isn + 1)); ExpectBytes (text ""); ExpectUnassembledBytes 4; ExpectTotalAssembledBytes 0;
    SegmentArrives (segment ▹ with_seqno (isn + 1) ▹ with_data (text "abcd") ▹ with_result OK);
    ExpectAckno (seqno_at (isn + 9)); ExpectBytes (text "abcdefgh"); ExpectUnassembledBytes 0;
    ExpectTotalAssembledBytes 8];
  let '(isn, rd) := uniform_int 0 (2 ^ 32 - 1) rd in
  _ ← test 2358 [
    SegmentArrives (segment ▹ with_syn ▹ with_seqno isn ▹ with_result OK); ExpectAckno (seqno_at (isn + 1));
    SegmentArrives (segment ▹ with_seqno (isn + 5) ▹ with_data (text "efgh") ▹ with_result OK);
    ExpectAckno (seqno_at (isn + 1)); ExpectBytes (text ""); ExpectUnassembledBytes 4; ExpectTotalAssembledBytes 0;
    SegmentArrives (segment ▹ with_seqno (isn + 1) ▹ with_data (text "ab") ▹ with_result OK);
    ExpectAckno (seqno_at (isn + 3)); ExpectBytes (text "ab"); ExpectUnassembledBytes 4; ExpectTotalAssembledBytes 2;
    SegmentArrives (segment ▹ with_seqno (isn + 3) ▹ with_data (text "cd") ▹ with_result OK);
    ExpectAckno (seqno_at (isn + 9)); ExpectBytes (text "cdefgh"); ExpectUnassembledBytes 0;
    ExpectTotalAssembledBytes 8];
  let '(isn, rd) := uniform_int 0 (2 ^ 32 - 1) rd in
  _ ← test 2358 [
    SegmentArrives (segment ▹ with_syn ▹ with_seqno isn ▹ with_result OK); ExpectAckno (seqno_at (isn + 1));
    SegmentArrives (segment ▹ with_seqno (isn + 5) ▹ with_data (text "e") ▹ with_result OK);
    ExpectAckno (seqno_at (isn + 1)); ExpectBytes (text ""); ExpectUnassembledBytes 1; ExpectTotalAssembledBytes 0;
    SegmentArrives (segment ▹ with_seqno (isn + 7) ▹ with_data (text "g") ▹ with_result OK);
    ExpectAckno (seqno_at (isn + 1)); ExpectBytes (text ""); ExpectUnassembledBytes 2; ExpectTotalAssembledBytes 0;
    SegmentArrives (segment ▹ with_seqno (isn + 3) ▹ with_data (text "c") ▹ with_result OK);
    ExpectAckno (seqno_at (isn + 1)); ExpectBytes (text ""); ExpectUnassembledBytes 3; ExpectTotalAssembledBytes 0;
    SegmentArrives (segment ▹ with_seqno (isn + 1) ▹ with_data (text "ab") ▹ with_result OK);
    ExpectAckno (seqno_at (isn + 4)); ExpectBytes (text "abc"); ExpectUnassembledBytes 2;
    ExpectTotalAssembledBytes 3;
    SegmentArrives (segment ▹ with_seqno (isn + 6) ▹ with_data (text "f") ▹ with_result OK);
    ExpectUnassembledBytes 3; ExpectTotalAssembledBytes 3; ExpectBytes (text "");
    SegmentArrives (segment ▹ with_seqno (isn + 4) ▹ with_data (text "d") ▹ with_result OK);
    ExpectUnassembledBytes 0; ExpectTotalAssembledBytes 7; ExpectBytes (text "defg")];
  let '(isn, rd) := uniform_int 0 (2 ^ 32 - 1) rd in
  test 2358 [
    SegmentArrives (segment ▹ with_syn ▹ with_seqno isn ▹ with_result OK); ExpectAckno (seqno_at (isn + 1));
    SegmentArrives (segment ▹ with_seqno (isn + 5) ▹ with_data (text "e") ▹ with_result OK);
    ExpectAckno (seqno_at (isn + 1)); ExpectBytes (text ""); ExpectUnassembledBytes 1; ExpectTotalAssembledBytes 0;
    SegmentArrives (segment ▹ with_seqno (isn + 7) ▹ with_data (text "g") ▹ with_result OK);
    ExpectAckno (seqno_at (isn + 1)); ExpectBytes (text ""); ExpectUnassembledBytes 2; ExpectTotalAssembledBytes 0;
    SegmentArrives (segment ▹ with_seqno (isn + 3) ▹ with_data (text "c") ▹ with_result OK);
    ExpectAckno (seqno_at (isn + 1)); ExpectBytes (text ""); ExpectUnassembledBytes 3; ExpectTotalAssembledBytes 0;
    SegmentArrives (segment ▹ with_seqno (isn + 1) ▹ with_data (text "abcdefgh") ▹ with_result OK);
    ExpectAckno (seqno_at (isn + 9)); ExpectBytes (text "abcdefgh"); ExpectUnassembledBytes 0;
    ExpectTotalAssembledBytes 8].
Definition recv_reorder_main (k : K) : printed Z := run_main 1 plain (
  let '(rd, _) := get_random_generator k in recv_reorder_tests rd).

(** ** recv_special.cc *)

(** ["Here's a null byte:"s + '\0' + "and it's gone."s] *)
Definition null_text : bytes := text "Here's a null byte:" ++ [Byte.x00] ++ text "and it's gone.".

Definition recv_special_tests (rd : engine) : printed () :=
  let '(isn, rd) := uniform_int 0 (2 ^ 32 - 1) rd in
  _ ← test 4000 [
    ExpectState TCPReceiverStateSummary.LISTEN;
    SegmentArrives (segment ▹ with_seqno (isn + 1) ▹ with_data (text "hello") ▹ with_result NOT_SYN);
    ExpectState TCPReceiverStateSummary.LISTEN; ExpectUnassembledBytes 0; ExpectBytes (text "");
    ExpectTotalAssembledBytes 0; SegmentArrives (segment ▹ with_syn ▹ with_seqno isn ▹ with_result OK);
    ExpectState TCPReceiverStateSummary.SYN_RECV; ExpectAckno (seqno_at (isn + 1))];
  let '(isn, rd) := uniform_int 0 (2 ^ 32 - 1) rd in
  _ ← test 4000 [
    ExpectState TCPReceiverStateSummary.LISTEN;
    SegmentArrives (segment ▹ with_syn ▹ with_seqno isn ▹ with_data (text "Hello, CS144!") ▹ with_result OK);
    ExpectState TCPReceiverStateSummary.SYN_RECV; ExpectAckno (seqno_at (isn + 14)); ExpectUnassembledBytes 0;
    ExpectBytes (text "Hello, CS144!")];
  let '(isn, rd) := uniform_int 0 (2 ^ 32 - 1) rd in
  _ ← test 4000 [
    ExpectState TCPReceiverStateSummary.LISTEN;
    SegmentArrives (segment ▹ with_syn ▹ with_seqno isn ▹ with_result OK);
    ExpectState TCPReceiverStateSummary.SYN_RECV; ExpectAckno (seqno_at (isn + 1)); ExpectUnassembledBytes 0;
    SegmentArrives (segment ▹ with_syn ▹ with_seqno (isn + 1) ▹ with_result OK); ExpectUnassembledBytes 0;
    ExpectTotalAssembledBytes 0; ExpectInputNotEnded;
    SegmentArrives (segment ▹ with_syn ▹ with_seqno (isn + 5) ▹ with_result OK); ExpectUnassembledBytes 0;
    ExpectTotalAssembledBytes 0; ExpectInputNotEnded];
  let '(isn, rd) := uniform_int 0 (2 ^ 32 - 1) rd in
  _ ← test 4000 [
    ExpectState TCPReceiverStateSummary.LISTEN;
    SegmentArrives (segment ▹ with_syn ▹ with_seqno isn ▹ with_result OK);
    ExpectState TCPReceiverStateSummary.SYN_RECV; ExpectUnassembledBytes 0; ExpectTotalAssembledBytes 0;
    SegmentArrives (segment ▹ with_seqno (isn + 1) ▹ with_data null_text ▹ with_result OK); ExpectBytes null_text;
    ExpectAckno (seqno_at (isn + 35)); ExpectInputNotEnded];
  let '(isn, rd) := uniform_int 0 (2 ^ 32 - 1) rd in
  _ ← test 4000 [
    ExpectState TCPReceiverStateSummary.LISTEN;
    SegmentArrives (segment ▹ with_syn ▹ with_seqno isn ▹ with_result OK);
    ExpectState TCPReceiverStateSummary.SYN_RECV;
    SegmentArrives (segment ▹ with_fin ▹ with_data (text "Goodbye, CS144!") ▹ with_seqno (isn + 1) ▹ with_result OK);
    ExpectState TCPReceiverStateSummary.FIN_RECV; ExpectBytes (text "Goodbye, CS144!");
    ExpectAckno (seqno_at (isn + 17)); ExpectEof];
  let '(isn, rd) := uniform_int 0 (2 ^ 32 - 1) rd in
  _ ← test 4000 [
    ExpectState TCPReceiverStateSummary.LISTEN;
    SegmentArrives (segment ▹ with_syn ▹ with_seqno isn ▹ with_result OK);
    ExpectState TCPReceiverStateSummary.SYN_RECV;
    SegmentArrives (segment ▹ with_fin ▹ with_data (text "oodbye, CS144!") ▹ with_seqno (isn + 2) ▹ with_result OK);
    ExpectState TCPReceiverStateSummary.SYN_RECV; ExpectBytes (text ""); ExpectAckno (seqno_at (isn + 1));
    ExpectInputNotEnded; SegmentArrives (segment ▹ with_data (text "G") ▹ with_seqno (isn + 1) ▹ with_result OK);
    ExpectState TCPReceiverStateSummary.FIN_RECV; ExpectBytes (text "Goodbye, CS144!");
    ExpectAckno (seqno_at (isn + 17)); ExpectEof];
  let '(isn, rd) := uniform_int 0 (2 ^ 32 - 1) rd in
  test 4000 [
    ExpectState TCPReceiverStateSummary.LISTEN;
    SegmentArrives (segment ▹ with_syn ▹ with_seqno isn ▹ with_data (text "Hello and goodbye, CS144!") ▹ with_fin ▹ with_result OK);
    ExpectState TCPReceiverStateSummary.FIN_RECV; ExpectAckno (seqno_at (isn + 27)); ExpectUnassembledBytes 0;
    ExpectBytes (text "Hello and goodbye, CS144!"); ExpectEof].
Definition recv_special_main (k : K) : printed Z := run_main 1 plain (
  let '(rd, _) := get_random_generator k in recv_special_tests rd).

End Programs.

(** ** Runs *)

(** A state of the generator. *)
Definition sample_engine : engine := mt19937.mk (map (fun i => to_u32 (i * 2654435761)) (seqZ 1 624)) 0.

#[local] Existing Instance Sample.uniform_int.

Example recv_connect_passes : recv_connect_main = (Ok EXIT_SUCCESS, []).
Proof. by vm_compute. Qed.

Example recv_window_passes : recv_window_main = (Ok EXIT_SUCCESS, []).
Proof. by vm_compute. Qed.

Example recv_close_passes : recv_close_tests sample_engine = (Ok (), []).
Proof. by vm_compute. Qed.

Example recv_reorder_passes : recv_reorder_tests sample_engine = (Ok (), []).
Proof. by vm_compute. Qed.

Example recv_special_passes : recv_special_tests sample_engine = (Ok (), []).
Proof. by vm_compute. Qed.

End ReceiverTests.
