(* ===== verification/SenderTests.v ===== *)
(** * The tests of the sender (tests/send_*.cc)

    The harness of sender_harness.hh with its steps, and four of the programs: the SYN and its
    acknowledgment, repeated, old and impossible acknowledgments, the FIN, and the
    retransmissions with their back-off.  They draw the initial sequence number and the timeout;
    they are run here on one draw. *)

From stdpp Require Import pretty.
From S2P Require Import Prelude ByteStream WrappingIntegers Buffer TCPHeader TCPSegment TCPSender TCPState.
From S2P Require Import Random Webget Printing TestSupport.

Module SenderTests.

Import WrappingInt32.

(** ** sender_harness.hh *)

Definition DEFAULT_TEST_WINDOW : Z := 137.

(** [struct ExpectSegment]: the fields that a segment is expected to have *)
Record expected := mk_expected {
  ack : option bool;
  rst : option bool;
  syn : option bool;
  fin : option bool;
  seqno : option WrappingInt32;
  ackno : option WrappingInt32;
  win : option Z;
  payload_size : option Z;
  data : option bytes
}.

Definition any_segment : expected := mk_expected None None None None None None None None None.
Definition with_syn (b : bool) (e : expected) : expected :=
  mk_expected (ack e) (rst e) (Some b) (fin e) (seqno e) (ackno e) (win e) (payload_size e) (data e).
Definition with_fin (b : bool) (e : expected) : expected :=
  mk_expected (ack e) (rst e) (syn e) (Some b) (seqno e) (ackno e) (win e) (payload_size e) (data e).
Definition with_no_flags (e : expected) : expected :=
  mk_expected (Some false) (Some false) (Some false) (Some false) (seqno e) (ackno e) (win e) (payload_size e) (data e).
Definition with_seqno (n : WrappingInt32) (e : expected) : expected :=
  mk_expected (ack e) (rst e) (syn e) (fin e) (Some n) (ackno e) (win e) (payload_size e) (data e).
Definition with_payload_size (n : Z) (e : expected) : expected :=
  mk_expected (ack e) (rst e) (syn e) (fin e) (seqno e) (ackno e) (win e) (Some n) (data e).
Definition with_data (d : bytes) (e : expected) : expected :=
  mk_expected (ack e) (rst e) (syn e) (fin e) (seqno e) (ackno e) (win e) (payload_size e) (Some d).

Declare Scope builder_scope.
Notation "e ▹ f" := (f e) (at level 62, left associativity, only parsing) : builder_scope.
#[local] Open Scope builder_scope.

Inductive SenderTestStep : Set :=
  | ExpectState (_state : string)
  | ExpectSeqno (_seqno : WrappingInt32)
  | ExpectBytesInFlight (_n_bytes : Z)
  | ExpectNoSegment
  | WriteBytes (_bytes : bytes) (_end_input : bool)
  | Tick (_ms : Z) (max_retx_exceeded : option bool)
  | AckReceived (_ackno : WrappingInt32) (_window_advertisement : option Z)
  | Close
  | ExpectSegment (_expected : expected).

(** The sender and [outbound_segments]. *)
Record subject_state : Set := mk_subject { sender : TCPSender.TCPSender; outbound_segments : list TCPSegment.TCPSegment }.

(** [SegmentExpectationViolation::violated_field] *)
Definition violated_field (field_name expected_value actual_value : string) : string :=
  "The Sender produced a segment with `" +:+ field_name +:+ " = " +:+ actual_value +:+ "`, but " +:+ field_name
  +:+ " was expected to be `" +:+ expected_value +:+ "`".

(** The first check that fails, if any. *)
Definition check_field {A} `{TestValue A} (name : string) (want : option A) (have : A) : option string :=
  match want with
  | Some v => if same have v then None else Some (violated_field name (shown v) (shown have))
  | None => None
  end.

Definition check_segment (e : expected) (seg : TCPSegment.TCPSegment) : option string :=
  let h := TCPSegment.header seg in
  let payload := Buffer.str (TCPSegment.payload seg) in
  let checks : list (() -> option string) :=
    [fun _ => check_field "ack" (ack e) (TCPHeader.ack h);
     fun _ => check_field "rst" (rst e) (TCPHeader.rst h);
     fun _ => check_field "syn" (syn e) (TCPHeader.syn h);
     fun _ => check_field "fin" (fin e) (TCPHeader.fin h);
     fun _ => check_field "seqno" (seqno e) (TCPHeader.seqno h);
     fun _ => check_field "ackno" (ackno e) (TCPHeader.ackno h);
     fun _ => check_field "win" (win e) (TCPHeader.win h);
     fun _ => check_field "payload_size" (payload_size e) (zlen payload);
     fun _ => if decide (zlen payload > TCPConfig.MAX_PAYLOAD_SIZE)
              then Some ("packet has length (" +:+ pretty (zlen payload) +:+ ") greater than the maximum") else None;
     fun _ => match data e with
              | Some d => if decide (payload = d) then None
                          else Some ("payloads differ. expected " +:+ quoted (string_of d) +:+ " but found "
                                       +:+ quoted (string_of payload))
              | None => None
              end] in
  foldr (fun check rest => match check () with Some what => Some what | None => rest end) None checks.

(** [virtual void execute(TCPSender &, std::queue<TCPSegment> &) const] of the steps *)
Definition execute_sender (step : SenderTestStep) (st : subject_state) : verdict subject_state :=
  let s := sender st in
  let acting (m : res TCPSender.TCPSender) := acted (s ← m; Ok (mk_subject s (outbound_segments st))) in
  match step with
  | ExpectState state =>
      let actual := TCPState.sender_state_summary s in
      expect (bool_decide (actual = state))
        (fun _ => "The TCPSender was in state `" +:+ actual +:+ "`, but it was expected to be in state `" +:+ state +:+ "`") st
  | ExpectSeqno n =>
      expect (eqb (TCPSender.next_seqno s) n)
        (fun _ => "The TCPSender reported that the next seqno is `" +:+ pretty (raw_value (TCPSender.next_seqno s))
           +:+ "`, but it was expected to be `" +:+ pretty (raw_value n) +:+ "`") st
  | ExpectBytesInFlight n =>
      expect (bool_decide (TCPSender.bytes_in_flight s = n))
        (fun _ => "The TCPSender reported " +:+ pretty (TCPSender.bytes_in_flight s)
           +:+ " bytes in flight, but there was expected to be " +:+ pretty n +:+ " bytes in flight") st
  | ExpectNoSegment =>
      match last (outbound_segments st) with
      | None => Passed st
      | Some seg =>
          Violation ("The TCPSender sent a segment, but should not have. Segment info:" +:+ new_line +:+ tab
            +:+ string_of (HeaderText.summary (TCPSegment.header seg)) +:+ " with "
            +:+ pretty (zlen (Buffer.str (TCPSegment.payload seg))) +:+ " bytes")
      end
  | WriteBytes d end_input =>
      acting ('(_, s) ← TCPSender.write d s;
              TCPSender.fill_window (if (end_input : bool) then TCPSender.end_input s else s))
  | Tick ms exceeded =>
      match TCPSender.tick ms s with
      | Err f => Faulted f
      | Ok s =>
          let n := TCPSender.consecutive_retransmissions s in
          let actual := bool_decide (n > TCPConfig.MAX_RETX_ATTEMPTS) in
          let st := mk_subject s (outbound_segments st) in
          match exceeded with
          | None => Passed st
          | Some b =>
              expect (Bool.eqb b actual)
                (fun _ => "after " +:+ pretty ms +:+ "ms passed the TCP Sender reported" +:+ new_line +:+ tab
                   +:+ "consecutive_retransmissions = " +:+ pretty n +:+ new_line +:+ "but it should have been" +:+ new_line +:+ tab
                   +:+ (if (b : bool) then "greater than " else "less than or equal to ")
                   +:+ pretty TCPConfig.MAX_RETX_ATTEMPTS +:+ new_line) st
          end
      end
  | AckReceived n window => acting (TCPSender.fill_window (TCPSender.ack_received n (default DEFAULT_TEST_WINDOW window) s))
  | Close => acting (TCPSender.fill_window (TCPSender.end_input s))
  | ExpectSegment e =>
      match outbound_segments st with
      | [] => Violation "The Sender should have produced a segment that existed, but it did not"
      | seg :: rest =>
          match check_segment e seg with Some what => Violation what | None => Passed (mk_subject s rest) end
      end
  end.

(** [void collect_output()] *)
Definition collect_output (st : subject_state) : subject_state :=
  mk_subject (TCPSender.assign_segments_out [] (sender st)) (outbound_segments st ++ TCPSender.segments_out (sender st)).

(** [segment_description] of an expected segment *)
Definition described {A} (o : option A) (f : A -> string) : string := match o with Some a => f a | None => "" end.
Definition flag_described (name : string) (o : option bool) : string :=
  described o (fun b => name +:+ (if (b : bool) then "=1," else "=0,")).
Definition char_described (c : byte) : string :=
  if decide (32 <= byte_val c < 127) then string_of [c] else "<" +:+ pretty (byte_val c) +:+ ">".
Definition segment_description (e : expected) : string :=
  "(" +:+ flag_described "A" (ack e) +:+ flag_described "R" (rst e) +:+ flag_described "S" (syn e) +:+ flag_described "F" (fin e)
  +:+ described (ackno e) (fun n => "ackno=" +:+ pretty (raw_value n) +:+ ",")
  +:+ described (win e) (fun n => "win=" +:+ pretty n +:+ ",")
  +:+ described (seqno e) (fun n => "seqno=" +:+ pretty (raw_value n) +:+ ",")
  +:+ described (payload_size e) (fun n => "payload_size=" +:+ pretty n +:+ ",")
  +:+ described (data e) (fun d => quoted (String.concat "" (map char_described (take 16 d))
                                             +:+ (if decide (zlen d > 16) then "..." else "")) +:+ ",")
  +:+ "...)".

(** [operator std::string() const] of the steps, with their descriptions *)
Definition sender_step_string (step : SenderTestStep) : string :=
  match step with
  | ExpectState state => "Expectation: in state `" +:+ state +:+ "`"
  | ExpectSeqno n => "Expectation: next seqno " +:+ pretty (raw_value n)
  | ExpectBytesInFlight n => "Expectation: " +:+ pretty n +:+ " bytes in flight"
  | ExpectNoSegment => "Expectation: no (more) segments"
  | WriteBytes d end_input =>
      "Action:      write bytes: " +:+ quoted (string_of (take 16 d) +:+ (if decide (zlen d > 16) then "..." else ""))
      +:+ (if (end_input : bool) then " + EOF" else "")
  | Tick ms exceeded =>
      "Action:      " +:+ pretty ms +:+ " ms pass"
      +:+ described exceeded (fun b => " with max_retx_exceeded = " +:+ pretty (Z.b2z b))
  | AckReceived n window =>
      "Action:      ack " +:+ pretty (raw_value n) +:+ " winsize " +:+ pretty (default DEFAULT_TEST_WINDOW window)
  | Close => "Action:      close"
  | ExpectSegment e => "Expectation: segment sent with " +:+ segment_description e
  end.

(** The body of the [try] block of [execute]: the step, then [collect_output]. *)
Definition execute_and_collect (step : SenderTestStep) (st : subject_state) : verdict subject_state :=
  match execute_sender step st with Passed st => Passed (collect_output st) | v => v end.

#[export] Instance sender_steps : TestStep subject_state SenderTestStep :=
  {| execute_step := execute_and_collect; step_string := sender_step_string |}.

(** [TCPSenderTestHarness(const std::string &name_, TCPConfig config)]; the number that the
    sender draws is not used when the initial sequence number is fixed. *)
Definition TCPSenderTestHarness (random : Z) (config : TCPConfig.TCPConfig) : res (harness subject_state) :=
  let s := TCPSender.construct (TCPConfig.send_capacity config) (TCPConfig.rt_timeout config) (TCPConfig.fixed_isn config) random in
  s ← TCPSender.fill_window s;
  Ok (mk_harness (collect_output (mk_subject s []))
        ["Initialized with (retx-timeout=" +:+ pretty (TCPConfig.rt_timeout config) +:+ ") and called fill_window()"]).

(** The catch blocks of [TCPSenderTestHarness::execute] *)
Definition sender_handlers (name : string) : handlers :=
  mk_handlers (fun _ => "The test " +:+ quoted name +:+ " failed")
    (Some ("Failure message:", "The test " +:+ quoted name +:+ " caused your implementation to throw an exception!")).

(** ** The programs *)

(** [TCPConfig cfg; cfg.fixed_isn = isn; cfg.rt_timeout = retx_timeout;] *)
Definition with_fixed_isn (isn : WrappingInt32) : TCPConfig.TCPConfig :=
  let cfg := TCPConfig.default_config in
  TCPConfig.mk (TCPConfig.rt_timeout cfg) (TCPConfig.recv_capacity cfg) (TCPConfig.send_capacity cfg) (Some isn).
Definition with_rt_timeout (retx_timeout : Z) (cfg : TCPConfig.TCPConfig) : TCPConfig.TCPConfig :=
  TCPConfig.mk retx_timeout (TCPConfig.recv_capacity cfg) (TCPConfig.send_capacity cfg) (TCPConfig.fixed_isn cfg).

(** [WrappingInt32 isn(rd())] *)
Definition draw_isn (rd : engine) : WrappingInt32 * engine := let '(r, rd) := mt19937.next rd in (mk (to_u32 r), rd).

Section Programs.
Context {K : Type} `{RandomDevice K} `{UniformInt} (random : Z).

Definition test (name : string) (cfg : TCPConfig.TCPConfig) (steps : list SenderTestStep) : printed () :=
  h ← quiet (TCPSenderTestHarness random cfg); block (sender_handlers name) h steps.

(** ** send_connect.cc *)

Definition send_connect_tests (rd : engine) : printed () :=
  let '(isn, rd) := draw_isn rd in
  _ ← test "SYN sent test" (with_fixed_isn isn) [
    ExpectState TCPSenderStateSummary.SYN_SENT;
    ExpectSegment (any_segment ▹ with_no_flags ▹ with_syn true ▹ with_payload_size 0 ▹ with_seqno isn);
    ExpectBytesInFlight 1];
  let '(isn, rd) := draw_isn rd in
  _ ← test "SYN acked test" (with_fixed_isn isn) [
    ExpectState TCPSenderStateSummary.SYN_SENT;
    ExpectSegment (any_segment ▹ with_no_flags ▹ with_syn true ▹ with_payload_size 0 ▹ with_seqno isn);
    ExpectBytesInFlight 1; AckReceived (plus isn 1) None; ExpectState TCPSenderStateSummary.SYN_ACKED;
    ExpectNoSegment; ExpectBytesInFlight 0];
  let '(isn, rd) := draw_isn rd in
  _ ← test "SYN -> wrong ack test" (with_fixed_isn isn) [
    ExpectState TCPSenderStateSummary.SYN_SENT;
    ExpectSegment (any_segment ▹ with_no_flags ▹ with_syn true ▹ with_payload_size 0 ▹ with_seqno isn);
    ExpectBytesInFlight 1; AckReceived isn None; ExpectState TCPSenderStateSummary.SYN_SENT; ExpectNoSegment;
    ExpectBytesInFlight 1];
  let '(isn, rd) := draw_isn rd in
  test "SYN acked, data" (with_fixed_isn isn) [
    ExpectState TCPSenderStateSummary.SYN_SENT;
    ExpectSegment (any_segment ▹ with_no_flags ▹ with_syn true ▹ with_payload_size 0 ▹ with_seqno isn);
    ExpectBytesInFlight 1; AckReceived (plus isn 1) None; ExpectState TCPSenderStateSummary.SYN_ACKED;
    ExpectNoSegment; ExpectBytesInFlight 0; WriteBytes (text "abcdefgh") false; Tick 1 None;
    ExpectState TCPSenderStateSummary.SYN_ACKED;
    ExpectSegment (any_segment ▹ with_seqno (plus isn 1) ▹ with_data (text "abcdefgh")); ExpectBytesInFlight 8;
    AckReceived (plus isn 9) None; ExpectState TCPSenderStateSummary.SYN_ACKED; ExpectNoSegment;
    ExpectBytesInFlight 0; ExpectSeqno (plus isn 9)].
Definition send_connect_main (k : K) : printed Z := run_main 1 (fun what => what) (
  let '(rd, _) := get_random_generator k in send_connect_tests rd).

(** ** send_ack.cc *)

Definition send_ack_tests (rd : engine) : printed () :=
  let '(isn, rd) := draw_isn rd in
  _ ← test "Repeat ACK is ignored" (with_fixed_isn isn) [
    ExpectSegment (any_segment ▹ with_no_flags ▹ with_syn true ▹ with_payload_size 0 ▹ with_seqno isn);
    ExpectNoSegment; AckReceived (plus isn 1) None; WriteBytes (text "a") false;
    ExpectSegment (any_segment ▹ with_no_flags ▹ with_data (text "a")); ExpectNoSegment;
    AckReceived (plus isn 1) None; ExpectNoSegment];
  let '(isn, rd) := draw_isn rd in
  _ ← test "Old ACK is ignored" (with_fixed_isn isn) [
    ExpectSegment (any_segment ▹ with_no_flags ▹ with_syn true ▹ with_payload_size 0 ▹ with_seqno isn);
    ExpectNoSegment; AckReceived (plus isn 1) None; WriteBytes (text "a") false;
    ExpectSegment (any_segment ▹ with_no_flags ▹ with_data (text "a")); ExpectNoSegment;
    AckReceived (plus isn 2) None; ExpectNoSegment; WriteBytes (text "b") false;
    ExpectSegment (any_segment ▹ with_no_flags ▹ with_data (text "b")); ExpectNoSegment;
    AckReceived (plus isn 1) None; ExpectNoSegment];
  let '(isn, rd) := draw_isn rd in
  test "Impossible ackno (beyond next seqno) is ignored" (with_fixed_isn isn) [
    ExpectState TCPSenderStateSummary.SYN_SENT;
    ExpectSegment (any_segment ▹ with_no_flags ▹ with_syn true ▹ with_payload_size 0 ▹ with_seqno isn);
    AckReceived (plus isn 2) (Some 1000); ExpectState TCPSenderStateSummary.SYN_SENT].
Definition send_ack_main (k : K) : printed Z := run_main 1 (fun what => what) (
  let '(rd, _) := get_random_generator k in send_ack_tests rd).

(** ** send_close.cc *)

Definition send_close_tests (rd : engine) : printed () :=
  let '(isn, rd) := draw_isn rd in
  _ ← test "FIN sent test" (with_fixed_isn isn) [
    ExpectSegment (any_segment ▹ with_no_flags ▹ with_syn true ▹ with_payload_size 0 ▹ with_seqno isn);
    AckReceived (plus isn 1) None; ExpectState TCPSenderStateSummary.SYN_ACKED; Close;
    ExpectState TCPSenderStateSummary.FIN_SENT; ExpectBytesInFlight 1;
    ExpectSegment (any_segment ▹ with_fin true ▹ with_seqno (plus isn 1)); ExpectNoSegment];
  let '(isn, rd) := draw_isn rd in
  _ ← test "FIN acked test" (with_fixed_isn isn) [
    ExpectSegment (any_segment ▹ with_no_flags ▹ with_syn true ▹ with_payload_size 0 ▹ with_seqno isn);
    AckReceived (plus isn 1) None; ExpectState TCPSenderStateSummary.SYN_ACKED; Close;
    ExpectState TCPSenderStateSummary.FIN_SENT;
    ExpectSegment (any_segment ▹ with_fin true ▹ with_seqno (plus isn 1)); AckReceived (plus isn 2) None;
    ExpectState TCPSenderStateSummary.FIN_ACKED; ExpectBytesInFlight 0; ExpectNoSegment];
  let '(isn, rd) := draw_isn rd in
  _ ← test "FIN not acked test" (with_fixed_isn isn) [
    ExpectSegment (any_segment ▹ with_no_flags ▹ with_syn true ▹ with_payload_size 0 ▹ with_seqno isn);
    AckReceived (plus isn 1) None; ExpectState TCPSenderStateSummary.SYN_ACKED; Close;
    ExpectState TCPSenderStateSummary.FIN_SENT;
    ExpectSegment (any_segment ▹ with_fin true ▹ with_seqno (plus isn 1)); AckReceived (plus isn 1) None;
    ExpectState TCPSenderStateSummary.FIN_SENT; ExpectBytesInFlight 1; ExpectNoSegment];
  let '(isn, rd) := draw_isn rd in
  test "FIN retx test" (with_fixed_isn isn) [
    ExpectSegment (any_segment ▹ with_no_flags ▹ with_syn true ▹ with_payload_size 0 ▹ with_seqno isn);
    AckReceived (plus isn 1) None; ExpectState TCPSenderStateSummary.SYN_ACKED; Close;
    ExpectState TCPSenderStateSummary.FIN_SENT;
    ExpectSegment (any_segment ▹ with_fin true ▹ with_seqno (plus isn 1)); AckReceived (plus isn 1) None;
    ExpectState TCPSenderStateSummary.FIN_SENT; ExpectBytesInFlight 1; ExpectNoSegment;
    Tick (TCPConfig.TIMEOUT_DFLT - 1) None; ExpectState TCPSenderStateSummary.FIN_SENT; ExpectBytesInFlight 1;
    ExpectNoSegment; Tick 1 None; ExpectState TCPSenderStateSummary.FIN_SENT; ExpectBytesInFlight 1;
    ExpectSegment (any_segment ▹ with_fin true ▹ with_seqno (plus isn 1)); ExpectNoSegment; Tick 1 None;
    ExpectState TCPSenderStateSummary.FIN_SENT; ExpectBytesInFlight 1; ExpectNoSegment;
    AckReceived (plus isn 2) None; ExpectState TCPSenderStateSummary.FIN_ACKED; ExpectBytesInFlight 0;
    ExpectNoSegment].
Definition send_close_main (k : K) : printed Z := run_main 1 (fun what => what) (
  let '(rd, _) := get_random_generator k in send_close_tests rd).

(** ** send_retx.cc *)

Definition send_retx_tests (rd : engine) : printed () :=
  let '(isn, rd) := draw_isn rd in
  let '(retx_timeout, rd) := uniform_int 10 10000 rd in
  _ ← test "Retx SYN twice at the right times, then ack" (with_rt_timeout retx_timeout (with_fixed_isn isn)) [
    ExpectSegment (any_segment ▹ with_no_flags ▹ with_syn true ▹ with_payload_size 0 ▹ with_seqno isn);
    ExpectNoSegment; ExpectState TCPSenderStateSummary.SYN_SENT; Tick (retx_timeout - 1) None; ExpectNoSegment;
    Tick 1 None; ExpectSegment (any_segment ▹ with_no_flags ▹ with_syn true ▹ with_payload_size 0 ▹ with_seqno isn);
    ExpectState TCPSenderStateSummary.SYN_SENT; ExpectBytesInFlight 1; Tick (2 * retx_timeout - 1) None;
    ExpectNoSegment; Tick 1 None;
    ExpectSegment (any_segment ▹ with_no_flags ▹ with_syn true ▹ with_payload_size 0 ▹ with_seqno isn);
    ExpectState TCPSenderStateSummary.SYN_SENT; ExpectBytesInFlight 1; AckReceived (plus isn 1) None;
    ExpectState TCPSenderStateSummary.SYN_ACKED; ExpectBytesInFlight 0];
  let '(isn, rd) := draw_isn rd in
  let '(retx_timeout, rd) := uniform_int 10 10000 rd in
  _ ← test "Retx SYN until too many retransmissions" (with_rt_timeout retx_timeout (with_fixed_isn isn)) ([
    ExpectSegment (any_segment ▹ with_no_flags ▹ with_syn true ▹ with_payload_size 0 ▹ with_seqno isn);
    ExpectNoSegment; ExpectState TCPSenderStateSummary.SYN_SENT] ++ flat_map (fun attempt_no => [
    Tick (Z.shiftl retx_timeout attempt_no - 1) (Some false); ExpectNoSegment; Tick 1 (Some false);
    ExpectSegment (any_segment ▹ with_no_flags ▹ with_syn true ▹ with_payload_size 0 ▹ with_seqno isn);
    ExpectState TCPSenderStateSummary.SYN_SENT; ExpectBytesInFlight 1])
    (seqZ 0 TCPConfig.MAX_RETX_ATTEMPTS) ++ [
    Tick (Z.shiftl retx_timeout TCPConfig.MAX_RETX_ATTEMPTS - 1) (Some false); Tick 1 (Some true)]);
  let '(isn, rd) := draw_isn rd in
  let '(retx_timeout, rd) := uniform_int 10 10000 rd in
  test "Send some data, the retx and succeed, then retx till limit" (with_rt_timeout retx_timeout (with_fixed_isn isn)) ([
    ExpectSegment (any_segment ▹ with_no_flags ▹ with_syn true ▹ with_payload_size 0 ▹ with_seqno isn);
    ExpectNoSegment; AckReceived (plus isn 1) None; WriteBytes (text "abcd") false;
    ExpectSegment (any_segment ▹ with_payload_size 4); ExpectNoSegment; AckReceived (plus isn 5) None;
    ExpectBytesInFlight 0; WriteBytes (text "efgh") false; ExpectSegment (any_segment ▹ with_payload_size 4);
    ExpectNoSegment; Tick retx_timeout (Some false); ExpectSegment (any_segment ▹ with_payload_size 4);
    ExpectNoSegment; AckReceived (plus isn 9) None; ExpectBytesInFlight 0; WriteBytes (text "ijkl") false;
    ExpectSegment (any_segment ▹ with_payload_size 4 ▹ with_seqno (plus isn 9))] ++ flat_map (fun attempt_no => [
    Tick (Z.shiftl retx_timeout attempt_no - 1) (Some false); ExpectNoSegment; Tick 1 (Some false);
    ExpectSegment (any_segment ▹ with_payload_size 4 ▹ with_seqno (plus isn 9));
    ExpectState TCPSenderStateSummary.SYN_ACKED; ExpectBytesInFlight 4])
    (seqZ 0 TCPConfig.MAX_RETX_ATTEMPTS) ++ [
    Tick (Z.shiftl retx_timeout TCPConfig.MAX_RETX_ATTEMPTS - 1) (Some false); Tick 1 (Some true)]).
Definition send_retx_main (k : K) : printed Z := run_main 1 (fun what => what) (
  let '(rd, _) := get_random_generator k in send_retx_tests rd).

End Programs.

(** ** Runs *)

(** A state of the generator. *)
Definition sample_engine : engine := mt19937.mk (map (fun i => to_u32 (i * 2654435761)) (seqZ 1 624)) 0.

#[local] Existing Instance Sample.uniform_int.

Example send_connect_passes : send_connect_tests 0 sample_engine = (Ok (), []).
Proof. by vm_compute. Qed.

Example send_ack_passes : send_ack_tests 0 sample_engine = (Ok (), []).
Proof. by vm_compute. Qed.

Example send_close_passes : send_close_tests 0 sample_engine = (Ok (), []).
Proof. by vm_compute. Qed.

Example send_retx_passes : send_retx_tests 0 sample_engine = (Ok (), []).
Proof. by vm_compute. Qed.

End SenderTests.
